(** * ldep: object-file dependency analysis (ldep.c)

    A shallow embedding of the object/symbol graph of [ldep.c] and of the
    operations that build, link, walk, unlink and query it.

    Pointers are indices: an [ObjF] is the position of an object in the list
    of all objects (the chain [fileListHead ... fileListTail]; position 0 is
    [undefSymPod]), a [Sym] is the position of a symbol among the nodes of
    [symTbl] in creation order, and an [Xref] is the address of one element of
    an object's [exports] or [imports] array.  The packed word [multiuse] is
    kept as its two parts, the next pointer and the weak flag.

    Code that can abort, exit, dereference a bad pointer or loop returns a
    [res]; the text written to [stderr], [logf] and [debugf] is collected in
    the [out] field of the state. *)

From stdpp Require Import base list strings sorting relations.
From Stdlib Require Import Ascii ZArith Lia.

Local Open Scope Z_scope.

(** ** Outcomes *)

Inductive assertion :=
  | A_lib_member_unique   (* libAddObj: assert( strcmp(l->files[i]->name, obj->name) ) *)
  | A_import_unlinked     (* linkObj: assert( 0 == XREF_NEXT(imp) ) *)
  | A_anchor              (* linkObj: assert( f->link.anchor ) *)
  | A_sym_found           (* linkObj: assert( found = tfind(...) ) *)
  | A_predecessor         (* doUnlink: assert( p ) *)
  | A_in_linkset          (* doUnlink: assert( *pl ) *)
  | A_sanity              (* checkSanity: assert( ex->sym->importedFrom == 0 ) *)
  | A_self_ref            (* depwalk_rec: assert( ref->obj != f ) *)
  | A_circular            (* depwalk_rec: assert( 0 == checkCircWorkList(f) ) *)
  | A_work_clear          (* depwalk: assert( f->work == 0 ) *)
  | A_not_building        (* depwalk: assert( !(depwalkMode & WALK_BUILD_LIST) ) *)
  | A_building            (* depwalkListRelease: assert( depwalkMode & WALK_BUILD_LIST ) *)
  | A_obj_ptrs.           (* main: assert( 0 == checkObjPtrs() ) *)

Inductive failure :=
  | AssertFailed (a : assertion)
  | Exit1
  | BadPointer.

Inductive res (A : Type) :=
  | Done (a : A)
  | Fail (e : failure)
  | OutOfFuel.
Arguments Done {A} a.
Arguments Fail {A} e.
Arguments OutOfFuel {A}.

Definition rbind {A B} (m : res A) (k : A -> res B) : res B :=
  match m with
  | Done a => k a
  | Fail e => Fail e
  | OutOfFuel => OutOfFuel
  end.

#[global] Instance res_bind : MBind res := fun A B k m => rbind m k.
#[global] Instance res_ret : MRet res := @Done.
#[global] Instance res_fmap : FMap res :=
  fun A B f m => match m with Done a => Done (f a) | Fail e => Fail e | OutOfFuel => OutOfFuel end.

Definition assert_that (a : assertion) (b : bool) : res unit :=
  if b then Done tt else Fail (AssertFailed a).

Definition deref {A} (o : option A) : res A :=
  match o with Some a => Done a | None => Fail BadPointer end.

(** A [for] loop whose bound is fixed when the loop starts. *)
Fixpoint for_each {A S} (l : list A) (body : A -> S -> res S) (s : S) : res S :=
  match l with
  | [] => Done s
  | a :: l' => s' ← body a s; for_each l' body s'
  end.

(** ** Data *)

Abbreviation ObjF := nat (only parsing).
Abbreviation Sym := nat (only parsing).
Abbreviation Lib := nat (only parsing).

Inductive LinkSet := appLinkSet | undefLinkSet | optionalLinkSet.

Inductive xarray := Exports | Imports.

(** [&o->exports[i]] or [&o->imports[i]] *)
Record Xref := mkXref { xr_arr : xarray; xr_obj : ObjF; xr_idx : nat }.

#[global] Instance LinkSet_eq_dec : EqDecision LinkSet.
Proof. solve_decision. Defined.
#[global] Instance xarray_eq_dec : EqDecision xarray.
Proof. solve_decision. Defined.
#[global] Instance Xref_eq_dec : EqDecision Xref.
Proof. solve_decision. Defined.

Record XrefRec := mkXrefRec {
  x_sym : Sym;
  x_obj : ObjF;
  x_next : option Xref;   (* XREF_NEXT *)
  x_weak : bool           (* XREF_WEAK *)
}.

(** The scratch pointer [work]: null, the marker [BUSY], or an object. *)
Inductive workp := WNull | WBusy | WObj (o : ObjF).

(** The [lib] pointer: null, the marker [MATCH_ANY], or a library. *)
Inductive libp := LNull | LAny | LPtr (l : Lib).

#[global] Instance workp_eq_dec : EqDecision workp.
Proof. solve_decision. Defined.
#[global] Instance libp_eq_dec : EqDecision libp.
Proof. solve_decision. Defined.

Record ObjFRec := mkObjFRec {
  o_name : string;
  o_lib : libp;
  link_anchor : option LinkSet;
  link_next : option ObjF;
  work : workp;
  exports : list XrefRec;
  imports : list XrefRec
}.

Record SymRec := mkSymRec {
  s_name : string;
  s_type : ascii;             (* TYPE(sym), kept in name[-1] *)
  exportedBy : option Xref;
  importedFrom : option Xref
}.

Record LibRec := mkLibRec {
  l_name : string;
  files : list ObjF
}.

Record DepPrintArgRec := mkDepPrintArg {
  minDepth : Z;
  indent : Z;
  depthIndent : Z
}.

(** What the program writes. *)
Inductive event :=
  | E_overrun                                  (* "Scanner buffer overrun" *)
  | E_unable_to_read (line got : Z)
  | E_not_colon_terminated (line : Z)
  | E_symbol_without_object (line : Z)
  | E_type_mismatch (name : string) (known now : ascii)
  | E_unknown_type (type : ascii) (line : Z)
  | E_misformed_name (name : string)
  | E_undefined (oname sname : string)         (* "Warning: symbol %s:%s undefined" *)
  | E_linking (f : ObjF) (because : option string) (set : LinkSet)
  | E_removing (f : ObjF)
  | E_rejected (f : ObjF)                      (* "--> rejected because ... is needed by app" *)
  | E_checking (set : LinkSet)
  | E_clash (name : string) (type : ascii)     (* "WARNING: Name Clash Detected" *)
  | E_clash_site (f : ObjF) (weak : bool)      (* "  in '<obj>'" and " (WEAK ...)" *)
  | E_ok
  | E_dep (spaces : Z) (f : ObjF).             (* depPrint *)

Record State := mkState {
  objs : list ObjFRec;
  syms : list SymRec;
  libs : list LibRec;
  appSet : option ObjF;        (* appLinkSet.set *)
  undefSet : option ObjF;      (* undefLinkSet.set *)
  optionalSet : option ObjF;   (* optionalLinkSet.set *)
  fileListIndex : list ObjF;
  depwalkAction : option DepPrintArgRec;  (* depPrint with its closure, or 0 *)
  depwalkMode : Z;
  force : bool;
  verbose : Z;
  warn : Z;
  out : list event
}.

Definition DEBUG_LINK : Z := 8.
Definition DEBUG_UNLINK : Z := 16.
Definition WARN_UNDEFINED_SYMS : Z := 1.
Definition WALK_BUILD_LIST : Z := 1.
Definition WALK_EXPORTS : Z := 2.
Definition WALK_IMPORTS : Z := 0.
Definition MAXBUF : nat := 500.

Definition flag_set (word bit : Z) : bool := negb (Z.land word bit =? 0).

Definition undefSymPod : ObjFRec :=
  mkObjFRec "<UNDEFINED>" LNull (Some undefLinkSet) None WNull [] [].

(** The program's static initialisers; [DEBUG] is [DEBUG_LINK | DEBUG_UNLINK]
    and [DEFAULT_WARN_FLAGS] is -1. *)
Definition initial_state : State :=
  mkState [undefSymPod] [] [] None (Some 0%nat) None [] None 0 false
          (Z.lor DEBUG_LINK DEBUG_UNLINK) (-1) [].

(** *** Field updates *)

Definition set_objs (v : list ObjFRec) (st : State) : State :=
  mkState v (syms st) (libs st) (appSet st) (undefSet st) (optionalSet st)
          (fileListIndex st) (depwalkAction st) (depwalkMode st)
          (force st) (verbose st) (warn st) (out st).

Definition set_syms (v : list SymRec) (st : State) : State :=
  mkState (objs st) v (libs st) (appSet st) (undefSet st) (optionalSet st)
          (fileListIndex st) (depwalkAction st) (depwalkMode st)
          (force st) (verbose st) (warn st) (out st).

Definition set_libs (v : list LibRec) (st : State) : State :=
  mkState (objs st) (syms st) v (appSet st) (undefSet st) (optionalSet st)
          (fileListIndex st) (depwalkAction st) (depwalkMode st)
          (force st) (verbose st) (warn st) (out st).

Definition set_fileListIndex (v : list ObjF) (st : State) : State :=
  mkState (objs st) (syms st) (libs st) (appSet st) (undefSet st) (optionalSet st)
          v (depwalkAction st) (depwalkMode st)
          (force st) (verbose st) (warn st) (out st).

Definition set_depwalk (a : option DepPrintArgRec) (m : Z) (st : State) : State :=
  mkState (objs st) (syms st) (libs st) (appSet st) (undefSet st) (optionalSet st)
          (fileListIndex st) a m (force st) (verbose st) (warn st) (out st).

Definition set_force (b : bool) (st : State) : State :=
  mkState (objs st) (syms st) (libs st) (appSet st) (undefSet st) (optionalSet st)
          (fileListIndex st) (depwalkAction st) (depwalkMode st)
          b (verbose st) (warn st) (out st).

Definition emit (e : event) (st : State) : State :=
  mkState (objs st) (syms st) (libs st) (appSet st) (undefSet st) (optionalSet st)
          (fileListIndex st) (depwalkAction st) (depwalkMode st)
          (force st) (verbose st) (warn st) (out st ++ [e]).

(** [s->set] and [s->set = v] *)
Definition set_head (s : LinkSet) (st : State) : option ObjF :=
  match s with
  | appLinkSet => appSet st
  | undefLinkSet => undefSet st
  | optionalLinkSet => optionalSet st
  end.

Definition set_set_head (s : LinkSet) (v : option ObjF) (st : State) : State :=
  mkState (objs st) (syms st) (libs st)
          (if decide (s = appLinkSet) then v else appSet st)
          (if decide (s = undefLinkSet) then v else undefSet st)
          (if decide (s = optionalLinkSet) then v else optionalSet st)
          (fileListIndex st) (depwalkAction st) (depwalkMode st)
          (force st) (verbose st) (warn st) (out st).

(** *** Objects, symbols and cross references in the store *)

Definition get_obj (f : ObjF) (st : State) : res ObjFRec := deref (objs st !! f).
Definition get_sym (s : Sym) (st : State) : res SymRec := deref (syms st !! s).

Definition upd_obj (f : ObjF) (g : ObjFRec -> ObjFRec) (st : State) : res State :=
  o ← get_obj f st; Done (set_objs (<[f := g o]> (objs st)) st).

Definition upd_sym (s : Sym) (g : SymRec -> SymRec) (st : State) : res State :=
  r ← get_sym s st; Done (set_syms (<[s := g r]> (syms st)) st).

Definition with_anchor (a : option LinkSet) (o : ObjFRec) : ObjFRec :=
  mkObjFRec (o_name o) (o_lib o) a (link_next o) (work o) (exports o) (imports o).
Definition with_link_next (n : option ObjF) (o : ObjFRec) : ObjFRec :=
  mkObjFRec (o_name o) (o_lib o) (link_anchor o) n (work o) (exports o) (imports o).
Definition with_work (w : workp) (o : ObjFRec) : ObjFRec :=
  mkObjFRec (o_name o) (o_lib o) (link_anchor o) (link_next o) w (exports o) (imports o).
Definition with_lib (l : libp) (o : ObjFRec) : ObjFRec :=
  mkObjFRec (o_name o) l (link_anchor o) (link_next o) (work o) (exports o) (imports o).
Definition with_exports (e : list XrefRec) (o : ObjFRec) : ObjFRec :=
  mkObjFRec (o_name o) (o_lib o) (link_anchor o) (link_next o) (work o) e (imports o).
Definition with_imports (i : list XrefRec) (o : ObjFRec) : ObjFRec :=
  mkObjFRec (o_name o) (o_lib o) (link_anchor o) (link_next o) (work o) (exports o) i.

Definition with_type (t : ascii) (s : SymRec) : SymRec :=
  mkSymRec (s_name s) t (exportedBy s) (importedFrom s).
Definition with_exportedBy (x : option Xref) (s : SymRec) : SymRec :=
  mkSymRec (s_name s) (s_type s) x (importedFrom s).
Definition with_importedFrom (x : option Xref) (s : SymRec) : SymRec :=
  mkSymRec (s_name s) (s_type s) (exportedBy s) x.

Definition with_next (n : option Xref) (x : XrefRec) : XrefRec :=
  mkXrefRec (x_sym x) (x_obj x) n (x_weak x).

Definition xarray_of (a : xarray) (o : ObjFRec) : list XrefRec :=
  match a with Exports => exports o | Imports => imports o end.

Definition with_xarray (a : xarray) (l : list XrefRec) (o : ObjFRec) : ObjFRec :=
  match a with Exports => with_exports l o | Imports => with_imports l o end.

(** [*x] *)
Definition get_xref (x : Xref) (st : State) : res XrefRec :=
  o ← get_obj (xr_obj x) st; deref (xarray_of (xr_arr x) o !! xr_idx x).

(** [xref_set_next(e, next)] *)
Definition xref_set_next (e : Xref) (nxt : option Xref) (st : State) : res State :=
  r ← get_xref e st;
  upd_obj (xr_obj e)
    (fun o => with_xarray (xr_arr e)
                (<[xr_idx e := with_next nxt r]> (xarray_of (xr_arr e) o)) o) st.

(** [XREF_NEXT(x)] *)
Definition XREF_NEXT (x : Xref) (st : State) : res (option Xref) :=
  r ← get_xref x st; Done (x_next r).

(** The number of array elements an [Xref] can point to: a walk along [next]
    pointers that takes more steps than this has met some element twice. *)
Definition nxrefs (st : State) : nat :=
  foldr (fun o n => (length (exports o) + length (imports o) + n)%nat) 0%nat (objs st).

(** ** C strings *)

Definition chars (s : string) : list ascii := String.list_ascii_of_string s.
Definition str (l : list ascii) : string := String.string_of_list_ascii l.

Definition NUL : ascii := Ascii.zero.

(** The sign of [strcmp(a, b)]. *)
Definition strcmp (a b : string) : Z :=
  match String.compare a b with Lt => -1 | Eq => 0 | Gt => 1 end.

(** Position of the first [c], as [strchr] finds it. *)
Fixpoint strchr (s : list ascii) (c : ascii) : option nat :=
  match s with
  | [] => None
  | a :: s' => if Ascii.eqb a c then Some 0%nat else S <$> strchr s' c
  end.

(** Position of the last [c], as [strrchr] finds it. *)
Fixpoint strrchr (s : list ascii) (c : ascii) : option nat :=
  match s with
  | [] => None
  | a :: s' =>
      match strrchr s' c with
      | Some i => Some (S i)
      | None => if Ascii.eqb a c then Some 0%nat else None
      end
  end.

(** [toupper] on the letters a..z, and the macro [TOUPPER]. *)
Definition toupper (ch : ascii) : ascii :=
  let n := Ascii.N_of_ascii ch in
  if ((97 <=? n) && (n <=? 122))%N then Ascii.ascii_of_N (n - 32) else ch.

Definition TOUPPER (st : State) (ch : ascii) : ascii :=
  if force st then toupper ch else ch.

(** ** Building the database *)

(** [fixupObj]: the walk to the tail of a symbol's exporter chain. *)
Fixpoint xref_tail (fuel : nat) (etmp : Xref) (st : State) : res Xref :=
  match fuel with
  | O => OutOfFuel
  | S fuel' =>
      n ← XREF_NEXT etmp st;
      match n with
      | None => Done etmp
      | Some e => xref_tail fuel' e st
      end
  end.

Definition fixup_export (f : ObjF) (i : nat) (st : State) : res State :=
  let ex := mkXref Exports f i in
  r ← get_xref ex st;
  s ← get_sym (x_sym r) st;
  match exportedBy s with
  | Some e0 =>
      etmp ← xref_tail (S (nxrefs st)) e0 st;
      xref_set_next etmp (Some ex) st
  | None => upd_sym (x_sym r) (with_exportedBy (Some ex)) st
  end.

Definition fixupObj (f : option ObjF) (st : State) : res State :=
  match f with
  | None => Done st
  | Some f =>
      o ← get_obj f st;
      for_each (seq 0 (length (exports o))) (fixup_export f) st
  end.

Definition createLib (name : string) (st : State) : Lib * State :=
  (length (libs st), set_libs (libs st ++ [mkLibRec name []]) st).

(** The first library called [name], as the loops over [libListHead] find it. *)
Fixpoint find_lib (name : string) (ls : list LibRec) : option Lib :=
  match ls with
  | [] => None
  | l :: ls' => if strcmp (l_name l) name =? 0 then Some 0%nat else S <$> find_lib name ls'
  end.

Definition libAddObj (libname : string) (obj : ObjF) (st : State) : res State :=
  let '(l, st) := match find_lib libname (libs st) with
                  | Some l => (l, st)
                  | None => createLib libname st
                  end in
  lr ← deref (libs st !! l);
  o ← get_obj obj st;
  _ ← for_each (files lr)
        (fun m (_ : unit) =>
           mo ← get_obj m st;
           assert_that A_lib_member_unique (negb (strcmp (o_name mo) (o_name o) =? 0)))
        tt;
  let st := set_libs (<[l := mkLibRec (l_name lr) (files lr ++ [obj])]> (libs st)) st in
  upd_obj obj (with_lib (LPtr l)) st.

(** [splitName]: the result is [None] for an ill-formed name; otherwise the
    position [po] of the opening bracket (if the name is split), the text
    left at [name] once the brackets are overwritten by NUL, and the
    returned member name. *)
Definition splitName (name : string) (st : State)
  : option (option nat * string * string) * State :=
  let cs := chars name in
  let l := length cs in
  if bool_decide (0 < l)%nat && bool_decide (cs !! (l - 1)%nat = Some "]"%char) then
    match strrchr cs "["%char with
    | None => (None, emit (E_misformed_name name) st)
    | Some po =>
        (Some (Some po, str (take po cs), str (take (l - 1 - S po) (drop (S po) cs))), st)
    end
  else (Some (None, name, name), st).

Definition new_obj (name : string) : ObjFRec :=
  mkObjFRec name LNull None None WNull [] [].

Definition createObj (name : string) (st : State) : res (ObjF * State) :=
  let '(sp, st) := splitName name st in
  match sp with
  | None => Fail Exit1
  | Some (po, libname, objn) =>
      let obj := length (objs st) in
      let st := set_objs (objs st ++ [new_obj objn]) st in
      match po with
      | Some _ => st ← libAddObj libname obj st; Done (obj, st)
      | None => Done (obj, st)
      end
  end.

(** What one call of [fscanf(f, THEFMT, buf, &type)] delivered before the
    end of the file: its return value, the token matched by [%500s] (the
    whole run of non-blank characters at that place of the input; [%500s]
    stores its first 500) and the character matched by [%c]. *)
Inductive scanned :=
  | Conv0
  | Conv1 (tok : string)
  | Conv2 (tok : string) (type : ascii).

(** [%500s] writes at most [MAXBUF] characters and a terminating NUL. *)
Definition store_token (tok : string) (buf : list ascii) : list ascii :=
  let cs := take MAXBUF (chars tok) in
  cs ++ [NUL] ++ drop (S (length cs)) buf.

Fixpoint upto_NUL (buf : list ascii) : list ascii :=
  match buf with
  | [] => []
  | a :: buf' => if Ascii.eqb a NUL then [] else a :: upto_NUL buf'
  end.

(** The C string held by a buffer. *)
Definition c_string (buf : list ascii) : string := str (upto_NUL buf).

(** [char buf[MAXBUF+1]] with [buf[MAXBUF] = 'X'] *)
Definition tagged_buf : list ascii := replicate MAXBUF NUL ++ ["X"%char].

(** [tfind] and [tsearch] on [symTbl], by name. *)
Fixpoint find_sym (name : string) (ss : list SymRec) : option Sym :=
  match ss with
  | [] => None
  | s :: ss' => if strcmp name (s_name s) =? 0 then Some 0%nat else S <$> find_sym name ss'
  end.

Definition tfind (name : string) (st : State) : option Sym := find_sym name (syms st).

(** The name given to the object of a symbol that comes before any object
    header: the input's name with its extension replaced by [.o]. *)
Definition substitute_name (name : string) : string :=
  let cs := chars name in
  match strrchr cs "."%char with
  | None => str (cs ++ chars ".o")
  | Some dot =>
      match strchr cs "/"%char with
      | Some slash =>
          if bool_decide (dot < slash)%nat then str (cs ++ chars ".o")
          else str (take (S dot) cs ++ chars "o")
      | None => str (take (S dot) cs ++ chars "o")
      end
  end.

Definition new_xref (s : Sym) (o : ObjF) (weak : bool) : XrefRec :=
  mkXrefRec s o None weak.

Inductive sym_class := Cls_export (weak : bool) | Cls_import | Cls_unknown.

(** The [switch ( TOUPPER(type) )] of [scan_file]. *)
Definition classify (st : State) (type : ascii) : sym_class :=
  let t := TOUPPER st type in
  if bool_decide (t = "W"%char) || bool_decide (t = "V"%char) then Cls_export true
  else if bool_decide (t ∈ ["D"; "T"; "B"; "R"; "G"; "S"; "A"; "C"]%char) then Cls_export false
  else if bool_decide (t = "?"%char) then (if force st then Cls_import else Cls_unknown)
  else if bool_decide (t = "U"%char) then Cls_import
  else Cls_unknown.

(** The symbol part of [case 2]: [tsearch], and the type comparison for a
    symbol that exists already. *)
Definition intern_sym (name : string) (type : ascii) (st : State) : res (Sym * State) :=
  match tfind name st with
  | None =>
      Done (length (syms st), set_syms (syms st ++ [mkSymRec name type None None]) st)
  | Some s =>
      r ← get_sym s st;
      if bool_decide (type ≠ s_type r) then
        let warning := bool_decide ("U"%char ≠ s_type r) && bool_decide ("U"%char ≠ type) in
        let st := if warning then emit (E_type_mismatch (s_name r) (s_type r) type) st else st in
        let override := bool_decide ("U"%char = s_type r) in
        if override then st ← upd_sym s (with_type type) st; Done (s, st)
        else Done (s, st)
      else Done (s, st)
  end.

(** The local variables of [scan_file] that live across lines. *)
Record scan_locals := mkScanLocals {
  sl_buf : list ascii;
  sl_line : Z;
  sl_obj : option ObjF
}.

Inductive scan_step :=
  | Return (rc : Z) (st : State)
  | Continue (loc : scan_locals) (st : State).

(** The [switch (got)] of [scan_file]; [buf] holds the line's token. *)
Definition scan_switch (name : string) (got : scanned) (buf : list ascii) (line : Z)
    (obj : option ObjF) (st : State) : res scan_step :=
  match got with
  | Conv0 => Done (Return (-1) (emit (E_unable_to_read line 0) st))
  | Conv1 _ =>
      let cs := upto_NUL buf in
      let len := length cs in
      if bool_decide (cs !! (len - 1)%nat = Some ":"%char) then
        st ← fixupObj obj st;
        '(obj, st) ← createObj (str (take (len - 1) cs)) st;
        Done (Continue (mkScanLocals buf line (Some obj)) st)
      else Done (Return (-1) (emit (E_not_colon_terminated line) st))
  | Conv2 _ type =>
      '(obj, st) ← match obj with
                   | Some obj => Done (obj, st)
                   | None => createObj (substitute_name name)
                               (emit (E_symbol_without_object line) st)
                   end;
      let type := TOUPPER st type in
      '(sym, st) ← intern_sym (c_string buf) type st;
      match classify st type with
      | Cls_unknown => Done (Return (-1) (emit (E_unknown_type type line) st))
      | Cls_export weak =>
          st ← upd_obj obj (fun o => with_exports (exports o ++ [new_xref sym obj weak]) o) st;
          Done (Continue (mkScanLocals buf line (Some obj)) st)
      | Cls_import =>
          st ← upd_obj obj (fun o => with_imports (imports o ++ [new_xref sym obj false]) o) st;
          Done (Continue (mkScanLocals buf line (Some obj)) st)
      end
  end.

(** The token a call of [fscanf] matched, if it matched one. *)
Definition token_of (got : scanned) : option string :=
  match got with
  | Conv0 => None
  | Conv1 tok | Conv2 tok _ => Some tok
  end.

(** One turn of the [while] loop of [scan_file]: [fscanf] has filled [buf],
    the tag at the end of the buffer is tested, then the [switch]. *)
Definition scan_line (name : string) (got : scanned) (loc : scan_locals) (st : State)
  : res scan_step :=
  let buf := match token_of got with
             | None => sl_buf loc
             | Some tok => store_token tok (sl_buf loc)
             end in
  let line := sl_line loc + 1 in
  if bool_decide (buf !! MAXBUF = Some NUL) then
    Done (Return (-1) (emit E_overrun st))
  else scan_switch name got buf line (sl_obj loc) st.

Fixpoint scan_loop (name : string) (input : list scanned) (loc : scan_locals) (st : State)
  : res (Z * State) :=
  match input with
  | [] => st ← fixupObj (sl_obj loc) st; Done (0, st)
  | got :: input' =>
      step ← scan_line name got loc st;
      match step with
      | Return rc st => Done (rc, st)
      | Continue loc st => scan_loop name input' loc st
      end
  end.

(** [scan_file(f, name)], the stream [f] given by what [fscanf] reads from it. *)
Definition scan_file (input : list scanned) (name : string) (st : State) : res (Z * State) :=
  scan_loop name input (mkScanLocals tagged_buf 0 None) st.

(** [gatherDanglingUndefs]: [twalk] visits the symbols in the order of
    [symcmp]; the symbols nobody exports become exports of [undefSymPod]. *)
Fixpoint insert_by_name (s : Sym) (n : string) (l : list (Sym * string)) : list (Sym * string) :=
  match l with
  | [] => [(s, n)]
  | (s', n') :: l' =>
      if strcmp n n' <? 0 then (s, n) :: l else (s', n') :: insert_by_name s n l'
  end.

Definition twalk_order (ss : list SymRec) : list Sym :=
  (foldl (fun acc '(i, s) => insert_by_name i (s_name s) acc) [] (imap pair ss)).*1.

Definition gatherDanglingUndefsAct (s : Sym) (st : State) : res State :=
  r ← get_sym s st;
  match exportedBy r with
  | None => upd_obj 0%nat (fun o => with_exports (exports o ++ [new_xref s 0%nat false]) o) st
  | Some _ => Done st
  end.

Definition gatherDanglingUndefs (st : State) : res State :=
  st ← for_each (twalk_order (syms st)) gatherDanglingUndefsAct st;
  fixupObj (Some 0%nat) st.

(** [fileListTail], and the chain from [fileListFirst()] on. *)
Definition fileListTail (st : State) : ObjF := (length (objs st) - 1)%nat.
Definition fileList_from_first (st : State) : list ObjF := seq 1 (length (objs st) - 1).

(** The scanning loop of [main]: [lastAppObj] is set after the first input. *)
Fixpoint scan_files (inputs : list (list scanned * string)) (lastAppObj : option ObjF)
    (st : State) : res (option ObjF * State) :=
  match inputs with
  | [] => Done (lastAppObj, st)
  | (input, nm) :: inputs' =>
      '(rc, st) ← scan_file input nm st;
      if rc =? 0 then
        let lastAppObj := match lastAppObj with
                          | None => Some (fileListTail st)
                          | Some l => Some l
                          end in
        scan_files inputs' lastAppObj st
      else Fail Exit1
  end.

(** [checkObjPtrs]: the number of cross references whose [obj] is not the
    object that holds them. *)
Definition checkObjPtrs (st : State) : Z :=
  foldr Z.add 0
    (imap (fun f o =>
             Z.of_nat (length (filter (fun x => x_obj x ≠ f) (exports o)))
             + Z.of_nat (length (filter (fun x => x_obj x ≠ f) (imports o))))
          (objs st)).

(** ** Linking *)

(** One turn of the loop of [linkObj] over the imports of [f]; [rec] is the
    recursive call. *)
Definition link_import (rec : ObjF -> option string -> State -> res State)
    (f : ObjF) (i : nat) (st : State) : res State :=
  let imp := mkXref Imports f i in
  r ← get_xref imp st;
  _ ← assert_that A_import_unlinked (bool_decide (x_next r = None));
  sr ← get_sym (x_sym r) st;
  found ← match tfind (s_name sr) st with
          | Some s => Done s
          | None => Fail (AssertFailed A_sym_found)
          end;
  fr ← get_sym found st;
  st ← xref_set_next imp (importedFrom fr) st;
  st ← upd_sym found (with_importedFrom (Some imp)) st;
  match exportedBy fr with
  | None =>
      if flag_set (warn st) WARN_UNDEFINED_SYMS then
        o ← get_obj f st; Done (emit (E_undefined (o_name o) (s_name sr)) st)
      else Done st
  | Some e =>
      er ← get_xref e st;
      let dep := x_obj er in
      o ← get_obj f st;
      d ← get_obj dep st;
      match link_anchor o, link_anchor d with
      | Some a, None =>
          st ← upd_obj dep (with_anchor (Some a)) st;
          rec dep (Some (s_name fr)) st
      | _, _ => Done st
      end
  end.

Fixpoint linkObj (fuel : nat) (f : ObjF) (symname : option string) (st : State)
  : res State :=
  match fuel with
  | O => OutOfFuel
  | S fuel' =>
      o ← get_obj f st;
      a ← match link_anchor o with
          | Some a => Done a
          | None => Fail (AssertFailed A_anchor)
          end;
      let st := if flag_set (verbose st) DEBUG_LINK then emit (E_linking f symname a) st
                else st in
      st ← for_each (seq 0 (length (imports o))) (link_import (linkObj fuel') f) st;
      o ← get_obj f st;
      a ← deref (link_anchor o);
      st ← upd_obj f (with_link_next (set_head a st)) st;
      Done (set_set_head a (Some f) st)
  end.

(** The linking loop of [main]: the loop variable [linkSet] is threaded
    along; a chain of recursive calls of [linkObj] is never longer than the
    number of objects. *)
Definition link_one (lastAppObj : ObjF) (f : ObjF) (acc : LinkSet * State)
  : res (LinkSet * State) :=
  let '(linkSet, st) := acc in
  o ← get_obj f st;
  st ← match link_anchor o with
       | None =>
           st ← upd_obj f (with_anchor (Some linkSet)) st;
           linkObj (S (length (objs st))) f None st
       | Some _ => Done st
       end;
  Done (if decide (f = lastAppObj) then optionalLinkSet else linkSet, st).

Definition link_all (lastAppObj : ObjF) (st : State) : res State :=
  '(_, st) ← for_each (fileList_from_first st) (link_one lastAppObj) (appLinkSet, st);
  Done st.

(** ** Walking *)

Definition DO_EXPORTS (st : State) : bool := flag_set (depwalkMode st) WALK_EXPORTS.
Definition BUILD_LIST (st : State) : bool := flag_set (depwalkMode st) WALK_BUILD_LIST.

Definition depPrint (arg : DepPrintArgRec) (f : ObjF) (d : Z) (st : State) : State :=
  if d <? minDepth arg then st
  else
    let d := (if 0 <=? depthIndent arg then Z.shiftl d (depthIndent arg) else 0)
             + indent arg in
    emit (E_dep (Z.max d 0) f) st.

(** [workListIterate]; the closure is the value [c]. *)
Fixpoint workListIterate {C} (fuel : nat) (f : workp)
    (action : ObjF -> Z -> C -> State -> res (C * State))
    (depth : Z) (c : C) (st : State) : res (C * State) :=
  match f with
  | WNull | WBusy => Done (c, st)
  | WObj o =>
      match fuel with
      | O => OutOfFuel
      | S fuel' =>
          '(c, st) ← action o depth c st;
          r ← get_obj o st;
          workListIterate fuel' (work r) action (depth + 1) c st
      end
  end.

(** A work list that has more members than there are objects is circular;
    this is the fuel of every walk along [work]. *)
Definition work_fuel (st : State) : nat := S (length (objs st)).

Definition circCheckAction (test : ObjF) (f : ObjF) (depth : Z) (result : Z) (st : State)
  : res (Z * State) :=
  Done (if (0 <? depth) && bool_decide (f = test) then -1 else result, st).

Definition checkCircWorkList (f : ObjF) (st : State) : res Z :=
  '(result, _) ← workListIterate (work_fuel st) (WObj f) (circCheckAction f) 0 0 st;
  Done result.

(** The body of the inner loop of [depwalk_rec] for one [ref]. *)
Definition expand_ref (rec : ObjF -> Z -> State -> res State)
    (f : ObjF) (depth : Z) (ref : Xref) (st : State) : res State :=
  rr ← get_xref ref st;
  let g := x_obj rr in
  _ ← assert_that A_self_ref (bool_decide (g ≠ f));
  go ← get_obj g st;
  if bool_decide (work go = WNull) then
    fo ← get_obj f st;
    st ← upd_obj g (with_work (work fo)) st;
    st ← upd_obj f (with_work (WObj g)) st;
    c ← checkCircWorkList f st;
    _ ← assert_that A_circular (c =? 0);
    st ← rec g (depth + 1) st;
    if negb (BUILD_LIST st) then
      go ← get_obj g st;
      st ← upd_obj f (with_work (work go)) st;
      upd_obj g (with_work WNull) st
    else Done st
  else Done st.

(** The inner loop: all importers of an export, or the first exporter of
    an import. *)
Fixpoint walk_refs (rec : ObjF -> Z -> State -> res State) (fuel : nat)
    (f : ObjF) (depth : Z) (ref : option Xref) (st : State) : res State :=
  match ref with
  | None => Done st
  | Some r =>
      match fuel with
      | O => OutOfFuel
      | S fuel' =>
          st ← expand_ref rec f depth r st;
          nxt ← (if DO_EXPORTS st then XREF_NEXT r st else Done None);
          walk_refs rec fuel' f depth nxt st
      end
  end.

Definition walked_array (st : State) (o : ObjFRec) : list XrefRec :=
  if DO_EXPORTS st then exports o else imports o.

Definition walked_chain (st : State) (s : SymRec) : option Xref :=
  if DO_EXPORTS st then importedFrom s else exportedBy s.

Definition expand_entry (rec : ObjF -> Z -> State -> res State)
    (f : ObjF) (depth : Z) (i : nat) (st : State) : res State :=
  o ← get_obj f st;
  x ← deref (walked_array st o !! i);
  s ← get_sym (x_sym x) st;
  walk_refs rec (S (nxrefs st)) f depth (walked_chain st s) st.

Definition depwalk_body (rec : ObjF -> Z -> State -> res State)
    (f : ObjF) (depth : Z) (st : State) : res State :=
  let st := match depwalkAction st with
            | Some arg => depPrint arg f depth st
            | None => st
            end in
  o ← get_obj f st;
  for_each (seq 0 (length (walked_array st o))) (expand_entry rec f depth) st.

Fixpoint depwalk_rec (fuel : nat) (f : ObjF) (depth : Z) (st : State) : res State :=
  match fuel with
  | O => OutOfFuel
  | S fuel' => depwalk_body (depwalk_rec fuel') f depth st
  end.

(** [depwalk(f, action, closure, mode)]; the action is [depPrint] with its
    closure, or 0.  Every nested call of [depwalk_rec] marks an object that
    was not marked, so the nesting is bounded by the number of objects. *)
Definition depwalk (f : ObjF) (action : option DepPrintArgRec) (mode : Z) (st : State)
  : res State :=
  o ← get_obj f st;
  _ ← assert_that A_work_clear (bool_decide (work o = WNull));
  _ ← assert_that A_not_building (negb (BUILD_LIST st));
  let st := set_depwalk (if flag_set mode WALK_BUILD_LIST then None else action) mode st in
  st ← upd_obj f (with_work WBusy) st;
  st ← depwalk_rec (work_fuel st) f 0 st;
  if BUILD_LIST st then Done (set_depwalk action (depwalkMode st) st)
  else upd_obj f (with_work WNull) st.

Fixpoint workListRelease (fuel : nat) (f : workp) (st : State) : res State :=
  match f with
  | WNull | WBusy => Done st
  | WObj o =>
      match fuel with
      | O => OutOfFuel
      | S fuel' =>
          r ← get_obj o st;
          st ← upd_obj o (with_work WNull) st;
          workListRelease fuel' (work r) st
      end
  end.

Definition depPrintAction (arg : DepPrintArgRec) (f : ObjF) (d : Z) (c : unit) (st : State)
  : res (unit * State) :=
  Done (tt, depPrint arg f d st).

Definition depwalkListRelease (f : ObjF) (st : State) : res State :=
  _ ← assert_that A_building (BUILD_LIST st);
  st ← match depwalkAction st with
       | Some arg =>
           '(_, st) ← workListIterate (work_fuel st) (WObj f) (depPrintAction arg) 0 tt st;
           Done st
       | None => Done st
       end;
  st ← workListRelease (work_fuel st) (WObj f) st;
  Done (set_depwalk (depwalkAction st) 0 st).

(** ** Unlinking *)

(** [doUnlink]: the search for the predecessor of [imp] in an importer chain. *)
Fixpoint find_pred (fuel : nat) (p : option Xref) (imp : Xref) (st : State)
  : res (option Xref) :=
  match p with
  | None => Done None
  | Some x =>
      match fuel with
      | O => OutOfFuel
      | S fuel' =>
          n ← XREF_NEXT x st;
          if bool_decide (n = Some imp) then Done (Some x)
          else find_pred fuel' n imp st
      end
  end.

Definition unlink_import (f : ObjF) (i : nat) (st : State) : res State :=
  let imp := mkXref Imports f i in
  r ← get_xref imp st;
  s ← get_sym (x_sym r) st;
  st ← (if bool_decide (importedFrom s = Some imp) then
          upd_sym (x_sym r) (with_importedFrom (x_next r)) st
        else
          p ← find_pred (S (nxrefs st)) (importedFrom s) imp st;
          match p with
          | None => Fail (AssertFailed A_predecessor)
          | Some p => xref_set_next p (x_next r) st
          end);
  xref_set_next imp None st.

(** The place [pl] points to: the head of a link set or the [link.next] of
    one of its members. *)
Inductive plink := PHead (s : LinkSet) | PNext (o : ObjF).

Definition read_plink (pl : plink) (st : State) : res (option ObjF) :=
  match pl with
  | PHead s => Done (set_head s st)
  | PNext o => r ← get_obj o st; Done (link_next r)
  end.

Definition write_plink (pl : plink) (v : option ObjF) (st : State) : res State :=
  match pl with
  | PHead s => Done (set_set_head s v st)
  | PNext o => upd_obj o (with_link_next v) st
  end.

Fixpoint find_plink (fuel : nat) (pl : plink) (f : ObjF) (st : State) : res plink :=
  match fuel with
  | O => OutOfFuel
  | S fuel' =>
      v ← read_plink pl st;
      match v with
      | None => Done pl
      | Some o => if bool_decide (o = f) then Done pl else find_plink fuel' (PNext o) f st
      end
  end.

Definition doUnlink (f : ObjF) (depth : Z) (c : unit) (st : State) : res (unit * State) :=
  let st := if flag_set (verbose st) DEBUG_UNLINK then emit (E_removing f) st else st in
  o ← get_obj f st;
  st ← for_each (seq 0 (length (imports o))) (unlink_import f) st;
  o ← get_obj f st;
  a ← deref (link_anchor o);
  pl ← find_plink (work_fuel st) (PHead a) f st;
  v ← read_plink pl st;
  _ ← assert_that A_in_linkset (bool_decide (v ≠ None));
  st ← write_plink pl (link_next o) st;
  st ← upd_obj f (fun o => with_anchor None (with_link_next None o)) st;
  Done (tt, if flag_set (verbose st) DEBUG_UNLINK then emit E_ok st else st).

Definition checkSysLinkSet (f : ObjF) (depth : Z) (reject : Z) (st : State)
  : res (Z * State) :=
  o ← get_obj f st;
  if bool_decide (link_anchor o = Some appLinkSet) then
    Done (1, if flag_set (verbose st) DEBUG_UNLINK && (reject =? 0)
             then emit (E_rejected f) st else st)
  else Done (reject, st).

Definition checkSanity (f : ObjF) (depth : Z) (c : unit) (st : State) : res (unit * State) :=
  o ← get_obj f st;
  _ ← for_each (exports o)
        (fun ex (_ : unit) =>
           s ← get_sym (x_sym ex) st;
           assert_that A_sanity (bool_decide (importedFrom s = None)))
        tt;
  Done (tt, st).

(** [unlinkObj]: the result is the value of [reject]. *)
Definition unlinkObj (f : ObjF) (st : State) : res (Z * State) :=
  st ← depwalk f None (Z.lor WALK_EXPORTS WALK_BUILD_LIST) st;
  '(reject, st) ← workListIterate (work_fuel st) (WObj f) checkSysLinkSet 0 0 st;
  st ← (if reject =? 0 then
          '(_, st) ← workListIterate (work_fuel st) (WObj f) doUnlink 0 tt st;
          '(_, st) ← workListIterate (work_fuel st) (WObj f) checkSanity 0 tt st;
          Done st
        else Done st);
  st ← depwalkListRelease f st;
  Done (reject, st).

(** ** The multiple-definition scan *)

(** The [while (r)] loop of [checkMultipleDefs]. *)
Fixpoint mark_exporters (fuel : nat) (isCommon : bool) (r : option Xref) (st : State)
  : res State :=
  match r with
  | None => Done st
  | Some x =>
      match fuel with
      | O => OutOfFuel
      | S fuel' =>
          xr ← get_xref x st;
          let st := if isCommon then st else emit (E_clash_site (x_obj xr) (x_weak xr)) st in
          st ← upd_obj (x_obj xr) (with_work WBusy) st;
          mark_exporters fuel' isCommon (x_next xr) st
      end
  end.

Definition check_export (f : ObjF) (i : nat) (acc : Z * State) : res (Z * State) :=
  let '(rval, st) := acc in
  o ← get_obj f st;
  ex ← deref (exports o !! i);
  s ← get_sym (x_sym ex) st;
  r ← deref (exportedBy s);
  n ← XREF_NEXT r st;
  match n with
  | None => Done (rval, st)
  | Some _ =>
      let isCommon := bool_decide ("C"%char = s_type s) in
      let '(rval, st) := if isCommon then (rval, st)
                         else (rval + 1, emit (E_clash (s_name s) (s_type s)) st) in
      st ← mark_exporters (S (nxrefs st)) isCommon (Some r) st;
      Done (rval, st)
  end.

(** The loop over the members of the link set. *)
Fixpoint check_members (fuel : nat) (f : option ObjF) (acc : Z * State) : res (Z * State) :=
  match f with
  | None => Done acc
  | Some f =>
      match fuel with
      | O => OutOfFuel
      | S fuel' =>
          o ← get_obj f acc.2;
          acc ← (if bool_decide (work o = WBusy) then Done acc
                 else for_each (seq 0 (length (exports o))) (check_export f) acc);
          o ← get_obj f acc.2;
          check_members fuel' (link_next o) acc
      end
  end.

Definition clear_work (st : State) : State := set_objs (with_work WNull <$> objs st) st.

Definition checkMultipleDefs (s : LinkSet) (st : State) : res (Z * State) :=
  let st := emit (E_checking s) st in
  '(rval, st) ← check_members (work_fuel st) (set_head s st) (0, st);
  Done (rval, emit E_ok (clear_work st)).

(** ** Finding objects by name *)

Definition objcmp (st : State) (obja objb : ObjFRec) : res Z :=
  let rval := strcmp (o_name obja) (o_name objb) in
  if negb (rval =? 0) then Done rval
  else if bool_decide (o_lib obja = LAny) || bool_decide (o_lib objb = LAny) then Done 0
  else
    match o_lib obja, o_lib objb with
    | LPtr la, LPtr lb =>
        ra ← deref (libs st !! la);
        rb ← deref (libs st !! lb);
        Done (strcmp (l_name ra) (l_name rb))
    | LPtr _, _ => Done 1
    | _, LPtr _ => Done (-1)
    | _, _ => Done 0
    end.

(** [qsort] with [objcmp]: some sorting of the array; here by insertion. *)
Fixpoint insert_sorted (st : State) (f : ObjF) (l : list ObjF) : res (list ObjF) :=
  match l with
  | [] => Done [f]
  | g :: l' =>
      a ← get_obj f st;
      b ← get_obj g st;
      c ← objcmp st a b;
      if c <? 0 then Done (f :: l)
      else l'' ← insert_sorted st f l'; Done (g :: l'')
  end.

Definition qsort_objs (st : State) (l : list ObjF) : res (list ObjF) :=
  foldr (fun f acc => sorted ← acc; insert_sorted st f sorted) (Done []) l.

Definition fileListBuildIndex (st : State) : res (list ObjF) :=
  qsort_objs st (seq 0 (length (objs st))).

(** [bsearch], the usual halving search between [l] and [u]. *)
Fixpoint bsearch (fuel : nat) (st : State) (key : ObjFRec) (base : list ObjF) (l u : nat)
  : res (option nat) :=
  match fuel with
  | O => OutOfFuel
  | S fuel' =>
      if bool_decide (l < u)%nat then
        let idx := ((l + u) / 2)%nat in
        p ← deref (base !! idx);
        o ← get_obj p st;
        c ← objcmp st key o;
        if c <? 0 then bsearch fuel' st key base l idx
        else if 0 <? c then bsearch fuel' st key base (S idx) u
        else Done (Some idx)
      else Done None
  end.

(** [while ( ++end < fileListIndex + numFiles && !objcmp(&f,end) )]: walks
    up from the element after [found]; the result is the final [end]. *)
Fixpoint scan_up (st : State) (key : ObjFRec) (rest : list ObjF) (e : nat) : res nat :=
  match rest with
  | [] => Done e
  | p :: rest' =>
      o ← get_obj p st;
      c ← objcmp st key o;
      if c =? 0 then scan_up st key rest' (S e) else Done e
  end.

(** [while (--found >= fileListIndex && !objcmp(&f, found))] followed by
    [found++]: walks down over the elements before [found], nearest first;
    the result is the final [found]. *)
Fixpoint scan_down (st : State) (key : ObjFRec) (before : list ObjF) (found : nat) : res nat :=
  match before with
  | [] => Done found
  | p :: before' =>
      o ← get_obj p st;
      c ← objcmp st key o;
      if c =? 0 then scan_down st key before' (found - 1)%nat else Done found
  end.

(** [fileListFind(name, &found)]: the number of matches and the position in
    [fileListIndex] of the first of them. *)
Definition fileListFind (name : string) (st : State) : res (Z * nat * State) :=
  let '(sp, st) := splitName name st in
  match sp with
  | None => Done (0, 0%nat, st)
  | Some (po, libname, objn) =>
      let lib := if bool_decide (po ≠ None) && negb (bool_decide (libname = ""))
                 then LPtr <$> find_lib libname (libs st)
                 else Some LAny in
      match lib with
      | None => Done (0, 0%nat, st)
      | Some lib =>
          let key := mkObjFRec objn lib None None WNull [] [] in
          let idx := fileListIndex st in
          found ← bsearch (S (length idx)) st key idx 0 (length (objs st));
          match found with
          | None => Done (0, 0%nat, st)
          | Some found =>
              e ← scan_up st key (drop (S found) idx) (S found);
              first ← scan_down st key (reverse (take found idx)) found;
              Done (Z.of_nat e - Z.of_nat first, first, st)
          end
      end
  end.

(** The objects [fileListFind] hands to its caller. *)
Definition found_objs (name : string) (st : State) : res (list ObjF) :=
  '(n, first, st) ← fileListFind name st;
  Done (take (Z.to_nat n) (drop first (fileListIndex st))).

(** ** The program up to the linking loop *)

Definition ldep (inputs : list (list scanned * string)) : res (ObjF * State) :=
  '(last, st) ← scan_files inputs None initial_state;
  lastAppObj ← deref last;
  st ← gatherDanglingUndefs st;
  idx ← fileListBuildIndex st;
  let st := set_fileListIndex idx st in
  if checkObjPtrs st =? 0 then
    st ← link_all lastAppObj st; Done (lastAppObj, st)
  else Fail (AssertFailed A_obj_ptrs).

(** ** C strings *)

Lemma chars_app (a b : string) : chars (a +:+ b) = chars a ++ chars b.
Proof. unfold chars. induction a as [|c a IH]; simpl; [done|]. by rewrite IH. Qed.

Lemma str_chars (s : string) : str (chars s) = s.
Proof. apply String.string_of_list_ascii_of_string. Qed.

Lemma chars_str (l : list ascii) : chars (str l) = l.
Proof. apply String.list_ascii_of_string_of_list_ascii. Qed.

Lemma chars_inj (a b : string) : chars a = chars b -> a = b.
Proof. intros H. rewrite <- (str_chars a), <- (str_chars b). by rewrite H. Qed.

Lemma string_compare_refl (a : string) : String.compare a a = Eq.
Proof.
  induction a as [|c a IH]; simpl; [done|].
  unfold Ascii.compare. by rewrite N.compare_refl.
Qed.

Lemma strcmp_eq (a b : string) : strcmp a b = 0 <-> a = b.
Proof.
  unfold strcmp. destruct (String.compare a b) eqn:E.
  - apply String.compare_eq_iff in E. done.
  - split; [done|]. intros ->. rewrite string_compare_refl in E. done.
  - split; [done|]. intros ->. rewrite string_compare_refl in E. done.
Qed.

Lemma strcmp_refl (a : string) : strcmp a a = 0.
Proof. by apply strcmp_eq. Qed.

Lemma strrchr_None (s : list ascii) (c : ascii) : c ∉ s -> strrchr s c = None.
Proof.
  induction s as [|a s IH]; simpl; [done|].
  intros Hn. apply not_elem_of_cons in Hn as [Hne Hn]. rewrite IH by done.
  destruct (Ascii.eqb_spec a c); [congruence|done].
Qed.

Lemma strrchr_last (l m : list ascii) (c : ascii) :
  c ∉ m -> strrchr (l ++ c :: m) c = Some (length l).
Proof.
  intros Hn. induction l as [|a l IH]; simpl.
  - rewrite strrchr_None by done. by rewrite Ascii.eqb_refl.
  - by rewrite IH.
Qed.

Lemma strrchr_Some (s : list ascii) (c : ascii) (i : nat) :
  strrchr s c = Some i -> s !! i = Some c /\ c ∉ drop (S i) s.
Proof.
  revert i. induction s as [|a s IH]; simpl; [done|]. intros i.
  destruct (strrchr s c) as [j|] eqn:E.
  - intros [= <-]. simpl. by apply IH.
  - destruct (Ascii.eqb_spec a c) as [->|]; [|done]. intros [= <-]. simpl. split; [done|].
    rewrite drop_0. clear IH. induction s as [|b s IH]; [by apply not_elem_of_nil|].
    simpl in E. destruct (strrchr s c); [done|].
    destruct (Ascii.eqb_spec b c); [done|]. apply not_elem_of_cons. split; [done|]. by apply IH.
Qed.

(** ** Results of the monad *)

Lemma bind_Done {A B} (m : res A) (k : A -> res B) (b : B) :
  m ≫= k = Done b -> exists a, m = Done a /\ k a = Done b.
Proof. destruct m; simpl; [eauto|done|done]. Qed.

Lemma for_each_unit_Done {A} (l : list A) (body : A -> unit -> res unit) r :
  for_each l body tt = r -> forall u, r = Done u -> u = tt.
Proof. intros _ []. done. Qed.

Lemma find_lib_Some (name : string) (ls : list LibRec) (l : Lib) :
  find_lib name ls = Some l -> exists lr, ls !! l = Some lr /\ l_name lr = name.
Proof.
  revert l. induction ls as [|r ls IH]; simpl; [done|]. intros l.
  destruct (Z.eqb_spec (strcmp (l_name r) name) 0) as [E|E].
  - intros [= <-]. apply strcmp_eq in E. eauto.
  - destruct (find_lib name ls) as [j|]; [|done]. intros [= <-]. simpl. by apply IH.
Qed.

Lemma find_lib_None (name : string) (ls : list LibRec) :
  find_lib name ls = None -> forall l lr, ls !! l = Some lr -> l_name lr <> name.
Proof.
  induction ls as [|r ls IH]; simpl; [done|].
  destruct (Z.eqb_spec (strcmp (l_name r) name) 0) as [E|E]; [done|].
  destruct (find_lib name ls) as [j|] eqn:F; [done|]. intros _ [|l] lr; simpl.
  - intros [= <-]. by rewrite <- strcmp_eq.
  - by apply IH.
Qed.

(** ** Splitting names (splitName, createObj) *)

Lemma splitName_no_bracket (name : string) (st : State) :
  last (chars name) <> Some "]"%char ->
  splitName name st = (Some (None, name, name), st).
Proof.
  intros Hl. unfold splitName.
  destruct (bool_decide (0 < length (chars name))%nat) eqn:E1; [|done].
  destruct (bool_decide (chars name !! (length (chars name) - 1)%nat = Some "]"%char)) eqn:E2; [|done].
  apply bool_decide_eq_true in E2. rewrite last_lookup in Hl.
  replace (pred (length (chars name))) with (length (chars name) - 1)%nat in Hl by lia. done.
Qed.

Lemma splitName_ill_formed (name : string) (st : State) :
  last (chars name) = Some "]"%char -> "["%char ∉ chars name ->
  splitName name st = (None, emit (E_misformed_name name) st).
Proof.
  intros Hl Hn. unfold splitName. rewrite last_lookup in Hl.
  replace (pred (length (chars name))) with (length (chars name) - 1)%nat in Hl by lia.
  assert (0 < length (chars name))%nat by (apply lookup_lt_Some in Hl; lia).
  rewrite bool_decide_eq_true_2 by done. rewrite bool_decide_eq_true_2 by done. simpl.
  by rewrite strrchr_None.
Qed.

Lemma splitName_member (lib mem : string) (st : State) :
  "["%char ∉ chars mem ->
  splitName (lib +:+ "[" +:+ mem +:+ "]") st
  = (Some (Some (String.length lib), lib, mem), st).
Proof.
  intros Hn. unfold splitName. rewrite !chars_app. change (chars "[") with ["["%char].
  change (chars "]") with ["]"%char]. simpl.
  set (L := chars lib). set (M := chars mem).
  assert (HL : length L = String.length lib).
  { unfold L, chars. clear. induction lib; simpl; [done|]. by rewrite IHlib. }
  assert (E : length (L ++ "["%char :: M ++ ["]"%char]) = (length L + S (length M + 1))%nat).
  { rewrite length_app. simpl. rewrite length_app. simpl. lia. }
  rewrite E.
  rewrite bool_decide_eq_true_2 by lia.
  rewrite bool_decide_eq_true_2.
  2:{ rewrite lookup_app_r by lia. replace (length L + S (length M + 1) - 1 - length L)%nat
        with (S (length M)) by lia. simpl. rewrite lookup_app_r by lia.
      by replace (length M - length M)%nat with 0%nat by lia. }
  simpl. rewrite strrchr_last.
  2:{ intros [H|H%list_elem_of_singleton]%elem_of_app; [done|discriminate]. }
  rewrite take_app_length. rewrite <- HL.
  replace (L ++ "["%char :: M ++ ["]"%char]) with ((L ++ ["["%char]) ++ M ++ ["]"%char])
    by by rewrite <- app_assoc.
  rewrite drop_app_length'; [|rewrite length_app; simpl; lia].
  replace (length L + S (length M + 1) - 1 - S (length L))%nat with (length M) by lia.
  rewrite take_app_length. unfold L, M. by rewrite !str_chars.
Qed.

Lemma strrchr_None_inv (s : list ascii) (c : ascii) : strrchr s c = None -> c ∉ s.
Proof.
  induction s as [|a s IH]; simpl; [intros _; apply not_elem_of_nil|].
  destruct (strrchr s c); [done|]. destruct (Ascii.eqb_spec a c); [done|].
  intros _. apply not_elem_of_cons. auto.
Qed.

Lemma last_bracket_split (name : string) :
  last (chars name) = Some "]"%char -> "["%char ∈ chars name ->
  exists lib mem, name = lib +:+ "[" +:+ mem +:+ "]" /\ "["%char ∉ chars mem.
Proof.
  intros Hl Hin.
  destruct (strrchr (chars name) "["%char) as [i|] eqn:E.
  2:{ by apply strrchr_None_inv in E. }
  apply strrchr_Some in E as [Hi Hn].
  destruct (drop (S i) (chars name)) as [|z zs] eqn:D using rev_ind.
  { exfalso. rewrite last_lookup in Hl.
    assert (length (chars name) <= S i)%nat.
    { apply (f_equal length) in D. rewrite length_drop in D. simpl in D. lia. }
    apply lookup_lt_Some in Hi as Hlt.
    replace (pred (length (chars name))) with i in Hl by lia. congruence. }
  clear IHzs.
  assert (Hs : chars name = take i (chars name) ++ "["%char :: zs ++ [z]).
  { rewrite <- D. rewrite <- (take_drop_middle _ _ _ Hi) at 1. done. }
  assert (z = "]"%char) as ->.
  { rewrite Hs in Hl.
    replace (take i (chars name) ++ "["%char :: zs ++ [z])
      with ((take i (chars name) ++ "["%char :: zs) ++ [z]) in Hl
      by (by rewrite <- app_assoc).
    rewrite last_snoc in Hl. congruence. }
  exists (str (take i (chars name))), (str zs). split.
  - apply chars_inj. rewrite !chars_app, !chars_str. done.
  - rewrite chars_str. intros Hz. apply Hn. apply elem_of_app. by left.
Qed.

Lemma libAddObj_Done (libname : string) (obj : ObjF) (st st' : State) :
  libAddObj libname obj st = Done st' ->
  exists o l lr,
    objs st !! obj = Some o /\ objs st' !! obj = Some (with_lib (LPtr l) o) /\
    libs st' !! l = Some lr /\ l_name lr = libname /\ obj ∈ files lr.
Proof.
  unfold libAddObj.
  set (p := match find_lib libname (libs st) with
            | Some l => (l, st) | None => createLib libname st end).
  assert (Hp : objs p.2 = objs st /\ exists lr, libs p.2 !! p.1 = Some lr /\ l_name lr = libname).
  { unfold p. destruct (find_lib libname (libs st)) as [l|] eqn:F; simpl.
    - split; [done|]. by apply find_lib_Some.
    - split; [done|]. exists (mkLibRec libname []). split; [|done]. by apply list_lookup_middle. }
  destruct p as [l st1]. simpl in Hp. destruct Hp as [Ho (lr & Hl & Hn)].
  rewrite Hl. simpl. intros H.
  apply bind_Done in H as (o & Hobj & H). apply bind_Done in H as (u & _ & H).
  unfold upd_obj in H. apply bind_Done in H as (o' & Hobj' & H).
  unfold get_obj in Hobj, Hobj'. simpl in Hobj'.
  destruct (objs st1 !! obj) as [o0|] eqn:E; [|done]. simpl in Hobj, Hobj'.
  assert (o = o0) as -> by congruence. assert (o' = o0) as -> by congruence.
  injection H as <-. simpl.
  exists o0, l, (mkLibRec (l_name lr) (files lr ++ [obj])). rewrite <- Ho.
  split; [done|]. split.
  { apply list_lookup_insert_eq. by apply lookup_lt_Some in E. }
  split.
  { apply list_lookup_insert_eq. by apply lookup_lt_Some in Hl. }
  split; [done|]. simpl. apply elem_of_app. right. by apply list_elem_of_singleton.
Qed.

(** C3, as the code has it: a raw name that ends in [']'] is split at its
    LAST ['['] (the code calls [strrchr]): the text before it is the library
    path, the text between it and the final [']'] is the member name, and
    the object made by [createObj] bears that member name inside that
    library; such a name without any ['['] makes [splitName] fail and
    [createObj] exit; a name that does not end in [']'] is kept whole and
    its object has no library. *)
Theorem splitName_createObj_spec (name : string) (st : State) :
  (last (chars name) <> Some "]"%char ->
     splitName name st = (Some (None, name, name), st) /\
     createObj name st
     = Done (length (objs st), set_objs (objs st ++ [new_obj name]) st) /\
     o_lib (new_obj name) = LNull)
  /\ (last (chars name) = Some "]"%char -> "["%char ∉ chars name ->
        (splitName name st).1 = None /\ createObj name st = Fail Exit1)
  /\ (last (chars name) = Some "]"%char -> "["%char ∈ chars name ->
        exists lib mem,
          name = lib +:+ "[" +:+ mem +:+ "]" /\ ("["%char ∉ chars mem) /\
          splitName name st = (Some (Some (String.length lib), lib, mem), st) /\
          forall f st', createObj name st = Done (f, st') ->
            exists o l lr,
              objs st' !! f = Some o /\ o_name o = mem /\ o_lib o = LPtr l /\
              libs st' !! l = Some lr /\ l_name lr = lib /\ f ∈ files lr).
Proof.
  split; [|split].
  - intros Hl. split; [by apply splitName_no_bracket|]. split; [|done].
    unfold createObj. by rewrite splitName_no_bracket.
  - intros Hl Hn. unfold createObj. by rewrite splitName_ill_formed.
  - intros Hl Hin. destruct (last_bracket_split name Hl Hin) as (lib & mem & -> & Hm).
    exists lib, mem. split; [done|]. split; [done|].
    split; [by apply splitName_member|].
    intros f st'. unfold createObj. rewrite splitName_member by done. simpl.
    intros H. apply bind_Done in H as (st1 & Hadd & [= <- <-]).
    apply libAddObj_Done in Hadd as (o & l & lr & Ho & Ho' & Hlib & Hn & Hf).
    simpl in Ho. rewrite lookup_app_r in Ho by lia.
    replace (length (objs st) - length (objs st))%nat with 0%nat in Ho by lia.
    injection Ho as <-. exists (with_lib (LPtr l) (new_obj mem)), l, lr. done.
Qed.

Lemma splitName_createObj_spec_witness :
  (exists lib mem,
     "libc.a[printf.o]" = lib +:+ "[" +:+ mem +:+ "]" /\ ("["%char ∉ chars mem) /\
     splitName "libc.a[printf.o]" initial_state
     = (Some (Some (String.length lib), lib, mem), initial_state) /\
     forall f st', createObj "libc.a[printf.o]" initial_state = Done (f, st') ->
       exists o l lr,
         objs st' !! f = Some o /\ o_name o = mem /\ o_lib o = LPtr l /\
         libs st' !! l = Some lr /\ l_name lr = lib /\ f ∈ files lr)
  /\ (splitName "printf.o]" initial_state).1 = None
  /\ splitName "printf.o" initial_state = (Some (None, "printf.o", "printf.o"), initial_state).
Proof.
  split; [|split].
  - apply (splitName_createObj_spec "libc.a[printf.o]" initial_state).
    + reflexivity.
    + apply (bool_decide_unpack _). vm_compute. exact I.
  - apply (splitName_createObj_spec "printf.o]" initial_state).
    + reflexivity.
    + apply (bool_decide_unpack _). vm_compute. exact I.
  - apply (splitName_createObj_spec "printf.o" initial_state). discriminate.
Defined.

(** C3 as stated fails: with two opening brackets the library path is not
    the text before the first of them. *)
Lemma splitName_first_bracket_counterexample :
  (splitName "lib[1].a[foo.o]" initial_state).1 = Some (Some 8%nat, "lib[1].a", "foo.o")
  /\ (splitName "lib[1].a[foo.o]" initial_state).1 <> Some (Some 3%nat, "lib", "1].a[foo.o").
Proof. split; [reflexivity|discriminate]. Qed.

(** ** The scanner's buffer (scan_file) *)

(** A token of 500 letters, and the locals of [scan_file] at its start. *)
Definition token_500 : string := str (replicate MAXBUF "a"%char).
Definition scan_locals_0 : scan_locals := mkScanLocals tagged_buf 0 None.

Definition buf_tagged (buf : list ascii) : Prop :=
  length buf = S MAXBUF /\ buf !! MAXBUF = Some "X"%char.

Lemma chars_length (s : string) : length (chars s) = String.length s.
Proof. unfold chars. induction s; simpl; [done|]. by rewrite IHs. Qed.

Lemma store_token_short (tok : string) (buf : list ascii) :
  (String.length tok < MAXBUF)%nat -> buf_tagged buf ->
  buf_tagged (store_token tok buf).
Proof.
  intros Hlen [Hl Ht]. unfold store_token, buf_tagged.
  rewrite <- chars_length in Hlen.
  rewrite take_ge by lia. set (cs := chars tok) in *.
  split.
  - rewrite !length_app, length_drop. simpl. lia.
  - rewrite lookup_app_r by lia. rewrite lookup_app_r by (simpl; lia).
    rewrite lookup_drop. rewrite <- Ht. f_equal. simpl. lia.
Qed.

Lemma store_token_long (tok : string) (buf : list ascii) :
  (MAXBUF <= String.length tok)%nat -> store_token tok buf !! MAXBUF = Some NUL.
Proof.
  intros Hlen. unfold store_token. rewrite <- chars_length in Hlen.
  assert (E : length (take MAXBUF (chars tok)) = MAXBUF) by (rewrite length_take; lia).
  rewrite lookup_app_r by lia. rewrite E. by replace (MAXBUF - MAXBUF)%nat with 0%nat by lia.
Qed.

Lemma upto_NUL_app (cs rest : list ascii) :
  NUL ∉ cs -> upto_NUL (cs ++ NUL :: rest) = cs.
Proof.
  induction cs as [|a cs IH]; simpl; [done|]. intros Hn.
  apply not_elem_of_cons in Hn as [Hne Hn].
  destruct (Ascii.eqb_spec a NUL); [congruence|]. by rewrite IH.
Qed.

Lemma store_token_c_string (tok : string) (buf : list ascii) :
  (String.length tok < MAXBUF)%nat -> NUL ∉ chars tok ->
  c_string (store_token tok buf) = tok.
Proof.
  intros Hlen Hn. unfold c_string, store_token. rewrite <- chars_length in Hlen.
  rewrite take_ge by lia. simpl. rewrite upto_NUL_app by done. apply str_chars.
Qed.

Lemma scan_switch_step (name : string) (got : scanned) (buf : list ascii) (line : Z)
    (obj : option ObjF) (st : State) (step : scan_step) :
  scan_switch name got buf line obj st = Done step ->
  match step with
  | Return rc _ => rc = -1
  | Continue loc _ => sl_buf loc = buf
  end.
Proof.
  unfold scan_switch. destruct got as [|tok|tok type].
  - by intros [= <-].
  - destruct (bool_decide _); [|by intros [= <-]].
    intros H. apply bind_Done in H as (st1 & _ & H).
    apply bind_Done in H as ([o st2] & _ & H). by injection H as <-.
  - intros H. apply bind_Done in H as ([o st1] & _ & H).
    apply bind_Done in H as ([s st2] & _ & H).
    destruct (classify st2 (TOUPPER st1 type)).
    + apply bind_Done in H as (st3 & _ & H). by injection H as <-.
    + apply bind_Done in H as (st3 & _ & H). by injection H as <-.
    + by injection H as <-.
Qed.

Lemma scan_line_short (name : string) (got : scanned) (tok : string)
    (loc : scan_locals) (st : State) :
  token_of got = Some tok -> buf_tagged (sl_buf loc) -> (String.length tok < MAXBUF)%nat ->
  scan_line name got loc st
  = scan_switch name got (store_token tok (sl_buf loc)) (sl_line loc + 1) (sl_obj loc) st.
Proof.
  intros Ht Hb Hlen. unfold scan_line. rewrite Ht.
  destruct (store_token_short tok _ Hlen Hb) as [_ Hx].
  rewrite bool_decide_eq_false_2; [done|]. rewrite Hx. discriminate.
Qed.

Lemma scan_line_long (name : string) (got : scanned) (tok : string)
    (loc : scan_locals) (st : State) :
  token_of got = Some tok -> (MAXBUF <= String.length tok)%nat ->
  scan_line name got loc st = Done (Return (-1) (emit E_overrun st)).
Proof.
  intros Ht Hlen. unfold scan_line. rewrite Ht.
  by rewrite bool_decide_eq_true_2 by by apply store_token_long.
Qed.

Lemma scan_loop_success_short (name : string) (input : list scanned) :
  forall (loc : scan_locals) (st st' : State),
    buf_tagged (sl_buf loc) ->
    scan_loop name input loc st = Done (0, st') ->
    Forall (fun got => forall tok, token_of got = Some tok ->
                                   (String.length tok < MAXBUF)%nat) input.
Proof.
  induction input as [|got input IH]; intros loc st st' Hb H; [constructor|].
  simpl in H. apply bind_Done in H as (step & Hstep & H).
  destruct (token_of got) as [tok|] eqn:Ht.
  - destruct (decide (String.length tok < MAXBUF)%nat) as [Hs|Hl].
    + rewrite (scan_line_short _ _ tok) in Hstep by done.
      apply scan_switch_step in Hstep. destruct step as [rc st1|loc1 st1].
      * subst rc. done.
      * constructor; [intros t Hgt; rewrite Ht in Hgt; by injection Hgt as <-|].
        apply (IH loc1 st1 st'); [|done]. rewrite Hstep. by apply store_token_short.
    + rewrite (scan_line_long _ _ tok) in Hstep by (done || lia).
      injection Hstep as <-. done.
  - constructor; [intros t Hgt; by rewrite Ht in Hgt|]. destruct got; try done.
    unfold scan_line in Hstep. simpl in Hstep.
    destruct Hb as [? Hx]. rewrite bool_decide_eq_false_2 in Hstep by (rewrite Hx; discriminate).
    simpl in Hstep. injection Hstep as <-. done.
Qed.

(** C8, as the code has it: with the tag in place at the end of the buffer
    (as it is at every line of [scan_file]), a line whose name token has at
    most 499 bytes passes the overrun test, leaves the tag in place and goes
    on to the [switch]; a line whose token has 500 bytes or more makes
    [scan_file] report the overrun and return -1; and [scan_file] returns 0
    only when every token was shorter than 500 bytes. *)
Theorem scan_file_token_length (name : string) (got : scanned) (tok : string)
    (loc : scan_locals) (st : State) :
  token_of got = Some tok -> buf_tagged (sl_buf loc) ->
  ((String.length tok <= 499)%nat ->
     buf_tagged (store_token tok (sl_buf loc)) /\
     (NUL ∉ chars tok -> c_string (store_token tok (sl_buf loc)) = tok) /\
     scan_line name got loc st
     = scan_switch name got (store_token tok (sl_buf loc)) (sl_line loc + 1) (sl_obj loc) st)
  /\ ((500 <= String.length tok)%nat ->
        forall rest, scan_loop name (got :: rest) loc st = Done (-1, emit E_overrun st))
  /\ (forall input st0 st', scan_file input name st0 = Done (0, st') ->
        Forall (fun g => forall t, token_of g = Some t -> (String.length t <= 499)%nat) input).
Proof.
  intros Ht Hb. split; [|split].
  - intros Hlen. assert (String.length tok < MAXBUF)%nat by (unfold MAXBUF; lia).
    split; [by apply store_token_short|]. split; [by apply store_token_c_string|].
    by apply scan_line_short.
  - intros Hlen rest. simpl. rewrite (scan_line_long _ _ tok); [done..|unfold MAXBUF; lia].
  - intros input st0 st' H. apply scan_loop_success_short in H.
    + eapply Forall_impl; [exact H|]. simpl. intros g Hg t Hgt.
      specialize (Hg t Hgt). unfold MAXBUF in Hg. lia.
    + done.
Qed.

Lemma scan_file_token_length_witness :
  scan_line "in" (Conv2 "main" "T") scan_locals_0 initial_state
  = scan_switch "in" (Conv2 "main" "T") (store_token "main" tagged_buf) 1 None initial_state
  /\ scan_loop "in" [Conv2 ("x" +:+ token_500) "T"] scan_locals_0 initial_state
     = Done (-1, emit E_overrun initial_state).
Proof.
  split.
  - apply (scan_file_token_length "in" (Conv2 "main" "T") "main" scan_locals_0 initial_state).
    + reflexivity.
    + split; reflexivity.
    + vm_compute. lia.
  - apply (scan_file_token_length "in" (Conv2 ("x" +:+ token_500) "T") ("x" +:+ token_500)
             scan_locals_0 initial_state).
    + reflexivity.
    + split; reflexivity.
    + vm_compute. lia.
Defined.

(** C8 as stated fails: a name token of exactly 500 bytes is not accepted;
    [scan_file] reports the overrun and returns -1. *)
Lemma scan_file_500_counterexample :
  String.length token_500 = 500%nat
  /\ scan_file [Conv2 token_500 "T"] "in" initial_state
     = Done (-1, emit E_overrun initial_state).
Proof. split; vm_compute; reflexivity. Qed.

(** ** Symbol types (scan_file) *)

(** Along a scan a symbol keeps its name, and its type either stays or
    goes from [U] to a type other than [U]. *)
Definition type_history_ok (st st' : State) : Prop :=
  forall i r, syms st !! i = Some r ->
    exists r', syms st' !! i = Some r' /\ s_name r' = s_name r /\
               (s_type r' = s_type r \/ (s_type r = "U"%char /\ s_type r' <> "U"%char)).

Definition step_state (step : scan_step) : State :=
  match step with Return _ st => st | Continue _ st => st end.

(** What [scan_file] has reached after some complete lines. *)
Inductive scan_steps (name : string) : scan_locals -> State -> scan_locals -> State -> Prop :=
  | scan_steps_refl loc st : scan_steps name loc st loc st
  | scan_steps_line got loc st loc1 st1 loc2 st2 :
      scan_line name got loc st = Done (Continue loc1 st1) ->
      scan_steps name loc1 st1 loc2 st2 ->
      scan_steps name loc st loc2 st2.

Lemma type_history_refl (st : State) : type_history_ok st st.
Proof. intros i r H. exists r. auto. Qed.

Lemma type_history_same (st st' : State) : syms st' = syms st -> type_history_ok st st'.
Proof. intros E i r H. exists r. rewrite E. auto. Qed.

Lemma type_history_trans (st1 st2 st3 : State) :
  type_history_ok st1 st2 -> type_history_ok st2 st3 -> type_history_ok st1 st3.
Proof.
  intros H12 H23 i r H. destruct (H12 i r H) as (r2 & H2 & Hn2 & Ht2).
  destruct (H23 i r2 H2) as (r3 & H3 & Hn3 & Ht3). exists r3.
  split; [done|]. split; [congruence|].
  destruct Ht2 as [E2|[E2 N2]], Ht3 as [E3|[E3 N3]].
  - left. congruence.
  - right. split; congruence.
  - right. split; congruence.
  - congruence.
Qed.

Lemma upd_obj_syms (f : ObjF) (g : ObjFRec -> ObjFRec) (st st' : State) :
  upd_obj f g st = Done st' -> syms st' = syms st.
Proof. unfold upd_obj. intros H. apply bind_Done in H as (o & _ & [= <-]). done. Qed.

Lemma xref_set_next_syms (e : Xref) (n : option Xref) (st st' : State) :
  xref_set_next e n st = Done st' -> syms st' = syms st.
Proof.
  unfold xref_set_next. intros H. apply bind_Done in H as (r & _ & H).
  by apply upd_obj_syms in H.
Qed.

Lemma upd_sym_type_history (s : Sym) (g : SymRec -> SymRec) (st st' : State) :
  (forall r, syms st !! s = Some r ->
             s_name (g r) = s_name r /\
             (s_type (g r) = s_type r \/ (s_type r = "U"%char /\ s_type (g r) <> "U"%char))) ->
  upd_sym s g st = Done st' -> type_history_ok st st'.
Proof.
  intros Hg. unfold upd_sym. intros H. apply bind_Done in H as (r & Hr & [= <-]).
  unfold get_sym in Hr. destruct (syms st !! s) as [r0|] eqn:E; [|done].
  simpl in Hr. simplify_eq. intros i ri Hi. simpl.
  destruct (decide (i = s)) as [->|Hne].
  - rewrite list_lookup_insert_eq by by apply lookup_lt_Some in E.
    simplify_eq. exists (g r). split; [done|]. by apply Hg.
  - rewrite list_lookup_insert_ne by done. exists ri. auto.
Qed.

Lemma for_each_invariant {A S} (P : S -> S -> Prop) (l : list A) (body : A -> S -> res S) :
  (forall s, P s s) -> (forall s1 s2 s3, P s1 s2 -> P s2 s3 -> P s1 s3) ->
  (forall a s s', a ∈ l -> body a s = Done s' -> P s s') ->
  forall s s', for_each l body s = Done s' -> P s s'.
Proof.
  intros Hrefl Htrans. induction l as [|a l IH]; intros Hbody s s'; simpl.
  - intros [= <-]. apply Hrefl.
  - intros H. apply bind_Done in H as (s1 & H1 & H). eapply Htrans.
    + eapply Hbody; [|exact H1]. by left.
    + apply IH; [|done]. intros b t t' Hb. apply Hbody. by right.
Qed.

Lemma fixup_export_type_history (f : ObjF) (i : nat) (st st' : State) :
  fixup_export f i st = Done st' -> type_history_ok st st'.
Proof.
  unfold fixup_export. intros H. apply bind_Done in H as (r & _ & H).
  apply bind_Done in H as (s & _ & H). destruct (exportedBy s).
  - apply bind_Done in H as (e & _ & H).
    apply xref_set_next_syms in H. by apply type_history_same.
  - eapply upd_sym_type_history; [|exact H]. intros r0 _. simpl. auto.
Qed.

Lemma fixupObj_type_history (f : option ObjF) (st st' : State) :
  fixupObj f st = Done st' -> type_history_ok st st'.
Proof.
  destruct f as [f|]; simpl; [|intros [= <-]; apply type_history_refl].
  intros H. apply bind_Done in H as (o & _ & H). revert H.
  apply for_each_invariant.
  - apply type_history_refl.
  - apply type_history_trans.
  - intros a s s' _. apply fixup_export_type_history.
Qed.

Lemma libAddObj_syms (libname : string) (obj : ObjF) (st st' : State) :
  libAddObj libname obj st = Done st' -> syms st' = syms st.
Proof.
  unfold libAddObj.
  set (p := match find_lib libname (libs st) with
            | Some l => (l, st) | None => createLib libname st end).
  assert (Hp : syms p.2 = syms st) by (unfold p; by destruct (find_lib _ _)).
  destruct p as [l st1]. simpl in Hp. intros H.
  apply bind_Done in H as (lr & _ & H). apply bind_Done in H as (o & _ & H).
  apply bind_Done in H as (u & _ & H). apply upd_obj_syms in H. by rewrite H.
Qed.

Lemma splitName_state (name : string) (st : State) :
  (splitName name st).2 = st \/ (splitName name st).2 = emit (E_misformed_name name) st.
Proof.
  unfold splitName. destruct (_ && _); [|by left].
  destruct (strrchr _ _); [by left|by right].
Qed.

Lemma createObj_syms (name : string) (st st' : State) (f : ObjF) :
  createObj name st = Done (f, st') -> syms st' = syms st.
Proof.
  unfold createObj. destruct (splitName name st) as [sp st1] eqn:E.
  assert (Hs : syms st1 = syms st).
  { pose proof (splitName_state name st) as H. rewrite E in H. simpl in H.
    by destruct H as [->| ->]. }
  destruct sp as [[[po libname] objn]|]; [|done].
  destruct po.
  - intros H. apply bind_Done in H as (st2 & Hadd & [= <- <-]).
    apply libAddObj_syms in Hadd. by rewrite Hadd.
  - by intros [= <- <-].
Qed.

Lemma intern_sym_type_history (name : string) (type : ascii) (st st' : State) (s : Sym) :
  intern_sym name type st = Done (s, st') -> type_history_ok st st'.
Proof.
  unfold intern_sym. destruct (tfind name st) as [s0|].
  - intros H. apply bind_Done in H as (r & Hr & H).
    unfold get_sym in Hr. destruct (syms st !! s0) as [r0|] eqn:E; [|done].
    simpl in Hr. simplify_eq.
    case_bool_decide as Hne; [|injection H as <- <-; apply type_history_refl].
    set (st1 := if _ && _ then _ else st) in H.
    assert (Hs1 : syms st1 = syms st) by (unfold st1; by destruct (_ && _)).
    case_bool_decide as Hu.
    + apply bind_Done in H as (st2 & Hupd & [= <- <-]).
      eapply type_history_trans; [by apply type_history_same|].
      eapply upd_sym_type_history; [|exact Hupd].
      intros r0. rewrite Hs1, E. intros [= <-]. simpl. split; [done|].
      right. split; [done|]. congruence.
    + injection H as <- <-. by apply type_history_same.
  - intros [= <- <-]. intros i r Hi. exists r. simpl.
    rewrite lookup_app_l by by apply lookup_lt_Some in Hi. auto.
Qed.

Lemma emit_type_history (e : event) (st st' : State) :
  type_history_ok (emit e st) st' -> type_history_ok st st'.
Proof. done. Qed.

Lemma scan_switch_type_history (name : string) (got : scanned) (buf : list ascii) (line : Z)
    (obj : option ObjF) (st : State) (step : scan_step) :
  scan_switch name got buf line obj st = Done step -> type_history_ok st (step_state step).
Proof.
  unfold scan_switch. destruct got as [|tok|tok type].
  - intros [= <-]. by apply type_history_same.
  - destruct (bool_decide _); [|intros [= <-]; by apply type_history_same].
    intros H. apply bind_Done in H as (st1 & Hfix & H).
    apply bind_Done in H as ([o st2] & Hc & [= <-]). simpl.
    apply fixupObj_type_history in Hfix. apply createObj_syms in Hc.
    eapply type_history_trans; [exact Hfix|by apply type_history_same].
  - intros H. apply bind_Done in H as ([o st1] & Ho & H).
    assert (H1 : syms st1 = syms st).
    { destruct obj; [by injection Ho as <- <-|]. by apply createObj_syms in Ho. }
    apply bind_Done in H as ([s st2] & Hi & H). apply intern_sym_type_history in Hi.
    assert (H2 : type_history_ok st st2).
    { eapply type_history_trans; [by apply type_history_same|exact Hi]. }
    destruct (classify st2 (TOUPPER st1 type)).
    + apply bind_Done in H as (st3 & Hu & [= <-]). apply upd_obj_syms in Hu.
      eapply type_history_trans; [exact H2|by apply type_history_same].
    + apply bind_Done in H as (st3 & Hu & [= <-]). apply upd_obj_syms in Hu.
      eapply type_history_trans; [exact H2|by apply type_history_same].
    + injection H as <-. eapply type_history_trans; [exact H2|by apply type_history_same].
Qed.

Lemma scan_line_type_history (name : string) (got : scanned) (loc : scan_locals)
    (st : State) (step : scan_step) :
  scan_line name got loc st = Done step -> type_history_ok st (step_state step).
Proof.
  unfold scan_line. destruct (bool_decide _).
  - intros [= <-]. by apply type_history_same.
  - apply scan_switch_type_history.
Qed.

Lemma scan_steps_type_history (name : string) loc st loc' st' :
  scan_steps name loc st loc' st' -> type_history_ok st st'.
Proof.
  induction 1 as [|got loc st loc1 st1 loc2 st2 Hl _ IH]; [apply type_history_refl|].
  apply scan_line_type_history in Hl. by eapply type_history_trans.
Qed.

Lemma scan_loop_type_history (name : string) (input : list scanned) :
  forall loc st rc st', scan_loop name input loc st = Done (rc, st') -> type_history_ok st st'.
Proof.
  induction input as [|got input IH]; intros loc st rc st'; simpl.
  - intros H. apply bind_Done in H as (st1 & Hfix & [= <- <-]).
    by apply fixupObj_type_history in Hfix.
  - intros H. apply bind_Done in H as (step & Hl & H).
    apply scan_line_type_history in Hl. destruct step as [rc1 st1|loc1 st1].
    + by injection H as <- <-.
    + apply IH in H. by eapply type_history_trans.
Qed.

(** C7: along a scan ([scan_file] as a whole, and any run of its lines) the
    stored type of a symbol changes only from [U] to a type other than [U];
    so it changes at most once, and a type other than [U] is never
    overwritten.  When a record brings a type that differs from a stored
    one and neither is [U], the warning is written, the stored type is kept
    and the scan goes on with the symbol. *)
Theorem symbol_type_upgraded_once (name : string) :
  (forall input st rc st',
     scan_file input name st = Done (rc, st') -> type_history_ok st st')
  /\ (forall loc st loc' st',
        scan_steps name loc st loc' st' -> type_history_ok st st')
  /\ (forall loc0 st0 loc1 st1 loc2 st2 i r0 r1 r2,
        scan_steps name loc0 st0 loc1 st1 -> scan_steps name loc1 st1 loc2 st2 ->
        syms st0 !! i = Some r0 -> syms st1 !! i = Some r1 -> syms st2 !! i = Some r2 ->
        (s_type r0 <> "U"%char -> s_type r1 = s_type r0 /\ s_type r2 = s_type r0) /\
        (s_type r1 <> s_type r0 -> s_type r0 = "U"%char /\ s_type r2 = s_type r1))
  /\ (forall sname type st s r,
        tfind sname st = Some s -> syms st !! s = Some r ->
        s_type r <> "U"%char -> type <> "U"%char -> type <> s_type r ->
        intern_sym sname type st
        = Done (s, emit (E_type_mismatch (s_name r) (s_type r) type) st)).
Proof.
  split; [|split; [|split]].
  - intros input st rc st'. apply scan_loop_type_history.
  - intros loc st loc' st'. apply scan_steps_type_history.
  - intros loc0 st0 loc1 st1 loc2 st2 i r0 r1 r2 H01 H12 L0 L1 L2.
    apply scan_steps_type_history in H01, H12.
    destruct (H01 i r0 L0) as (r1' & L1' & _ & T1).
    destruct (H12 i r1 L1) as (r2' & L2' & _ & T2). simplify_eq.
    split.
    + intros Hc. destruct T1 as [E1|[E1 _]]; [|done].
      split; [done|]. destruct T2 as [E2|[E2 _]]; congruence.
    + intros Hne. destruct T1 as [E1|[E1 N1]]; [done|].
      split; [done|]. destruct T2 as [E2|[E2 _]]; congruence.
  - intros sname type st s r Hf Hs Hr Ht Hne. unfold intern_sym. rewrite Hf.
    unfold get_sym. rewrite Hs. simpl.
    rewrite bool_decide_eq_true_2 by done.
    rewrite (bool_decide_eq_true_2 ("U"%char <> s_type r)) by congruence.
    rewrite (bool_decide_eq_true_2 ("U"%char <> type)) by congruence.
    rewrite (bool_decide_eq_false_2 ("U"%char = s_type r)) by congruence. done.
Qed.

Definition upgrade_input : list scanned :=
  [Conv1 "a.o:"; Conv2 "x" "U"; Conv1 "b.o:"; Conv2 "x" "T"; Conv1 "c.o:"; Conv2 "x" "D"].

Definition upgrade_state : State :=
  match scan_file upgrade_input "in" initial_state with
  | Done (_, st) => st
  | _ => initial_state
  end.

Lemma symbol_type_upgraded_once_witness :
  type_history_ok initial_state upgrade_state
  /\ intern_sym "x" "D" upgrade_state
     = Done (0%nat, emit (E_type_mismatch "x" "T" "D") upgrade_state).
Proof.
  split.
  - apply (proj1 (symbol_type_upgraded_once "in") upgrade_input initial_state 0 upgrade_state).
    vm_compute. reflexivity.
  - apply (proj2 (proj2 (proj2 (symbol_type_upgraded_once "in")))
             "x" "D"%char upgrade_state 0%nat
             (mkSymRec "x" "T" (Some (mkXref Exports 2 0)) None)).
    + vm_compute. reflexivity.
    + vm_compute. reflexivity.
    + discriminate.
    + discriminate.
    + discriminate.
Defined.

(** ** Reading chains *)

(** The cross references met from [p] on along [XREF_NEXT]. *)
Fixpoint xref_chain (fuel : nat) (p : option Xref) (st : State) : res (list Xref) :=
  match p with
  | None => Done []
  | Some x =>
      match fuel with
      | O => OutOfFuel
      | S fuel' =>
          n ← XREF_NEXT x st;
          l ← xref_chain fuel' n st;
          Done (x :: l)
      end
  end.

(** The exporter list and the importer list of a symbol. *)
Definition exporters (s : Sym) (st : State) : res (list Xref) :=
  r ← get_sym s st; xref_chain (S (nxrefs st)) (exportedBy r) st.

Definition importers (s : Sym) (st : State) : res (list Xref) :=
  r ← get_sym s st; xref_chain (S (nxrefs st)) (importedFrom r) st.

(** ** The multiple-definition scan (checkMultipleDefs) *)

(** Three mandatory objects; each of the symbols [s], [t] and [u] is
    defined by two of them. *)
Definition clash_input : list scanned :=
  [Conv1 "f.o:"; Conv2 "s" "T"; Conv2 "u" "T";
   Conv1 "g.o:"; Conv2 "s" "T"; Conv2 "t" "T";
   Conv1 "h.o:"; Conv2 "t" "T"; Conv2 "u" "T"].

Definition clash_state : State :=
  match ldep [(clash_input, "in")] with
  | Done (_, st) => st
  | _ => initial_state
  end.

Definition is_clash (e : event) : bool :=
  match e with E_clash _ _ => true | _ => false end.

Definition clashes (st : State) : list event := filter (fun e => is_clash e) (out st).

(** C4 on [clash_input]: the symbol [s] has two exporters, both members of
    the Application link set, and its type is [T]; the scan of that set
    counts two clashes and reports [t] and [u], and never reports [s]:
    the objects that define [s] were marked [BUSY] when [t] and [u] were
    reported, and a marked object is skipped with all its exports. *)
Theorem checkMultipleDefs_omits_clash :
  ldep [(clash_input, "in")] = Done (3%nat, clash_state)
  /\ tfind "s" clash_state = Some 0%nat
  /\ s_type <$> syms clash_state !! 0%nat = Some "T"%char
  /\ exporters 0%nat clash_state = Done [mkXref Exports 1 0; mkXref Exports 2 0]
  /\ link_anchor <$> objs clash_state !! 1%nat = Some (Some appLinkSet)
  /\ link_anchor <$> objs clash_state !! 2%nat = Some (Some appLinkSet)
  /\ exists st', checkMultipleDefs appLinkSet clash_state = Done (2, st')
       /\ clashes st' = [E_clash "t" "T"; E_clash "u" "T"].
Proof.
  split; [vm_compute; reflexivity|].
  split; [vm_compute; reflexivity|].
  split; [vm_compute; reflexivity|].
  split; [vm_compute; reflexivity|].
  split; [vm_compute; reflexivity|].
  split; [vm_compute; reflexivity|].
  eexists. split; vm_compute; reflexivity.
Qed.

(** ** Exporter lists (fixupObj, scan_file) *)

(** The symbols of the export arrays, object by object in the order of
    ingestion. *)
Definition shape (st : State) : list (list Sym) := (fun o => x_sym <$> exports o) <$> objs st.

(** The definition sites of one object: the elements of its export array. *)
Definition obj_sites (f : ObjF) (ss : list Sym) : list (Xref * Sym) :=
  imap (fun i s => (mkXref Exports f i, s)) ss.

Fixpoint sites_from (f : ObjF) (sh : list (list Sym)) : list (Xref * Sym) :=
  match sh with
  | [] => []
  | ss :: sh' => obj_sites f ss ++ sites_from (S f) sh'
  end.

(** The sites among [sites] that define the symbol [s]. *)
Definition sites_of_sym (s : Sym) (sites : list (Xref * Sym)) : list Xref :=
  (filter (fun p => p.2 = s) sites).*1.

(** All definition sites, ordered by object (in the order of ingestion) and
    then by place in the export array. *)
Definition export_sites (st : State) : list (Xref * Sym) := sites_from 0 (shape st).

(** [l] is what is met from [p] on along [XREF_NEXT]. *)
Fixpoint is_chain (st : State) (p : option Xref) (l : list Xref) : Prop :=
  match l with
  | [] => p = None
  | x :: l' => p = Some x /\ exists r, get_xref x st = Done r /\ is_chain st (x_next r) l'
  end.

(** Every symbol's exporter chain holds the sites [sites] that define it. *)
Definition chains_hold (st : State) (sites : list (Xref * Sym)) : Prop :=
  forall s r, syms st !! s = Some r -> is_chain st (exportedBy r) (sites_of_sym s sites).

Definition syms_in_range (st : State) : Prop :=
  forall ss s, ss ∈ shape st -> s ∈ ss -> (s < length (syms st))%nat.

(** All objects are fixed up. *)
Definition exporters_fixed (st : State) : Prop :=
  chains_hold st (export_sites st) /\ syms_in_range st.

(** *** Reading the store after an update *)

Lemma get_obj_Done (f : ObjF) (st : State) (o : ObjFRec) :
  get_obj f st = Done o <-> objs st !! f = Some o.
Proof. unfold get_obj. destruct (objs st !! f); simpl; split; congruence. Qed.

Lemma get_sym_Done (s : Sym) (st : State) (r : SymRec) :
  get_sym s st = Done r <-> syms st !! s = Some r.
Proof. unfold get_sym. destruct (syms st !! s); simpl; split; congruence. Qed.

Lemma deref_Done {A} (o : option A) (a : A) : deref o = Done a <-> o = Some a.
Proof. destruct o; simpl; split; congruence. Qed.

Lemma upd_obj_Done (f : ObjF) (g : ObjFRec -> ObjFRec) (st st' : State) :
  upd_obj f g st = Done st' ->
  exists o, objs st !! f = Some o /\ st' = set_objs (<[f := g o]> (objs st)) st.
Proof.
  unfold upd_obj. intros H. apply bind_Done in H as (o & Ho & [= <-]).
  apply get_obj_Done in Ho. eauto.
Qed.

Lemma upd_sym_Done (s : Sym) (g : SymRec -> SymRec) (st st' : State) :
  upd_sym s g st = Done st' ->
  exists r, syms st !! s = Some r /\ st' = set_syms (<[s := g r]> (syms st)) st.
Proof.
  unfold upd_sym. intros H. apply bind_Done in H as (r & Hr & [= <-]).
  apply get_sym_Done in Hr. eauto.
Qed.

Lemma get_xref_Done (x : Xref) (st : State) (r : XrefRec) :
  get_xref x st = Done r <->
  exists o, objs st !! xr_obj x = Some o /\ xarray_of (xr_arr x) o !! xr_idx x = Some r.
Proof.
  unfold get_xref. split.
  - intros H. apply bind_Done in H as (o & Ho & H). apply get_obj_Done in Ho.
    apply deref_Done in H. eauto.
  - intros (o & Ho & H). apply get_obj_Done in Ho. rewrite Ho. simpl. by apply deref_Done.
Qed.

Lemma xarray_of_with_xarray (a b : xarray) (l : list XrefRec) (o : ObjFRec) :
  xarray_of a (with_xarray b l o) = if decide (a = b) then l else xarray_of a o.
Proof. by destruct a, b. Qed.

Lemma xref_set_next_Done (e : Xref) (n : option Xref) (st st' : State) :
  xref_set_next e n st = Done st' ->
  exists o r, objs st !! xr_obj e = Some o /\ xarray_of (xr_arr e) o !! xr_idx e = Some r /\
    st' = set_objs (<[xr_obj e :=
             with_xarray (xr_arr e) (<[xr_idx e := with_next n r]> (xarray_of (xr_arr e) o)) o]>
             (objs st)) st.
Proof.
  unfold xref_set_next. intros H. apply bind_Done in H as (r & Hr & H).
  apply get_xref_Done in Hr as (o & Ho & Hr). apply upd_obj_Done in H as (o' & Ho' & ->).
  simplify_eq. eauto.
Qed.

Lemma get_xref_set_next (e x : Xref) (n : option Xref) (st st' : State) :
  xref_set_next e n st = Done st' ->
  get_xref x st' = if decide (x = e) then with_next n <$> get_xref e st else get_xref x st.
Proof.
  intros H. apply xref_set_next_Done in H as (o & r & Ho & Hr & ->).
  destruct e as [a f i], x as [b g j]. simpl in *. unfold get_xref. simpl.
  destruct (decide (g = f)) as [->|Hfg].
  - unfold get_obj. simpl. rewrite list_lookup_insert_eq by by apply lookup_lt_Some in Ho.
    rewrite Ho. simpl. rewrite xarray_of_with_xarray.
    destruct (decide (b = a)) as [->|Hab].
    + destruct (decide (j = i)) as [->|Hij].
      * rewrite list_lookup_insert_eq by by apply lookup_lt_Some in Hr.
        rewrite decide_True by done. rewrite Hr. done.
      * rewrite list_lookup_insert_ne by done. rewrite decide_False by congruence. done.
    + rewrite decide_False by congruence. done.
  - unfold get_obj. simpl. rewrite list_lookup_insert_ne by done.
    rewrite decide_False by congruence. done.
Qed.

Lemma xref_set_next_shape (e : Xref) (n : option Xref) (st st' : State) :
  xref_set_next e n st = Done st' -> shape st' = shape st /\ syms st' = syms st.
Proof.
  intros H. apply xref_set_next_Done in H as (o & r & Ho & Hr & ->). split; [|done].
  unfold shape. simpl. rewrite list_fmap_insert.
  apply list_insert_id. rewrite list_lookup_fmap, Ho. simpl. f_equal.
  destruct (xr_arr e); simpl in *; [|done].
  rewrite list_fmap_insert. symmetry. apply list_insert_id.
  rewrite list_lookup_fmap, Hr. done.
Qed.

(** *** Chains *)

Lemma is_chain_frame (st st' : State) (l : list Xref) (p : option Xref) :
  (forall x, x ∈ l -> get_xref x st' = get_xref x st) ->
  is_chain st p l -> is_chain st' p l.
Proof.
  revert p. induction l as [|x l IH]; intros p Hf; simpl; [done|].
  intros (-> & r & Hr & Hc). split; [done|]. exists r. split.
  - rewrite Hf; [done|]. by left.
  - apply IH; [|done]. intros y Hy. apply Hf. by right.
Qed.

Lemma is_chain_snoc (st st' : State) (l : list Xref) (t ex : Xref) (p : option Xref)
    (rx : XrefRec) :
  is_chain st p (l ++ [t]) -> NoDup (l ++ [t]) -> ex ∉ l ++ [t] ->
  get_xref ex st = Done rx -> x_next rx = None ->
  xref_set_next t (Some ex) st = Done st' ->
  is_chain st' p ((l ++ [t]) ++ [ex]).
Proof.
  intros Hc Hnd Hex Hrx Hn Hset. revert p Hc Hnd Hex.
  induction l as [|x l IH]; intros p Hc Hnd Hex; simpl in *.
  - destruct Hc as (-> & r & Hr & Hc). split; [done|].
    exists (with_next (Some ex) r). split.
    + rewrite (get_xref_set_next _ _ _ _ _ Hset). rewrite decide_True by done. by rewrite Hr.
    + simpl. split; [done|]. exists rx. split; [|by rewrite Hn].
      rewrite (get_xref_set_next _ _ _ _ _ Hset). rewrite decide_False; [done|].
      intros ->. apply Hex. by left.
  - destruct Hc as (-> & r & Hr & Hc). split; [done|].
    apply NoDup_cons in Hnd as [Hx Hnd]. exists r. split.
    + rewrite (get_xref_set_next _ _ _ _ _ Hset). rewrite decide_False; [done|].
      intros ->. apply Hx. apply elem_of_app. right. by left.
    + apply IH; [done|done|]. intros He. apply Hex. by right.
Qed.

Lemma xref_tail_chain (st : State) (l : list Xref) (t e0 : Xref) (fuel : nat) :
  is_chain st (Some e0) (l ++ [t]) -> (length l < fuel)%nat ->
  xref_tail fuel e0 st = Done t.
Proof.
  revert e0 fuel. induction l as [|x l IH]; intros e0 fuel; simpl.
  - intros ([= ->] & r & Hr & Hc) Hf. destruct fuel as [|fuel]; [lia|]. simpl.
    unfold XREF_NEXT. rewrite Hr. simpl. by rewrite Hc.
  - intros ([= ->] & r & Hr & Hc) Hf. destruct fuel as [|fuel]; [lia|]. simpl.
    unfold XREF_NEXT. rewrite Hr. simpl.
    destruct (l ++ [t]) as [|y l'] eqn:E; [by destruct l|].
    simpl in Hc. destruct Hc as (Hy & Hc'). rewrite Hy.
    apply IH; [|lia]. simpl. split; [done|]. done.
Qed.

Lemma xref_chain_is_chain (st : State) (l : list Xref) (p : option Xref) (fuel : nat) :
  is_chain st p l -> (length l < fuel)%nat -> xref_chain fuel p st = Done l.
Proof.
  revert p fuel. induction l as [|x l IH]; intros p fuel; simpl.
  - intros -> _. by destruct fuel.
  - intros (-> & r & Hr & Hc) Hf. destruct fuel as [|fuel]; [lia|]. simpl.
    unfold XREF_NEXT. rewrite Hr. simpl. rewrite (IH _ fuel Hc) by lia. done.
Qed.

(** *** Definition sites *)

Lemma obj_sites_snoc (f : ObjF) (cs : list Sym) (s : Sym) :
  obj_sites f (cs ++ [s]) = obj_sites f cs ++ [(mkXref Exports f (length cs), s)].
Proof.
  unfold obj_sites. rewrite imap_app. simpl. by rewrite Nat.add_0_r.
Qed.

Lemma sites_from_snoc (f : ObjF) (sh : list (list Sym)) (cs : list Sym) :
  sites_from f (sh ++ [cs]) = sites_from f sh ++ obj_sites (f + length sh) cs.
Proof.
  revert f. induction sh as [|ss sh IH]; intros f; simpl.
  - by rewrite app_nil_r, Nat.add_0_r.
  - rewrite IH, <- app_assoc. by replace (S f + length sh)%nat with (f + S (length sh))%nat by lia.
Qed.

Lemma elem_of_obj_sites (f : ObjF) (cs : list Sym) (x : Xref) (s : Sym) :
  (x, s) ∈ obj_sites f cs <-> x = mkXref Exports f (xr_idx x) /\ cs !! xr_idx x = Some s.
Proof.
  unfold obj_sites. rewrite list_elem_of_lookup. split.
  - intros (i & Hi). rewrite list_lookup_imap in Hi.
    destruct (cs !! i) as [s'|] eqn:E; [|done]. simpl in Hi. by simplify_eq.
  - intros (Hx & Hs). exists (xr_idx x). rewrite list_lookup_imap, Hs. simpl. by rewrite <- Hx.
Qed.

Lemma elem_of_sites_from (f : ObjF) (sh : list (list Sym)) (x : Xref) (s : Sym) :
  (x, s) ∈ sites_from f sh <->
  xr_arr x = Exports /\ (f <= xr_obj x)%nat /\
  exists cs, sh !! (xr_obj x - f)%nat = Some cs /\ cs !! xr_idx x = Some s.
Proof.
  revert f. induction sh as [|ss sh IH]; intros f; simpl.
  - split; [by intros ?%elem_of_nil|]. by intros (_ & _ & cs & ? & _).
  - rewrite elem_of_app, elem_of_obj_sites, IH. split.
    + intros [(Hx & Hs)|(Ha & Hf & cs & Hcs & Hs)].
      * rewrite Hx. simpl. split; [done|]. split; [lia|]. exists ss.
        by replace (f - f)%nat with 0%nat by lia.
      * split; [done|]. split; [lia|]. exists cs.
        by replace (xr_obj x - f)%nat with (S (xr_obj x - S f)) by lia.
    + intros (Ha & Hf & cs & Hcs & Hs). destruct (decide (xr_obj x = f)) as [E|E].
      * left. rewrite E in Hcs. replace (f - f)%nat with 0%nat in Hcs by lia.
        simpl in Hcs. simplify_eq. split; [|done]. destruct x; simpl in *. congruence.
      * right. split; [done|]. split; [lia|]. exists cs.
        replace (xr_obj x - f)%nat with (S (xr_obj x - S f)) in Hcs by lia. done.
Qed.

Lemma NoDup_obj_sites (f : ObjF) (cs : list Sym) : NoDup (obj_sites f cs).*1.
Proof.
  unfold obj_sites. rewrite fmap_imap. apply NoDup_alt. intros i j x.
  rewrite !list_lookup_imap. destruct (cs !! i), (cs !! j); simpl; try done.
  intros [= <-] [= ?]. done.
Qed.

Lemma NoDup_sites_from (f : ObjF) (sh : list (list Sym)) : NoDup (sites_from f sh).*1.
Proof.
  revert f. induction sh as [|ss sh IH]; intros f; simpl; [constructor|].
  rewrite fmap_app. apply NoDup_app. split; [apply NoDup_obj_sites|]. split; [|apply IH].
  intros x Hx Hx'. apply list_elem_of_fmap in Hx as ([x1 s1] & -> & H1).
  apply list_elem_of_fmap in Hx' as ([x2 s2] & E & H2). simpl in E. subst x2.
  apply elem_of_obj_sites in H1 as [H1 _]. apply elem_of_sites_from in H2 as (_ & H2 & _).
  rewrite H1 in H2. simpl in H2. lia.
Qed.

Lemma sites_of_sym_app (s : Sym) (a b : list (Xref * Sym)) :
  sites_of_sym s (a ++ b) = sites_of_sym s a ++ sites_of_sym s b.
Proof. unfold sites_of_sym. by rewrite filter_app, fmap_app. Qed.

Lemma elem_of_sites_of_sym (s : Sym) (sites : list (Xref * Sym)) (x : Xref) :
  x ∈ sites_of_sym s sites <-> (x, s) ∈ sites.
Proof.
  unfold sites_of_sym. rewrite list_elem_of_fmap. split.
  - intros ([y t] & -> & H). apply list_elem_of_filter in H as [E H]. simpl in *. by subst.
  - intros H. exists (x, s). split; [done|]. by apply list_elem_of_filter.
Qed.

Lemma NoDup_sites_of_sym (s : Sym) (sites : list (Xref * Sym)) :
  NoDup sites.*1 -> NoDup (sites_of_sym s sites).
Proof.
  unfold sites_of_sym. induction sites as [|[x t] sites IH]; simpl; [constructor|].
  intros [Hx Hnd]%NoDup_cons. rewrite filter_cons. simpl.
  destruct (decide (t = s)); [|by apply IH]. simpl. apply NoDup_cons. split; [|by apply IH].
  intros H. apply Hx. apply list_elem_of_fmap in H as (y & -> & H).
  apply list_elem_of_filter in H as [_ H]. apply list_elem_of_fmap. eauto.
Qed.

Lemma sites_functional (sites : list (Xref * Sym)) (x : Xref) (s t : Sym) :
  NoDup sites.*1 -> (x, s) ∈ sites -> (x, t) ∈ sites -> s = t.
Proof.
  induction sites as [|[y u] sites IH]; simpl; [by intros _ ?%elem_of_nil|].
  intros [Hy Hnd]%NoDup_cons [E1|H1]%elem_of_cons [E2|H2]%elem_of_cons.
  - congruence.
  - exfalso. apply Hy. injection E1 as -> ->. apply list_elem_of_fmap. by exists (y, t).
  - exfalso. apply Hy. injection E2 as -> ->. apply list_elem_of_fmap. by exists (y, s).
  - by apply IH.
Qed.

Lemma length_sites_of_sym (s : Sym) (sites : list (Xref * Sym)) :
  (length (sites_of_sym s sites) <= length sites)%nat.
Proof. unfold sites_of_sym. rewrite length_fmap. apply length_filter. Qed.

Lemma length_sites_from (f : ObjF) (sh : list (list Sym)) :
  length (sites_from f sh) = foldr (fun ss n => (length ss + n)%nat) 0%nat sh.
Proof.
  revert f. induction sh as [|ss sh IH]; intros f; simpl; [done|].
  rewrite length_app, IH. unfold obj_sites. by rewrite length_imap.
Qed.

Lemma length_export_sites (st : State) : (length (export_sites st) <= nxrefs st)%nat.
Proof.
  unfold export_sites, nxrefs, shape. rewrite length_sites_from.
  induction (objs st) as [|o os IH]; [done|]. rewrite fmap_cons. cbn [foldr].
  rewrite length_fmap. lia.
Qed.

Lemma length_shape (st : State) : length (shape st) = length (objs st).
Proof. unfold shape. by rewrite length_fmap. Qed.

Lemma shape_lookup (st : State) (f : ObjF) (cs : list Sym) :
  shape st !! f = Some cs <-> exists o, objs st !! f = Some o /\ cs = x_sym <$> exports o.
Proof.
  unfold shape. rewrite list_lookup_fmap. destruct (objs st !! f) as [o|]; simpl.
  - split; [intros [= <-]; eauto|]. by intros (o' & [= <-] & ->).
  - split; [done|]. by intros (? & ? & _).
Qed.

(** *** The loop of fixupObj *)

Lemma for_each_seq_invariant {S} (Inv : nat -> S -> Prop) (body : nat -> S -> res S)
    (n : nat) :
  forall a : nat,
    (forall i s s', (a <= i < a + n)%nat -> Inv i s -> body i s = Done s' -> Inv (Datatypes.S i) s') ->
    forall s s', Inv a s -> for_each (seq a n) body s = Done s' -> Inv (a + n)%nat s'.
Proof.
  induction n as [|n IH]; intros a Hstep s s' Ha; simpl.
  - intros [= <-]. by rewrite Nat.add_0_r.
  - intros H. apply bind_Done in H as (s1 & H1 & H).
    replace (a + Datatypes.S n)%nat with (Datatypes.S a + n)%nat by lia.
    apply (IH (Datatypes.S a)) with s1; [|by apply (Hstep a s s1); [lia|..]|done].
    intros i t t' Hi. apply Hstep. lia.
Qed.

Lemma get_xref_same_objs (x : Xref) (st st' : State) :
  objs st' = objs st -> get_xref x st' = get_xref x st.
Proof. intros E. unfold get_xref, get_obj. by rewrite E. Qed.

Definition fixup_inv (sh : list (list Sym)) (cs : list Sym) (i : nat) (st : State) : Prop :=
  shape st = sh ++ [cs] /\
  chains_hold st (sites_from 0 sh ++ take i (obj_sites (length sh) cs)) /\
  (forall j r, (i <= j)%nat -> get_xref (mkXref Exports (length sh) j) st = Done r ->
               x_next r = None) /\
  syms_in_range st.

Lemma fixed_prefix_bound (sh : list (list Sym)) (cs : list Sym) (i : nat) (x : Xref) (s : Sym) :
  (x, s) ∈ sites_from 0 sh ++ take i (obj_sites (length sh) cs) ->
  (xr_obj x < length sh)%nat \/ (xr_obj x = length sh /\ xr_idx x < i)%nat.
Proof.
  intros [H|H]%elem_of_app.
  - left. apply elem_of_sites_from in H as (_ & _ & ss & Hs & _).
    apply lookup_lt_Some in Hs. lia.
  - right. apply list_elem_of_lookup in H as (k & Hk). apply lookup_take_Some in Hk as [Hk Hlt].
    unfold obj_sites in Hk. rewrite list_lookup_imap in Hk.
    destruct (cs !! k); [|done]. simpl in Hk. simplify_eq. simpl. lia.
Qed.

Lemma fixup_export_step (sh : list (list Sym)) (cs : list Sym) (i : nat) (st st' : State) :
  fixup_inv sh cs i st -> fixup_export (length sh) i st = Done st' ->
  fixup_inv sh cs (S i) st'.
Proof.
  intros (Hsh & Hch & Hnx & Hrg) H. unfold fixup_export in H.
  set (cur := length sh) in *. set (ex := mkXref Exports cur i) in *.
  apply bind_Done in H as (r & Hr & H). apply bind_Done in H as (sr & Hsr & H).
  apply get_sym_Done in Hsr.
  assert (Hi : cs !! i = Some (x_sym r)).
  { apply get_xref_Done in Hr as (o & Ho & Hx). simpl in Ho, Hx.
    assert (Hc : shape st !! cur = Some cs) by (rewrite Hsh; by apply list_lookup_middle).
    apply shape_lookup in Hc as (o' & Ho' & ->). simplify_eq.
    by rewrite list_lookup_fmap, Hx. }
  set (si := x_sym r) in *.
  set (A := sites_from 0 sh ++ take i (obj_sites cur cs)) in *.
  assert (Hos : obj_sites cur cs !! i = Some (ex, si)).
  { unfold obj_sites. by rewrite list_lookup_imap, Hi. }
  assert (HA' : sites_from 0 sh ++ take (S i) (obj_sites cur cs) = A ++ [(ex, si)]).
  { unfold A. rewrite (take_S_r _ _ _ Hos). by rewrite app_assoc. }
  assert (HndA' : NoDup (A ++ [(ex, si)]).*1).
  { pose proof (NoDup_sites_from 0 (sh ++ [cs])) as Hnd. rewrite sites_from_snoc in Hnd.
    simpl in Hnd. fold cur in Hnd.
    rewrite <- (take_drop (S i) (obj_sites cur cs)) in Hnd.
    rewrite app_assoc, HA', fmap_app in Hnd. by apply NoDup_app in Hnd as [Hnd _]. }
  assert (HndA : NoDup A.*1).
  { rewrite fmap_app in HndA'. by apply NoDup_app in HndA' as [? _]. }
  assert (HexA : forall s, (ex, s) ∉ A).
  { intros s Hs. rewrite fmap_app in HndA'. apply NoDup_app in HndA' as (_ & Hd & _).
    apply (Hd ex); [apply list_elem_of_fmap; by exists (ex, s)|]. simpl. by left. }
  assert (Hsplit : forall s, sites_of_sym s (A ++ [(ex, si)])
                             = sites_of_sym s A ++ (if decide (si = s) then [ex] else [])).
  { intros s. rewrite sites_of_sym_app. f_equal. unfold sites_of_sym.
    rewrite filter_cons. simpl. by destruct (decide (si = s)). }
  pose proof (Hch si sr Hsr) as Hc.
  unfold fixup_inv. fold cur. rewrite HA'.
  destruct (exportedBy sr) as [e0|] eqn:Ee.
  - apply bind_Done in H as (t & Ht & Hset).
    destruct (sites_of_sym si A) as [|z zs] eqn:EL using rev_ind; [done|]. clear IHzs.
    rename zs into l. rename z into t0.
    assert (t = t0) as <-.
    { rewrite (xref_tail_chain st l t0 e0) in Ht; [congruence|done|].
      pose proof (length_sites_of_sym si A) as Hl. rewrite EL, length_app in Hl. simpl in Hl.
      pose proof (length_export_sites st) as Hl'. unfold export_sites in Hl'.
      rewrite Hsh, sites_from_snoc, length_app in Hl'.
      unfold A in Hl. rewrite length_app, length_take in Hl. simpl in Hl'. fold cur in Hl'. lia. }
    assert (HtA : (t, si) ∈ A).
    { apply elem_of_sites_of_sym. rewrite EL. apply elem_of_app. right. by left. }
    destruct (xref_set_next_shape _ _ _ _ Hset) as [Hsh' Hsy'].
    split; [congruence|]. split; [|split].
    + intros s r' Hs. rewrite Hsy' in Hs. rewrite Hsplit.
      destruct (decide (si = s)) as [<-|Hne].
      * assert (r' = sr) as -> by congruence. rewrite Ee, EL.
        eapply is_chain_snoc; [exact Hc|..|exact Hset].
        -- rewrite <- EL. by apply NoDup_sites_of_sym.
        -- rewrite <- EL. intros Hin%elem_of_sites_of_sym. by apply (HexA si).
        -- exact Hr.
        -- by apply (Hnx i).
      * rewrite app_nil_r. apply (is_chain_frame st); [|by apply Hch].
        intros x Hx%elem_of_sites_of_sym.
        rewrite (get_xref_set_next _ _ _ _ _ Hset). rewrite decide_False; [done|].
        intros ->. apply Hne. by apply (sites_functional A t).
    + intros j rj Hj Hrj. rewrite (get_xref_set_next _ _ _ _ _ Hset) in Hrj.
      rewrite decide_False in Hrj; [apply (Hnx j rj); [lia|done]|].
      intros <-. apply fixed_prefix_bound in HtA. simpl in HtA. fold cur in HtA. lia.
    + intros ss s. rewrite Hsh', Hsy'. apply Hrg.
  - apply upd_sym_Done in H as (sr' & Hsr' & ->). assert (sr' = sr) as -> by congruence.
    assert (EL : sites_of_sym si A = []).
    { destruct (sites_of_sym si A); [done|]. simpl in Hc. by destruct Hc. }
    split; [done|]. split; [|split].
    + intros s r' Hs. simpl in Hs. rewrite Hsplit.
      destruct (decide (si = s)) as [<-|Hne].
      * rewrite list_lookup_insert_eq in Hs by by apply lookup_lt_Some in Hsr.
        injection Hs as <-. simpl. rewrite EL. simpl. split; [done|].
        exists r. split; [by rewrite (get_xref_same_objs _ st)|]. by apply (Hnx i).
      * rewrite list_lookup_insert_ne in Hs by done. rewrite app_nil_r.
        apply (is_chain_frame st); [|by apply Hch]. intros x _. by rewrite (get_xref_same_objs _ st).
    + intros j rj Hj Hrj. rewrite (get_xref_same_objs _ st) in Hrj by done.
      apply (Hnx j rj); [lia|done].
    + intros ss s Hss Hs. simpl. rewrite length_insert. by apply (Hrg ss).
Qed.

(** What holds while the object [cur], the last one, is being read: the
    chains hold the sites of the objects before it, and its own export
    elements are not chained yet. *)
Definition scanning (cur : ObjF) (st : State) : Prop :=
  exists sh cs, shape st = sh ++ [cs] /\ cur = length sh /\
    chains_hold st (sites_from 0 sh) /\
    (forall j r, get_xref (mkXref Exports cur j) st = Done r -> x_next r = None) /\
    syms_in_range st.

Definition scan_inv (obj : option ObjF) (st : State) : Prop :=
  match obj with
  | None => exporters_fixed st
  | Some cur => scanning cur st
  end.

Lemma fixupObj_fixed (obj : option ObjF) (st st' : State) :
  scan_inv obj st -> fixupObj obj st = Done st' -> exporters_fixed st'.
Proof.
  destruct obj as [cur|]; simpl; [|by intros ? [= <-]].
  intros (sh & cs & Hsh & -> & Hch & Hnx & Hrg) H.
  apply bind_Done in H as (o & Ho & H). apply get_obj_Done in Ho.
  assert (Hlen : length (exports o) = length cs).
  { assert (Hc : shape st !! length sh = Some cs) by (rewrite Hsh; by apply list_lookup_middle).
    apply shape_lookup in Hc as (o' & Ho' & ->). simplify_eq. by rewrite length_fmap. }
  rewrite Hlen in H.
  apply (for_each_seq_invariant (fixup_inv sh cs) _ (length cs) 0%nat) in H.
  - destruct H as (Hsh' & Hch' & _ & Hrg'). split; [|done].
    unfold export_sites. rewrite Hsh', sites_from_snoc. simpl.
    rewrite take_ge in Hch'; [done|]. unfold obj_sites. by rewrite length_imap.
  - intros i s s' _. apply fixup_export_step.
  - split; [done|]. split; [by rewrite take_0, app_nil_r|]. split; [|done].
    intros j r _. apply Hnx.
Qed.

(** *** The lines of scan_file *)

Lemma chains_hold_frame (st st' : State) (sites : list (Xref * Sym)) :
  syms st' = syms st ->
  (forall x s, (x, s) ∈ sites -> get_xref x st' = get_xref x st) ->
  chains_hold st sites -> chains_hold st' sites.
Proof.
  intros Hs Hx Hch s r Hr. rewrite Hs in Hr. apply (is_chain_frame st); [|by apply Hch].
  intros x Hin%elem_of_sites_of_sym. by apply (Hx x s).
Qed.

Lemma scan_inv_same (obj : option ObjF) (st st' : State) :
  objs st' = objs st -> syms st' = syms st -> scan_inv obj st -> scan_inv obj st'.
Proof.
  intros Ho Hs. assert (Hsh : shape st' = shape st) by (unfold shape; by rewrite Ho).
  assert (Hx : forall x, get_xref x st' = get_xref x st)
    by (intros x; by apply get_xref_same_objs).
  destruct obj as [cur|]; simpl.
  - intros (sh & cs & H1 & H2 & H3 & H4 & H5). exists sh, cs.
    split; [congruence|]. split; [done|]. split; [|split].
    + apply (chains_hold_frame st); auto.
    + intros j r. rewrite Hx. apply H4.
    + intros ss s. rewrite Hsh, Hs. apply H5.
  - intros [H1 H2]. split.
    + unfold export_sites. rewrite Hsh. apply (chains_hold_frame st); auto.
    + intros ss s. rewrite Hsh, Hs. apply H2.
Qed.

Lemma libAddObj_objs (libname : string) (obj : ObjF) (st st' : State) :
  libAddObj libname obj st = Done st' ->
  exists o l, objs st !! obj = Some o /\ objs st' = <[obj := with_lib (LPtr l) o]> (objs st).
Proof.
  unfold libAddObj.
  set (p := match find_lib libname (libs st) with
            | Some l => (l, st) | None => createLib libname st end).
  assert (Hp : objs p.2 = objs st) by (unfold p; by destruct (find_lib _ _)).
  destruct p as [l st1]. simpl in Hp. intros H.
  apply bind_Done in H as (lr & _ & H). apply bind_Done in H as (o & Ho & H).
  apply bind_Done in H as (u & _ & H). apply upd_obj_Done in H as (o' & Ho' & ->).
  apply get_obj_Done in Ho. simpl in Ho'. simplify_eq. exists o, l. simpl.
  by rewrite <- Hp.
Qed.

Lemma createObj_objs (name : string) (st st' : State) (f : ObjF) :
  createObj name st = Done (f, st') ->
  f = length (objs st) /\ syms st' = syms st /\
  exists o, objs st' = objs st ++ [o] /\ exports o = [] /\ imports o = [].
Proof.
  intros H. split; [|split; [by apply createObj_syms in H|]]; revert H;
    unfold createObj; destruct (splitName name st) as [sp st1] eqn:E;
    (assert (Hs : objs st1 = objs st);
     [pose proof (splitName_state name st) as H; rewrite E in H; simpl in H;
      by destruct H as [->| ->]|]);
    (destruct sp as [[[po libname] objn]|]; [|done]); rewrite Hs; destruct po.
  - intros H. by apply bind_Done in H as (st2 & _ & [= <- <-]).
  - by intros [= <- <-].
  - intros H. apply bind_Done in H as (st2 & Hadd & [= <- <-]).
    apply libAddObj_objs in Hadd as (o & l & Ho & ->). simpl in *.
    rewrite lookup_app_r in Ho by lia.
    replace (length (objs st) - length (objs st))%nat with 0%nat in Ho by lia.
    injection Ho as <-. exists (with_lib (LPtr l) (new_obj objn)).
    split; [|done]. rewrite insert_app_r_alt by lia.
    by replace (length (objs st) - length (objs st))%nat with 0%nat by lia.
  - intros [= <- <-]. simpl. eauto.
Qed.

Lemma get_xref_app (x : Xref) (st st' : State) (os : list ObjFRec) :
  objs st' = objs st ++ os -> (xr_obj x < length (objs st))%nat ->
  get_xref x st' = get_xref x st.
Proof.
  intros E Hlt. unfold get_xref, get_obj. rewrite E. by rewrite lookup_app_l.
Qed.

Lemma createObj_scanning (name : string) (st st' : State) (f : ObjF) :
  exporters_fixed st -> createObj name st = Done (f, st') -> scanning f st'.
Proof.
  intros [Hch Hrg] H. apply createObj_objs in H as (-> & Hs & o & Ho & He & _).
  assert (Hsh : shape st' = shape st ++ [[]]).
  { unfold shape. rewrite Ho, fmap_app. simpl. by rewrite He. }
  exists (shape st), []. split; [done|]. split; [by rewrite length_shape|].
  split; [|split].
  - apply (chains_hold_frame st); [done| |done].
    intros x s Hx. apply (get_xref_app _ _ _ [o]); [done|].
    apply elem_of_sites_from in Hx as (_ & _ & cs & Hcs & _).
    apply lookup_lt_Some in Hcs. rewrite length_shape in Hcs. lia.
  - intros j r Hr. apply get_xref_Done in Hr as (o' & Ho' & Hr). simpl in *.
    rewrite Ho in Ho'. rewrite lookup_app_r in Ho' by lia.
    replace (length (objs st) - length (objs st))%nat with 0%nat in Ho' by lia.
    injection Ho' as <-. by rewrite He in Hr.
  - intros ss s. rewrite Hsh, Hs. intros [Hin|Hin%list_elem_of_singleton]%elem_of_app.
    + by apply Hrg.
    + subst ss. by intros ?%elem_of_nil.
Qed.

Lemma intern_sym_scanning (cur : ObjF) (name : string) (type : ascii) (st st' : State)
    (s : Sym) :
  scanning cur st -> intern_sym name type st = Done (s, st') ->
  scanning cur st' /\ (s < length (syms st'))%nat.
Proof.
  intros (sh & cs & Hsh & -> & Hch & Hnx & Hrg). unfold intern_sym.
  destruct (tfind name st) as [s0|].
  - intros H. apply bind_Done in H as (r & Hr & H). apply get_sym_Done in Hr.
    assert (Hlt : (s0 < length (syms st))%nat) by by apply lookup_lt_Some in Hr.
    assert (Hsame : forall st1, objs st1 = objs st -> syms st1 = syms st ->
                                scanning (length sh) st1 /\ (s0 < length (syms st1))%nat).
    { intros st1 Ho Hs. split; [|by rewrite Hs].
      apply (scan_inv_same (Some (length sh)) st); [done..|]. by exists sh, cs. }
    case_bool_decide as Hne; [|injection H as <- <-; by apply Hsame].
    set (st1 := if _ && _ then _ else st) in H.
    assert (Ho1 : objs st1 = objs st) by (unfold st1; by destruct (_ && _)).
    assert (Hs1 : syms st1 = syms st) by (unfold st1; by destruct (_ && _)).
    case_bool_decide as Hu; [|injection H as <- <-; by apply Hsame].
    apply bind_Done in H as (st2 & Hupd & [= <- <-]).
    apply upd_sym_Done in Hupd as (r' & Hr' & ->). rewrite Hs1 in Hr'. simplify_eq.
    simpl. rewrite Hs1, length_insert. split; [|done].
    exists sh, cs. split; [unfold shape in *; simpl; by rewrite Ho1|]. split; [done|].
    split; [|split].
    + intros k rk Hk. simpl in Hk.
      assert (Hx : forall x, get_xref x (set_syms (<[s0:=with_type type r]> (syms st)) st1)
                             = get_xref x st)
        by (intros x; by apply get_xref_same_objs).
      destruct (decide (k = s0)) as [->|Hk'].
      * rewrite list_lookup_insert_eq in Hk by done. injection Hk as <-. simpl.
        apply (is_chain_frame st); [auto|]. by apply Hch.
      * rewrite list_lookup_insert_ne in Hk by done.
        apply (is_chain_frame st); [auto|]. by apply Hch.
    + intros j rj. rewrite (get_xref_same_objs _ st) by done. apply Hnx.
    + intros ss k. unfold syms_in_range, shape in *. simpl. rewrite Ho1, length_insert. apply Hrg.
  - intros [= <- <-]. simpl. rewrite length_app. simpl. split; [|lia].
    exists sh, cs. split; [done|]. split; [done|]. split; [|split].
    + intros k rk Hk. simpl in Hk.
      assert (Hx : forall x, get_xref x (set_syms (syms st ++ [mkSymRec name type None None]) st)
                             = get_xref x st)
        by (intros x; by apply get_xref_same_objs).
      destruct (decide (k < length (syms st))%nat) as [Hlt|Hge].
      * rewrite lookup_app_l in Hk by done.
        apply (is_chain_frame st); [auto|]. by apply Hch.
      * assert (k = length (syms st)) as ->.
        { apply lookup_lt_Some in Hk. rewrite length_app in Hk. simpl in Hk. lia. }
        rewrite list_lookup_middle in Hk by done. injection Hk as <-. simpl.
        destruct (sites_of_sym (length (syms st)) (sites_from 0 sh)) as [|x l] eqn:E; [done|].
        exfalso. assert (Hin : x ∈ sites_of_sym (length (syms st)) (sites_from 0 sh))
          by (rewrite E; by left).
        apply elem_of_sites_of_sym, elem_of_sites_from in Hin as (_ & _ & ss & Hss & Hs).
        assert (length (syms st) < length (syms st))%nat; [|lia].
        apply (Hrg ss); [|by apply list_elem_of_lookup_2 in Hs].
        rewrite Hsh. apply elem_of_app. left. by apply list_elem_of_lookup_2 in Hss.
    + intros j rj. rewrite (get_xref_same_objs _ st) by done. apply Hnx.
    + intros ss k Hss Hk. simpl. rewrite length_app. simpl.
      assert (k < length (syms st))%nat; [|lia]. by apply (Hrg ss).
Qed.

Lemma get_xref_upd_obj_ne (x : Xref) (f : ObjF) (g : ObjFRec -> ObjFRec) (st st' : State) :
  upd_obj f g st = Done st' -> xr_obj x <> f -> get_xref x st' = get_xref x st.
Proof.
  intros H Hne. apply upd_obj_Done in H as (o & Ho & ->).
  unfold get_xref, get_obj. simpl. by rewrite list_lookup_insert_ne.
Qed.

Lemma add_export_scanning (cur : ObjF) (s : Sym) (weak : bool) (st st' : State) :
  scanning cur st -> (s < length (syms st))%nat ->
  upd_obj cur (fun o => with_exports (exports o ++ [new_xref s cur weak]) o) st = Done st' ->
  scanning cur st'.
Proof.
  intros (sh & cs & Hsh & -> & Hch & Hnx & Hrg) Hlt H.
  pose proof (upd_obj_syms _ _ _ _ H) as Hsy.
  pose proof H as H'. apply upd_obj_Done in H' as (o & Ho & ->).
  assert (Hc : shape st !! length sh = Some cs) by (rewrite Hsh; by apply list_lookup_middle).
  apply shape_lookup in Hc as (o' & Ho' & ->). simplify_eq.
  exists sh, ((x_sym <$> exports o) ++ [s]). split; [|split; [done|split; [|split]]].
  - unfold shape in *. simpl. rewrite list_fmap_insert. simpl. rewrite fmap_app. simpl.
    rewrite Hsh. rewrite insert_app_r_alt by lia.
    by replace (length sh - length sh)%nat with 0%nat by lia.
  - apply (chains_hold_frame st); [done| |done]. intros x t Hx.
    apply (get_xref_upd_obj_ne _ _ _ _ _ H).
    apply elem_of_sites_from in Hx as (_ & _ & ss & Hss & _). apply lookup_lt_Some in Hss. lia.
  - intros j r Hr. apply get_xref_Done in Hr as (o1 & Ho1 & Hr). simpl in *.
    rewrite list_lookup_insert_eq in Ho1 by by apply lookup_lt_Some in Ho.
    injection Ho1 as <-. simpl in Hr.
    apply lookup_app_Some in Hr as [Hr|[_ Hr]].
    + apply (Hnx j). apply get_xref_Done. eauto.
    + destruct (j - length (exports o))%nat; [|done]. by injection Hr as <-.
  - intros ss k Hss Hk. simpl.
    unfold shape in Hss. simpl in Hss. rewrite list_fmap_insert in Hss. simpl in Hss.
    apply list_elem_of_lookup in Hss as (n & Hn).
    destruct (decide (n = length sh)) as [->|Hne].
    + rewrite list_lookup_insert_eq in Hn.
      2:{ rewrite length_fmap. by apply lookup_lt_Some in Ho. }
      injection Hn as <-. rewrite fmap_app in Hk. simpl in Hk.
      apply elem_of_app in Hk as [Hk|Hk%list_elem_of_singleton]; [|by subst].
      apply (Hrg (x_sym <$> exports o)); [|done].
      rewrite Hsh. apply elem_of_app. right. by left.
    + rewrite list_lookup_insert_ne in Hn by done.
      apply (Hrg ss); [|done]. by apply list_elem_of_lookup_2 in Hn.
Qed.

Lemma add_import_scanning (cur : ObjF) (x : XrefRec) (st st' : State) :
  scanning cur st ->
  upd_obj cur (fun o => with_imports (imports o ++ [x]) o) st = Done st' ->
  scanning cur st'.
Proof.
  intros (sh & cs & Hsh & -> & Hch & Hnx & Hrg) H.
  pose proof (upd_obj_syms _ _ _ _ H) as Hsy.
  pose proof H as H'. apply upd_obj_Done in H' as (o & Ho & ->).
  assert (Hsh' : shape (set_objs (<[length sh:=with_imports (imports o ++ [x]) o]> (objs st)) st)
                 = shape st).
  { unfold shape. simpl. rewrite list_fmap_insert. simpl. apply list_insert_id.
    by rewrite list_lookup_fmap, Ho. }
  exists sh, cs. split; [congruence|]. split; [done|]. split; [|split].
  - apply (chains_hold_frame st); [done| |done]. intros y t Hy.
    apply (get_xref_upd_obj_ne _ _ _ _ _ H).
    apply elem_of_sites_from in Hy as (_ & _ & ss & Hss & _). apply lookup_lt_Some in Hss. lia.
  - intros j r Hr. apply (Hnx j). apply get_xref_Done in Hr as (o1 & Ho1 & Hr). simpl in *.
    rewrite list_lookup_insert_eq in Ho1 by by apply lookup_lt_Some in Ho.
    injection Ho1 as <-. simpl in Hr. apply get_xref_Done. eauto.
  - intros ss k. rewrite Hsh'. simpl. apply Hrg.
Qed.

Lemma scan_switch_inv (name : string) (got : scanned) (buf : list ascii) (line : Z)
    (obj : option ObjF) (st : State) (loc' : scan_locals) (st' : State) :
  scan_inv obj st ->
  scan_switch name got buf line obj st = Done (Continue loc' st') ->
  scan_inv (sl_obj loc') st'.
Proof.
  intros Hinv. unfold scan_switch. destruct got as [|tok|tok type]; [done|..].
  - destruct (bool_decide _); [|done]. intros H.
    apply bind_Done in H as (st1 & Hfix & H).
    apply bind_Done in H as ([o st2] & Hc & [= <- <-]). simpl.
    eapply createObj_scanning; [|exact Hc]. by apply (fixupObj_fixed obj st).
  - intros H. apply bind_Done in H as ([cur st1] & Ho & H).
    assert (Hsc : scanning cur st1).
    { destruct obj as [c|]; [by injection Ho as <- <-|].
      eapply createObj_scanning; [|exact Ho].
      by apply (scan_inv_same None st). }
    apply bind_Done in H as ([s st2] & Hi & H).
    apply (intern_sym_scanning cur) in Hi as [Hsc2 Hlt]; [|done].
    destruct (classify st2 (TOUPPER st1 type)); [..|done].
    + apply bind_Done in H as (st3 & Hu & [= <- <-]). simpl.
      eapply add_export_scanning; [exact Hsc2|exact Hlt|exact Hu].
    + apply bind_Done in H as (st3 & Hu & [= <- <-]). simpl.
      eapply add_import_scanning; [exact Hsc2|exact Hu].
Qed.

Lemma scan_loop_fixed (name : string) (input : list scanned) :
  forall loc st st',
    scan_inv (sl_obj loc) st -> scan_loop name input loc st = Done (0, st') ->
    exporters_fixed st'.
Proof.
  induction input as [|got input IH]; intros loc st st' Hinv; simpl.
  - intros H. apply bind_Done in H as (st1 & Hfix & [= <-]).
    eapply fixupObj_fixed; [exact Hinv|exact Hfix].
  - intros H. apply bind_Done in H as (step & Hl & H). destruct step as [rc st1|loc1 st1].
    + injection H as -> <-. unfold scan_line in Hl. destruct (bool_decide _); [done|].
      by apply scan_switch_step in Hl.
    + apply (IH loc1 st1); [|done]. unfold scan_line in Hl.
      destruct (bool_decide _); [done|]. by apply scan_switch_inv in Hl.
Qed.

Lemma scan_files_fixed (inputs : list (list scanned * string)) :
  forall last st last' st',
    exporters_fixed st -> scan_files inputs last st = Done (last', st') ->
    exporters_fixed st'.
Proof.
  induction inputs as [|[input nm] inputs IH]; intros last st last' st' Hfx; simpl.
  - by intros [= <- <-].
  - intros H. apply bind_Done in H as ([rc st1] & Hs & H).
    destruct (Z.eqb_spec rc 0) as [->|]; [|done].
    apply IH in H; [done|]. by apply scan_loop_fixed in Hs.
Qed.

Lemma initial_state_fixed : exporters_fixed initial_state.
Proof.
  split.
  - intros s r Hs. by destruct s.
  - intros ss s [->|H%elem_of_nil]%elem_of_cons; [|done]. by intros ?%elem_of_nil.
Qed.

Lemma elem_of_export_sites (st : State) (x : Xref) (s : Sym) :
  (x, s) ∈ export_sites st <->
  xr_arr x = Exports /\
  exists o r, objs st !! xr_obj x = Some o /\ exports o !! xr_idx x = Some r /\ x_sym r = s.
Proof.
  unfold export_sites. rewrite elem_of_sites_from. rewrite Nat.sub_0_r. split.
  - intros (Ha & _ & cs & Hcs & Hs). split; [done|].
    apply shape_lookup in Hcs as (o & Ho & ->). rewrite list_lookup_fmap in Hs.
    destruct (exports o !! xr_idx x) as [r|] eqn:E; [|done]. injection Hs as <-. eauto.
  - intros (Ha & o & r & Ho & Hr & Hs). split; [done|]. split; [lia|].
    exists (x_sym <$> exports o). split; [apply shape_lookup; eauto|].
    by rewrite list_lookup_fmap, Hr, <- Hs.
Qed.

(** The order of the sites: by object, then by place in the export array. *)
Definition site_le (x y : Xref) : Prop :=
  (xr_obj x < xr_obj y)%nat \/ (xr_obj x = xr_obj y /\ xr_idx x <= xr_idx y)%nat.

Lemma sites_from_sorted (f : ObjF) (sh : list (list Sym)) :
  StronglySorted site_le (sites_from f sh).*1.
Proof.
  revert f. induction sh as [|ss sh IH]; intros f; simpl; [constructor|].
  rewrite fmap_app. apply StronglySorted_app_2; [| |apply IH].
  - intros x y Hx Hy. apply list_elem_of_fmap in Hx as ([x1 s1] & -> & H1).
    apply list_elem_of_fmap in Hy as ([y1 s2] & -> & H2). simpl.
    apply elem_of_obj_sites in H1 as [H1 _]. apply elem_of_sites_from in H2 as (_ & H2 & _).
    left. rewrite H1. simpl. lia.
  - unfold obj_sites. rewrite fmap_imap. clear.
    assert (G : forall k, StronglySorted site_le
              (imap (fun n => (fst ∘ (fun s : nat => (mkXref Exports f (k + n), s)))) ss)).
    { induction ss as [|s ss IH]; intros k; simpl; [constructor|]. constructor.
      - specialize (IH (S k)). erewrite imap_ext; [exact IH|].
        intros i x _. simpl. f_equal. lia.
      - apply Forall_forall. intros y Hy. apply list_elem_of_lookup in Hy as (i & Hi).
        rewrite list_lookup_imap in Hi. destruct (ss !! i); [|done].
        simpl in Hi. injection Hi as <-. right. simpl. lia. }
    exact (G 0%nat).
Qed.

Lemma sites_of_sym_sorted (s : Sym) (sites : list (Xref * Sym)) :
  StronglySorted site_le sites.*1 -> StronglySorted site_le (sites_of_sym s sites).
Proof.
  unfold sites_of_sym. induction sites as [|[x t] sites IH]; simpl; [constructor|].
  intros H. apply StronglySorted_inv in H as [Hs Hf]. rewrite filter_cons. simpl.
  destruct (decide (t = s)); [|by apply IH]. simpl. constructor; [by apply IH|].
  apply Forall_forall. intros y Hy. rewrite Forall_forall in Hf. apply Hf.
  apply list_elem_of_fmap in Hy as (z & -> & Hz). apply list_elem_of_filter in Hz as [_ Hz].
  apply list_elem_of_fmap. eauto.
Qed.

(** C5: once [main] has scanned its inputs (every object read is then
    fixed up), the exporter list of every symbol, read from [exportedBy]
    along [XREF_NEXT], is the list of the definition sites of that symbol:
    each element of an export array that names the symbol, once, ordered
    by exporting object in the order of ingestion (and, within an object,
    by place in its export array). *)
Theorem exporter_list_in_ingest_order (inputs : list (list scanned * string))
    (last : option ObjF) (st : State) (s : Sym) (r : SymRec) :
  scan_files inputs None initial_state = Done (last, st) ->
  syms st !! s = Some r ->
  exists l, exporters s st = Done l /\
    l = sites_of_sym s (export_sites st) /\
    (forall x, x ∈ l <->
       xr_arr x = Exports /\
       exists o e, objs st !! xr_obj x = Some o /\ exports o !! xr_idx x = Some e /\
                   x_sym e = s) /\
    NoDup l /\ StronglySorted site_le l.
Proof.
  intros Hscan Hs. apply scan_files_fixed in Hscan as [Hch _]; [|apply initial_state_fixed].
  exists (sites_of_sym s (export_sites st)). split; [|split; [done|split; [|split]]].
  - assert (E : exporters s st = xref_chain (S (nxrefs st)) (exportedBy r) st)
      by (unfold exporters, get_sym; by rewrite Hs).
    rewrite E. apply xref_chain_is_chain; [by apply Hch|].
    pose proof (length_sites_of_sym s (export_sites st)).
    pose proof (length_export_sites st). lia.
  - intros x. rewrite elem_of_sites_of_sym. apply elem_of_export_sites.
  - apply NoDup_sites_of_sym. apply NoDup_sites_from.
  - apply sites_of_sym_sorted. apply sites_from_sorted.
Qed.

(** Two inputs; [dup] is defined by [a.o], [b.o] and [c.o], in that order. *)
Definition fixup_inputs : list (list scanned * string) :=
  [([Conv1 "a.o:"; Conv2 "dup" "T"; Conv2 "x" "U"; Conv1 "b.o:"; Conv2 "y" "D";
     Conv2 "dup" "W"], "in1");
   ([Conv1 "c.o:"; Conv2 "dup" "T"], "in2")].

Definition fixup_state : State :=
  match scan_files fixup_inputs None initial_state with
  | Done (_, st) => st
  | _ => initial_state
  end.

Lemma exporter_list_in_ingest_order_witness :
  exists l, exporters 0%nat fixup_state = Done l /\
    l = sites_of_sym 0%nat (export_sites fixup_state) /\
    (forall x, x ∈ l <->
       xr_arr x = Exports /\
       exists o e, objs fixup_state !! xr_obj x = Some o /\ exports o !! xr_idx x = Some e /\
                   x_sym e = 0%nat) /\
    NoDup l /\ StronglySorted site_le l.
Proof.
  apply (exporter_list_in_ingest_order fixup_inputs (Some 2%nat) fixup_state 0%nat
           (mkSymRec "dup" "T" (Some (mkXref Exports 1 0)) None)).
  - vm_compute. reflexivity.
  - vm_compute. reflexivity.
Defined.

Example exporters_of_dup :
  exporters 0%nat fixup_state
  = Done [mkXref Exports 1 0; mkXref Exports 2 1; mkXref Exports 3 0].
Proof. vm_compute. reflexivity. Qed.

(** ** The work slots (depwalk, depwalkListRelease) *)

(** The [work] slots of all objects. *)
Definition works (st : State) : list workp := work <$> objs st.

Definition all_work_nil (st : State) : Prop :=
  forall f o, objs st !! f = Some o -> work o = WNull.

(** The state without what a walk writes: the [work] slots, the walk's own
    globals and the output. *)
Definition skel (st : State) : State :=
  mkState (with_work WNull <$> objs st) (syms st) (libs st) (appSet st) (undefSet st)
          (optionalSet st) (fileListIndex st) None 0 (force st) (verbose st) (warn st) [].

(** Nothing but work slots, walk globals and output differs. *)
Definition same_graph (st st' : State) : Prop := skel st' = skel st.

(** The walk's mode and action are the same. *)
Definition same_walk (st st' : State) : Prop :=
  depwalkMode st' = depwalkMode st /\ depwalkAction st' = depwalkAction st.

(** From [x] on, the [work] pointers visit [l] and then reach [BUSY]. *)
Fixpoint wl (W : list workp) (x : ObjF) (l : list ObjF) : Prop :=
  match l with
  | [] => W !! x = Some WBusy
  | y :: l' => W !! x = Some (WObj y) /\ wl W y l'
  end.

(** The work list rooted at [root] is [root :: l], without repetition, and
    its members are the objects whose slot is not null. *)
Definition work_list_inv (W : list workp) (root : ObjF) (l : list ObjF) : Prop :=
  wl W root l /\ NoDup (root :: l) /\
  forall o w, W !! o = Some w -> (w <> WNull <-> o ∈ root :: l).

(** [x :: l] with [g] put in behind [f]. *)
Fixpoint ins_after (f g x : ObjF) (l : list ObjF) : list ObjF :=
  if decide (x = f) then g :: l
  else match l with
       | [] => []
       | y :: l' => y :: ins_after f g y l'
       end.

Lemma same_graph_refl (st : State) : same_graph st st.
Proof. done. Qed.

Lemma same_graph_trans (st1 st2 st3 : State) :
  same_graph st1 st2 -> same_graph st2 st3 -> same_graph st1 st3.
Proof. unfold same_graph. congruence. Qed.

Lemma same_walk_refl (st : State) : same_walk st st.
Proof. done. Qed.

Lemma same_walk_trans (st1 st2 st3 : State) :
  same_walk st1 st2 -> same_walk st2 st3 -> same_walk st1 st3.
Proof. unfold same_walk. intros [] []. split; congruence. Qed.

Lemma with_work_idem (w w' : workp) (o : ObjFRec) :
  with_work w (with_work w' o) = with_work w o.
Proof. done. Qed.

Lemma upd_work_Done (f : ObjF) (w : workp) (st st' : State) :
  upd_obj f (with_work w) st = Done st' ->
  same_graph st st' /\ same_walk st st' /\ works st' = <[f := w]> (works st) /\
  (f < length (objs st))%nat /\ out st' = out st.
Proof.
  intros H. apply upd_obj_Done in H as (o & Ho & ->). split; [|split; [done|split]].
  - unfold same_graph, skel. simpl. f_equal. rewrite list_fmap_insert.
    apply list_insert_id. by rewrite list_lookup_fmap, Ho.
  - unfold works. simpl. by rewrite list_fmap_insert.
  - split; [by apply lookup_lt_Some in Ho|done].
Qed.

Lemma works_lookup (st : State) (f : ObjF) (o : ObjFRec) :
  objs st !! f = Some o -> works st !! f = Some (work o).
Proof. intros H. unfold works. by rewrite list_lookup_fmap, H. Qed.

Lemma same_graph_erase (st st' : State) :
  same_graph st st' -> with_work WNull <$> objs st' = with_work WNull <$> objs st.
Proof. intros H. apply (f_equal objs) in H. exact H. Qed.

Lemma same_graph_obj (st st' : State) (f : ObjF) (o : ObjFRec) :
  same_graph st st' -> objs st !! f = Some o ->
  exists o', objs st' !! f = Some o' /\ with_work WNull o' = with_work WNull o.
Proof.
  intros E%same_graph_erase Ho.
  assert (H : (with_work WNull <$> objs st') !! f = Some (with_work WNull o))
    by (by rewrite E, list_lookup_fmap, Ho).
  rewrite list_lookup_fmap in H. destruct (objs st' !! f) as [o'|]; [|done].
  simpl in H. exists o'. split; [done|]. congruence.
Qed.

Lemma same_graph_sym (st st' : State) : same_graph st st' -> same_graph st' st.
Proof. unfold same_graph. congruence. Qed.

Lemma same_graph_length (st st' : State) :
  same_graph st st' -> length (objs st') = length (objs st).
Proof.
  intros E%same_graph_erase. apply (f_equal length) in E.
  by rewrite !length_fmap in E.
Qed.

Lemma same_graph_xref (st st' : State) (x : Xref) :
  same_graph st st' -> get_xref x st' = get_xref x st.
Proof.
  intros H. unfold get_xref, get_obj.
  destruct (objs st !! xr_obj x) as [o|] eqn:E.
  - destruct (same_graph_obj _ _ _ _ H E) as (o' & -> & Ho'). simpl.
    assert (xarray_of (xr_arr x) o' = xarray_of (xr_arr x) o) as ->; [|done].
    destruct o, o'. simpl in *. injection Ho' as -> -> -> -> -> ->. by destruct (xr_arr x).
  - destruct (objs st' !! xr_obj x) as [o'|] eqn:E'; [|done].
    destruct (same_graph_obj _ _ _ _ (same_graph_sym _ _ H) E') as (o & Ho & _). congruence.
Qed.

Lemma same_graph_syms (st st' : State) : same_graph st st' -> syms st' = syms st.
Proof. intros H. apply (f_equal syms) in H. exact H. Qed.

Lemma same_graph_works (st st' : State) :
  same_graph st st' -> works st' = works st -> objs st' = objs st.
Proof.
  unfold works. intros E%same_graph_erase Hw.
  apply list_eq. intros i. apply (f_equal (.!! i)) in E, Hw.
  rewrite !list_lookup_fmap in E. rewrite !list_lookup_fmap in Hw.
  destruct (objs st' !! i) as [o'|], (objs st !! i) as [o|]; simpl in *; try done.
  destruct o, o'. unfold with_work in E. simpl in *. injection E as -> -> -> -> -> ->. injection Hw as ->. done.
Qed.

Lemma emit_same_graph (e : event) (st : State) : same_graph st (emit e st).
Proof. done. Qed.

Lemma depPrint_same (arg : DepPrintArgRec) (f : ObjF) (d : Z) (st : State) :
  same_graph st (depPrint arg f d st) /\ same_walk st (depPrint arg f d st) /\
  objs (depPrint arg f d st) = objs st.
Proof. unfold depPrint. by destruct (d <? minDepth arg). Qed.

(** *** The work list *)

Lemma wl_frame (W W' : list workp) (l : list ObjF) (x : ObjF) :
  (forall z, z ∈ x :: l -> W' !! z = W !! z) -> wl W x l -> wl W' x l.
Proof.
  revert x. induction l as [|y l IH]; intros x Hf; simpl.
  - intros H. rewrite Hf; [done|by left].
  - intros [H1 H2]. split; [rewrite Hf; [done|by left]|].
    apply IH; [|done]. intros z Hz. apply Hf. by right.
Qed.

Lemma elem_of_ins_after (f g x z : ObjF) (l : list ObjF) :
  f ∈ x :: l -> (z ∈ x :: ins_after f g x l <-> z = g \/ z ∈ x :: l).
Proof.
  revert x. induction l as [|y l IH]; intros x Hf; simpl.
  - apply list_elem_of_singleton in Hf as ->. rewrite decide_True by done.
    rewrite !elem_of_cons. naive_solver.
  - destruct (decide (x = f)) as [->|Hne].
    + rewrite !elem_of_cons. naive_solver.
    + apply elem_of_cons in Hf as [?|Hf]; [congruence|]. specialize (IH y Hf).
      rewrite (elem_of_cons _ z x), IH. rewrite !elem_of_cons. naive_solver.
Qed.

Lemma NoDup_ins_after (f g x : ObjF) (l : list ObjF) :
  f ∈ x :: l -> NoDup (x :: l) -> g ∉ x :: l -> NoDup (x :: ins_after f g x l).
Proof.
  revert x. induction l as [|y l IH]; intros x Hf Hnd Hg; simpl.
  - apply list_elem_of_singleton in Hf as ->. rewrite decide_True by done.
    apply NoDup_cons. split; [|apply NoDup_singleton].
    intros ->%list_elem_of_singleton. apply Hg. by left.
  - destruct (decide (x = f)) as [->|Hne].
    + apply NoDup_cons in Hnd as [Hx Hnd]. apply NoDup_cons. split.
      * intros [->|H]%elem_of_cons; [apply Hg; by left|done].
      * apply NoDup_cons. split; [|done]. intros H. apply Hg. by right.
    + apply elem_of_cons in Hf as [?|Hf]; [congruence|].
      apply NoDup_cons in Hnd as [Hx Hnd]. apply NoDup_cons. split.
      * intros H. apply (elem_of_ins_after f g y x l Hf) in H as [->|H]; [|done].
        apply Hg. by left.
      * apply IH; [done..|]. intros H. apply Hg. by right.
Qed.

Lemma wl_ins_after (W : list workp) (f g x : ObjF) (l : list ObjF) (wf : workp) :
  wl W x l -> f ∈ x :: l -> NoDup (x :: l) -> g ∉ x :: l ->
  W !! f = Some wf -> (g < length W)%nat ->
  wl (<[f := WObj g]> (<[g := wf]> W)) x (ins_after f g x l).
Proof.
  intros Hwl Hf Hnd Hg Hwf Hlt.
  assert (Hflt : (f < length W)%nat) by by apply lookup_lt_Some in Hwf.
  assert (Hgf : g <> f) by (intros ->; done).
  assert (Hother : forall z, z <> f -> z <> g ->
            <[f := WObj g]> (<[g := wf]> W) !! z = W !! z).
  { intros z ? ?. by rewrite !list_lookup_insert_ne. }
  assert (Hatf : <[f := WObj g]> (<[g := wf]> W) !! f = Some (WObj g)).
  { apply list_lookup_insert_eq. by rewrite length_insert. }
  assert (Hatg : <[f := WObj g]> (<[g := wf]> W) !! g = Some wf).
  { rewrite list_lookup_insert_ne by done. by apply list_lookup_insert_eq. }
  revert x Hwl Hf Hnd Hg. induction l as [|y l IH]; intros x Hwl Hf Hnd Hg; simpl.
  - apply list_elem_of_singleton in Hf as ->. rewrite decide_True by done. simpl.
    split; [done|]. simpl in Hwl. congruence.
  - destruct Hwl as [Hx Hwl]. destruct (decide (x = f)) as [->|Hne].
    + simpl. split; [done|]. split; [congruence|].
      apply (wl_frame W); [|done]. intros z Hz. apply Hother.
      * intros ->. by apply NoDup_cons in Hnd as [? _].
      * intros ->. apply Hg. by right.
    + simpl. apply elem_of_cons in Hf as [?|Hf]; [congruence|].
      split.
      * rewrite Hother; [done|done|]. intros ->. apply Hg. by left.
      * apply NoDup_cons in Hnd as [_ Hnd]. apply IH; [done..|].
        intros H. apply Hg. by right.
Qed.

Lemma work_list_inv_insert (W : list workp) (root f g : ObjF) (l : list ObjF) (wf : workp) :
  work_list_inv W root l -> f ∈ root :: l ->
  W !! f = Some wf -> W !! g = Some WNull ->
  work_list_inv (<[f := WObj g]> (<[g := wf]> W)) root (ins_after f g root l) /\
  (forall z, z ∈ root :: ins_after f g root l <-> z = g \/ z ∈ root :: l).
Proof.
  intros (Hwl & Hnd & Hm) Hf Hwf Hwg.
  assert (Hg : g ∉ root :: l).
  { intros H. apply (Hm g WNull Hwg) in H. done. }
  assert (Hlt : (g < length W)%nat) by by apply lookup_lt_Some in Hwg.
  assert (Hgf : g <> f) by (intros ->; done).
  split; [|intros z; by apply elem_of_ins_after].
  split; [by apply (wl_ins_after W f g root l wf)|]. split; [by apply NoDup_ins_after|].
  intros o w Ho. rewrite (elem_of_ins_after f g root o l Hf).
  destruct (decide (o = f)) as [->|Hof].
  - rewrite list_lookup_insert_eq in Ho by by (rewrite length_insert; apply lookup_lt_Some in Hwf).
    injection Ho as <-. split; [by right|done].
  - rewrite list_lookup_insert_ne in Ho by done. destruct (decide (o = g)) as [->|Hog].
    + rewrite list_lookup_insert_eq in Ho by done. injection Ho as <-.
      split; [by left|]. intros _. by apply (Hm f wf Hwf).
    + rewrite list_lookup_insert_ne in Ho by done. rewrite (Hm o w Ho). naive_solver.
Qed.

(** *** What a walk leaves behind *)

(** The effect of [depwalk_rec(f, ...)], and of each part of its loops:
    only work slots and output change; without [WALK_BUILD_LIST] the work
    slots are back as they were; with it, the work list has grown. *)
Definition walked (f : ObjF) (st st' : State) : Prop :=
  same_graph st st' /\ same_walk st st' /\
  (BUILD_LIST st = false -> works st' = works st) /\
  (BUILD_LIST st = true ->
   forall root l, work_list_inv (works st) root l -> f ∈ root :: l ->
     exists l', work_list_inv (works st') root l' /\
                forall z, z ∈ root :: l -> z ∈ root :: l').

Lemma walked_refl (f : ObjF) (st : State) : walked f st st.
Proof.
  split; [done|]. split; [done|]. split; [done|]. intros _ root l H _. exists l. auto.
Qed.

Lemma walked_same (f : ObjF) (st st' : State) :
  same_graph st st' -> same_walk st st' -> works st' = works st -> walked f st st'.
Proof.
  intros Hg Hw E. split; [done|]. split; [done|]. split; [done|].
  intros _ root l H _. exists l. rewrite E. auto.
Qed.

Lemma same_walk_BUILD_LIST (st st' : State) :
  same_walk st st' -> BUILD_LIST st' = BUILD_LIST st.
Proof. intros [E _]. unfold BUILD_LIST. by rewrite E. Qed.

Lemma same_walk_DO_EXPORTS (st st' : State) :
  same_walk st st' -> DO_EXPORTS st' = DO_EXPORTS st.
Proof. intros [E _]. unfold DO_EXPORTS. by rewrite E. Qed.

Lemma walked_trans (f : ObjF) (st1 st2 st3 : State) :
  walked f st1 st2 -> walked f st2 st3 -> walked f st1 st3.
Proof.
  intros (G1 & W1 & D1 & L1) (G2 & W2 & D2 & L2).
  pose proof (same_walk_BUILD_LIST _ _ W1) as Hb.
  split; [by eapply same_graph_trans|]. split; [by eapply same_walk_trans|]. split.
  - intros Hd. rewrite D2 by congruence. by apply D1.
  - intros Hl root l Hi Hf. destruct (L1 Hl root l Hi Hf) as (l2 & Hi2 & Hsub2).
    destruct (L2 ltac:(congruence) root l2 Hi2 (Hsub2 f Hf)) as (l3 & Hi3 & Hsub3).
    exists l3. split; [done|]. auto.
Qed.

Lemma assert_that_Done (a : assertion) (b : bool) (u : unit) :
  assert_that a b = Done u -> b = true.
Proof. by destruct b. Qed.

Lemma expand_ref_walked (rec : ObjF -> Z -> State -> res State) (f : ObjF) (depth : Z)
    (ref : Xref) (st st' : State) :
  (forall g d s s', rec g d s = Done s' -> walked g s s') ->
  expand_ref rec f depth ref st = Done st' -> walked f st st'.
Proof.
  intros Hrec H. unfold expand_ref in H.
  apply bind_Done in H as (rr & Hrr & H). set (g := x_obj rr) in *.
  apply bind_Done in H as (u & Hne & H). apply assert_that_Done in Hne.
  apply bool_decide_eq_true in Hne.
  apply bind_Done in H as (go & Hgo & H). apply get_obj_Done in Hgo.
  case_bool_decide as Hw; [|injection H as <-; apply walked_refl].
  apply bind_Done in H as (fo & Hfo & H). apply get_obj_Done in Hfo.
  apply bind_Done in H as (st1 & H1 & H). apply upd_work_Done in H1 as (G1 & W1 & E1 & _).
  apply bind_Done in H as (st2 & H2 & H). apply upd_work_Done in H2 as (G2 & W2 & E2 & _).
  apply bind_Done in H as (c & _ & H). apply bind_Done in H as (u' & _ & H).
  apply bind_Done in H as (st3 & H3 & H). apply Hrec in H3 as (G3 & W3 & D3 & L3).
  assert (Hwf : works st !! f = Some (work fo)) by by apply works_lookup.
  assert (Hwg : works st !! g = Some WNull) by (rewrite <- Hw; by apply works_lookup).
  assert (Hb2 : BUILD_LIST st2 = BUILD_LIST st).
  { rewrite (same_walk_BUILD_LIST _ _ W2). by apply same_walk_BUILD_LIST. }
  assert (Hb3 : BUILD_LIST st3 = BUILD_LIST st).
  { rewrite (same_walk_BUILD_LIST _ _ W3). done. }
  destruct (BUILD_LIST st3) eqn:Eb; simpl in H.
  - injection H as <-.
    split; [eauto using same_graph_trans|]. split; [eauto using same_walk_trans|].
    split; [congruence|]. intros _ root l Hi Hf.
    destruct (work_list_inv_insert _ root f g l (work fo) Hi Hf Hwf Hwg) as [Hi2 Hel].
    rewrite <- E1, <- E2 in Hi2.
    destruct (L3 ltac:(congruence) root _ Hi2) as (l' & Hi3 & Hsub).
    { apply Hel. by left. }
    exists l'. split; [done|]. intros z Hz. apply Hsub, Hel. by right.
  - apply bind_Done in H as (go3 & Hgo3 & H). apply get_obj_Done in Hgo3.
    apply bind_Done in H as (st4 & H4 & H5).
    apply upd_work_Done in H4 as (G4 & W4 & E4 & _).
    apply upd_work_Done in H5 as (G5 & W5 & E5 & _).
    split; [eauto 6 using same_graph_trans|]. split; [eauto 6 using same_walk_trans|].
    split; [|congruence]. intros _.
    assert (E3 : works st3 = works st2) by (apply D3; congruence).
    apply works_lookup in Hgo3. rewrite E3, E2, E1 in Hgo3.
    rewrite list_lookup_insert_ne in Hgo3 by done.
    rewrite list_lookup_insert_eq in Hgo3 by by apply lookup_lt_Some in Hwg.
    injection Hgo3 as Hgo3. rewrite E5, E4, E3, E2, E1, <- Hgo3.
    apply list_eq. intros i. destruct (decide (i = g)) as [->|Hig].
    + rewrite list_lookup_insert_eq; [done|]. rewrite !length_insert.
      by apply lookup_lt_Some in Hwg.
    + rewrite list_lookup_insert_ne by done. destruct (decide (i = f)) as [->|Hif].
      * rewrite list_lookup_insert_eq; [done|]. rewrite !length_insert.
        by apply lookup_lt_Some in Hwf.
      * by rewrite !list_lookup_insert_ne.
Qed.

Lemma walk_refs_walked (rec : ObjF -> Z -> State -> res State) (fuel : nat) (f : ObjF)
    (depth : Z) :
  (forall g d s s', rec g d s = Done s' -> walked g s s') ->
  forall ref st st', walk_refs rec fuel f depth ref st = Done st' -> walked f st st'.
Proof.
  intros Hrec. induction fuel as [|fuel IH]; intros ref st st'; simpl.
  - destruct ref; [done|]. intros [= <-]. apply walked_refl.
  - destruct ref as [r|]; [|intros [= <-]; apply walked_refl].
    intros H. apply bind_Done in H as (st1 & H1 & H).
    apply bind_Done in H as (nxt & _ & H).
    apply expand_ref_walked in H1; [|done]. apply IH in H. by eapply walked_trans.
Qed.

Lemma depwalk_body_walked (rec : ObjF -> Z -> State -> res State) (f : ObjF) (depth : Z)
    (st st' : State) :
  (forall g d s s', rec g d s = Done s' -> walked g s s') ->
  depwalk_body rec f depth st = Done st' -> walked f st st'.
Proof.
  intros Hrec H. unfold depwalk_body in H.
  set (st0 := match depwalkAction st with
              | Some arg => depPrint arg f depth st | None => st end) in H.
  assert (H0 : walked f st st0).
  { unfold st0. destruct (depwalkAction st) as [arg|]; [|apply walked_refl].
    destruct (depPrint_same arg f depth st) as (? & ? & E).
    apply walked_same; [done..|]. unfold works. by rewrite E. }
  apply bind_Done in H as (o & _ & H). eapply walked_trans; [exact H0|].
  revert H. apply for_each_invariant.
  - apply walked_refl.
  - apply walked_trans.
  - intros i s s' _ Hi. unfold expand_entry in Hi.
    apply bind_Done in Hi as (o' & _ & Hi). apply bind_Done in Hi as (x & _ & Hi).
    apply bind_Done in Hi as (sr & _ & Hi). by eapply walk_refs_walked.
Qed.

Lemma depwalk_rec_walked (fuel : nat) :
  forall f depth st st', depwalk_rec fuel f depth st = Done st' -> walked f st st'.
Proof.
  induction fuel as [|fuel IH]; intros f depth st st'; simpl; [done|].
  by apply depwalk_body_walked.
Qed.

(** *** depwalk and the release of the list *)

Lemma set_depwalk_same (a : option DepPrintArgRec) (m : Z) (st : State) :
  same_graph st (set_depwalk a m st) /\ objs (set_depwalk a m st) = objs st.
Proof. done. Qed.

Lemma depwalk_Done (f : ObjF) (action : option DepPrintArgRec) (mode : Z) (st st1 : State) :
  depwalk f action mode st = Done st1 ->
  same_graph st st1 /\ works st !! f = Some WNull /\
  BUILD_LIST st = false /\
  (flag_set mode WALK_BUILD_LIST = false -> works st1 = works st) /\
  (flag_set mode WALK_BUILD_LIST = true ->
     depwalkMode st1 = mode /\ depwalkAction st1 = action /\
     (all_work_nil st -> exists l, work_list_inv (works st1) f l)).
Proof.
  unfold depwalk. intros H. apply bind_Done in H as (o & Ho & H). apply get_obj_Done in Ho.
  apply bind_Done in H as (u & Hw & H). apply assert_that_Done, bool_decide_eq_true in Hw.
  apply bind_Done in H as (u' & Hb & H). apply assert_that_Done, negb_true_iff in Hb.
  set (sta := set_depwalk _ mode st) in H.
  apply bind_Done in H as (stb & Hup & H). apply upd_work_Done in Hup as (Gb & Wb & Eb & _).
  apply bind_Done in H as (stc & Hrec & H).
  apply depwalk_rec_walked in Hrec as (Gc & Wc & Dc & Lc).
  assert (Hwf : works st !! f = Some WNull) by (rewrite <- Hw; by apply works_lookup).
  assert (Hmode : depwalkMode stc = mode).
  { destruct Wc as [-> _]. destruct Wb as [-> _]. done. }
  assert (Hbc : BUILD_LIST stc = flag_set mode WALK_BUILD_LIST).
  { unfold BUILD_LIST. by rewrite Hmode. }
  assert (Hbb : BUILD_LIST stb = flag_set mode WALK_BUILD_LIST).
  { unfold BUILD_LIST. destruct Wb as [-> _]. done. }
  assert (Gst : same_graph st stc).
  { eapply same_graph_trans; [|exact Gc]. eapply same_graph_trans; [|exact Gb]. done. }
  change (works sta) with (works st) in Eb.
  split; [|split; [done|split; [done|split]]].
  - rewrite Hbc in H. destruct (flag_set mode WALK_BUILD_LIST).
    + injection H as <-. done.
    + apply upd_work_Done in H as (G & _). by eapply same_graph_trans.
  - intros Hm. rewrite Hbc, Hm in H. apply upd_work_Done in H as (_ & _ & E & _).
    rewrite E, Dc, Eb by congruence. apply list_eq. intros i.
    destruct (decide (i = f)) as [->|Hne].
    + rewrite list_lookup_insert_eq; [done|]. rewrite length_insert.
      by apply lookup_lt_Some in Hwf.
    + by rewrite !list_lookup_insert_ne.
  - intros Hm. rewrite Hbc, Hm in H. injection H as <-. split; [done|]. split; [done|].
    intros Hnil. change (works (set_depwalk action (depwalkMode stc) stc)) with (works stc).
    destruct (Lc ltac:(congruence) f []) as (l & Hl & _); [|by left|by exists l].
    rewrite Eb. split; [|split].
    + simpl. apply list_lookup_insert_eq. by apply lookup_lt_Some in Hwf.
    + apply NoDup_singleton.
    + intros i w Hi. rewrite list_elem_of_singleton. destruct (decide (i = f)) as [->|Hne].
      * rewrite list_lookup_insert_eq in Hi by by apply lookup_lt_Some in Hwf.
        injection Hi as <-. done.
      * rewrite list_lookup_insert_ne in Hi by done. unfold works in Hi.
        rewrite list_lookup_fmap in Hi. destruct (objs st !! i) as [oi|] eqn:Ei; [|done].
        injection Hi as <-. rewrite (Hnil i oi Ei). done.
Qed.

Lemma workListRelease_Done (l : list ObjF) :
  forall fuel x st st',
    wl (works st) x l -> NoDup (x :: l) ->
    workListRelease fuel (WObj x) st = Done st' ->
    same_graph st st' /\ same_walk st st' /\
    (forall o, o ∈ x :: l -> works st' !! o = Some WNull) /\
    (forall o, o ∉ x :: l -> works st' !! o = works st !! o).
Proof.
  induction l as [|y l IH]; intros fuel x st st' Hwl Hnd H;
    (destruct fuel as [|fuel]; [done|]); simpl in H;
    apply bind_Done in H as (r & Hr & H); apply get_obj_Done in Hr;
    apply bind_Done in H as (st1 & H1 & H); apply upd_work_Done in H1 as (G1 & W1 & E1 & Hlt & _);
    apply works_lookup in Hr as Hwx; simpl in Hwl.
  - assert (Hwr : work r = WBusy) by congruence. rewrite Hwr in H.
    assert (st' = st1) as -> by (destruct fuel; simpl in H; congruence).
    split; [done|]. split; [done|]. split.
    + intros o ->%list_elem_of_singleton. rewrite E1. apply list_lookup_insert_eq.
      unfold works. by rewrite length_fmap.
    + intros o Ho. rewrite E1. apply list_lookup_insert_ne. intros ->. apply Ho. by left.
  - destruct Hwl as [Hx Hwl]. assert (Hwr : work r = WObj y) by congruence.
    rewrite Hwr in H.
    apply NoDup_cons in Hnd as [Hxl Hnd].
    apply IH in H as (G & W & Hin & Hout); [|rewrite E1|done].
    2:{ apply (wl_frame (works st)); [|done]. intros z Hz.
        apply list_lookup_insert_ne. by intros ->. }
    split; [by eapply same_graph_trans|]. split; [by eapply same_walk_trans|]. split.
    + intros o [->|Ho]%elem_of_cons; [|by apply Hin].
      rewrite Hout by done. rewrite E1. apply list_lookup_insert_eq.
      unfold works. by rewrite length_fmap.
    + intros o Ho. apply not_elem_of_cons in Ho as [Hox Ho]. rewrite Hout by done.
      rewrite E1. by apply list_lookup_insert_ne.
Qed.

Lemma workListIterate_print (arg : DepPrintArgRec) (fuel : nat) :
  forall w d c st c' st',
    workListIterate fuel w (depPrintAction arg) d c st = Done (c', st') ->
    same_graph st st' /\ same_walk st st' /\ objs st' = objs st.
Proof.
  induction fuel as [|fuel IH]; intros w d c st c' st'; simpl.
  - destruct w; [intros [= <- <-]; done..|done].
  - destruct w as [| |o]; [intros [= <- <-]; done..|].
    intros H. unfold depPrintAction in H at 1. simpl in H.
    apply bind_Done in H as (r & _ & H). apply IH in H as (G & W & E).
    destruct (depPrint_same arg o d st) as (G0 & W0 & E0).
    split; [by eapply same_graph_trans|]. split; [by eapply same_walk_trans|]. congruence.
Qed.

Lemma depwalkListRelease_Done (f : ObjF) (l : list ObjF) (st st' : State) :
  work_list_inv (works st) f l ->
  depwalkListRelease f st = Done st' ->
  same_graph st st' /\ all_work_nil st' /\ depwalkMode st' = 0 /\
  depwalkAction st' = depwalkAction st.
Proof.
  intros (Hwl & Hnd & Hm) H. unfold depwalkListRelease in H.
  apply bind_Done in H as (u & _ & H). apply bind_Done in H as (st1 & H1 & H).
  assert (G1 : same_graph st st1 /\ same_walk st st1 /\ objs st1 = objs st).
  { destruct (depwalkAction st) as [arg|]; [|by injection H1 as <-].
    apply bind_Done in H1 as ([c st0] & Hit & [= <-]). by apply workListIterate_print in Hit. }
  destruct G1 as (G1 & W1 & E1).
  apply bind_Done in H as (st2 & H2 & [= <-]).
  assert (Ew : works st1 = works st) by (unfold works; by rewrite E1).
  apply (workListRelease_Done l) in H2 as (G2 & W2 & Hin & Hout); [|by rewrite Ew|done].
  split; [eapply same_graph_trans; [exact G1|exact G2]|].
  split; [|split; [done|]].
  - intros i o Ho. simpl in Ho. apply works_lookup in Ho.
    destruct (decide (i ∈ f :: l)) as [Hi|Hi].
    + rewrite Hin in Ho by done. by injection Ho.
    + rewrite Hout, Ew in Ho by done. destruct (work o) eqn:E; [done|exfalso..].
      * apply Hi. by apply (Hm i WBusy).
      * apply Hi. by apply (Hm i (WObj o0)).
  - simpl. destruct W2 as [_ ->]. by destruct W1 as [_ ->].
Qed.

Lemma all_work_nil_objs (st st' : State) :
  same_graph st st' -> all_work_nil st -> all_work_nil st' -> objs st' = objs st.
Proof.
  intros G H H'. apply same_graph_works; [done|]. apply list_eq. intros i. unfold works.
  rewrite !list_lookup_fmap.
  destruct (objs st !! i) as [o|] eqn:E.
  - destruct (same_graph_obj _ _ _ _ G E) as (o' & Ho' & _). rewrite Ho'. simpl.
    by rewrite (H i o E), (H' i o' Ho').
  - destruct (objs st' !! i) as [o'|] eqn:E'; [|done].
    destruct (same_graph_obj _ _ _ _ (same_graph_sym _ _ G) E') as (o & Ho & _). congruence.
Qed.

(** C6: start from a state whose work slots are all null.  When a walk in
    direct-action mode returns, every work slot is null again; when a
    list-building walk has returned and [depwalkListRelease] has run, every
    work slot is null again.  This holds for every start object, every
    action and every mode word (exports or imports).  In both cases the
    objects are exactly as before the walk. *)
Theorem work_slots_nil_after_walk (f : ObjF) (action : option DepPrintArgRec) (mode : Z)
    (st st1 : State) :
  all_work_nil st ->
  depwalk f action mode st = Done st1 ->
  (flag_set mode WALK_BUILD_LIST = false -> all_work_nil st1 /\ objs st1 = objs st) /\
  (flag_set mode WALK_BUILD_LIST = true ->
     forall st2, depwalkListRelease f st1 = Done st2 ->
                 all_work_nil st2 /\ objs st2 = objs st).
Proof.
  intros Hnil H. apply depwalk_Done in H as (G & _ & _ & Hd & Hl). split.
  - intros Hm. assert (E : objs st1 = objs st) by (apply same_graph_works; auto).
    split; [|done]. intros i o. rewrite E. apply Hnil.
  - intros Hm st2 H2. destruct (Hl Hm) as (_ & _ & Hlist). destruct (Hlist Hnil) as (l & Hinv).
    apply (depwalkListRelease_Done f l) in H2 as (G2 & Hnil2 & _); [|done].
    split; [done|]. apply all_work_nil_objs; [|done..]. by eapply same_graph_trans.
Qed.

(** A dependency cycle: [a.o] defines [x] and needs [y], [b.o] defines [y]
    and needs [x]. *)
Definition cycle_input : list scanned :=
  [Conv1 "a.o:"; Conv2 "x" "T"; Conv2 "y" "U"; Conv1 "b.o:"; Conv2 "y" "T"; Conv2 "x" "U"].

Definition result_state (r : res State) : State :=
  match r with Done st => st | _ => initial_state end.

Definition cycle_state : State := result_state (snd <$> ldep [(cycle_input, "in")]).

Definition print_arg : DepPrintArgRec := mkDepPrintArg 0 0 (-1).

Definition cycle_walked : State :=
  result_state (depwalk 1%nat (Some print_arg) WALK_EXPORTS cycle_state).

Definition cycle_listed : State :=
  result_state (depwalk 1%nat (Some print_arg) (Z.lor WALK_EXPORTS WALK_BUILD_LIST)
                  cycle_state).

Definition cycle_released : State := result_state (depwalkListRelease 1%nat cycle_listed).

Lemma all_work_nil_Forall (st : State) :
  Forall (fun o => work o = WNull) (objs st) -> all_work_nil st.
Proof. intros H f o Ho. rewrite Forall_lookup in H. by apply (H f). Qed.

Lemma work_slots_nil_after_walk_witness :
  (all_work_nil cycle_walked /\ objs cycle_walked = objs cycle_state)
  /\ (all_work_nil cycle_released /\ objs cycle_released = objs cycle_state).
Proof.
  assert (Hnil : all_work_nil cycle_state).
  { apply all_work_nil_Forall. vm_compute. repeat constructor. }
  assert (H1 : depwalk 1%nat (Some print_arg) WALK_EXPORTS cycle_state = Done cycle_walked)
    by (vm_compute; reflexivity).
  assert (H2 : depwalk 1%nat (Some print_arg) (Z.lor WALK_EXPORTS WALK_BUILD_LIST) cycle_state
               = Done cycle_listed) by (vm_compute; reflexivity).
  assert (H3 : depwalkListRelease 1%nat cycle_listed = Done cycle_released)
    by (vm_compute; reflexivity).
  split.
  - exact (proj1 (work_slots_nil_after_walk _ _ _ _ _ Hnil H1) eq_refl).
  - exact (proj2 (work_slots_nil_after_walk _ _ _ _ _ Hnil H2) eq_refl _ H3).
Defined.

Example cycle_walk_output :
  out cycle_walked = out cycle_state ++ [E_dep 0 1%nat; E_dep 0 2%nat]
  /\ out cycle_released = out cycle_state ++ [E_dep 0 1%nat; E_dep 0 2%nat]
  /\ works cycle_listed = [WNull; WObj 2%nat; WBusy].
Proof. split; [|split]; vm_compute; reflexivity. Qed.

(** ** Rejection of an unlink (unlinkObj) *)

Lemma ret_bind {A B} (a : A) (k : A -> res B) : Done a ≫= k = k a.
Proof. done. Qed.

(** The objects [workListIterate] visits from [f] on. *)
Fixpoint work_list (fuel : nat) (f : workp) (st : State) : res (list ObjF) :=
  match f with
  | WNull | WBusy => Done []
  | WObj o =>
      match fuel with
      | O => OutOfFuel
      | S fuel' =>
          r ← get_obj o st;
          l ← work_list fuel' (work r) st;
          Done (o :: l)
      end
  end.

Definition in_app (st : State) (m : ObjF) : Prop :=
  exists o, objs st !! m = Some o /\ link_anchor o = Some appLinkSet.

Lemma same_graph_in_app (st st' : State) (m : ObjF) :
  same_graph st st' -> in_app st m -> in_app st' m.
Proof.
  intros G (o & Ho & Ha). destruct (same_graph_obj _ _ _ _ G Ho) as (o' & Ho' & E).
  exists o'. split; [done|]. apply (f_equal link_anchor) in E. simpl in E. congruence.
Qed.

Lemma checkSysLinkSet_Done (f : ObjF) (d reject : Z) (st : State) (reject' : Z) (st' : State) :
  checkSysLinkSet f d reject st = Done (reject', st') ->
  objs st' = objs st /\ same_graph st st' /\ same_walk st st' /\
  ((in_app st f /\ reject' = 1) \/ (~ in_app st f /\ reject' = reject)).
Proof.
  unfold checkSysLinkSet. intros H. apply bind_Done in H as (o & Ho & H).
  apply get_obj_Done in Ho. case_bool_decide as Ha.
  - injection H as <- <-. split; [by destruct (_ && _)|]. split; [by destruct (_ && _)|].
    split; [by destruct (_ && _)|]. left. split; [|done]. by exists o.
  - injection H as <- <-. split; [done|]. split; [done|]. split; [done|]. right.
    split; [|done]. intros (o' & Ho' & Ha'). congruence.
Qed.

Lemma workListIterate_check (fuel : nat) :
  forall w d c st c' st',
    workListIterate fuel w checkSysLinkSet d c st = Done (c', st') ->
    objs st' = objs st /\ same_graph st st' /\ same_walk st st' /\
    exists l, work_list fuel w st = Done l /\
      ((c' = 1 /\ exists m, m ∈ l /\ in_app st m) \/
       (c' = c /\ forall m, m ∈ l -> ~ in_app st m)).
Proof.
  induction fuel as [|fuel IH]; intros w d c st c' st' H.
  - destruct w; simpl in H; [injection H as <- <-..|done];
      (split; [done|]; split; [done|]; split; [done|]); exists []; split; [done| |done|];
      right; (split; [done|]); by intros m ?%elem_of_nil.
  - destruct w as [| |o]; simpl in H; [injection H as <- <-..|].
    1,2: (split; [done|]; split; [done|]; split; [done|]); exists []; (split; [done|]);
      right; (split; [done|]); by intros m ?%elem_of_nil.
    apply bind_Done in H as ([c1 st1] & Hc & H).
    apply checkSysLinkSet_Done in Hc as (E1 & G1 & W1 & Hc).
    apply bind_Done in H as (r & Hr & H). apply IH in H as (E2 & G2 & W2 & l & Hl & Hcl).
    split; [congruence|]. split; [by eapply same_graph_trans|].
    split; [by eapply same_walk_trans|].
    assert (Hr' : get_obj o st = Done r) by (unfold get_obj in *; by rewrite <- E1).
    assert (Hl' : work_list fuel (work r) st = Done l).
    { rewrite <- Hl. clear -E1. generalize (work r). induction fuel as [|n IHn]; intros w.
      - by destruct w.
      - destruct w as [| |o']; simpl; [done..|]. unfold get_obj. rewrite E1.
        destruct (objs st !! o') as [r'|]; simpl; [|done]. by rewrite IHn. }
    exists (o :: l). split.
    { change (work_list (S fuel) (WObj o) st)
        with (get_obj o st ≫= fun r => work_list fuel (work r) st ≫= fun l => Done (o :: l)).
      rewrite Hr'. rewrite ret_bind. rewrite Hl'. reflexivity. }
    assert (Hin : forall m, in_app st1 m <-> in_app st m).
    { intros m. unfold in_app. by rewrite E1. }
    destruct Hcl as [(-> & m & Hm & Ha)|(-> & Hno)].
    + left. split; [done|]. exists m. split; [by right|]. by apply Hin.
    + destruct Hc as [(Ha & ->)|(Hna & ->)].
      * left. split; [done|]. exists o. split; [by left|done].
      * right. split; [done|]. intros m [->|Hm]%elem_of_cons; [done|].
        intros Ha. by apply (Hno m Hm), Hin.
Qed.

Lemma workListRelease_same (fuel : nat) :
  forall w st st', workListRelease fuel w st = Done st' -> same_graph st st'.
Proof.
  induction fuel as [|fuel IH]; intros w st st'; simpl.
  - destruct w; [by intros [= <-]..|done].
  - destruct w as [| |o]; [by intros [= <-]..|].
    intros H. apply bind_Done in H as (r & _ & H). apply bind_Done in H as (st1 & H1 & H).
    apply upd_work_Done in H1 as (G1 & _). apply IH in H. by eapply same_graph_trans.
Qed.

Lemma depwalkListRelease_same (f : ObjF) (st st' : State) :
  depwalkListRelease f st = Done st' -> same_graph st st'.
Proof.
  unfold depwalkListRelease. intros H.
  apply bind_Done in H as (u & _ & H). apply bind_Done in H as (st1 & H1 & H).
  assert (G1 : same_graph st st1).
  { destruct (depwalkAction st) as [arg|]; [|by injection H1 as <-].
    apply bind_Done in H1 as ([c st0] & Hit & [= <-]).
    by apply workListIterate_print in Hit as (G & _). }
  apply bind_Done in H as (st2 & H2 & [= <-]). apply workListRelease_same in H2.
  eapply same_graph_trans; [exact G1|]. exact H2.
Qed.

(** What stays when only work slots, walk globals and output change. *)
Lemma same_graph_fields (st st' : State) :
  same_graph st st' ->
  syms st' = syms st /\ appSet st' = appSet st /\ undefSet st' = undefSet st /\
  optionalSet st' = optionalSet st /\
  forall m o, objs st !! m = Some o ->
    exists o', objs st' !! m = Some o' /\
      exports o' = exports o /\ imports o' = imports o /\
      link_anchor o' = link_anchor o /\ link_next o' = link_next o.
Proof.
  intros G. split; [exact (f_equal syms G)|]. split; [exact (f_equal appSet G)|].
  split; [exact (f_equal undefSet G)|]. split; [exact (f_equal optionalSet G)|].
  intros m o Ho. destruct (same_graph_obj _ _ _ _ G Ho) as (o' & Ho' & E).
  exists o'. split; [done|].
  split; [exact (f_equal exports E)|]. split; [exact (f_equal imports E)|].
  split; [exact (f_equal link_anchor E)|exact (f_equal link_next E)].
Qed.

(** When [unlinkObj(f)] returns, its result [reject] is not 0 (it is 1
    then) if and only if some member of the work list built from [f] has
    the Application link set as its anchor; and when it is refused nothing
    of the graph has changed. *)
Lemma unlinkObj_rejects (f : ObjF) (st : State) (reject : Z) (st' : State) :
  unlinkObj f st = Done (reject, st') ->
  exists st1 l,
    depwalk f None (Z.lor WALK_EXPORTS WALK_BUILD_LIST) st = Done st1 /\
    work_list (work_fuel st1) (WObj f) st1 = Done l /\
    head l = Some f /\
    (reject <> 0 <-> exists m, m ∈ l /\ in_app st m) /\
    (reject <> 0 ->
       reject = 1 /\
       syms st' = syms st /\ appSet st' = appSet st /\ undefSet st' = undefSet st /\
       optionalSet st' = optionalSet st /\
       forall m o, objs st !! m = Some o ->
         exists o', objs st' !! m = Some o' /\
           exports o' = exports o /\ imports o' = imports o /\
           link_anchor o' = link_anchor o /\ link_next o' = link_next o).
Proof.
  unfold unlinkObj. intros H. apply bind_Done in H as (st1 & H1 & H).
  exists st1. apply depwalk_Done in H1 as HG. destruct HG as (G1 & _).
  apply bind_Done in H as ([rej st2] & H2 & H).
  apply workListIterate_check in H2 as (E2 & G2 & W2 & l & Hl & Hrej).
  apply bind_Done in H as (st3 & H3 & H). apply bind_Done in H as (st4 & H4 & [= <- <-]).
  apply depwalkListRelease_same in H4.
  exists l. split; [done|]. split; [done|]. split.
  { unfold work_fuel in Hl. simpl in Hl. apply bind_Done in Hl as (r & _ & Hl).
    apply bind_Done in Hl as (l0 & _ & [= <-]). done. }
  assert (Hiff : rej <> 0 <-> exists m, m ∈ l /\ in_app st m).
  { destruct Hrej as [(-> & m & Hm & Ha)|(-> & Hno)].
    - split; [|done]. intros _. exists m. split; [done|].
      apply (same_graph_in_app st1); [by apply same_graph_sym|done].
    - split; [done|]. intros (m & Hm & Ha). exfalso. apply (Hno m Hm).
      by apply (same_graph_in_app st). }
  split; [done|]. intros Hne.
  assert (rej = 1) as -> by (destruct Hrej as [[-> _]|[-> _]]; done).
  split; [done|]. simpl in H3. injection H3 as <-.
  apply same_graph_fields.
  eapply same_graph_trans; [exact G1|]. eapply same_graph_trans; [exact G2|exact H4].
Qed.

(** [a.o] is mandatory and needs [puts] from [b.o], which comes with the
    second input. *)
Definition puts_inputs : list (list scanned * string) :=
  [([Conv1 "a.o:"; Conv2 "main" "T"; Conv2 "puts" "U"], "in1");
   ([Conv1 "b.o:"; Conv2 "puts" "T"], "in2")].

Definition puts_state : State := result_state (snd <$> ldep puts_inputs).

Definition puts_unlinked : State := result_state (snd <$> unlinkObj 2%nat puts_state).

Example puts_unlink_refused :
  unlinkObj 2%nat puts_state
  = Done (1, set_depwalk None 0 (emit (E_rejected 2%nat) puts_state))
  /\ work_list 3 (WObj 2%nat)
       (result_state (depwalk 2%nat None (Z.lor WALK_EXPORTS WALK_BUILD_LIST) puts_state))
     = Done [2%nat; 1%nat].
Proof. split; vm_compute; reflexivity. Qed.

(** ** The assertion of depwalk_rec *)

(** [y] is met from [p] on along [XREF_NEXT]. *)
Inductive chain_reach (st : State) : option Xref -> Xref -> Prop :=
  | chain_here x : chain_reach st (Some x) x
  | chain_next x r y :
      get_xref x st = Done r -> chain_reach st (x_next r) y -> chain_reach st (Some x) y.

(** [ref] is one of the cross references the walk follows when it expands
    [f]: in exports mode any importer of a symbol [f] exports, in imports
    mode the first exporter of a symbol [f] imports. *)
Definition followed (st : State) (exports_mode : bool) (f : ObjF) (ref : Xref) : Prop :=
  exists o e s,
    objs st !! f = Some o /\
    e ∈ (if exports_mode then exports o else imports o) /\
    syms st !! x_sym e = Some s /\
    (if exports_mode then chain_reach st (importedFrom s) ref else exportedBy s = Some ref).

(** No object exports a symbol and holds a linked import of it, and no
    object is the first exporter of a symbol it imports. *)
Definition no_self_ref (st : State) : Prop :=
  forall m f ref, followed st m f ref -> xr_obj ref <> f.

(** [checkObjPtrs() == 0]: the [obj] of a cross reference is the object
    that holds it. *)
Definition obj_ptrs_ok (st : State) : Prop :=
  forall x r, get_xref x st = Done r -> x_obj r = xr_obj x.

Lemma chain_reach_same (st st' : State) (p : option Xref) (y : Xref) :
  same_graph st st' -> chain_reach st p y -> chain_reach st' p y.
Proof.
  intros G. induction 1 as [|x r y Hx _ IH]; [constructor|].
  apply (chain_next _ x r); [|done]. by rewrite (same_graph_xref st).
Qed.

Lemma followed_same (st st' : State) (m : bool) (f : ObjF) (ref : Xref) :
  same_graph st st' -> followed st m f ref -> followed st' m f ref.
Proof.
  intros G (o & e & s & Ho & He & Hs & Hc).
  destruct (same_graph_fields _ _ G) as (Es & _ & _ & _ & Hobj).
  destruct (Hobj f o Ho) as (o' & Ho' & Ee & Ei & _).
  exists o', e, s. split; [done|]. split; [by destruct m; congruence|].
  split; [by rewrite Es|]. destruct m; [|done]. by apply (chain_reach_same st).
Qed.

Lemma no_self_ref_same (st st' : State) :
  same_graph st st' -> no_self_ref st -> no_self_ref st'.
Proof.
  intros G H m f ref Hf. apply (H m). apply (followed_same st'); [|done].
  by apply same_graph_sym.
Qed.

Lemma obj_ptrs_ok_same (st st' : State) :
  same_graph st st' -> obj_ptrs_ok st -> obj_ptrs_ok st'.
Proof. intros G H x r. rewrite (same_graph_xref st) by done. apply H. Qed.

Lemma bind_Fail {A B} (m : res A) (k : A -> res B) (e : failure) :
  m ≫= k = Fail e -> m = Fail e \/ exists a, m = Done a /\ k a = Fail e.
Proof. destruct m; simpl; [eauto|intros [= ->]; eauto|done]. Qed.

Lemma assert_that_Fail (a : assertion) (b : bool) (e : failure) :
  assert_that a b = Fail e -> e = AssertFailed a /\ b = false.
Proof. destruct b; [done|]. by intros [= <-]. Qed.

Lemma deref_Fail {A} (o : option A) (e : failure) : deref o = Fail e -> e = BadPointer.
Proof. destruct o; [done|]. by intros [= <-]. Qed.

Lemma get_obj_Fail (f : ObjF) (st : State) (e : failure) :
  get_obj f st = Fail e -> e = BadPointer.
Proof. apply deref_Fail. Qed.

Lemma get_sym_Fail (s : Sym) (st : State) (e : failure) :
  get_sym s st = Fail e -> e = BadPointer.
Proof. apply deref_Fail. Qed.

Lemma get_xref_Fail (x : Xref) (st : State) (e : failure) :
  get_xref x st = Fail e -> e = BadPointer.
Proof.
  unfold get_xref. intros [H|(o & _ & H)]%bind_Fail.
  - by apply get_obj_Fail in H.
  - by apply deref_Fail in H.
Qed.

Lemma upd_obj_Fail (f : ObjF) (g : ObjFRec -> ObjFRec) (st : State) (e : failure) :
  upd_obj f g st = Fail e -> e = BadPointer.
Proof.
  unfold upd_obj. intros [H|(o & _ & H)]%bind_Fail; [by apply get_obj_Fail in H|done].
Qed.

Lemma for_each_Fail {A S} (Inv : S -> Prop) (l : list A) (body : A -> S -> res S)
    (e : failure) :
  (forall a s s', a ∈ l -> Inv s -> body a s = Done s' -> Inv s') ->
  forall s, Inv s -> for_each l body s = Fail e ->
    exists a s1, a ∈ l /\ Inv s1 /\ body a s1 = Fail e.
Proof.
  induction l as [|a l IH]; intros Hstep s Hs; simpl; [done|].
  intros [H|(s1 & H1 & H)]%bind_Fail.
  - exists a, s. split; [by left|done].
  - destruct (IH (fun b t t' Hb => Hstep b t t' (list_elem_of_further _ _ _ Hb)) s1) as
      (b & s2 & Hb & Hs2 & Hf); [by eapply (Hstep a s s1); [left|..]|done|].
    exists b, s2. split; [by right|done].
Qed.

Lemma workListIterate_circ_Fail (test : ObjF) (fuel : nat) :
  forall w d c st e,
    workListIterate fuel w (circCheckAction test) d c st = Fail e -> e = BadPointer.
Proof.
  induction fuel as [|fuel IH]; intros w d c st e; simpl.
  - by destruct w.
  - destruct w as [| |o]; [done..|]. unfold circCheckAction at 1. simpl.
    intros [H|(r & _ & H)]%bind_Fail; [by apply get_obj_Fail in H|by apply IH in H].
Qed.

Lemma checkCircWorkList_Fail (f : ObjF) (st : State) (e : failure) :
  checkCircWorkList f st = Fail e -> e = BadPointer.
Proof.
  unfold checkCircWorkList. intros [H|([c s] & _ & H)]%bind_Fail; [|done].
  by apply workListIterate_circ_Fail in H.
Qed.

(** The states a walk from a state of the precondition goes through. *)
Definition walking (st0 st : State) : Prop := same_graph st0 st /\ same_walk st0 st.

Lemma expand_ref_no_self_ref (rec : ObjF -> Z -> State -> res State) (f : ObjF) (depth : Z)
    (ref : Xref) (st : State) :
  (forall g d s s', rec g d s = Done s' -> walked g s s') ->
  (forall g d s, obj_ptrs_ok s -> no_self_ref s ->
                 rec g d s <> Fail (AssertFailed A_self_ref)) ->
  obj_ptrs_ok st -> no_self_ref st -> followed st (DO_EXPORTS st) f ref ->
  expand_ref rec f depth ref st <> Fail (AssertFailed A_self_ref).
Proof.
  intros Hrec Hok Hp Hn Hf H. unfold expand_ref in H.
  apply bind_Fail in H as [H|(rr & Hrr & H)]; [by apply get_xref_Fail in H|].
  apply bind_Fail in H as [H|(u & _ & H)].
  { apply assert_that_Fail in H as [_ H]. apply bool_decide_eq_false in H.
    apply H. rewrite (Hp ref rr Hrr). by apply (Hn (DO_EXPORTS st)). }
  apply bind_Fail in H as [H|(go & _ & H)]; [by apply get_obj_Fail in H|].
  destruct (bool_decide _); [|done].
  apply bind_Fail in H as [H|(fo & _ & H)]; [by apply get_obj_Fail in H|].
  apply bind_Fail in H as [H|(st1 & H1 & H)]; [by apply upd_obj_Fail in H|].
  apply bind_Fail in H as [H|(st2 & H2 & H)]; [by apply upd_obj_Fail in H|].
  apply upd_work_Done in H1 as (G1 & _). apply upd_work_Done in H2 as (G2 & _).
  assert (G : same_graph st st2) by by eapply same_graph_trans.
  apply bind_Fail in H as [H|(c & _ & H)]; [by apply checkCircWorkList_Fail in H|].
  apply bind_Fail in H as [H|(u' & _ & H)]; [by apply assert_that_Fail in H as [? _]|].
  apply bind_Fail in H as [H|(st3 & H3 & H)].
  { revert H. apply Hok; [by apply (obj_ptrs_ok_same st)|by apply (no_self_ref_same st)]. }
  destruct (negb _); [|done].
  apply bind_Fail in H as [H|(go3 & _ & H)]; [by apply get_obj_Fail in H|].
  apply bind_Fail in H as [H|(st4 & _ & H)]; by apply upd_obj_Fail in H.
Qed.

Lemma walk_refs_no_self_ref (rec : ObjF -> Z -> State -> res State) (f : ObjF) (depth : Z)
    (fuel : nat) :
  (forall g d s s', rec g d s = Done s' -> walked g s s') ->
  (forall g d s, obj_ptrs_ok s -> no_self_ref s ->
                 rec g d s <> Fail (AssertFailed A_self_ref)) ->
  forall ref st,
    obj_ptrs_ok st -> no_self_ref st ->
    (forall r, ref = Some r -> followed st (DO_EXPORTS st) f r) ->
    walk_refs rec fuel f depth ref st <> Fail (AssertFailed A_self_ref).
Proof.
  intros Hrec Hok. induction fuel as [|fuel IH]; intros ref st Hp Hn Hf; simpl.
  - by destruct ref.
  - destruct ref as [r|]; [|done].
    intros [H|(st1 & H1 & H)]%bind_Fail.
    { revert H. apply expand_ref_no_self_ref; auto. }
    apply expand_ref_walked in H1 as HW; [|done]. destruct HW as (G1 & W1 & _).
    apply bind_Fail in H as [H|(nxt & Hnxt & H)].
    { destruct (DO_EXPORTS st1); [|done]. unfold XREF_NEXT in H.
      apply bind_Fail in H as [H|(? & _ & H)]; [by apply get_xref_Fail in H|done]. }
    revert H. apply IH; [by apply (obj_ptrs_ok_same st)|by apply (no_self_ref_same st)|].
    intros r' ->. rewrite (same_walk_DO_EXPORTS _ _ W1).
    apply (followed_same st); [done|]. specialize (Hf r eq_refl).
    rewrite (same_walk_DO_EXPORTS _ _ W1) in Hnxt.
    destruct (DO_EXPORTS st); [|done].
    unfold XREF_NEXT in Hnxt. apply bind_Done in Hnxt as (rr & Hrr & [= Hx]).
    rewrite (same_graph_xref st) in Hrr by done.
    destruct Hf as (o & e & s & Ho & He & Hs & Hc). exists o, e, s.
    split; [done|]. split; [done|]. split; [done|].
    clear -Hc Hrr Hx. induction Hc as [x|x r y Hxr Hc IHc].
    + apply (chain_next _ x rr); [done|]. rewrite Hx. constructor.
    + apply (chain_next _ x r); [done|]. by apply IHc.
Qed.

Lemma depwalk_rec_no_self_ref (fuel : nat) :
  forall f depth st,
    obj_ptrs_ok st -> no_self_ref st ->
    depwalk_rec fuel f depth st <> Fail (AssertFailed A_self_ref).
Proof.
  induction fuel as [|fuel IH]; intros f depth st Hp Hn; simpl; [done|].
  unfold depwalk_body.
  set (st0 := match depwalkAction st with
              | Some arg => depPrint arg f depth st | None => st end).
  assert (H0 : walking st st0).
  { unfold st0. destruct (depwalkAction st) as [arg|]; [|done].
    destruct (depPrint_same arg f depth st) as (? & ? & _). done. }
  intros [H|(o & Ho & H)]%bind_Fail; [by apply get_obj_Fail in H|].
  apply (for_each_Fail (walking st)) in H as (i & s1 & Hi & [G1 W1] & H); [| |done].
  - unfold expand_entry in H.
    apply bind_Fail in H as [H|(o1 & Ho1 & H)]; [by apply get_obj_Fail in H|].
    apply bind_Fail in H as [H|(x & Hx & H)]; [by apply deref_Fail in H|].
    apply bind_Fail in H as [H|(sr & Hsr & H)]; [by apply get_sym_Fail in H|].
    revert H. apply walk_refs_no_self_ref.
    + apply depwalk_rec_walked.
    + apply IH.
    + by apply (obj_ptrs_ok_same st).
    + by apply (no_self_ref_same st).
    + intros r Hr. apply get_obj_Done in Ho1. apply deref_Done in Hx.
      apply get_sym_Done in Hsr. exists o1, x, sr. unfold walked_array in Hx.
      unfold walked_chain in Hr. split; [done|].
      split; [destruct (DO_EXPORTS s1); by apply list_elem_of_lookup_2 in Hx|].
      split; [done|]. destruct (DO_EXPORTS s1); [|done]. rewrite Hr. constructor.
  - intros i s s' _ [G W] Hs. unfold expand_entry in Hs.
    apply bind_Done in Hs as (o1 & _ & Hs). apply bind_Done in Hs as (x & _ & Hs).
    apply bind_Done in Hs as (sr & _ & Hs).
    apply walk_refs_walked in Hs as (G' & W' & _); [|apply depwalk_rec_walked].
    split; [by eapply same_graph_trans|by eapply same_walk_trans].
Qed.

Lemma depwalk_no_self_ref (f : ObjF) (action : option DepPrintArgRec) (mode : Z) (st : State) :
  obj_ptrs_ok st -> no_self_ref st ->
  depwalk f action mode st <> Fail (AssertFailed A_self_ref).
Proof.
  intros Hp Hn. unfold depwalk.
  intros [H|(o & _ & H)]%bind_Fail; [by apply get_obj_Fail in H|].
  apply bind_Fail in H as [H|(u & _ & H)]; [by apply assert_that_Fail in H as [? _]|].
  apply bind_Fail in H as [H|(u' & _ & H)]; [by apply assert_that_Fail in H as [? _]|].
  apply bind_Fail in H as [H|(stb & Hb & H)]; [by apply upd_obj_Fail in H|].
  apply upd_work_Done in Hb as (Gb & _).
  apply bind_Fail in H as [H|(stc & _ & H)].
  - revert H. apply depwalk_rec_no_self_ref.
    + apply (obj_ptrs_ok_same st); [|done]. eapply same_graph_trans; [|exact Gb]. done.
    + apply (no_self_ref_same st); [|done]. eapply same_graph_trans; [|exact Gb]. done.
  - destruct (BUILD_LIST stc); [done|]. by apply upd_obj_Fail in H.
Qed.

(** ** A walk ends *)

(** The pointers a walk follows are good: the symbols named in the arrays
    exist, every importer chain ends, and every importer and every first
    exporter names an existing object. *)
Definition xref_obj_ok (st : State) (x : Xref) : bool :=
  match get_xref x st with
  | Done r => bool_decide (x_obj r < length (objs st))%nat
  | _ => false
  end.

Definition sym_ok (st : State) (r : SymRec) : bool :=
  match xref_chain (S (nxrefs st)) (importedFrom r) st with
  | Done l => forallb (xref_obj_ok st) l
  | _ => false
  end
  && match exportedBy r with
     | Some x => xref_obj_ok st x
     | None => true
     end.

Definition wf_walk (st : State) : bool :=
  forallb (fun o => forallb (fun e => bool_decide (x_sym e < length (syms st))%nat)
                            (exports o ++ imports o)) (objs st)
  && forallb (sym_ok st) (syms st).

(** A result that is a return or the failure [e]. *)
Definition ends_or {A} (e : failure) (r : res A) : Prop :=
  (exists a, r = Done a) \/ r = Fail e.

Lemma xref_chain_Done (fuel : nat) :
  forall p st l, xref_chain fuel p st = Done l -> is_chain st p l /\ (length l <= fuel)%nat.
Proof.
  induction fuel as [|fuel IH]; intros p st l; simpl.
  - destruct p; [done|]. intros [= <-]. simpl. split; [done|lia].
  - destruct p as [x|]; [|intros [= <-]; simpl; split; [done|lia]].
    intros H. apply bind_Done in H as (n & Hn & H). apply bind_Done in H as (l' & Hl' & [= <-]).
    unfold XREF_NEXT in Hn. apply bind_Done in Hn as (r & Hr & [= <-]).
    apply IH in Hl' as [Hc Hlen]. simpl. split; [|lia]. split; [done|]. eauto.
Qed.

Lemma is_chain_same (st st' : State) (p : option Xref) (l : list Xref) :
  same_graph st st' -> is_chain st p l -> is_chain st' p l.
Proof. intros G. apply is_chain_frame. intros x _. by apply same_graph_xref. Qed.

(** The same facts as propositions, in the form the proofs use. *)
Definition walk_ok (st : State) : Prop :=
  (forall f o e, objs st !! f = Some o -> e ∈ exports o ++ imports o ->
                 (x_sym e < length (syms st))%nat) /\
  (forall s r, syms st !! s = Some r ->
     exists l, is_chain st (importedFrom r) l /\ (length l <= S (nxrefs st))%nat /\
       forall x, x ∈ l -> exists xr, get_xref x st = Done xr /\
                                    (x_obj xr < length (objs st))%nat) /\
  (forall s r x, syms st !! s = Some r -> exportedBy r = Some x ->
     exists xr, get_xref x st = Done xr /\ (x_obj xr < length (objs st))%nat).

Lemma xref_obj_ok_spec (st : State) (x : Xref) :
  xref_obj_ok st x = true ->
  exists xr, get_xref x st = Done xr /\ (x_obj xr < length (objs st))%nat.
Proof.
  unfold xref_obj_ok. destruct (get_xref x st) as [r| |]; [|done..].
  intros H%bool_decide_eq_true. eauto.
Qed.

Lemma forallb_elem {A} (f : A -> bool) (l : list A) :
  forallb f l = true -> forall x, x ∈ l -> f x = true.
Proof. intros H x Hx. rewrite forallb_forall in H. apply H. by apply list_elem_of_In. Qed.

Lemma wf_walk_ok (st : State) : wf_walk st = true -> walk_ok st.
Proof.
  unfold wf_walk. intros [H1 H2]%andb_true_iff. split; [|split].
  - intros f o e Ho He. apply list_elem_of_lookup_2 in Ho.
    pose proof (forallb_elem _ _ (forallb_elem _ _ H1 o Ho) e He) as H.
    by apply bool_decide_eq_true in H.
  - intros s r Hs. apply list_elem_of_lookup_2 in Hs.
    pose proof (forallb_elem _ _ H2 r Hs) as H.
    unfold sym_ok in H. apply andb_true_iff in H as [H _].
    destruct (xref_chain _ _ _) as [l| |] eqn:E; [|done..].
    apply xref_chain_Done in E as [Hc Hl]. exists l. split; [done|]. split; [done|].
    intros x Hx. apply xref_obj_ok_spec. by apply (forallb_elem _ _ H).
  - intros s r x Hs Hx. apply list_elem_of_lookup_2 in Hs.
    pose proof (forallb_elem _ _ H2 r Hs) as H.
    unfold sym_ok in H. apply andb_true_iff in H as [_ H]. rewrite Hx in H.
    by apply xref_obj_ok_spec.
Qed.

Lemma same_graph_nxrefs (st st' : State) : same_graph st st' -> nxrefs st' = nxrefs st.
Proof.
  intros G%same_graph_erase. unfold nxrefs.
  assert (E : forall l : list ObjFRec,
             foldr (fun o n => (length (exports o) + length (imports o) + n)%nat) 0%nat l
             = foldr (fun o n => (length (exports o) + length (imports o) + n)%nat) 0%nat
                 (with_work WNull <$> l)).
  { induction l as [|o l IH]; [done|]. rewrite fmap_cons. simpl. by rewrite IH. }
  by rewrite (E (objs st')), (E (objs st)), G.
Qed.

Lemma walk_ok_same (st st' : State) : same_graph st st' -> walk_ok st -> walk_ok st'.
Proof.
  intros G (H1 & H2 & H3).
  pose proof (same_graph_syms _ _ G) as Es. pose proof (same_graph_length _ _ G) as El.
  pose proof (same_graph_nxrefs _ _ G) as En.
  split; [|split].
  - intros f o' e Ho' He. rewrite Es.
    destruct (same_graph_fields _ _ (same_graph_sym _ _ G)) as (_ & _ & _ & _ & Hobj).
    destruct (Hobj f o' Ho') as (o & Ho & Ee & Ei & _). apply (H1 f o); [done|].
    by rewrite Ee, Ei.
  - intros s r Hs. rewrite Es in Hs. destruct (H2 s r Hs) as (l & Hc & Hl & Hx).
    exists l. split; [by apply (is_chain_same st)|]. split; [by rewrite En|].
    intros x Hin. rewrite (same_graph_xref st), El by done. by apply Hx.
  - intros s r x Hs Hx. rewrite Es in Hs. rewrite (same_graph_xref st), El by done.
    by apply (H3 s r).
Qed.

(** *** The work list during a walk *)

Lemma wl_valid (W : list workp) (l : list ObjF) :
  forall x, wl W x l -> forall z, z ∈ x :: l -> is_Some (W !! z).
Proof.
  induction l as [|y l IH]; intros x; simpl.
  - intros H z ->%list_elem_of_singleton. eauto.
  - intros [H1 H2] z [->|Hz]%elem_of_cons; [eauto|]. by apply (IH y).
Qed.

Lemma work_list_length (W : list workp) (root : ObjF) (l : list ObjF) :
  work_list_inv W root l -> (length (root :: l) <= length W)%nat.
Proof.
  intros (Hwl & Hnd & _).
  transitivity (length (seq 0 (length W))); [|by rewrite length_seq].
  apply submseteq_length, NoDup_submseteq; [done|].
  intros z Hz. apply elem_of_seq. destruct (wl_valid W l root Hwl z Hz) as [w Hw].
  apply lookup_lt_Some in Hw. lia.
Qed.

Lemma length_ins_after (f g x : ObjF) (l : list ObjF) :
  f ∈ x :: l -> length (ins_after f g x l) = S (length l).
Proof.
  revert x. induction l as [|y l IH]; intros x Hf; simpl.
  - apply list_elem_of_singleton in Hf as ->. by rewrite decide_True.
  - destruct (decide (x = f)); [done|]. simpl. f_equal. apply IH.
    apply elem_of_cons in Hf as [?|?]; [congruence|done].
Qed.

Lemma wl_suffix (W : list workp) (f : ObjF) (l : list ObjF) :
  forall x, wl W x l -> NoDup (x :: l) -> f ∈ x :: l ->
    exists lf, wl W f lf /\ (f ∉ lf) /\ (length lf <= length l)%nat.
Proof.
  induction l as [|y l IH]; intros x Hwl Hnd Hf.
  - apply list_elem_of_singleton in Hf as ->. exists []. split; [done|].
    split; [apply not_elem_of_nil|done].
  - apply NoDup_cons in Hnd as [Hx Hnd]. destruct (decide (f = x)) as [->|Hne].
    + exists (y :: l). split; [done|]. split; [done|lia].
    + apply elem_of_cons in Hf as [?|Hf]; [done|]. destruct Hwl as [_ Hwl].
      destruct (IH y Hwl Hnd Hf) as (lf & H1 & H2 & H3). exists lf. simpl.
      split; [done|]. split; [done|lia].
Qed.

Lemma workListIterate_circ (test : ObjF) (lx : list ObjF) :
  forall fuel x d c st,
    wl (works st) x lx -> test ∉ lx -> (d = 0 \/ x <> test) -> (length lx < fuel)%nat ->
    workListIterate fuel (WObj x) (circCheckAction test) d c st = Done (c, st).
Proof.
  induction lx as [|y lx IH]; intros fuel x d c st Hwl Ht Hd Hfuel;
    (destruct fuel as [|fuel]; [lia|]); simpl; unfold circCheckAction at 1; simpl;
    (assert (Hflag : (0 <? d) && bool_decide (x = test) = false);
     [destruct Hd as [->|Hd]; [done|];
      rewrite (bool_decide_eq_false_2 _ Hd); apply andb_false_r|]);
    rewrite Hflag; simpl in Hwl.
  - unfold works in Hwl. rewrite list_lookup_fmap in Hwl. unfold get_obj.
    destruct (objs st !! x) as [r|]; [|done]. simpl in *. injection Hwl as ->.
    by destruct fuel.
  - destruct Hwl as [Hx Hwl]. unfold works in Hx. rewrite list_lookup_fmap in Hx.
    unfold get_obj. destruct (objs st !! x) as [r|]; [|done]. simpl in *.
    injection Hx as ->. apply not_elem_of_cons in Ht as [Hty Ht].
    apply IH; [done|done|by right|lia].
Qed.

Lemma checkCircWorkList_ok (f root : ObjF) (l : list ObjF) (st : State) :
  work_list_inv (works st) root l -> f ∈ root :: l -> checkCircWorkList f st = Done 0.
Proof.
  intros Hinv Hf. pose proof (work_list_length _ _ _ Hinv) as Hlen.
  destruct Hinv as (Hwl & Hnd & _).
  destruct (wl_suffix _ f l root Hwl Hnd Hf) as (lf & Hlf & Hn & Hl).
  unfold checkCircWorkList. rewrite (workListIterate_circ f lf); [done|done|done|by left|].
  unfold work_fuel. unfold works in Hlen. rewrite length_fmap in Hlen. simpl in Hlen. lia.
Qed.

(** *** Every step returns or fails the assertion *)

Definition walk_pre (n : nat) (f : ObjF) (st : State) : Prop :=
  walk_ok st /\
  exists root l, work_list_inv (works st) root l /\ f ∈ root :: l /\
                 (length (objs st) < n + length (root :: l))%nat.

(** The references the inner loop goes through from [ref] on. *)
Definition ref_list (st : State) (ref : option Xref) (lc : list Xref) : Prop :=
  (if DO_EXPORTS st then is_chain st ref lc
   else (ref = None /\ lc = []) \/ exists r, ref = Some r /\ lc = [r]) /\
  forall x, x ∈ lc -> exists xr, get_xref x st = Done xr /\ (x_obj xr < length (objs st))%nat.

Lemma walked_pre (n : nat) (f : ObjF) (st st' : State) :
  walk_pre n f st -> walked f st st' -> walk_pre n f st'.
Proof.
  intros (Hok & root & l & Hinv & Hf & Hlen) (G & W & D & L).
  split; [by apply (walk_ok_same st)|]. rewrite (same_graph_length _ _ G).
  destruct (BUILD_LIST st) eqn:Eb.
  - destruct (L eq_refl root l Hinv Hf) as (l' & Hinv' & Hsub).
    exists root, l'. split; [done|]. split; [by apply Hsub|].
    assert (length (root :: l) <= length (root :: l'))%nat; [|lia].
    apply submseteq_length, NoDup_submseteq; [by destruct Hinv as (_ & ? & _)|done].
  - exists root, l. rewrite D by done. done.
Qed.

Lemma ref_list_same (st st' : State) (ref : option Xref) (lc : list Xref) :
  same_graph st st' -> same_walk st st' -> ref_list st ref lc -> ref_list st' ref lc.
Proof.
  intros G W [H1 H2]. split.
  - rewrite (same_walk_DO_EXPORTS _ _ W). destruct (DO_EXPORTS st); [|done].
    by apply (is_chain_same st).
  - intros x Hx. rewrite (same_graph_xref st), (same_graph_length _ _ G) by done. auto.
Qed.

Lemma get_obj_valid (f : ObjF) (st : State) :
  (f < length (objs st))%nat -> exists o, get_obj f st = Done o /\ objs st !! f = Some o.
Proof.
  intros H. destruct (lookup_lt_is_Some_2 _ _ H) as [o Ho]. exists o.
  split; [by apply get_obj_Done|done].
Qed.

Lemma upd_obj_valid (f : ObjF) (g : ObjFRec -> ObjFRec) (st : State) :
  (f < length (objs st))%nat -> exists st', upd_obj f g st = Done st'.
Proof.
  intros H. destruct (get_obj_valid f st H) as (o & Ho & _). unfold upd_obj. rewrite Ho.
  simpl. eauto.
Qed.

Lemma ends_or_bind {A B} (e : failure) (m : res A) (k : A -> res B) :
  ends_or e m -> (forall a, m = Done a -> ends_or e (k a)) -> ends_or e (m ≫= k).
Proof. intros [[a ->]| ->] Hk; [by apply Hk|by right]. Qed.

Lemma for_each_ends {A S} (e : failure) (Inv : S -> Prop) (l : list A)
    (body : A -> S -> res S) :
  (forall a s, a ∈ l -> Inv s -> ends_or e (body a s)) ->
  (forall a s s', a ∈ l -> Inv s -> body a s = Done s' -> Inv s') ->
  forall s, Inv s -> ends_or e (for_each l body s).
Proof.
  induction l as [|a l IH]; intros Hends Hstep s Hs; simpl; [left; eauto|].
  apply ends_or_bind; [apply Hends; [by left|done]|].
  intros s1 H1. apply IH.
  - intros b t Hb. apply Hends. by right.
  - intros b t t' Hb. apply Hstep. by right.
  - eapply Hstep; [|done|done]. by left.
Qed.

Section walk_total.
Variable rec : ObjF -> Z -> State -> res State.
Variable n : nat.
Hypothesis rec_walked : forall g d s s', rec g d s = Done s' -> walked g s s'.
Hypothesis rec_ends :
  forall g d s, walk_pre n g s -> ends_or (AssertFailed A_self_ref) (rec g d s).

Lemma expand_ref_ends (f : ObjF) (depth : Z) (ref : Xref) (st : State) :
  walk_pre (S n) f st ->
  (exists xr, get_xref ref st = Done xr /\ (x_obj xr < length (objs st))%nat) ->
  ends_or (AssertFailed A_self_ref) (expand_ref rec f depth ref st).
Proof.
  intros (Hok & root & l & Hinv & Hf & Hlen) (rr & Hrr & Hg). unfold expand_ref.
  rewrite Hrr. rewrite ret_bind.
  destruct (bool_decide (x_obj rr <> f)) eqn:Ene; [|by right].
  change (assert_that A_self_ref true) with (Done tt). rewrite ret_bind.
  apply bool_decide_eq_true in Ene.
  destruct (get_obj_valid _ _ Hg) as (go & Hgo & Hgo'). rewrite Hgo, ret_bind.
  case_bool_decide as Hw; [|left; eauto].
  assert (Hfv : (f < length (objs st))%nat).
  { destruct Hinv as (Hwl & _). destruct (wl_valid _ _ _ Hwl f Hf) as [w Hw'].
    apply lookup_lt_Some in Hw'. unfold works in Hw'. by rewrite length_fmap in Hw'. }
  destruct (get_obj_valid _ _ Hfv) as (fo & Hfo & Hfo'). rewrite Hfo, ret_bind.
  destruct (upd_obj_valid (x_obj rr) (with_work (work fo)) st Hg) as (st1 & H1).
  rewrite H1, ret_bind. apply upd_work_Done in H1 as H1'.
  destruct H1' as (G1 & W1 & E1 & _).
  destruct (upd_obj_valid f (with_work (WObj (x_obj rr))) st1) as (st2 & H2).
  { by rewrite (same_graph_length _ _ G1). }
  rewrite H2, ret_bind. apply upd_work_Done in H2 as H2'.
  destruct H2' as (G2 & W2 & E2 & _).
  assert (G : same_graph st st2) by by eapply same_graph_trans.
  destruct (work_list_inv_insert _ root f (x_obj rr) l (work fo) Hinv Hf) as [Hinv2 Hel].
  { by apply works_lookup. }
  { rewrite <- Hw. by apply works_lookup. }
  rewrite <- E1, <- E2 in Hinv2.
  assert (Hg2 : x_obj rr ∈ root :: ins_after f (x_obj rr) root l) by (apply Hel; by left).
  rewrite (checkCircWorkList_ok f root _ st2 Hinv2) by (apply Hel; by right).
  rewrite ret_bind. change (assert_that A_circular (0 =? 0)) with (Done tt).
  rewrite ret_bind. apply ends_or_bind.
  { apply rec_ends. split; [by apply (walk_ok_same st)|].
    exists root, (ins_after f (x_obj rr) root l). split; [done|]. split; [done|].
    rewrite (same_graph_length _ _ G). simpl. rewrite length_ins_after by done.
    simpl in Hlen. lia. }
  intros st3 H3. apply rec_walked in H3 as (G3 & _).
  destruct (negb (BUILD_LIST st3)); [|left; eauto].
  assert (El : length (objs st3) = length (objs st)).
  { rewrite (same_graph_length _ _ G3). by apply same_graph_length. }
  destruct (get_obj_valid (x_obj rr) st3) as (go3 & Hgo3 & _); [by rewrite El|].
  rewrite Hgo3, ret_bind.
  destruct (upd_obj_valid f (with_work (work go3)) st3) as (st4 & H4); [by rewrite El|].
  rewrite H4, ret_bind. apply upd_work_Done in H4 as (G4 & _).
  destruct (upd_obj_valid (x_obj rr) (with_work WNull) st4) as (st5 & H5).
  { rewrite (same_graph_length _ _ G4). by rewrite El. }
  rewrite H5. left. eauto.
Qed.

Lemma walk_refs_ends (f : ObjF) (depth : Z) (lc : list Xref) :
  forall fuel ref st,
    walk_pre (S n) f st -> ref_list st ref lc -> (length lc <= fuel)%nat ->
    ends_or (AssertFailed A_self_ref) (walk_refs rec fuel f depth ref st).
Proof.
  induction lc as [|r lc IH]; intros fuel ref st Hpre [Hl Hv] Hfuel.
  - assert (ref = None) as ->.
    { destruct (DO_EXPORTS st); [done|]. destruct Hl as [[? _]|(? & _ & ?)]; done. }
    destruct fuel; left; eauto.
  - assert (ref = Some r) as ->.
    { destruct (DO_EXPORTS st); [by destruct Hl|].
      destruct Hl as [[_ ?]|(? & ? & ?)]; [done|congruence]. }
    destruct fuel as [|fuel]; [simpl in Hfuel; lia|]. simpl.
    apply ends_or_bind.
    { apply expand_ref_ends; [done|]. apply Hv. by left. }
    intros st1 H1. apply expand_ref_walked in H1 as HW; [|done].
    pose proof (walked_pre _ _ _ _ Hpre HW) as Hpre1. destruct HW as (G1 & W1 & _).
    rewrite (same_walk_DO_EXPORTS _ _ W1).
    destruct (Hv r) as (rr & Hrr & _); [by left|].
    assert (Hnext : (if DO_EXPORTS st then XREF_NEXT r st1 else Done None)
                    = Done (if DO_EXPORTS st then x_next rr else None)).
    { destruct (DO_EXPORTS st); [|done]. unfold XREF_NEXT.
      by rewrite (same_graph_xref st), Hrr. }
    rewrite Hnext, ret_bind. apply IH; [done| |simpl in Hfuel; lia].
    split.
    + rewrite (same_walk_DO_EXPORTS _ _ W1). destruct (DO_EXPORTS st).
      * simpl in Hl. destruct Hl as (_ & r' & Hr' & Hc).
        assert (r' = rr) as -> by congruence. by apply (is_chain_same st).
      * left. split; [done|]. destruct Hl as [[? ?]|(? & ? & ?)]; congruence.
    + intros x Hx. rewrite (same_graph_xref st), (same_graph_length _ _ G1) by done.
      apply Hv. by right.
Qed.

Lemma entry_ref_list (f : ObjF) (i : nat) (st : State) (o : ObjFRec) (x : XrefRec) :
  walk_ok st -> objs st !! f = Some o -> walked_array st o !! i = Some x ->
  exists sr lc, get_sym (x_sym x) st = Done sr /\ syms st !! x_sym x = Some sr /\
    ref_list st (walked_chain st sr) lc /\ (length lc <= S (nxrefs st))%nat.
Proof.
  intros (H1 & H2 & H3) Ho Hx.
  assert (Hin : x ∈ exports o ++ imports o).
  { apply list_elem_of_lookup_2 in Hx. unfold walked_array in Hx. apply elem_of_app.
    destruct (DO_EXPORTS st); auto. }
  pose proof (H1 f o x Ho Hin) as Hlt.
  destruct (lookup_lt_is_Some_2 _ _ Hlt) as [sr Hsr]. exists sr.
  destruct (H2 _ _ Hsr) as (l & Hc & Hl & Hv).
  unfold ref_list, walked_chain. destruct (DO_EXPORTS st).
  - exists l. split; [by apply get_sym_Done|]. done.
  - destruct (exportedBy sr) as [e0|] eqn:Ee.
    + exists [e0]. split; [by apply get_sym_Done|]. split; [done|]. split; [|simpl; lia].
      split; [right; eauto|]. intros y ->%list_elem_of_singleton.
      by apply (H3 (x_sym x) sr).
    + exists []. split; [by apply get_sym_Done|]. split; [done|]. split; [|simpl; lia].
      split; [by left|]. by intros y ?%elem_of_nil.
Qed.

Lemma expand_entry_ends (f : ObjF) (depth : Z) (i : nat) (st : State) (o : ObjFRec) :
  walk_pre (S n) f st -> objs st !! f = Some o ->
  (i < length (walked_array st o))%nat ->
  ends_or (AssertFailed A_self_ref) (expand_entry rec f depth i st).
Proof.
  intros Hpre Ho Hi. unfold expand_entry.
  rewrite (proj2 (get_obj_Done f st o) Ho), ret_bind.
  destruct (lookup_lt_is_Some_2 _ _ Hi) as [x Hx].
  rewrite (proj2 (deref_Done _ _) Hx), ret_bind.
  destruct (entry_ref_list f i st o x (proj1 Hpre) Ho Hx) as (sr & lc & Hsr & _ & Hl & Hlen).
  rewrite Hsr, ret_bind. by apply (walk_refs_ends f depth lc).
Qed.

Lemma expand_entry_walked (f : ObjF) (depth : Z) (i : nat) (st st' : State) :
  expand_entry rec f depth i st = Done st' -> walked f st st'.
Proof.
  unfold expand_entry. intros H. apply bind_Done in H as (o' & _ & H).
  apply bind_Done in H as (x & _ & H). apply bind_Done in H as (sr & _ & H).
  by eapply walk_refs_walked.
Qed.

Lemma depwalk_body_ends (f : ObjF) (depth : Z) (st : State) :
  walk_pre (S n) f st ->
  ends_or (AssertFailed A_self_ref) (depwalk_body rec f depth st).
Proof.
  intros Hpre. unfold depwalk_body.
  set (st0 := match depwalkAction st with
              | Some arg => depPrint arg f depth st | None => st end).
  assert (H0 : walked f st st0).
  { unfold st0. destruct (depwalkAction st) as [arg|]; [|apply walked_refl].
    destruct (depPrint_same arg f depth st) as (? & ? & E).
    apply walked_same; [done..|]. unfold works. by rewrite E. }
  pose proof (walked_pre _ _ _ _ Hpre H0) as Hpre0.
  assert (Hfv : exists o, objs st0 !! f = Some o).
  { destruct Hpre0 as (_ & root & l & (Hwl & _) & Hf & _).
    destruct (wl_valid _ _ _ Hwl f Hf) as [w Hw]. unfold works in Hw.
    rewrite list_lookup_fmap in Hw. destruct (objs st0 !! f); [eauto|done]. }
  destruct Hfv as (o & Ho). rewrite (proj2 (get_obj_Done f st0 o) Ho), ret_bind.
  apply (for_each_ends _ (fun s => walked f st0 s)).
  - intros i s Hi Hs. pose proof Hs as (G & W & _).
    destruct (same_graph_fields _ _ G) as (_ & _ & _ & _ & Hobj).
    destruct (Hobj f o Ho) as (o' & Ho' & Ee & Ei & _).
    apply (expand_entry_ends f depth i s o'); [by apply (walked_pre _ _ st0)|done|].
    apply elem_of_seq in Hi. unfold walked_array in *.
    rewrite (same_walk_DO_EXPORTS _ _ W). destruct (DO_EXPORTS st0); [rewrite Ee|rewrite Ei]; lia.
  - intros i s s' _ Hs Hi. apply expand_entry_walked in Hi. by eapply walked_trans.
  - apply walked_refl.
Qed.
End walk_total.

Lemma depwalk_rec_ends (n : nat) :
  forall f depth st,
    walk_pre n f st -> ends_or (AssertFailed A_self_ref) (depwalk_rec n f depth st).
Proof.
  induction n as [|n IH]; intros f depth st Hpre.
  - exfalso. destruct Hpre as (_ & root & l & Hinv & _ & Hlen).
    apply work_list_length in Hinv. unfold works in Hinv. rewrite length_fmap in Hinv. lia.
  - simpl. apply (depwalk_body_ends _ n); [apply depwalk_rec_walked|apply IH|done].
Qed.

(** *** A walk from an object that refers to itself *)

Lemma chain_reach_in_chain (st : State) (lc : list Xref) :
  forall p y, is_chain st p lc -> chain_reach st p y -> y ∈ lc.
Proof.
  induction lc as [|x lc IH]; intros p y Hc Hr; simpl in Hc.
  - subst p. inversion Hr.
  - destruct Hc as (-> & r & Hx & Hc). inversion Hr as [|x' r' y' Hx' Hr']; subst.
    + by left.
    + right. apply (IH (x_next r)); [done|]. congruence.
Qed.

Lemma for_each_hits {A S} (e : failure) (Inv : S -> Prop) (l : list A)
    (body : A -> S -> res S) (bad : A) :
  (forall a s, a ∈ l -> Inv s -> ends_or e (body a s)) ->
  (forall a s s', a ∈ l -> Inv s -> body a s = Done s' -> Inv s') ->
  bad ∈ l -> (forall s, Inv s -> body bad s = Fail e) ->
  forall s, Inv s -> for_each l body s = Fail e.
Proof.
  induction l as [|a l IH]; intros Hends Hstep Hbad Hfail s Hs; [by apply elem_of_nil in Hbad|].
  simpl. destruct (Hends a s) as [[s1 H1]|H1]; [by left|done| |by rewrite H1].
  rewrite H1, ret_bind. apply elem_of_cons in Hbad as [->|Hbad].
  - rewrite Hfail in H1 by done. done.
  - apply IH; [| |done|done|].
    + intros b t Hb. apply Hends. by right.
    + intros b t t' Hb. apply Hstep. by right.
    + eapply Hstep; [|done|done]. by left.
Qed.

Section walk_hits.
Variable rec : ObjF -> Z -> State -> res State.
Variable n : nat.
Hypothesis rec_walked : forall g d s s', rec g d s = Done s' -> walked g s s'.
Hypothesis rec_ends :
  forall g d s, walk_pre n g s -> ends_or (AssertFailed A_self_ref) (rec g d s).

Lemma expand_ref_hits (f : ObjF) (depth : Z) (ref : Xref) (st : State) (rr : XrefRec) :
  get_xref ref st = Done rr -> x_obj rr = f ->
  expand_ref rec f depth ref st = Fail (AssertFailed A_self_ref).
Proof.
  intros Hrr Hf. unfold expand_ref. rewrite Hrr, ret_bind.
  by rewrite bool_decide_eq_false_2 by (intros ?; done).
Qed.

Lemma walk_refs_hits (f : ObjF) (depth : Z) (bad : Xref) (rb : XrefRec) (lc : list Xref) :
  x_obj rb = f ->
  forall fuel ref st,
    walk_pre (S n) f st -> ref_list st ref lc -> (length lc <= fuel)%nat ->
    bad ∈ lc -> get_xref bad st = Done rb ->
    walk_refs rec fuel f depth ref st = Fail (AssertFailed A_self_ref).
Proof.
  intros Hrb. induction lc as [|r lc IH]; intros fuel ref st Hpre [Hl Hv] Hfuel Hbad Hgb;
    [by apply elem_of_nil in Hbad|].
  assert (ref = Some r) as ->.
  { destruct (DO_EXPORTS st); [by destruct Hl|].
    destruct Hl as [[_ ?]|(? & ? & ?)]; [done|congruence]. }
  destruct fuel as [|fuel]; [simpl in Hfuel; lia|]. simpl.
  destruct (decide (r = bad)) as [->|Hne].
  { by rewrite (expand_ref_hits f depth bad st rb). }
  apply elem_of_cons in Hbad as [?|Hbad]; [congruence|].
  destruct (expand_ref_ends rec n rec_walked rec_ends f depth r st Hpre) as [[st1 H1]|H1];
    [apply Hv; by left| |by rewrite H1].
  rewrite H1, ret_bind. apply expand_ref_walked in H1 as HW; [|done].
  pose proof (walked_pre _ _ _ _ Hpre HW) as Hpre1. destruct HW as (G1 & W1 & _).
  rewrite (same_walk_DO_EXPORTS _ _ W1).
  destruct (Hv r) as (rr & Hrr & _); [by left|].
  assert (Hnext : (if DO_EXPORTS st then XREF_NEXT r st1 else Done None)
                  = Done (if DO_EXPORTS st then x_next rr else None)).
  { destruct (DO_EXPORTS st); [|done]. unfold XREF_NEXT.
    by rewrite (same_graph_xref st), Hrr. }
  rewrite Hnext, ret_bind.
  apply IH; [done| |simpl in Hfuel; lia|done|by rewrite (same_graph_xref st)].
  split.
  - rewrite (same_walk_DO_EXPORTS _ _ W1). destruct (DO_EXPORTS st).
    + simpl in Hl. destruct Hl as (_ & r' & Hr' & Hc).
      assert (r' = rr) as -> by congruence. by apply (is_chain_same st).
    + left. split; [done|]. destruct Hl as [[? ?]|(? & ? & ?)]; congruence.
  - intros x Hx. rewrite (same_graph_xref st), (same_graph_length _ _ G1) by done.
    apply Hv. by right.
Qed.

Lemma depwalk_body_hits (f : ObjF) (depth : Z) (st : State) (bad : Xref) (rb : XrefRec) :
  walk_pre (S n) f st -> followed st (DO_EXPORTS st) f bad ->
  get_xref bad st = Done rb -> x_obj rb = f ->
  depwalk_body rec f depth st = Fail (AssertFailed A_self_ref).
Proof.
  intros Hpre Hfol Hgb Hrb. unfold depwalk_body.
  set (st0 := match depwalkAction st with
              | Some arg => depPrint arg f depth st | None => st end).
  assert (H0 : walked f st st0).
  { unfold st0. destruct (depwalkAction st) as [arg|]; [|apply walked_refl].
    destruct (depPrint_same arg f depth st) as (? & ? & E).
    apply walked_same; [done..|]. unfold works. by rewrite E. }
  pose proof (walked_pre _ _ _ _ Hpre H0) as Hpre0.
  destruct H0 as (G0 & W0 & _).
  apply (followed_same _ st0) in Hfol; [|done].
  rewrite <- (same_walk_DO_EXPORTS _ _ W0) in Hfol.
  rewrite <- (same_graph_xref st st0) in Hgb by done.
  destruct Hfol as (o & e & s & Ho & He & Hs & Hc).
  rewrite (proj2 (get_obj_Done f st0 o) Ho), ret_bind.
  assert (He' : e ∈ walked_array st0 o) by done.
  apply list_elem_of_lookup in He' as (i & Hi).
  assert (Hobj : forall t, walked f st0 t ->
            exists o', objs t !! f = Some o' /\ walked_array t o' = walked_array st0 o /\
                       syms t = syms st0 /\ DO_EXPORTS t = DO_EXPORTS st0 /\
                       same_graph st0 t).
  { intros t (G & W & _). destruct (same_graph_fields _ _ G) as (Es & _ & _ & _ & Hobj).
    destruct (Hobj f o Ho) as (o' & Ho' & Ee & Ei & _). exists o'. split; [done|].
    pose proof (same_walk_DO_EXPORTS _ _ W) as Ed. unfold walked_array. rewrite Ed.
    split; [by destruct (DO_EXPORTS st0)|done]. }
  apply (for_each_hits _ (fun s => walked f st0 s) _ _ i).
  - intros j t Hj Ht. destruct (Hobj t Ht) as (o' & Ho' & Ea & _).
    apply (expand_entry_ends rec n rec_walked rec_ends f depth j t o');
      [by apply (walked_pre _ _ st0)|done|].
    apply elem_of_seq in Hj. rewrite Ea. lia.
  - intros j t t' _ Ht Hj. apply (expand_entry_walked rec rec_walked) in Hj.
    by eapply walked_trans.
  - apply elem_of_seq. apply lookup_lt_Some in Hi. lia.
  - intros t Ht. destruct (Hobj t Ht) as (o' & Ho' & Ea & Es & Ed & G).
    pose proof (walked_pre _ _ _ _ Hpre0 Ht) as Hpret.
    unfold expand_entry. rewrite (proj2 (get_obj_Done f t o') Ho'), ret_bind.
    rewrite Ea. rewrite (proj2 (deref_Done _ _) Hi), ret_bind.
    destruct (entry_ref_list f i t o' e (proj1 Hpret) Ho') as (sr & lc & Hsr & Hsr' & Hl & Hlen);
      [by rewrite Ea|].
    rewrite Hsr, ret_bind. assert (sr = s) as -> by (rewrite Es in Hsr'; congruence).
    apply (walk_refs_hits f depth bad rb lc Hrb); [done|done|done| |].
    + destruct Hl as [Hl _]. unfold walked_chain in Hl. rewrite Ed in Hl.
      destruct (DO_EXPORTS st0).
      * apply (chain_reach_in_chain t _ (importedFrom s)); [done|].
        by apply (chain_reach_same st0).
      * destruct Hl as [[? _]|(r & Hr & ->)]; [congruence|].
        apply list_elem_of_singleton. congruence.
    + by rewrite (same_graph_xref st0).
  - apply walked_refl.
Qed.
End walk_hits.

Lemma busy_root_inv (st : State) (f : ObjF) :
  all_work_nil st -> works st !! f = Some WNull ->
  work_list_inv (<[f := WBusy]> (works st)) f [].
Proof.
  intros Hnil Hwf. split; [|split].
  - simpl. apply list_lookup_insert_eq. by apply lookup_lt_Some in Hwf.
  - apply NoDup_singleton.
  - intros i w Hi. rewrite list_elem_of_singleton. destruct (decide (i = f)) as [->|Hne].
    + rewrite list_lookup_insert_eq in Hi by by apply lookup_lt_Some in Hwf.
      injection Hi as <-. done.
    + rewrite list_lookup_insert_ne in Hi by done. unfold works in Hi.
      rewrite list_lookup_fmap in Hi. destruct (objs st !! i) as [oi|] eqn:Ei; [|done].
      injection Hi as <-. rewrite (Hnil i oi Ei). done.
Qed.

(** The state in which [depwalk] calls [depwalk_rec]. *)
Lemma depwalk_start (f : ObjF) (action : option DepPrintArgRec) (mode : Z) (st : State)
    (o : ObjFRec) :
  walk_ok st -> all_work_nil st -> BUILD_LIST st = false -> objs st !! f = Some o ->
  exists stb,
    depwalk f action mode st
    = (depwalk_rec (work_fuel stb) f 0 stb ≫= fun st =>
         if BUILD_LIST st then Done (set_depwalk action (depwalkMode st) st)
         else upd_obj f (with_work WNull) st) /\
    same_graph st stb /\ depwalkMode stb = mode /\
    walk_pre (work_fuel stb) f stb.
Proof.
  intros Hok Hnil Hb Ho. unfold depwalk.
  rewrite (proj2 (get_obj_Done f st o) Ho), ret_bind.
  rewrite bool_decide_eq_true_2 by by apply (Hnil f).
  change (assert_that A_work_clear true) with (Done tt). rewrite ret_bind, Hb.
  change (assert_that A_not_building (negb false)) with (Done tt). rewrite ret_bind.
  set (sta := set_depwalk _ mode st).
  destruct (upd_obj_valid f (with_work WBusy) sta) as (stb & Hupd);
    [by apply lookup_lt_Some in Ho|].
  rewrite Hupd, ret_bind. exists stb. split; [done|].
  apply upd_work_Done in Hupd as (G & W & E & _).
  split; [done|]. split; [by destruct W as [-> _]|].
  split; [by apply (walk_ok_same st)|]. exists f, [].
  change (works sta) with (works st) in E. rewrite E.
  split; [|split; [by left|]].
  - apply busy_root_inv; [done|]. rewrite (works_lookup _ _ _ Ho). by rewrite (Hnil f o).
  - unfold work_fuel. simpl. lia.
Qed.

Lemma depwalk_ends (f : ObjF) (action : option DepPrintArgRec) (mode : Z) (st : State) :
  wf_walk st = true -> all_work_nil st -> BUILD_LIST st = false ->
  (f < length (objs st))%nat ->
  ends_or (AssertFailed A_self_ref) (depwalk f action mode st).
Proof.
  intros Hwf Hnil Hb Hf. destruct (lookup_lt_is_Some_2 _ _ Hf) as [o Ho].
  destruct (depwalk_start f action mode st o (wf_walk_ok _ Hwf) Hnil Hb Ho)
    as (stb & -> & G & Hm & Hpre).
  apply ends_or_bind; [by apply depwalk_rec_ends|].
  intros stc Hc. apply depwalk_rec_walked in Hc as (Gc & _).
  destruct (BUILD_LIST stc); [left; eauto|].
  destruct (upd_obj_valid f (with_work WNull) stc) as (st' & ->); [|left; eauto].
  rewrite (same_graph_length _ _ Gc), (same_graph_length _ _ G). done.
Qed.

Lemma depwalk_hits (f : ObjF) (action : option DepPrintArgRec) (mode : Z) (st : State)
    (bad : Xref) :
  wf_walk st = true -> all_work_nil st -> BUILD_LIST st = false -> obj_ptrs_ok st ->
  followed st (flag_set mode WALK_EXPORTS) f bad -> xr_obj bad = f ->
  depwalk f action mode st = Fail (AssertFailed A_self_ref).
Proof.
  intros Hwf Hnil Hb Hp Hfol Hbad. pose proof Hfol as (o & _ & _ & Ho & _).
  destruct (depwalk_start f action mode st o (wf_walk_ok _ Hwf) Hnil Hb Ho)
    as (stb & -> & G & Hm & Hpre).
  assert (Hexp : DO_EXPORTS stb = flag_set mode WALK_EXPORTS).
  { unfold DO_EXPORTS. by rewrite Hm. }
  assert (Hrb : exists rb, get_xref bad stb = Done rb /\ x_obj rb = f).
  { apply (followed_same _ stb) in Hfol; [|done]. rewrite <- Hexp in Hfol.
    destruct Hpre as (Hok & _). destruct Hfol as (o' & e & s & Ho' & He & Hs & Hc).
    destruct Hok as (_ & H2 & H3).
    assert (Hv : exists rb, get_xref bad stb = Done rb).
    { destruct (DO_EXPORTS stb).
      - destruct (H2 _ _ Hs) as (l & Hl & _ & Hv).
        destruct (Hv bad) as (rb & ? & _); [|eauto].
        by apply (chain_reach_in_chain stb l (importedFrom s)).
      - destruct (H3 _ _ _ Hs Hc) as (rb & ? & _). eauto. }
    destruct Hv as (rb & Hgb). exists rb. split; [done|].
    rewrite <- Hbad. apply (obj_ptrs_ok_same st stb G Hp). done. }
  destruct Hrb as (rb & Hgb & Hrb).
  unfold work_fuel in *. simpl.
  rewrite (depwalk_body_hits _ (length (objs stb)) (depwalk_rec_walked _)
             (depwalk_rec_ends _) f 0 stb bad rb); [done|done| |done|done].
  rewrite Hexp. by apply (followed_same st).
Qed.

(** *** The precondition, as a test *)

(** No object exports a symbol of which it holds a linked import, and no
    object is the first exporter of a symbol it imports. *)
Definition export_clear (st : State) (f : ObjF) (e : XrefRec) : bool :=
  match syms st !! x_sym e with
  | Some s =>
      match xref_chain (S (nxrefs st)) (importedFrom s) st with
      | Done l => forallb (fun x => negb (xr_obj x =? f)%nat) l
      | _ => false
      end
  | None => true
  end.

Definition import_clear (st : State) (f : ObjF) (e : XrefRec) : bool :=
  match syms st !! x_sym e with
  | Some s =>
      match exportedBy s with
      | Some x => negb (xr_obj x =? f)%nat
      | None => true
      end
  | None => true
  end.

Definition self_ref_free (st : State) : bool :=
  forallb (fun b : bool => b)
    (imap (fun f o => forallb (export_clear st f) (exports o)
                      && forallb (import_clear st f) (imports o))
          (objs st)).

Definition selfref_input : list scanned :=
  [Conv1 "a.o:"; Conv2 "s" "T"; Conv1 "x.o:"; Conv2 "s" "T"; Conv2 "s" "U"].

Definition selfref_state : State := result_state (snd <$> ldep [(selfref_input, "in")]).

Lemma is_chain_reach (st : State) (l : list Xref) :
  forall p y, is_chain st p l -> y ∈ l -> chain_reach st p y.
Proof.
  induction l as [|x l IH]; intros p y Hc Hy; [by apply elem_of_nil in Hy|].
  simpl in Hc. destruct Hc as (-> & r & Hx & Hc).
  apply elem_of_cons in Hy as [->|Hy]; [constructor|].
  econstructor; [done|]. by apply IH.
Qed.

Lemma forallb_imap {A} (g : nat -> A -> bool) (l : list A) (i : nat) (a : A) :
  forallb (fun b : bool => b) (imap g l) = true -> l !! i = Some a -> g i a = true.
Proof.
  intros H Hi. apply (forallb_elem _ _ H). apply elem_of_lookup_imap. eauto.
Qed.

Lemma self_ref_free_ok (st : State) : self_ref_free st = true -> no_self_ref st.
Proof.
  intros H m f ref (o & e & s & Ho & He & Hs & Hc).
  pose proof (forallb_imap _ _ _ _ H Ho) as Hf. simpl in Hf.
  apply andb_true_iff in Hf as [He' Hi'].
  destruct m.
  - pose proof (forallb_elem _ _ He' e He) as H1. unfold export_clear in H1.
    rewrite Hs in H1. destruct (xref_chain _ _ _) as [l| |] eqn:E; [|done..].
    apply xref_chain_Done in E as [Hl _].
    pose proof (forallb_elem _ _ H1 ref (chain_reach_in_chain _ _ _ _ Hl Hc)) as H2.
    simpl in H2. apply negb_true_iff, Nat.eqb_neq in H2. done.
  - pose proof (forallb_elem _ _ Hi' e He) as H1. unfold import_clear in H1.
    rewrite Hs, Hc in H1. apply negb_true_iff, Nat.eqb_neq in H1. done.
Qed.

Lemma sum_0 (l : list Z) :
  Forall (fun z => 0 <= z) l -> foldr Z.add 0 l = 0 -> Forall (fun z => z = 0) l.
Proof.
  induction 1 as [|z l Hz Hl IH]; simpl; [done|]. intros H.
  assert (0 <= foldr Z.add 0 l).
  { clear -Hl. induction Hl; simpl; lia. }
  constructor; [lia|]. apply IH. lia.
Qed.

Lemma filter_length_0 {A} (P : A -> Prop) `{!forall x, Decision (P x)} (l : list A) :
  length (filter P l) = 0%nat -> forall x, x ∈ l -> ~ P x.
Proof.
  intros Hlen x Hx HP. assert (x ∈ filter P l) as Hin by by apply list_elem_of_filter.
  destruct (filter P l); [by apply elem_of_nil in Hin|done].
Qed.

(** What [main] asserts of [checkObjPtrs] before it links. *)
Lemma checkObjPtrs_0 (st : State) : checkObjPtrs st = 0 -> obj_ptrs_ok st.
Proof.
  unfold checkObjPtrs. intros H x r Hx. apply get_xref_Done in Hx as (o & Ho & Hr).
  apply sum_0 in H.
  - rewrite Forall_forall in H.
    specialize (H _ (proj2 (elem_of_lookup_imap _ _ _) (ex_intro _ _ (ex_intro _ _ (conj eq_refl Ho))))).
    simpl in H.
    assert (H1 : length (filter (fun x0 => x_obj x0 ≠ xr_obj x) (exports o)) = 0%nat) by lia.
    assert (H2 : length (filter (fun x0 => x_obj x0 ≠ xr_obj x) (imports o)) = 0%nat) by lia.
    apply list_elem_of_lookup_2 in Hr.
    destruct (xr_arr x); simpl in Hr.
    + pose proof (filter_length_0 _ _ H1 r Hr) as Hn. simpl in Hn.
      destruct (decide (x_obj r = xr_obj x)); [done|]. by destruct Hn.
    + pose proof (filter_length_0 _ _ H2 r Hr) as Hn. simpl in Hn.
      destruct (decide (x_obj r = xr_obj x)); [done|]. by destruct Hn.
  - apply Forall_forall. intros z Hz. apply elem_of_lookup_imap in Hz as (i & o' & -> & _). lia.
Qed.

(** In a state that passes [main]'s test of the object pointers, for every
    start object, action and mode:
    - if no object exports a symbol of which it holds a linked import, and
      no object is the first exporter of a symbol it imports, the assertion
      [ref->obj != f] of [depwalk_rec] does not fire, and (the pointers of
      the graph being good and the work slots clear) the walk returns;
    - if the object the walk starts from breaks the half of that condition
      its mode follows, the walk aborts on that assertion. *)
Lemma depwalk_self_ref_start (f : ObjF) (action : option DepPrintArgRec) (mode : Z)
    (st : State) :
  checkObjPtrs st = 0 ->
  (no_self_ref st ->
     depwalk f action mode st <> Fail (AssertFailed A_self_ref) /\
     (wf_walk st = true -> all_work_nil st -> BUILD_LIST st = false ->
      (f < length (objs st))%nat ->
      exists st', depwalk f action mode st = Done st'))
  /\ (wf_walk st = true -> all_work_nil st -> BUILD_LIST st = false ->
      (exists ref, followed st (flag_set mode WALK_EXPORTS) f ref /\ xr_obj ref = f) ->
      depwalk f action mode st = Fail (AssertFailed A_self_ref)).
Proof.
  intros Hp%checkObjPtrs_0. split.
  - intros Hn. pose proof (depwalk_no_self_ref f action mode st Hp Hn) as H. split; [done|].
    intros Hwf Hnil Hb Hf.
    destruct (depwalk_ends f action mode st Hwf Hnil Hb Hf) as [?|?]; done.
  - intros Hwf Hnil Hb (ref & Hfol & Href). by apply (depwalk_hits f action mode st ref).
Qed.

(** C10 as stated fails in its last part: with the condition broken (here
    [x.o] exports [s] and holds a linked import of it) a walk need not
    abort; the walk over the imports from [x.o] returns. *)
Lemma depwalk_self_ref_counterexample :
  checkObjPtrs selfref_state = 0
  /\ ~ no_self_ref selfref_state
  /\ exists st', depwalk 2%nat None WALK_IMPORTS selfref_state = Done st'.
Proof.
  split; [vm_compute; reflexivity|]. split.
  - intros H. apply (H true 2%nat (mkXref Imports 2%nat 0%nat)); [|reflexivity].
    eexists _, _, _. split; [vm_compute; reflexivity|].
    split; [vm_compute; left|].
    split; [vm_compute; reflexivity|]. vm_compute. constructor.
  - eexists. vm_compute. reflexivity.
Qed.

(** ** Looking up an object by name (fileListFind) *)

(** The key [fileListFind] searches with when the library is [MATCH_ANY]. *)
Definition any_lib_key (objn : string) : ObjFRec := mkObjFRec objn LAny None None WNull [] [].

Definition obj_name (st : State) (p : ObjF) : string :=
  match objs st !! p with Some o => o_name o | None => EmptyString end.

(** The index as [fileListBuildIndex] leaves it: one entry per object,
    ordered by name. *)
Definition index_sorted (st : State) : Prop :=
  length (fileListIndex st) = length (objs st) /\
  Forall (fun p => p < length (objs st))%nat (fileListIndex st) /\
  StronglySorted (fun p q => strcmp (obj_name st p) (obj_name st q) <= 0) (fileListIndex st).

(** The entries of the index whose object bears the name [m], whatever its
    library. *)
Definition named (m : string) (st : State) : list ObjF :=
  filter (fun p => obj_name st p = m) (fileListIndex st).

Definition two_libs_inputs : list (list scanned * string) :=
  [([Conv1 "main.o:"; Conv2 "printf" "U";
     Conv1 "libc.a[printf.o]:"; Conv2 "printf" "T";
     Conv1 "printf.o:"; Conv2 "printf" "T";
     Conv1 "libmine.a[printf.o]:"; Conv2 "printf" "T"], "in")].

Definition two_libs_state : State := result_state (snd <$> ldep two_libs_inputs).

Lemma ascii_compare_trans (a b c : ascii) :
  Ascii.compare a b = Lt -> Ascii.compare b c = Lt -> Ascii.compare a c = Lt.
Proof. unfold Ascii.compare. rewrite !N.compare_lt_iff. lia. Qed.

Lemma string_compare_trans (a : string) :
  forall b c, String.compare a b = Lt -> String.compare b c = Lt -> String.compare a c = Lt.
Proof.
  induction a as [|x a IH]; intros [|y b] [|z c]; simpl; try done.
  destruct (Ascii.compare x y) eqn:Exy; [|clear IH|done].
  - apply Ascii.compare_eq_iff in Exy as ->.
    destruct (Ascii.compare y z); [apply IH|done|done].
  - destruct (Ascii.compare y z) eqn:Eyz; [| |done].
    + apply Ascii.compare_eq_iff in Eyz as <-. by rewrite Exy.
    + by rewrite (ascii_compare_trans x y z).
Qed.

Lemma strcmp_lt (a b : string) : strcmp a b < 0 <-> String.compare a b = Lt.
Proof. unfold strcmp. destruct (String.compare a b); split; (done || lia). Qed.

Lemma strcmp_le_cases (a b : string) : strcmp a b <= 0 -> a = b \/ String.compare a b = Lt.
Proof.
  unfold strcmp. destruct (String.compare a b) eqn:E; [|by right|lia].
  intros _. left. by apply String.compare_eq_iff.
Qed.

Lemma strcmp_le_trans (m a b : string) : strcmp m a <= 0 -> strcmp a b <= 0 -> strcmp m b <= 0.
Proof.
  intros [->|H1]%strcmp_le_cases [->|H2]%strcmp_le_cases.
  - by rewrite strcmp_refl.
  - apply strcmp_lt in H2. lia.
  - apply strcmp_lt in H1. lia.
  - assert (strcmp m b < 0); [|lia]. apply strcmp_lt. by apply (string_compare_trans m a b).
Qed.

Lemma strcmp_lt_le_trans (m a b : string) : strcmp m a < 0 -> strcmp a b <= 0 -> strcmp m b < 0.
Proof.
  intros H1 [->|H2]%strcmp_le_cases; [done|]. apply strcmp_lt in H1.
  apply strcmp_lt. by apply (string_compare_trans m a b).
Qed.

(** With [MATCH_ANY] in the key, [objcmp] compares the names only. *)
Lemma objcmp_any_lib (m : string) (st : State) (o : ObjFRec) :
  objcmp st (any_lib_key m) o = Done (strcmp m (o_name o)).
Proof.
  unfold objcmp. simpl. destruct (strcmp m (o_name o) =? 0) eqn:E; simpl; [|done].
  apply Z.eqb_eq in E. by rewrite E.
Qed.

Lemma bsearch_S (fuel : nat) (st : State) (key : ObjFRec) (base : list ObjF) (l u : nat) :
  bsearch (S fuel) st key base l u
  = if bool_decide (l < u)%nat then
      p ← deref (base !! ((l + u) / 2)%nat);
      o ← get_obj p st;
      c ← objcmp st key o;
      if c <? 0 then bsearch fuel st key base l ((l + u) / 2)%nat
      else if 0 <? c then bsearch fuel st key base (S ((l + u) / 2)%nat) u
      else Done (Some ((l + u) / 2)%nat)
    else Done None.
Proof. done. Qed.

Section find_by_name.
Variable st : State.
Variable m : string.

Let c (p : ObjF) : Z := strcmp m (obj_name st p).

Lemma compare_entry (p : ObjF) {B} (k : Z -> res B) :
  (p < length (objs st))%nat ->
  (o ← get_obj p st; cc ← objcmp st (any_lib_key m) o; k cc) = k (c p).
Proof.
  intros Hp. destruct (get_obj_valid p st Hp) as (o & -> & Ho).
  rewrite ret_bind, objcmp_any_lib, ret_bind. unfold c, obj_name. by rewrite Ho.
Qed.

Lemma sorted_parts (idx : list ObjF) :
  StronglySorted (fun p q => strcmp (obj_name st p) (obj_name st q) <= 0) idx ->
  exists L M R, idx = L ++ M ++ R /\ Forall (fun p => 0 < c p) L /\
                Forall (fun p => c p = 0) M /\ Forall (fun p => c p < 0) R.
Proof.
  induction 1 as [|p l Hs IH Hp].
  { exists [], [], []. done. }
  destruct IH as (L & M & R & -> & HL & HM & HR).
  destruct (Z.lt_trichotomy (c p) 0) as [Hc|[Hc|Hc]].
  - exists [], [], (p :: L ++ M ++ R). split; [done|]. split; [done|]. split; [done|].
    constructor; [done|]. eapply Forall_impl; [exact Hp|]. simpl. intros q Hq.
    by apply (strcmp_lt_le_trans m (obj_name st p)).
  - assert (L = []) as ->.
    { destruct L as [|q L]; [done|]. exfalso. apply Forall_cons in HL as [Hq _].
      apply Forall_cons in Hp as [Hpq _]. unfold c in Hc, Hq.
      pose proof (strcmp_le_trans m _ _ (Z.eq_le_incl _ _ Hc) Hpq). lia. }
    exists [], (p :: M), R. split; [done|]. split; [done|]. split; [|done].
    by constructor.
  - exists (p :: L), M, R. split; [done|]. split; [|done]. by constructor.
Qed.

Variables L M R : list ObjF.
Hypothesis HL : Forall (fun p => 0 < c p) L.
Hypothesis HM : Forall (fun p => c p = 0) M.
Hypothesis HR : Forall (fun p => c p < 0) R.
Hypothesis Hvalid : Forall (fun p => p < length (objs st))%nat (L ++ M ++ R).

Lemma bsearch_parts (fuel : nat) :
  forall l u,
    (l <= length L)%nat -> (length L + length M <= u)%nat ->
    (u <= length (L ++ M ++ R))%nat -> (u - l < fuel)%nat ->
    exists r, bsearch fuel st (any_lib_key m) (L ++ M ++ R) l u = Done r /\
              match r with
              | None => M = []
              | Some k => (length L <= k < length L + length M)%nat
              end.
Proof.
  induction fuel as [|fuel IH]; intros l u Hl Hu Hlen Hf; [lia|]. rewrite bsearch_S.
  destruct (bool_decide (l < u)%nat) eqn:E.
  2:{ apply bool_decide_eq_false in E. exists None. split; [done|].
      destruct M; [done|]. simpl in Hu. lia. }
  apply bool_decide_eq_true in E. set (idx := ((l + u) / 2)%nat).
  assert (Hidx : (l <= idx < u)%nat).
  { unfold idx. split; [apply Nat.div_le_lower_bound; lia|apply Nat.Div0.div_lt_upper_bound; lia]. }
  fold idx.
  destruct (lookup_lt_is_Some_2 (L ++ M ++ R) idx) as [p Hp]; [lia|].
  rewrite Hp. change (deref (Some p)) with (Done p). rewrite ret_bind.
  rewrite compare_entry.
  2:{ rewrite Forall_forall in Hvalid. apply Hvalid. by eapply list_elem_of_lookup_2. }
  assert (Hsign : ((idx < length L)%nat /\ 0 < c p) \/
                  ((length L <= idx < length L + length M)%nat /\ c p = 0) \/
                  ((length L + length M <= idx)%nat /\ c p < 0)).
  { destruct (decide (idx < length L)%nat) as [H1|H1].
    { left. split; [done|]. rewrite lookup_app_l in Hp by done.
      rewrite Forall_forall in HL. apply HL. by eapply list_elem_of_lookup_2. }
    rewrite lookup_app_r in Hp by lia. right.
    destruct (decide (idx - length L < length M)%nat) as [H2|H2].
    { left. split; [lia|]. rewrite lookup_app_l in Hp by done.
      rewrite Forall_forall in HM. apply HM. by eapply list_elem_of_lookup_2. }
    right. split; [lia|]. rewrite lookup_app_r in Hp by lia.
    rewrite Forall_forall in HR. apply HR. by eapply list_elem_of_lookup_2. }
  destruct Hsign as [[H1 Hc]|[[H1 Hc]|[H1 Hc]]].
  - rewrite (proj2 (Z.ltb_ge _ _)) by lia. rewrite (proj2 (Z.ltb_lt _ _)) by lia.
    apply IH; lia.
  - rewrite Hc. simpl. exists (Some idx). done.
  - rewrite (proj2 (Z.ltb_lt _ _)) by lia. apply IH; lia.
Qed.

Lemma scan_up_zeros (Z0 R0 : list ObjF) :
  Forall (fun p => p < length (objs st))%nat (Z0 ++ R0) ->
  Forall (fun p => c p = 0) Z0 -> Forall (fun p => c p <> 0) R0 ->
  forall e, scan_up st (any_lib_key m) (Z0 ++ R0) e = Done (e + length Z0)%nat.
Proof.
  induction Z0 as [|p Z0 IH]; intros Hv HZ HR0 e.
  - simpl. destruct R0 as [|p R0]; [simpl; f_equal; lia|].
    apply Forall_cons in Hv as [Hp _]. apply Forall_cons in HR0 as [Hc _].
    simpl. rewrite compare_entry by done.
    rewrite (proj2 (Z.eqb_neq _ _)) by done. f_equal. lia.
  - apply Forall_cons in Hv as [Hp Hv]. apply Forall_cons in HZ as [Hc HZ].
    simpl. rewrite compare_entry by done. rewrite Hc. simpl.
    rewrite IH by done. f_equal. lia.
Qed.

Lemma scan_down_zeros (Z0 R0 : list ObjF) :
  Forall (fun p => p < length (objs st))%nat (Z0 ++ R0) ->
  Forall (fun p => c p = 0) Z0 -> Forall (fun p => c p <> 0) R0 ->
  forall found, scan_down st (any_lib_key m) (Z0 ++ R0) found = Done (found - length Z0)%nat.
Proof.
  induction Z0 as [|p Z0 IH]; intros Hv HZ HR0 e.
  - simpl. destruct R0 as [|p R0]; [simpl; f_equal; lia|].
    apply Forall_cons in Hv as [Hp _]. apply Forall_cons in HR0 as [Hc _].
    simpl. rewrite compare_entry by done.
    rewrite (proj2 (Z.eqb_neq _ _)) by done. f_equal. lia.
  - apply Forall_cons in Hv as [Hp Hv]. apply Forall_cons in HZ as [Hc HZ].
    simpl. rewrite compare_entry by done. rewrite Hc. simpl.
    rewrite IH by done. f_equal. lia.
Qed.

Lemma filter_parts : filter (fun p => obj_name st p = m) (L ++ M ++ R) = M.
Proof.
  rewrite !filter_app.
  assert (E1 : filter (fun p => obj_name st p = m) L = []).
  { clear -HL. induction L as [|p L' IH]; [done|]. apply Forall_cons in HL as [Hp HL'].
    rewrite filter_cons_False; [by apply IH|].
    intros E. unfold c in Hp. rewrite E, strcmp_refl in Hp. lia. }
  assert (E2 : filter (fun p => obj_name st p = m) R = []).
  { clear -HR. induction R as [|p R' IH]; [done|]. apply Forall_cons in HR as [Hp HR'].
    rewrite filter_cons_False; [by apply IH|].
    intros E. unfold c in Hp. rewrite E, strcmp_refl in Hp. lia. }
  assert (E3 : filter (fun p => obj_name st p = m) M = M).
  { clear -HM. induction M as [|p M' IH]; [done|]. apply Forall_cons in HM as [Hp HM'].
    rewrite filter_cons_True; [by rewrite IH|].
    unfold c in Hp. apply strcmp_eq in Hp. done. }
  rewrite E1, E2, E3. simpl. by rewrite app_nil_r.
Qed.

Lemma find_parts :
  fileListIndex st = L ++ M ++ R -> length (fileListIndex st) = length (objs st) ->
  exists n first,
    (found ← bsearch (S (length (fileListIndex st))) st (any_lib_key m)
               (fileListIndex st) 0 (length (objs st));
     match found with
     | None => Done (0, 0%nat, st)
     | Some found =>
         e ← scan_up st (any_lib_key m) (drop (S found) (fileListIndex st)) (S found);
         first ← scan_down st (any_lib_key m) (reverse (take found (fileListIndex st))) found;
         Done (Z.of_nat e - Z.of_nat first, first, st)
     end) = Done (n, first, st) /\
    take (Z.to_nat n) (drop first (fileListIndex st)) = M.
Proof.
  intros Eidx Elen. rewrite Eidx in *.
  destruct (bsearch_parts (S (length (L ++ M ++ R))) 0 (length (objs st)))
    as (r & -> & Hr); [lia|rewrite <- Elen, !length_app; lia|lia|lia|].
  rewrite ret_bind. destruct r as [k|].
  2:{ exists 0, 0%nat. split; [done|]. by rewrite Hr. }
  assert (Hup : drop (S k) (L ++ M ++ R) = drop (S k - length L) M ++ R).
  { rewrite drop_app_ge by lia. rewrite drop_app_le by lia. done. }
  assert (Hdown : reverse (take k (L ++ M ++ R))
                  = reverse (take (k - length L) M) ++ reverse L).
  { rewrite take_app_ge by lia. rewrite take_app_le by lia. by rewrite reverse_app. }
  rewrite Hup, Hdown.
  rewrite scan_up_zeros.
  2:{ rewrite <- Hup. by apply Forall_drop. }
  2:{ by apply Forall_drop. }
  2:{ eapply Forall_impl; [exact HR|]. simpl. lia. }
  rewrite ret_bind. rewrite scan_down_zeros.
  2:{ rewrite <- Hdown. apply Forall_reverse. by apply Forall_take. }
  2:{ apply Forall_reverse. by apply Forall_take. }
  2:{ apply Forall_reverse. eapply Forall_impl; [exact HL|]. simpl. lia. }
  rewrite ret_bind. eexists _, _. split; [done|].
  rewrite length_drop, length_reverse, length_take.
  replace (Z.to_nat _) with (length M) by lia.
  replace (k - _)%nat with (length L) by lia.
  rewrite drop_app_length. by rewrite take_app_length.
Qed.
End find_by_name.

Lemma fileListFind_any_lib (name : string) (st : State) (po : option nat)
    (libname m : string) :
  splitName name st = (Some (po, libname, m), st) -> po = None \/ libname = EmptyString ->
  fileListFind name st
  = (found ← bsearch (S (length (fileListIndex st))) st (any_lib_key m)
               (fileListIndex st) 0 (length (objs st));
     match found with
     | None => Done (0, 0%nat, st)
     | Some found =>
         e ← scan_up st (any_lib_key m) (drop (S found) (fileListIndex st)) (S found);
         first ← scan_down st (any_lib_key m) (reverse (take found (fileListIndex st))) found;
         Done (Z.of_nat e - Z.of_nat first, first, st)
     end).
Proof.
  intros E H. unfold fileListFind. rewrite E.
  assert (bool_decide (po ≠ None) && negb (bool_decide (libname = EmptyString)) = false) as ->.
  { destruct H as [->| ->]; [done|]. rewrite (bool_decide_eq_true_2 _ eq_refl).
    by rewrite andb_false_r. }
  done.
Qed.

(** *** The index is sorted *)

Lemma objcmp_sign (st : State) (a b : ObjFRec) (c : Z) :
  objcmp st a b = Done c ->
  ((c < 0) -> (strcmp (o_name a) (o_name b) <= 0)) /\
  ((0 <= c) -> (strcmp (o_name b) (o_name a) <= 0)).
Proof.
  unfold objcmp. destruct (strcmp (o_name a) (o_name b) =? 0) eqn:E; simpl.
  - apply Z.eqb_eq in E. intros _. rewrite E. apply strcmp_eq in E as ->.
    rewrite strcmp_refl. lia.
  - apply Z.eqb_neq in E. intros [= <-]. split; [lia|]. intros Hc.
    unfold strcmp in *. rewrite String.compare_antisym.
    destruct (String.compare (o_name a) (o_name b)); simpl; lia.
Qed.

Lemma insert_sorted_spec (st : State) (f : ObjF) (l : list ObjF) :
  forall l', insert_sorted st f l = Done l' ->
    StronglySorted (fun p q => strcmp (obj_name st p) (obj_name st q) <= 0) l ->
    StronglySorted (fun p q => strcmp (obj_name st p) (obj_name st q) <= 0) l' /\
    l' ≡ₚ f :: l.
Proof.
  induction l as [|g l IH]; intros l' H Hs.
  - injection H as <-. split; [|done]. repeat constructor.
  - simpl in H. apply bind_Done in H as (a & Ha & H). apply bind_Done in H as (b & Hb & H).
    apply bind_Done in H as (c & Hc & H). apply get_obj_Done in Ha, Hb.
    apply objcmp_sign in Hc as [Hlt Hge].
    assert (Ea : obj_name st f = o_name a) by (unfold obj_name; by rewrite Ha).
    assert (Eb : obj_name st g = o_name b) by (unfold obj_name; by rewrite Hb).
    apply StronglySorted_inv in Hs as Hs'. destruct Hs' as [Hl Hg].
    destruct (c <? 0) eqn:E.
    + apply Z.ltb_lt in E. injection H as <-. split; [|done].
      constructor; [done|]. constructor; [rewrite Ea, Eb; auto|].
      eapply Forall_impl; [exact Hg|]. simpl. intros q Hq.
      apply (strcmp_le_trans _ (obj_name st g)); [rewrite Ea, Eb; auto|done].
    + apply Z.ltb_ge in E. apply bind_Done in H as (l'' & Hl'' & [= <-]).
      destruct (IH _ Hl'' Hl) as [Hs'' Hp]. split.
      * constructor; [done|]. rewrite Hp. constructor; [rewrite Ea, Eb; auto|done].
      * rewrite Hp. apply Permutation_swap.
Qed.

Lemma qsort_objs_spec (st : State) (l : list ObjF) :
  forall l', qsort_objs st l = Done l' ->
    StronglySorted (fun p q => strcmp (obj_name st p) (obj_name st q) <= 0) l' /\ l' ≡ₚ l.
Proof.
  induction l as [|f l IH]; intros l' H.
  - injection H as <-. split; [constructor|done].
  - unfold qsort_objs in H. simpl in H. apply bind_Done in H as (s & Hs & H).
    destruct (IH _ Hs) as [Hs1 Hp1]. apply insert_sorted_spec in H as [Hs2 Hp2]; [|done].
    split; [done|]. by rewrite Hp2, Hp1.
Qed.

(** The index [fileListBuildIndex] builds has one entry per object and is
    ordered by name. *)
Lemma fileListBuildIndex_sorted (st : State) (idx : list ObjF) :
  fileListBuildIndex st = Done idx -> index_sorted (set_fileListIndex idx st).
Proof.
  intros H. apply qsort_objs_spec in H as [Hs Hp]. split; [|split].
  - simpl. by rewrite Hp, length_seq.
  - simpl. rewrite Hp. apply Forall_forall. intros p Hin. apply elem_of_seq in Hin. lia.
  - done.
Qed.

(** C9: a bare name [m] (no bracket in it) is looked up exactly as [[m]]
    is: both make the key's library [MATCH_ANY], so that [objcmp] compares
    the names only, and on the index as [fileListBuildIndex] leaves it the
    objects found are all those named [m], inside a library or not. *)
Theorem fileListFind_bare_name (m : string) (st : State) :
  ("["%char ∉ chars m) -> ("]"%char ∉ chars m) ->
  fileListFind m st = fileListFind ("[" +:+ m +:+ "]") st
  /\ (forall o, objcmp st (any_lib_key m) o = Done (strcmp m (o_name o)))
  /\ (index_sorted st ->
      found_objs m st = Done (named m st) /\
      forall p o, p ∈ fileListIndex st -> objs st !! p = Some o ->
                  (p ∈ named m st <-> o_name o = m)).
Proof.
  intros Ho Hc.
  assert (E1 : splitName m st = (Some (None, m, m), st)).
  { apply splitName_no_bracket. intros Hl. apply Hc. rewrite last_lookup in Hl.
    by eapply list_elem_of_lookup_2. }
  assert (E2 : splitName ("[" +:+ m +:+ "]") st = (Some (Some 0%nat, EmptyString, m), st)).
  { by apply (splitName_member EmptyString m st). }
  split; [|split].
  - rewrite (fileListFind_any_lib _ _ _ _ _ E1), (fileListFind_any_lib _ _ _ _ _ E2); auto.
  - apply objcmp_any_lib.
  - intros (Hlen & Hv & Hs). split.
    + unfold found_objs. rewrite (fileListFind_any_lib _ _ _ _ _ E1) by auto.
      destruct (sorted_parts st m _ Hs) as (L & M & R & Eidx & HL & HM & HR).
      rewrite Eidx in Hv.
      destruct (find_parts st m L M R HL HM HR Hv Eidx Hlen) as (n & first & -> & E).
      rewrite ret_bind. unfold named. rewrite E. f_equal.
      rewrite Eidx. symmetry. by apply filter_parts.
    + intros p o Hp Hobj. unfold named. rewrite list_elem_of_filter.
      unfold obj_name. rewrite Hobj. naive_solver.
Qed.

Lemma fileListFind_bare_name_witness :
  fileListFind "printf.o" two_libs_state = fileListFind "[printf.o]" two_libs_state
  /\ found_objs "printf.o" two_libs_state = Done (named "printf.o" two_libs_state).
Proof.
  assert (Ho : "["%char ∉ chars "printf.o") by (apply (bool_decide_unpack _); vm_compute; exact I).
  assert (Hc : "]"%char ∉ chars "printf.o") by (apply (bool_decide_unpack _); vm_compute; exact I).
  assert (Hs : index_sorted two_libs_state).
  { split; [vm_compute; reflexivity|].
    split; apply (bool_decide_unpack _); vm_compute; exact I. }
  split.
  - exact (proj1 (fileListFind_bare_name "printf.o" two_libs_state Ho Hc)).
  - exact (proj1 (proj2 (proj2 (fileListFind_bare_name "printf.o" two_libs_state Ho Hc)) Hs)).
Defined.

(** In that state the bare name finds the member of [libc.a], the object
    outside any library and the member of [libmine.a]. *)
Lemma two_libs_found :
  found_objs "printf.o" two_libs_state = Done [3; 2; 4]%nat
  /\ (fun o => (o_name o, o_lib o)) <$> objs two_libs_state
     = [("<UNDEFINED>", LNull); ("main.o", LNull); ("printf.o", LPtr 0%nat);
        ("printf.o", LNull); ("printf.o", LPtr 1%nat)].
Proof. split; vm_compute; reflexivity. Qed.

(** ** The link sets (linkObj, main) *)

(** [f->link.anchor] *)
Definition anchor_of (st : State) (f : ObjF) : option LinkSet := objs st !! f ≫= link_anchor.

(** The object [linkObj(f)] calls [dep] at its [i]-th import: the owner of
    the first exporter of the import's symbol. *)
Definition first_exporter (st : State) (f : ObjF) (i : nat) : option ObjF :=
  o ← objs st !! f;
  r ← imports o !! i;
  sr ← syms st !! x_sym r;
  found ← tfind (s_name sr) st;
  fr ← syms st !! found;
  e ← exportedBy fr;
  eo ← objs st !! xr_obj e;
  er ← xarray_of (xr_arr e) eo !! xr_idx e;
  Some (x_obj er).

Definition imports_from (st : State) (f d : ObjF) : Prop :=
  exists i, first_exporter st f i = Some d.

(** [g] is reached from [f] by following first exporters of imports. *)
Definition reach (st : State) (f g : ObjF) : Prop := rtc (imports_from st) f g.

(** The objects of the first batch of input: those after the sentinel up to
    [lastAppObj]. *)
Definition mandatory (lastAppObj f : ObjF) : Prop := (1 <= f <= lastAppObj)%nat.

(** The graph as ingestion leaves it: the sentinel alone in its link set
    and without imports, no other object in a link set, no import linked
    yet, and the symbols of imports and the first exporters in place. *)
Definition fresh_graph (st : State) : bool :=
  match objs st with
  | o0 :: os =>
      bool_decide (link_anchor o0 = Some undefLinkSet) && bool_decide (link_next o0 = None)
      && bool_decide (imports o0 = [])
      && forallb (fun o => bool_decide (link_anchor o = None)) os
  | [] => false
  end
  && bool_decide (appSet st = None) && bool_decide (optionalSet st = None)
  && bool_decide (undefSet st = Some 0%nat)
  && forallb (fun o => forallb (fun r => bool_decide (x_next r = None)
                                         && bool_decide (x_sym r < length (syms st))%nat)
                               (imports o)) (objs st)
  && forallb (fun s => match exportedBy s with
                       | Some e => xref_obj_ok st e
                       | None => true
                       end) (syms st).

(** The state without what linking writes: anchors, set lists, the [next]
    of imports, the importer lists and the output. *)
Definition erase_obj (o : ObjFRec) : ObjFRec :=
  mkObjFRec (o_name o) (o_lib o) None None (work o) (exports o)
            (with_next None <$> imports o).

Definition erase_links (st : State) : State :=
  mkState (erase_obj <$> objs st) (with_importedFrom None <$> syms st) (libs st)
          None None None (fileListIndex st) (depwalkAction st) (depwalkMode st)
          (force st) (verbose st) (warn st) [].

Definition same_links (st st' : State) : Prop := erase_links st' = erase_links st.

(** The number of objects in no link set. *)
Definition unanchored (st : State) : nat :=
  length (filter (fun o => link_anchor o = None) (objs st)).

(** [f->link.next] and [f->imports]. *)
Definition next_of (st : State) (f : ObjF) : option (option ObjF) := link_next <$> objs st !! f.
Definition imports_of (st : State) (f : ObjF) : option (list XrefRec) := imports <$> objs st !! f.

Definition unlinked (l : list XrefRec) : Prop :=
  forall j r, l !! j = Some r -> x_next r = None.

Definition closed (st : State) (g : ObjF) : Prop :=
  forall d, imports_from st g d -> anchor_of st d <> None.

Definition link_wf (st : State) : Prop :=
  (forall f o j r, objs st !! f = Some o -> imports o !! j = Some r ->
                   (x_sym r < length (syms st))%nat) /\
  (forall s fr e, syms st !! s = Some fr -> exportedBy fr = Some e ->
     exists er, get_xref e st = Done er /\ (x_obj er < length (objs st))%nat).

(** [l] is what is met from [p] on along [link.next]. *)
Fixpoint is_olist (st : State) (p : option ObjF) (l : list ObjF) : Prop :=
  match l with
  | [] => p = None
  | g :: l' => p = Some g /\ exists n, next_of st g = Some n /\ is_olist st n l'
  end.

(** [f] is on the list of the link set [a]. *)
Definition in_set (st : State) (a : LinkSet) (f : ObjF) : Prop :=
  exists l, is_olist st (set_head a st) l /\ f ∈ l.

(** What holds between the calls of [linkObj]; [stk] are the objects whose
    call is under way. *)
Definition link_inv (stk : list ObjF) (st : State) : Prop :=
  link_wf st /\
  (forall g l, anchor_of st g = None -> imports_of st g = Some l -> unlinked l) /\
  (forall g, g ∈ stk -> anchor_of st g <> None) /\
  (forall g, anchor_of st g <> None -> g ∈ stk \/ closed st g) /\
  (forall a, exists l, is_olist st (set_head a st) l /\
                       forall g, g ∈ l <-> anchor_of st g = Some a /\ g ∉ stk).

(** What a call [linkObj(f)] with anchor [a] changes. *)
Definition link_ext (a : LinkSet) (f : ObjF) (st st' : State) : Prop :=
  same_links st st' /\
  (forall g x, anchor_of st g = Some x -> anchor_of st' g = Some x) /\
  (forall g b, anchor_of st g = None -> anchor_of st' g = Some b -> b = a /\ reach st f g) /\
  (forall g, anchor_of st g <> None -> g <> f -> imports_of st' g = imports_of st g).

(** What holds before the [i]-th turn of the loop of [linkObj(f)] that
    started in [st0]. *)
Definition link_loop_inv (a : LinkSet) (f : ObjF) (stk : list ObjF) (st0 : State)
    (i : nat) (s : State) : Prop :=
  link_ext a f st0 s /\ link_inv (f :: stk) s /\
  (exists l, imports_of s f = Some l /\
             forall j r, (i <= j)%nat -> l !! j = Some r -> x_next r = None) /\
  (forall j d, (j < i)%nat -> first_exporter st0 f j = Some d -> anchor_of s d <> None).

(** The store after [f]'s [i]-th import [r] has been put on the importer
    list of the symbol [found]. *)
Definition link_site (f : ObjF) (i : nat) (o : ObjFRec) (r : XrefRec) (found : Sym)
    (fr : SymRec) (st : State) : State :=
  set_syms (<[found := with_importedFrom (Some (mkXref Imports f i)) fr]> (syms st))
    (set_objs (<[f := with_imports (<[i := with_next (importedFrom fr) r]> (imports o)) o]>
                 (objs st)) st).

(** *** What linking leaves alone *)

Lemma same_links_refl (st : State) : same_links st st.
Proof. done. Qed.

Lemma same_links_trans (st1 st2 st3 : State) :
  same_links st1 st2 -> same_links st2 st3 -> same_links st1 st3.
Proof. unfold same_links. congruence. Qed.

Lemma same_links_sym (st st' : State) : same_links st st' -> same_links st' st.
Proof. unfold same_links. congruence. Qed.

Lemma find_sym_erase (name : string) (ss : list SymRec) :
  find_sym name (with_importedFrom None <$> ss) = find_sym name ss.
Proof.
  induction ss as [|s ss IH]; [done|]. rewrite fmap_cons.
  cbn [find_sym with_importedFrom s_name]. by rewrite IH.
Qed.

Lemma first_exporter_erase (st : State) (f : ObjF) (i : nat) :
  first_exporter (erase_links st) f i = first_exporter st f i.
Proof.
  unfold first_exporter, tfind. simpl. rewrite list_lookup_fmap.
  destruct (objs st !! f) as [o|]; simpl; [|done]. rewrite list_lookup_fmap.
  destruct (imports o !! i) as [r|]; simpl; [|done]. rewrite list_lookup_fmap.
  destruct (syms st !! x_sym r) as [sr|]; simpl; [|done]. rewrite find_sym_erase.
  destruct (find_sym (s_name sr) (syms st)) as [found|]; simpl; [|done].
  rewrite list_lookup_fmap.
  destruct (syms st !! found) as [fr|]; simpl; [|done].
  destruct (exportedBy fr) as [e|]; simpl; [|done]. rewrite list_lookup_fmap.
  destruct (objs st !! xr_obj e) as [eo|]; simpl; [|done].
  destruct (xr_arr e); simpl; [done|]. rewrite list_lookup_fmap.
  by destruct (imports eo !! xr_idx e).
Qed.

Lemma same_links_first_exporter (st st' : State) (f : ObjF) (i : nat) :
  same_links st st' -> first_exporter st' f i = first_exporter st f i.
Proof.
  intros H. rewrite <- (first_exporter_erase st'), <- (first_exporter_erase st). by rewrite H.
Qed.

Lemma same_links_imports_from (st st' : State) (f d : ObjF) :
  same_links st st' -> imports_from st f d -> imports_from st' f d.
Proof. intros H [i Hi]. exists i. by rewrite (same_links_first_exporter st). Qed.

Lemma same_links_reach (st st' : State) (f g : ObjF) :
  same_links st st' -> reach st f g -> reach st' f g.
Proof.
  intros H. induction 1 as [|x y z Hxy _ IH]; [constructor|].
  econstructor; [|exact IH]. by apply (same_links_imports_from st).
Qed.

Lemma same_links_length (st st' : State) :
  same_links st st' -> length (objs st') = length (objs st).
Proof.
  intros H. apply (f_equal objs) in H. simpl in H. apply (f_equal length) in H.
  by rewrite !length_fmap in H.
Qed.

Lemma same_links_syms_length (st st' : State) :
  same_links st st' -> length (syms st') = length (syms st).
Proof.
  intros H. apply (f_equal syms) in H. simpl in H. apply (f_equal length) in H.
  by rewrite !length_fmap in H.
Qed.

Lemma same_links_obj (st st' : State) (f : ObjF) (o : ObjFRec) :
  same_links st st' -> objs st !! f = Some o ->
  exists o', objs st' !! f = Some o' /\ erase_obj o' = erase_obj o.
Proof.
  intros H Ho. apply (f_equal objs) in H. simpl in H.
  apply (f_equal (.!! f)) in H. rewrite !list_lookup_fmap, Ho in H.
  destruct (objs st' !! f) as [o'|]; [|done]. simpl in H. exists o'. split; [done|]. congruence.
Qed.

Lemma same_links_sym_rec (st st' : State) (s : Sym) (r : SymRec) :
  same_links st st' -> syms st !! s = Some r ->
  exists r', syms st' !! s = Some r' /\ s_name r' = s_name r /\ exportedBy r' = exportedBy r.
Proof.
  intros H Hs. apply (f_equal syms) in H. simpl in H.
  apply (f_equal (.!! s)) in H. rewrite !list_lookup_fmap, Hs in H.
  destruct (syms st' !! s) as [r'|]; [|done]. simpl in H. exists r'. split; [done|].
  injection H as H1 _ H2. done.
Qed.

Lemma erase_obj_imports (o o' : ObjFRec) (j : nat) (r : XrefRec) :
  erase_obj o' = erase_obj o -> imports o !! j = Some r ->
  exists r', imports o' !! j = Some r' /\ x_sym r' = x_sym r /\ x_obj r' = x_obj r.
Proof.
  intros H Hr. apply (f_equal imports) in H. simpl in H.
  apply (f_equal (.!! j)) in H. rewrite !list_lookup_fmap, Hr in H.
  destruct (imports o' !! j) as [r'|]; [|done]. simpl in H. exists r'. split; [done|].
  injection H as H1 H2 _. done.
Qed.

Lemma same_links_xref (st st' : State) (x : Xref) (r : XrefRec) :
  same_links st st' -> get_xref x st = Done r ->
  exists r', get_xref x st' = Done r' /\ x_sym r' = x_sym r /\ x_obj r' = x_obj r.
Proof.
  intros H Hx. apply get_xref_Done in Hx as (o & Ho & Hr).
  destruct (same_links_obj _ _ _ _ H Ho) as (o' & Ho' & E).
  destruct (xr_arr x) eqn:Ea; simpl in Hr.
  - exists r. split; [|done]. apply get_xref_Done. exists o'. split; [done|].
    rewrite Ea. simpl. apply (f_equal exports) in E. simpl in E. by rewrite E.
  - destruct (erase_obj_imports _ _ _ _ E Hr) as (r' & Hr' & ? & ?). exists r'.
    split; [|done]. apply get_xref_Done. exists o'. split; [done|]. by rewrite Ea.
Qed.

Lemma link_wf_same (st st' : State) : same_links st st' -> link_wf st -> link_wf st'.
Proof.
  intros H [H1 H2]. split.
  - intros f o' j r' Ho' Hr'.
    destruct (same_links_obj _ _ _ _ (same_links_sym _ _ H) Ho') as (o & Ho & E).
    destruct (erase_obj_imports _ _ _ _ E Hr') as (r & Hr & Es & _).
    rewrite (same_links_syms_length _ _ H), <- Es. by apply (H1 f o j).
  - intros s fr' e Hs' He'.
    destruct (same_links_sym_rec _ _ _ _ (same_links_sym _ _ H) Hs') as (fr & Hs & _ & Ee).
    destruct (H2 s fr e Hs) as (er & Her & Hlt); [congruence|].
    destruct (same_links_xref _ _ _ _ H Her) as (er' & Her' & _ & Eo).
    exists er'. split; [done|]. rewrite (same_links_length _ _ H). by rewrite Eo.
Qed.

(** *** Reading the link fields after an update *)

Lemma anchor_of_Some (st : State) (g : ObjF) (a : LinkSet) :
  anchor_of st g = Some a <-> exists o, objs st !! g = Some o /\ link_anchor o = Some a.
Proof.
  unfold anchor_of. destruct (objs st !! g) as [o|]; simpl; [|naive_solver]. naive_solver.
Qed.

Lemma imports_of_Some (st : State) (g : ObjF) (l : list XrefRec) :
  imports_of st g = Some l <-> exists o, objs st !! g = Some o /\ imports o = l.
Proof.
  unfold imports_of. destruct (objs st !! g) as [o|]; simpl; naive_solver.
Qed.

Lemma upd_obj_views (st : State) (f : ObjF) (o o' : ObjFRec) :
  objs st !! f = Some o ->
  (forall g, anchor_of (set_objs (<[f := o']> (objs st)) st) g
             = if decide (g = f) then link_anchor o' else anchor_of st g) /\
  (forall g, next_of (set_objs (<[f := o']> (objs st)) st) g
             = if decide (g = f) then Some (link_next o') else next_of st g) /\
  (forall g, imports_of (set_objs (<[f := o']> (objs st)) st) g
             = if decide (g = f) then Some (imports o') else imports_of st g) /\
  (erase_obj o' = erase_obj o -> same_links st (set_objs (<[f := o']> (objs st)) st)).
Proof.
  intros Ho. assert (Hlt : (f < length (objs st))%nat) by by apply lookup_lt_Some in Ho.
  unfold anchor_of, next_of, imports_of. simpl. split; [|split; [|split]].
  - intros g. destruct (decide (g = f)) as [->|Hne].
    + by rewrite list_lookup_insert_eq.
    + by rewrite list_lookup_insert_ne.
  - intros g. destruct (decide (g = f)) as [->|Hne].
    + by rewrite list_lookup_insert_eq.
    + by rewrite list_lookup_insert_ne.
  - intros g. destruct (decide (g = f)) as [->|Hne].
    + by rewrite list_lookup_insert_eq.
    + by rewrite list_lookup_insert_ne.
  - intros E. unfold same_links, erase_links. simpl. f_equal.
    rewrite list_fmap_insert. apply list_insert_id. by rewrite list_lookup_fmap, Ho, E.
Qed.

Lemma link_site_views (f : ObjF) (i : nat) (o : ObjFRec) (r : XrefRec) (found : Sym)
    (fr : SymRec) (st : State) :
  objs st !! f = Some o -> imports o !! i = Some r -> syms st !! found = Some fr ->
  same_links st (link_site f i o r found fr st) /\
  (forall g, anchor_of (link_site f i o r found fr st) g = anchor_of st g) /\
  (forall g, next_of (link_site f i o r found fr st) g = next_of st g) /\
  (forall a, set_head a (link_site f i o r found fr st) = set_head a st) /\
  (forall g, g <> f -> imports_of (link_site f i o r found fr st) g = imports_of st g) /\
  imports_of (link_site f i o r found fr st) f
  = Some (<[i := with_next (importedFrom fr) r]> (imports o)).
Proof.
  intros Ho Hr Hfr.
  destruct (upd_obj_views st f o
              (with_imports (<[i := with_next (importedFrom fr) r]> (imports o)) o) Ho)
    as (V1 & V2 & V3 & V4).
  split; [|split; [|split; [|split; [|split]]]].
  - unfold same_links, erase_links, link_site. simpl. f_equal.
    + rewrite list_fmap_insert. apply list_insert_id. rewrite list_lookup_fmap, Ho. simpl.
      unfold erase_obj. simpl. f_equal. f_equal.
      rewrite list_fmap_insert. symmetry. apply list_insert_id.
      by rewrite list_lookup_fmap, Hr.
    + rewrite list_fmap_insert. apply list_insert_id. by rewrite list_lookup_fmap, Hfr.
  - intros g. change (anchor_of (link_site f i o r found fr st) g)
      with (anchor_of (set_objs (<[f := with_imports (<[i := with_next (importedFrom fr) r]> (imports o)) o]> (objs st)) st) g).
    rewrite V1. destruct (decide (g = f)) as [->|]; [|done].
    unfold anchor_of. by rewrite Ho.
  - intros g. change (next_of (link_site f i o r found fr st) g)
      with (next_of (set_objs (<[f := with_imports (<[i := with_next (importedFrom fr) r]> (imports o)) o]> (objs st)) st) g).
    rewrite V2. destruct (decide (g = f)) as [->|]; [|done].
    unfold next_of. by rewrite Ho.
  - by intros [].
  - intros g Hne. change (imports_of (link_site f i o r found fr st) g)
      with (imports_of (set_objs (<[f := with_imports (<[i := with_next (importedFrom fr) r]> (imports o)) o]> (objs st)) st) g).
    rewrite V3. by rewrite decide_False.
  - change (imports_of (link_site f i o r found fr st) f)
      with (imports_of (set_objs (<[f := with_imports (<[i := with_next (importedFrom fr) r]> (imports o)) o]> (objs st)) st) f).
    rewrite V3. by rewrite decide_True.
Qed.

Lemma find_sym_total (name : string) (ss : list SymRec) :
  forall j r, ss !! j = Some r -> s_name r = name ->
    exists i fr, find_sym name ss = Some i /\ ss !! i = Some fr.
Proof.
  induction ss as [|s ss IH]; intros j r Hj Hn; [done|]. simpl.
  destruct (strcmp name (s_name s) =? 0) eqn:E.
  - exists 0%nat, s. done.
  - destruct j as [|j].
    + injection Hj as ->. rewrite Hn, strcmp_refl in E. done.
    + destruct (IH j r Hj Hn) as (i & fr & -> & Hi). exists (Datatypes.S i), fr. done.
Qed.

Lemma first_exporter_eq (st : State) (f : ObjF) (i : nat) (o : ObjFRec) (r : XrefRec)
    (sr : SymRec) (found : Sym) (fr : SymRec) :
  objs st !! f = Some o -> imports o !! i = Some r -> syms st !! x_sym r = Some sr ->
  tfind (s_name sr) st = Some found -> syms st !! found = Some fr ->
  first_exporter st f i
  = match exportedBy fr with
    | Some e => match get_xref e st with Done er => Some (x_obj er) | _ => None end
    | None => None
    end.
Proof.
  intros Ho Hr Hsr Hfound Hfr. unfold first_exporter.
  rewrite Ho. simpl. rewrite Hr. simpl. rewrite Hsr. simpl. rewrite Hfound. simpl.
  rewrite Hfr. simpl. destruct (exportedBy fr) as [e|]; simpl; [|done].
  unfold get_xref, get_obj. destruct (objs st !! xr_obj e) as [eo|]; simpl; [|done].
  by destruct (xarray_of (xr_arr e) eo !! xr_idx e).
Qed.

(** *** The objects in no link set *)

Lemma unanchored_le (st : State) : (unanchored st <= length (objs st))%nat.
Proof. apply length_filter. Qed.

Lemma filter_none_mono (l : list ObjFRec) :
  forall l', length l' = length l ->
    (forall g o', l' !! g = Some o' -> link_anchor o' = None ->
                  exists o, l !! g = Some o /\ link_anchor o = None) ->
    (length (filter (fun o => link_anchor o = None) l')
     <= length (filter (fun o => link_anchor o = None) l))%nat.
Proof.
  induction l as [|o l IH]; intros [|o' l'] Hlen H; try done.
  injection Hlen as Hlen.
  assert (IH' := IH l' Hlen (fun g => H (Datatypes.S g))).
  rewrite !filter_cons. destruct (decide (link_anchor o' = None)) as [E|E].
  - destruct (H 0%nat o' eq_refl E) as (o0 & [= <-] & E0).
    rewrite decide_True by done. simpl. lia.
  - destruct (decide (link_anchor o = None)); simpl; lia.
Qed.

Lemma unanchored_mono (st st' : State) :
  length (objs st') = length (objs st) ->
  (forall g x, anchor_of st g = Some x -> anchor_of st' g = Some x) ->
  (unanchored st' <= unanchored st)%nat.
Proof.
  intros Hlen H. apply filter_none_mono; [done|]. intros g o' Ho' E.
  destruct (lookup_lt_is_Some_2 (objs st) g) as [o Ho].
  { rewrite <- Hlen. by apply lookup_lt_Some in Ho'. }
  exists o. split; [done|]. destruct (link_anchor o) as [x|] eqn:Ex; [|done].
  assert (Hx : anchor_of st g = Some x) by (apply anchor_of_Some; eauto).
  apply H, anchor_of_Some in Hx as (o1 & Ho1 & E1). congruence.
Qed.

Lemma unanchored_anchor (st : State) (dep : ObjF) (d : ObjFRec) (a : LinkSet) :
  objs st !! dep = Some d -> link_anchor d = None ->
  (unanchored (set_objs (<[dep := with_anchor (Some a) d]> (objs st)) st) + 1
   = unanchored st)%nat.
Proof.
  intros Hd E. unfold unanchored. simpl.
  rewrite insert_take_drop by by apply lookup_lt_Some in Hd.
  rewrite <- (take_drop_middle (objs st) dep d Hd) at 3.
  rewrite !filter_app, !filter_cons. simpl. rewrite decide_True by done.
  rewrite !length_app. simpl. lia.
Qed.

(** *** Carrying the invariant along *)

Lemma is_olist_frame (st st' : State) (l : list ObjF) :
  forall p, (forall g, g ∈ l -> next_of st' g = next_of st g) ->
            is_olist st p l -> is_olist st' p l.
Proof.
  induction l as [|g l IH]; intros p Hf; [done|]. simpl.
  intros (-> & n & Hn & Hl). split; [done|]. exists n. split.
  - rewrite Hf; [done|by left].
  - apply IH; [|done]. intros h Hh. apply Hf. by right.
Qed.

Lemma closed_mono (st st' : State) (g : ObjF) :
  same_links st st' -> (forall d, anchor_of st d <> None -> anchor_of st' d <> None) ->
  closed st g -> closed st' g.
Proof.
  intros H Hm Hc d Hd. apply Hm, Hc. by apply (same_links_imports_from st').
Qed.

(** A step that writes neither anchors nor set lists, nor the imports of
    objects in no set. *)
Lemma link_inv_views (stk : list ObjF) (st st' : State) :
  same_links st st' ->
  (forall g, anchor_of st' g = anchor_of st g) ->
  (forall g, next_of st' g = next_of st g) ->
  (forall a, set_head a st' = set_head a st) ->
  (forall g, anchor_of st g = None -> imports_of st' g = imports_of st g) ->
  link_inv stk st -> link_inv stk st'.
Proof.
  intros H Ha Hn Hh Hi (Hwf & G2 & G5 & G3 & G4). split; [|split; [|split; [|split]]].
  - by apply (link_wf_same st).
  - intros g l Hg Hl. rewrite Ha in Hg. rewrite Hi in Hl by done. by apply (G2 g).
  - intros g Hg. rewrite Ha. by apply G5.
  - intros g Hg. rewrite Ha in Hg. destruct (G3 g Hg) as [?|Hc]; [by left|right].
    apply (closed_mono st); [done| |done]. intros d. by rewrite Ha.
  - intros a. destruct (G4 a) as (l & Hl & Hm). exists l. split.
    + rewrite Hh. apply (is_olist_frame st); [|done]. intros g _. apply Hn.
    + intros g. rewrite Ha. apply Hm.
Qed.

Lemma link_ext_refl (a : LinkSet) (f : ObjF) (st : State) : link_ext a f st st.
Proof. split; [done|]. split; [done|]. split; [congruence|done]. Qed.

Lemma same_links_imports_length (st st' : State) (f : ObjF) (l l' : list XrefRec) :
  same_links st st' -> imports_of st f = Some l -> imports_of st' f = Some l' ->
  length l' = length l.
Proof.
  intros H (o & Ho & <-)%imports_of_Some (o' & Ho' & <-)%imports_of_Some.
  destruct (same_links_obj _ _ _ _ H Ho) as (o1 & Ho1 & E).
  rewrite Ho' in Ho1. injection Ho1 as <-.
  apply (f_equal imports) in E. simpl in E. apply (f_equal length) in E.
  by rewrite !length_fmap in E.
Qed.

Lemma link_loop_inv_next (a : LinkSet) (f : ObjF) (stk : list ObjF) (st0 : State)
    (i : nat) (s : State) :
  link_ext a f st0 s -> link_inv (f :: stk) s ->
  (exists l, imports_of s f = Some l /\
             forall j r, (Datatypes.S i <= j)%nat -> l !! j = Some r -> x_next r = None) ->
  (forall j d, (j < i)%nat -> first_exporter st0 f j = Some d -> anchor_of s d <> None) ->
  (forall d, first_exporter st0 f i = Some d -> anchor_of s d <> None) ->
  link_loop_inv a f stk st0 (Datatypes.S i) s.
Proof.
  intros H1 H2 H3 H4 H5. split; [done|]. split; [done|]. split; [done|].
  intros j d Hj Hd. destruct (decide (j = i)) as [->|]; [by apply H5|].
  apply (H4 j); [lia|done].
Qed.

Lemma link_loop_inv_emit (a : LinkSet) (f : ObjF) (stk : list ObjF) (st0 : State)
    (i : nat) (s : State) (ev : event) :
  link_loop_inv a f stk st0 i s -> link_loop_inv a f stk st0 i (emit ev s).
Proof.
  intros (H1 & H2 & H3 & H4). split; [exact H1|]. split; [|split; [exact H3|exact H4]].
  by apply (link_inv_views _ s).
Qed.

Section link_rec.
Variable rec : ObjF -> option string -> State -> res State.
Variable fuel' : nat.
Hypothesis rec_spec :
  forall f sym st a stk,
    (unanchored st < fuel')%nat -> link_inv (f :: stk) st -> f ∉ stk ->
    anchor_of st f = Some a -> (exists l, imports_of st f = Some l /\ unlinked l) ->
    exists st', rec f sym st = Done st' /\ link_ext a f st st' /\ link_inv stk st'.

Lemma link_import_spec (a : LinkSet) (f : ObjF) (stk : list ObjF) (st0 : State)
    (l0 : list XrefRec) (i : nat) (s : State) :
  (unanchored st0 < Datatypes.S fuel')%nat -> link_loop_inv a f stk st0 i s ->
  f ∉ stk -> anchor_of st0 f = Some a ->
  imports_of st0 f = Some l0 -> (i < length l0)%nat ->
  exists s', link_import rec f i s = Done s' /\ link_loop_inv a f stk st0 (Datatypes.S i) s'.
Proof.
  intros Hfuel (Hext & Hinv & (l & Hl & Hun) & Hdone) HfS Ha Hl0 Hi.
  pose proof Hext as (E1 & E2 & E3 & E4).
  pose proof Hinv as (Hwf & G2 & G5 & G3 & G4).
  pose proof (same_links_imports_length _ _ _ _ _ E1 Hl0 Hl) as Hlen.
  apply imports_of_Some in Hl as (o & Ho & <-).
  destruct (lookup_lt_is_Some_2 (imports o) i) as [r Hr]; [lia|].
  assert (Hnext : x_next r = None) by (by apply (Hun i r)).
  destruct Hwf as [W1 W2].
  pose proof (W1 f o i r Ho Hr) as Hs. destruct (lookup_lt_is_Some_2 _ _ Hs) as [sr Hsr].
  destruct (find_sym_total (s_name sr) (syms s) _ sr Hsr eq_refl) as (found & fr & Hfound & Hfr).
  assert (Haf : anchor_of s f = Some a) by by apply E2.
  (* the import is put on the importer list *)
  unfold link_import.
  rewrite (proj2 (get_xref_Done (mkXref Imports f i) s r)) by (exists o; done).
  rewrite ret_bind, Hnext, (bool_decide_eq_true_2 _ eq_refl).
  change (assert_that A_import_unlinked true) with (Done tt). rewrite ret_bind.
  rewrite (proj2 (get_sym_Done _ _ _) Hsr), ret_bind.
  change (tfind (s_name sr) s) with (find_sym (s_name sr) (syms s)).
  rewrite Hfound, ret_bind, (proj2 (get_sym_Done _ _ _) Hfr), ret_bind.
  assert (X1 : xref_set_next (mkXref Imports f i) (importedFrom fr) s
               = Done (set_objs (<[f := with_imports
                          (<[i := with_next (importedFrom fr) r]> (imports o)) o]> (objs s)) s)).
  { unfold xref_set_next.
    rewrite (proj2 (get_xref_Done (mkXref Imports f i) s r)) by (exists o; done).
    rewrite ret_bind. unfold upd_obj. simpl.
    by rewrite (proj2 (get_obj_Done f s o) Ho). }
  rewrite X1, ret_bind.
  assert (X2 : upd_sym found (with_importedFrom (Some (mkXref Imports f i)))
                 (set_objs (<[f := with_imports
                     (<[i := with_next (importedFrom fr) r]> (imports o)) o]> (objs s)) s)
               = Done (link_site f i o r found fr s)).
  { unfold upd_sym, get_sym. simpl. by rewrite Hfr. }
  rewrite X2, ret_bind.
  destruct (link_site_views f i o r found fr s Ho Hr Hfr) as (L1 & L2 & L3 & L4 & L5 & L6).
  set (s2 := link_site f i o r found fr s) in *.
  assert (Hinv2 : link_inv (f :: stk) s2).
  { apply (link_inv_views _ s); [done..| |done]. intros g Hg. apply L5. intros ->. congruence. }
  assert (Hext2 : link_ext a f st0 s2).
  { split; [by apply (same_links_trans _ s)|]. split; [|split].
    - intros g x Hg. rewrite L2. by apply E2.
    - intros g b Hg. rewrite L2. by apply E3.
    - intros g Hg Hne. rewrite L5 by done. by apply E4. }
  assert (Himp2 : exists l, imports_of s2 f = Some l /\
            forall j r0, (Datatypes.S i <= j)%nat -> l !! j = Some r0 -> x_next r0 = None).
  { eexists. split; [exact L6|]. intros j r0 Hj. rewrite list_lookup_insert_ne by lia.
    apply Hun. lia. }
  assert (Hdone2 : forall j d, (j < i)%nat -> first_exporter st0 f j = Some d ->
                               anchor_of s2 d <> None).
  { intros j d Hj Hd. rewrite L2. by apply (Hdone j). }
  assert (Hfe : first_exporter st0 f i
                = match exportedBy fr with
                  | Some e => match get_xref e s with Done er => Some (x_obj er) | _ => None end
                  | None => None
                  end).
  { rewrite <- (same_links_first_exporter st0 s) by done.
    by apply (first_exporter_eq s f i o r sr found fr). }
  destruct (anchor_of_Some s2 f a) as [Hf2 _]. destruct Hf2 as (o2 & Ho2 & Ha2).
  { by rewrite L2. }
  destruct (exportedBy fr) as [e|] eqn:He.
  2:{ (* nobody exports the symbol *)
    assert (Hnone : forall d, first_exporter st0 f i = Some d -> anchor_of s2 d <> None)
      by (by rewrite Hfe).
    destruct (flag_set (warn s2) WARN_UNDEFINED_SYMS).
    - rewrite (proj2 (get_obj_Done f s2 o2) Ho2), ret_bind. eexists. split; [done|].
      apply link_loop_inv_emit. by apply link_loop_inv_next.
    - eexists. split; [done|]. by apply link_loop_inv_next. }
  destruct (W2 found fr e Hfr He) as (er0 & Her0 & Hdep0).
  rewrite Her0 in Hfe.
  destruct (same_links_xref s s2 e er0 L1 Her0) as (er & Her & _ & Eobj).
  rewrite Her, ret_bind, (proj2 (get_obj_Done f s2 o2) Ho2), ret_bind.
  destruct (get_obj_valid (x_obj er) s2) as (d & Hgd & Hd).
  { rewrite (same_links_length _ _ L1), Eobj. done. }
  rewrite Hgd, ret_bind, Ha2.
  destruct (link_anchor d) as [ad|] eqn:Had.
  { (* the exporter is in a link set already *)
    eexists. split; [done|]. apply link_loop_inv_next; [done..|].
    intros d' Hd'. rewrite Hfe in Hd'. injection Hd' as <-. rewrite <- Eobj.
    unfold anchor_of. rewrite Hd. simpl. congruence. }
  (* the exporter joins the set of [f], and is linked in turn *)
  set (dep := x_obj er) in *.
  assert (Hdep : anchor_of s2 dep = None) by (unfold anchor_of; by rewrite Hd).
  unfold upd_obj. rewrite Hgd, ret_bind.
  destruct (upd_obj_views s2 dep d (with_anchor (Some a) d) Hd) as (V1 & V2 & V3 & V4).
  set (s3 := set_objs (<[dep := with_anchor (Some a) d]> (objs s2)) s2) in *.
  simpl in V1, V2, V3.
  assert (L13 : same_links s2 s3) by by apply V4.
  assert (Hne : dep <> f) by (intros E; rewrite E in Hdep; rewrite L2 in Hdep; congruence).
  assert (A3 : forall g, g <> dep -> anchor_of s3 g = anchor_of s2 g).
  { intros g Hg. rewrite V1. by rewrite decide_False. }
  assert (A3' : anchor_of s3 dep = Some a) by (rewrite V1; by rewrite decide_True).
  assert (N3 : forall g, next_of s3 g = next_of s2 g).
  { intros g. rewrite V2. destruct (decide (g = dep)) as [->|]; [|done].
    unfold next_of. by rewrite Hd. }
  assert (I3 : forall g, imports_of s3 g = imports_of s2 g).
  { intros g. rewrite V3. destruct (decide (g = dep)) as [->|]; [|done].
    unfold imports_of. by rewrite Hd. }
  assert (M3 : forall g, anchor_of s2 g <> None -> anchor_of s3 g <> None).
  { intros g Hg. destruct (decide (g = dep)) as [->|]; [done|]. by rewrite A3. }
  pose proof Hinv2 as (Hwf2 & G22 & G52 & G32 & G42).
  destruct (rec_spec dep (Some (s_name fr)) s3 a (f :: stk)) as (st' & Hrec & Hext' & Hinv').
  - pose proof (unanchored_anchor s2 dep d a Hd Had) as Hu. fold s3 in Hu.
    assert (unanchored s2 <= unanchored st0)%nat; [|lia].
    destruct Hext2 as (E12 & E22 & _). apply unanchored_mono; [|done].
    by apply same_links_length.
  - split; [by apply (link_wf_same s2)|]. split; [|split; [|split]].
    + intros g l Hg Hl. destruct (decide (g = dep)) as [->|Hgd']; [congruence|].
      rewrite A3 in Hg by done. rewrite I3 in Hl. by apply (G22 g).
    + intros g [->|Hg]%elem_of_cons; [congruence|]. by apply M3, G52.
    + intros g Hg. destruct (decide (g = dep)) as [->|Hgd']; [left; by left|].
      rewrite A3 in Hg by done. destruct (G32 g Hg) as [?|Hc]; [left; by right|right].
      by apply (closed_mono s2).
    + intros a'. destruct (G42 a') as (l & Hl & Hm). exists l. split.
      * apply (is_olist_frame s2); [|done]. intros g _. apply N3.
      * intros g. rewrite Hm. destruct (decide (g = dep)) as [->|Hgd'].
        -- split; [intros [? _]; congruence|]. intros [_ Hn]. exfalso. apply Hn. by left.
        -- rewrite A3 by done. rewrite (not_elem_of_cons (f :: stk)). naive_solver.
  - intros Hin. apply G52 in Hin. done.
  - done.
  - exists (imports d). split; [by rewrite I3; unfold imports_of; rewrite Hd|].
    apply (G22 dep); [done|]. unfold imports_of. by rewrite Hd.
  - rewrite ret_bind, Hrec. exists st'. split; [done|].
    destruct Hext' as (E1' & E2' & E3' & E4').
    destruct Hext2 as (E12 & E22 & E32 & E42).
    assert (Mono : forall g x, anchor_of s2 g = Some x -> anchor_of st' g = Some x).
    { intros g x Hg. apply E2'. rewrite A3; [done|]. intros ->. congruence. }
    assert (Hedge : imports_from st0 f dep).
    { exists i. rewrite Hfe. by rewrite Eobj. }
    apply link_loop_inv_next.
    + split; [|split; [|split]].
      * apply (same_links_trans _ s2); [done|]. by apply (same_links_trans _ s3).
      * intros g x Hg. by apply Mono, E22.
      * intros g b Hg Hb. destruct (anchor_of s2 g) as [b2|] eqn:Hg2.
        { rewrite (Mono g b2 Hg2) in Hb. injection Hb as <-. by apply E32. }
        destruct (decide (g = dep)) as [->|Hgd'].
        { rewrite (E2' dep a A3') in Hb. injection Hb as <-. split; [done|].
          by apply rtc_once. }
        rewrite <- A3 in Hg2 by done. destruct (E3' g b Hg2 Hb) as [-> Hreach].
        split; [done|]. apply (rtc_l _ _ dep); [done|].
        apply (same_links_reach s3); [|done].
        apply same_links_sym. by apply (same_links_trans _ s2).
      * intros g Hg Hgf. rewrite E4', I3.
        -- by apply E42.
        -- apply M3. destruct (anchor_of st0 g) as [x|] eqn:Ex; [|done].
           by rewrite (E22 g x).
        -- intros ->. destruct (anchor_of st0 dep) as [x|] eqn:Ex; [|done].
           rewrite (E22 dep x Ex) in Hdep. done.
    + done.
    + destruct Himp2 as (l2 & Hl2 & Hun2). exists l2. split; [|done].
      rewrite E4', I3; [done| |done]. apply M3. rewrite L2. congruence.
    + intros j d' Hj Hd'. pose proof (Hdone2 j d' Hj Hd') as Hx.
      destruct (anchor_of s2 d') as [x|] eqn:Ex; [|done]. by rewrite (Mono d' x).
    + intros d' Hd'. rewrite Hfe in Hd'. injection Hd' as <-. rewrite <- Eobj.
      by rewrite (E2' dep a A3').
Qed.
End link_rec.

Lemma for_each_seq_total {St} (Inv : nat -> St -> Prop) (body : nat -> St -> res St)
    (n : nat) :
  forall a : nat,
    (forall i s, (a <= i < a + n)%nat -> Inv i s ->
                 exists s', body i s = Done s' /\ Inv (Datatypes.S i) s') ->
    forall s, Inv a s -> exists s', for_each (seq a n) body s = Done s' /\ Inv (a + n)%nat s'.
Proof.
  induction n as [|n IH]; intros a Hstep s Ha; simpl.
  - exists s. by rewrite Nat.add_0_r.
  - destruct (Hstep a s) as (s1 & -> & H1); [lia|done|]. rewrite ret_bind.
    replace (a + Datatypes.S n)%nat with (Datatypes.S a + n)%nat by lia.
    apply IH; [|done]. intros i t Hi. apply Hstep. lia.
Qed.

Lemma first_exporter_lt (st : State) (f : ObjF) (j : nat) (d : ObjF) :
  first_exporter st f j = Some d ->
  exists l, imports_of st f = Some l /\ (j < length l)%nat.
Proof.
  unfold first_exporter, imports_of. destruct (objs st !! f) as [o|]; simpl; [|done].
  destruct (imports o !! j) as [r|] eqn:E; simpl; [|done]. intros _.
  exists (imports o). split; [done|]. by apply lookup_lt_Some in E.
Qed.

Lemma set_head_set_set_head (a a' : LinkSet) (v : option ObjF) (st : State) :
  set_head a' (set_set_head a v st) = if decide (a' = a) then v else set_head a' st.
Proof. by destruct a, a'. Qed.

Lemma linkObj_S (fuel : nat) (f : ObjF) (symname : option string) (st : State) :
  linkObj (Datatypes.S fuel) f symname st
  = (o ← get_obj f st;
     a ← match link_anchor o with
         | Some a => Done a
         | None => Fail (AssertFailed A_anchor)
         end;
     let st := if flag_set (verbose st) DEBUG_LINK then emit (E_linking f symname a) st
               else st in
     st ← for_each (seq 0 (length (imports o))) (link_import (linkObj fuel) f) st;
     o ← get_obj f st;
     a ← deref (link_anchor o);
     st ← upd_obj f (with_link_next (set_head a st)) st;
     Done (set_set_head a (Some f) st)).
Proof. done. Qed.

(** [linkObj(f)], called for an object that has just been given its anchor
    [a], returns; it has then given the anchor [a] to objects reached from
    [f] and to no other, has changed no anchor, and every object it leaves
    behind in a link set has all its first exporters in link sets. *)
Lemma linkObj_spec (fuel : nat) :
  forall f sym st a stk,
    (unanchored st < fuel)%nat -> link_inv (f :: stk) st -> f ∉ stk ->
    anchor_of st f = Some a -> (exists l, imports_of st f = Some l /\ unlinked l) ->
    exists st', linkObj fuel f sym st = Done st' /\ link_ext a f st st' /\ link_inv stk st'.
Proof.
  induction fuel as [|fuel IH]; intros f sym st a stk Hfuel Hinv HfS Ha (l0 & Hl0 & Hun0); [lia|].
  rewrite linkObj_S.
  pose proof Ha as (o & Ho & Hao)%anchor_of_Some.
  rewrite (proj2 (get_obj_Done f st o) Ho), ret_bind, Hao, ret_bind.
  assert (El0 : imports o = l0).
  { apply imports_of_Some in Hl0 as (o1 & Ho1 & <-). congruence. }
  set (st0 := if flag_set (verbose st) DEBUG_LINK then emit (E_linking f sym a) st else st).
  cbv zeta.
  assert (Hst0 : link_loop_inv a f stk st 0 st0).
  { assert (H0 : link_loop_inv a f stk st 0 st).
    { split; [apply link_ext_refl|]. split; [done|]. split; [|intros; lia].
      exists l0. split; [done|]. intros j r _. apply Hun0. }
    unfold st0. destruct (flag_set (verbose st) DEBUG_LINK); [|done].
    by apply link_loop_inv_emit. }
  destruct (for_each_seq_total (link_loop_inv a f stk st) (link_import (linkObj fuel) f)
              (length (imports o)) 0%nat) with (s := st0) as (s & Hloop & Hs); [|done|].
  { intros i t Hi Ht.
    apply (link_import_spec (linkObj fuel) fuel IH a f stk st l0 i t); try done.
    rewrite <- El0. lia. }
  rewrite Hloop, ret_bind. simpl in Hs.
  destruct Hs as (Hext & Hinvs & _ & Hdone).
  pose proof Hext as (E1 & E2 & E3 & E4).
  pose proof Hinvs as (Hwf & G2 & G5 & G3 & G4).
  pose proof (E2 f a Ha) as (o' & Ho' & Hao')%anchor_of_Some.
  rewrite (proj2 (get_obj_Done f s o') Ho'), ret_bind, Hao'.
  change (deref (Some a)) with (Done a). rewrite ret_bind.
  unfold upd_obj. rewrite (proj2 (get_obj_Done f s o') Ho'), ret_bind, ret_bind.
  destruct (upd_obj_views s f o' (with_link_next (set_head a s) o') Ho') as (V1 & V2 & V3 & V4).
  set (s4 := set_objs (<[f := with_link_next (set_head a s) o']> (objs s)) s) in *.
  simpl in V1, V2, V3.
  assert (A4 : forall g, anchor_of s4 g = anchor_of s g).
  { intros g. rewrite V1. destruct (decide (g = f)) as [->|]; [|done].
    unfold anchor_of. by rewrite Ho'. }
  assert (I4 : forall g, imports_of s4 g = imports_of s g).
  { intros g. rewrite V3. destruct (decide (g = f)) as [->|]; [|done].
    unfold imports_of. by rewrite Ho'. }
  assert (L4 : same_links s s4) by by apply V4.
  eexists. split; [done|].
  set (s5 := set_set_head a (Some f) s4).
  assert (L5 : same_links s s5) by exact L4.
  assert (A5 : forall g, anchor_of s5 g = anchor_of s g) by exact A4.
  assert (I5 : forall g, imports_of s5 g = imports_of s g) by exact I4.
  assert (N5 : forall g, next_of s5 g
                         = if decide (g = f) then Some (set_head a s) else next_of s g)
    by exact V2.
  split.
  - split; [by apply (same_links_trans _ s)|]. split; [|split].
    + intros g x Hg. rewrite A5. by apply E2.
    + intros g b Hg. rewrite A5. by apply E3.
    + intros g Hg Hne. rewrite I5. by apply E4.
  - split; [by apply (link_wf_same s)|]. split; [|split; [|split]].
    + intros g l Hg Hl. rewrite A5 in Hg. rewrite I5 in Hl. by apply (G2 g).
    + intros g Hg. rewrite A5. apply G5. by right.
    + intros g Hg. rewrite A5 in Hg. destruct (G3 g Hg) as [[->|?]%elem_of_cons|Hc].
      * right. intros d [j Hj]. rewrite A5.
        rewrite (same_links_first_exporter s s5) in Hj by done.
        rewrite (same_links_first_exporter st s) in Hj by done.
        destruct (first_exporter_lt _ _ _ _ Hj) as (l & Hl & Hlt).
        apply (Hdone j); [|done].
        assert (l = imports o) as -> by (rewrite Hl0 in Hl; congruence). done.
      * by left.
      * right. apply (closed_mono s); [done| |done]. intros d. by rewrite A5.
    + intros a'. destruct (G4 a') as (l & Hl & Hm).
      assert (Hframe : forall g, g ∈ l -> next_of s5 g = next_of s g).
      { intros g Hg. rewrite N5. rewrite decide_False; [done|].
        intros ->. apply Hm in Hg as [_ Hn]. apply Hn. by left. }
      assert (H5 : set_head a' s5 = if decide (a' = a) then Some f else set_head a' s)
        by (unfold s5; rewrite set_head_set_set_head; destruct (decide (a' = a)); [done|];
            by destruct a').
      rewrite H5. clear H5.
      destruct (decide (a' = a)) as [->|Hne].
      * exists (f :: l). split.
        -- simpl. split; [done|]. exists (set_head a s). split.
           ++ rewrite N5. by rewrite decide_True.
           ++ by apply (is_olist_frame s).
        -- intros g. rewrite A5, elem_of_cons, Hm, not_elem_of_cons.
           split.
           ++ intros [->|[? [? ?]]]; [|done]. split; [by apply E2|done].
           ++ intros [? ?]. destruct (decide (g = f)); [by left|by right].
      * exists l. split; [by apply (is_olist_frame s)|].
        intros g. rewrite A5, Hm, not_elem_of_cons. split; [naive_solver|].
        intros [Hg ?]. split; [done|]. split; [|done]. intros ->.
        rewrite (E2 f a Ha) in Hg. congruence.
Qed.

(** *** The loop of [main] *)

(** The link set an object is seeded with when [main]'s loop comes to it:
    [linkSet] has been switched once the loop is past [lastAppObj]. *)
Definition seed_set (lastAppObj f : ObjF) : LinkSet :=
  if decide (1 <= lastAppObj < f)%nat then optionalLinkSet else appLinkSet.

(** What holds before [main]'s loop comes to the object [i]. *)
Definition main_inv (lastAppObj : ObjF) (st0 : State) (i : nat) (acc : LinkSet * State)
  : Prop :=
  acc.1 = seed_set lastAppObj i /\
  same_links st0 acc.2 /\ link_inv [] acc.2 /\
  (forall g x, anchor_of st0 g = Some x -> anchor_of acc.2 g = Some x) /\
  (forall g, (1 <= g < i)%nat -> anchor_of acc.2 g <> None) /\
  (forall g b, anchor_of st0 g = None -> anchor_of acc.2 g = Some b ->
     (b = appLinkSet /\
      exists m, (1 <= m)%nat /\ seed_set lastAppObj m = appLinkSet /\ reach st0 m g)
     \/ (b = optionalLinkSet /\ (1 <= lastAppObj < i)%nat)) /\
  ((1 <= lastAppObj < i)%nat ->
     (forall m, (1 <= m <= lastAppObj)%nat -> anchor_of acc.2 m = Some appLinkSet) /\
     (forall g d, anchor_of acc.2 g = Some appLinkSet -> imports_from st0 g d ->
                  anchor_of st0 d = None -> anchor_of acc.2 d = Some appLinkSet)).

Lemma fresh_graph_ok (st : State) :
  fresh_graph st = true ->
  link_inv [] st /\ anchor_of st 0 = Some undefLinkSet /\
  (forall g, (1 <= g)%nat -> anchor_of st g = None) /\
  (forall d, ~ imports_from st 0%nat d) /\
  appSet st = None /\ optionalSet st = None /\ undefSet st = Some 0%nat.
Proof.
  unfold fresh_graph. destruct (objs st) as [|o0 os] eqn:Eo; [done|].
  intros H. repeat (apply andb_true_iff in H as [H ?]).
  repeat match goal with
         | X : bool_decide _ = true |- _ => apply bool_decide_eq_true in X
         end.
  assert (A0 : anchor_of st 0 = Some undefLinkSet) by (unfold anchor_of; by rewrite Eo).
  assert (A1 : forall g, (1 <= g)%nat -> anchor_of st g = None).
  { intros [|g] Hg; [lia|]. unfold anchor_of. rewrite Eo. simpl.
    destruct (os !! g) as [o|] eqn:E; [|done]. simpl.
    match goal with
    | X : forallb _ os = true |- _ =>
        pose proof (forallb_elem _ _ X o (list_elem_of_lookup_2 _ _ _ E)) as Ha
    end.
    by apply bool_decide_eq_true in Ha. }
  assert (I0 : forall d, ~ imports_from st 0%nat d).
  { intros d [i Hi]. unfold first_exporter in Hi. rewrite Eo in Hi. simpl in Hi.
    match goal with X : imports o0 = [] |- _ => rewrite X in Hi end. done. }
  assert (Hanch : forall g a, anchor_of st g = Some a -> g = 0%nat /\ a = undefLinkSet).
  { intros [|g] a Hg; [split; [done|congruence]|]. rewrite A1 in Hg by lia. done. }
  split; [|done].
  split; [|split; [|split; [|split]]].
  - split.
    + intros f o j r Ho Hr.
      match goal with
      | X : forallb _ (o0 :: os) = true |- _ =>
          rewrite <- Eo in X;
          pose proof (forallb_elem _ _ (forallb_elem _ _ X o (list_elem_of_lookup_2 _ _ _ Ho))
                        r (list_elem_of_lookup_2 _ _ _ Hr)) as Hx
      end.
      cbv beta in Hx. apply andb_true_iff in Hx as [_ Hx]. by apply bool_decide_eq_true in Hx.
    + intros s fr e Hs He.
      match goal with
      | X : forallb _ (syms st) = true |- _ =>
          pose proof (forallb_elem _ _ X fr (list_elem_of_lookup_2 _ _ _ Hs)) as Hx
      end.
      cbv beta in Hx. rewrite He in Hx. by apply xref_obj_ok_spec.
  - intros g l _ (o & Ho & <-)%imports_of_Some j r Hr.
    match goal with
    | X : forallb _ (o0 :: os) = true |- _ =>
        rewrite <- Eo in X;
        pose proof (forallb_elem _ _ (forallb_elem _ _ X o (list_elem_of_lookup_2 _ _ _ Ho))
                      r (list_elem_of_lookup_2 _ _ _ Hr)) as Hx
    end.
    cbv beta in Hx. apply andb_true_iff in Hx as [Hx _]. by apply bool_decide_eq_true in Hx.
  - intros g Hg. by apply elem_of_nil in Hg.
  - intros g Hg. right. destruct (anchor_of st g) as [a|] eqn:E; [|done].
    apply Hanch in E as [-> _]. intros d Hd. by apply I0 in Hd.
  - intros a. destruct (decide (a = undefLinkSet)) as [->|Hne].
    + exists [0%nat]. split.
      * simpl. split; [done|]. exists None. split; [|done].
        unfold next_of. rewrite Eo. simpl. by f_equal.
      * intros g. rewrite list_elem_of_singleton. split.
        -- intros ->. split; [done|]. apply not_elem_of_nil.
        -- intros [Hg _]. by apply Hanch in Hg as [-> _].
    + exists []. split.
      * simpl. by destruct a.
      * intros g. split; [by intros ?%elem_of_nil|]. intros [Hg _].
        apply Hanch in Hg as [_ ->]. done.
Qed.

(** Giving an anchor to an object that has none, before [linkObj] is called
    for it. *)
Lemma link_inv_push (stk : list ObjF) (s : State) (dep : ObjF) (d : ObjFRec) (a : LinkSet) :
  link_inv stk s -> objs s !! dep = Some d -> link_anchor d = None ->
  link_inv (dep :: stk) (set_objs (<[dep := with_anchor (Some a) d]> (objs s)) s) /\
  (dep ∉ stk) /\
  same_links s (set_objs (<[dep := with_anchor (Some a) d]> (objs s)) s) /\
  anchor_of (set_objs (<[dep := with_anchor (Some a) d]> (objs s)) s) dep = Some a /\
  (forall g, g <> dep ->
     anchor_of (set_objs (<[dep := with_anchor (Some a) d]> (objs s)) s) g = anchor_of s g) /\
  (exists l, imports_of (set_objs (<[dep := with_anchor (Some a) d]> (objs s)) s) dep = Some l
             /\ unlinked l).
Proof.
  intros (Hwf & G2 & G5 & G3 & G4) Hd Had.
  destruct (upd_obj_views s dep d (with_anchor (Some a) d) Hd) as (V1 & V2 & V3 & V4).
  set (s3 := set_objs (<[dep := with_anchor (Some a) d]> (objs s)) s) in *.
  simpl in V1, V2, V3.
  assert (Hdep : anchor_of s dep = None) by (unfold anchor_of; by rewrite Hd).
  assert (L13 : same_links s s3) by by apply V4.
  assert (A3 : forall g, g <> dep -> anchor_of s3 g = anchor_of s g).
  { intros g Hg. rewrite V1. by rewrite decide_False. }
  assert (A3' : anchor_of s3 dep = Some a) by (rewrite V1; by rewrite decide_True).
  assert (N3 : forall g, next_of s3 g = next_of s g).
  { intros g. rewrite V2. destruct (decide (g = dep)) as [->|]; [|done].
    unfold next_of. by rewrite Hd. }
  assert (I3 : forall g, imports_of s3 g = imports_of s g).
  { intros g. rewrite V3. destruct (decide (g = dep)) as [->|]; [|done].
    unfold imports_of. by rewrite Hd. }
  assert (M3 : forall g, anchor_of s g <> None -> anchor_of s3 g <> None).
  { intros g Hg. destruct (decide (g = dep)) as [->|]; [done|]. by rewrite A3. }
  split; [|split; [|split; [|split; [|split]]]]; [|by intros ?%G5|done|done|done|].
  - split; [by apply (link_wf_same s)|]. split; [|split; [|split]].
    + intros g l Hg Hl. destruct (decide (g = dep)) as [->|Hgd']; [congruence|].
      rewrite A3 in Hg by done. rewrite I3 in Hl. by apply (G2 g).
    + intros g [->|Hg]%elem_of_cons; [congruence|]. by apply M3, G5.
    + intros g Hg. destruct (decide (g = dep)) as [->|Hgd']; [left; by left|].
      rewrite A3 in Hg by done. destruct (G3 g Hg) as [?|Hc]; [left; by right|right].
      by apply (closed_mono s).
    + intros a'. destruct (G4 a') as (l & Hl & Hm). exists l. split.
      * apply (is_olist_frame s); [|done]. intros g _. apply N3.
      * intros g. rewrite Hm. destruct (decide (g = dep)) as [->|Hgd'].
        -- split; [intros [? _]; congruence|]. intros [_ Hn]. exfalso. apply Hn. by left.
        -- rewrite A3 by done. rewrite (not_elem_of_cons stk). naive_solver.
  - exists (imports d). split; [by rewrite I3; unfold imports_of; rewrite Hd|].
    apply (G2 dep); [done|]. unfold imports_of. by rewrite Hd.
Qed.

(** One turn of [main]'s loop: the object [f], if it is in no set yet, is
    given the anchor [ls] and linked. *)
Lemma link_one_spec (lastAppObj : ObjF) (f : ObjF) (ls : LinkSet) (s : State) :
  link_inv [] s -> (f < length (objs s))%nat ->
  exists s',
    link_one lastAppObj f (ls, s)
    = Done (if decide (f = lastAppObj) then optionalLinkSet else ls, s') /\
    same_links s s' /\ link_inv [] s' /\
    (forall g x, anchor_of s g = Some x -> anchor_of s' g = Some x) /\
    anchor_of s' f <> None /\
    (forall g b, anchor_of s g = None -> anchor_of s' g = Some b -> b = ls /\ reach s f g).
Proof.
  intros Hinv Hf. unfold link_one.
  destruct (get_obj_valid f s Hf) as (o & Hgo & Ho). rewrite Hgo, ret_bind.
  destruct (link_anchor o) as [x|] eqn:Hx.
  { rewrite ret_bind. exists s. split; [done|]. split; [done|]. split; [done|].
    split; [done|]. split; [unfold anchor_of; rewrite Ho; simpl; congruence|]. congruence. }
  unfold upd_obj. rewrite Hgo, ret_bind, ret_bind.
  destruct (link_inv_push [] s f o ls Hinv Ho Hx) as (Hinv1 & Hnin & L1 & A1 & A1' & Himp).
  set (s1 := set_objs (<[f := with_anchor (Some ls) o]> (objs s)) s) in *.
  destruct (linkObj_spec (Datatypes.S (length (objs s1))) f None s1 ls [])
    as (s' & Hl & (E1 & E2 & E3 & E4) & Hinv'); [|done..|].
  { pose proof (unanchored_le s1). lia. }
  rewrite Hl, ret_bind. exists s'. split; [done|].
  assert (Hmono : forall g x, anchor_of s g = Some x -> anchor_of s' g = Some x).
  { intros g x Hg. apply E2. rewrite A1'; [done|]. intros ->.
    unfold anchor_of in Hg. rewrite Ho in Hg. simpl in Hg. congruence. }
  split; [by apply (same_links_trans _ s1)|]. split; [done|]. split; [done|].
  split; [by rewrite (E2 f ls A1)|].
  intros g b Hg Hb. destruct (decide (g = f)) as [->|Hne].
  - rewrite (E2 f ls A1) in Hb. injection Hb as <-. split; [done|]. apply rtc_refl.
  - rewrite <- A1' in Hg by done. destruct (E3 g b Hg Hb) as [-> Hr]. split; [done|].
    apply (same_links_reach s1); [by apply same_links_sym|done].
Qed.

Lemma seed_set_next (lastAppObj i : ObjF) :
  (1 <= i)%nat ->
  (if decide (i = lastAppObj) then optionalLinkSet else seed_set lastAppObj i)
  = seed_set lastAppObj (Datatypes.S i).
Proof.
  intros Hi. unfold seed_set. destruct (decide (i = lastAppObj)) as [->|Hne].
  - by rewrite decide_True by lia.
  - destruct (decide (1 <= lastAppObj < i)%nat).
    + by rewrite decide_True by lia.
    + by rewrite decide_False by lia.
Qed.

Lemma main_inv_step (lastAppObj : ObjF) (st0 : State) (i : nat) (acc : LinkSet * State) :
  (forall g, (1 <= g)%nat -> anchor_of st0 g = None) ->
  (1 <= i < length (objs st0))%nat -> main_inv lastAppObj st0 i acc ->
  exists acc', link_one lastAppObj i acc = Done acc' /\
               main_inv lastAppObj st0 (Datatypes.S i) acc'.
Proof.
  intros Hreal Hi Hm. destruct acc as [ls s].
  destruct Hm as (M3 & M1 & M2 & M4 & M5 & M6 & M7).
  cbn [fst snd] in M3, M1, M2, M4, M5, M6, M7.
  destruct (link_one_spec lastAppObj i ls s M2) as (s' & Hone & L & Hinv & Hmono & Hanch & Hnew).
  { rewrite (same_links_length _ _ M1). lia. }
  rewrite Hone. eexists. split; [done|]. unfold main_inv. cbn [fst snd].
  assert (Hcases : forall g b, anchor_of st0 g = None -> anchor_of s' g = Some b ->
            (anchor_of s g = Some b) \/ (anchor_of s g = None /\ b = ls /\ reach st0 i g)).
  { intros g b Hg Hb. destruct (anchor_of s g) as [b2|] eqn:E.
    - left. rewrite (Hmono g b2 E) in Hb. done.
    - right. destruct (Hnew g b E Hb) as [-> Hr]. split; [done|]. split; [done|].
      apply (same_links_reach s); [by apply same_links_sym|done]. }
  split; [by rewrite M3, seed_set_next by lia|].
  split; [by apply (same_links_trans _ s)|]. split; [done|].
  split; [intros g x Hg; by apply Hmono, M4|]. split; [|split].
  - intros g Hg. destruct (decide (g = i)) as [->|]; [done|].
    assert (Hs : anchor_of s g <> None) by (apply M5; lia).
    destruct (anchor_of s g) as [x|] eqn:E; [|done]. by rewrite (Hmono g x E).
  - intros g b Hg Hb. destruct (Hcases g b Hg Hb) as [Hs|(Hs & -> & Hr)].
    + destruct (M6 g b Hg Hs) as [?|[-> ?]]; [by left|right]. split; [done|lia].
    + destruct (decide (1 <= lastAppObj < i)%nat) as [Hd|Hd].
      * right. split; [|lia]. rewrite M3. unfold seed_set. by rewrite decide_True.
      * assert (Hseed : seed_set lastAppObj i = appLinkSet)
          by (unfold seed_set; by rewrite decide_False).
        left. split; [by rewrite M3|]. exists i. split; [lia|]. done.
  - intros Hsw. destruct (decide (1 <= lastAppObj < i)%nat) as [Hd|Hd].
    + destruct (M7 Hd) as [Ma Mb]. split.
      * intros m Hm. by apply Hmono, Ma.
      * intros g d Hg Hgd Hd0.
        assert (Hgs : anchor_of s g = Some appLinkSet).
        { destruct (anchor_of s g) as [x|] eqn:E.
          - rewrite (Hmono g x E) in Hg. done.
          - destruct (Hnew g _ E Hg) as [Hls _]. rewrite M3 in Hls. unfold seed_set in Hls.
            rewrite decide_True in Hls by done. done. }
        by apply Hmono, (Mb g d).
    + (* the loop has just passed [lastAppObj]: all anchors given so far are
         Application *)
      assert (Hls : ls = appLinkSet) by (rewrite M3; unfold seed_set; by rewrite decide_False).
      assert (Honly : forall g b, anchor_of st0 g = None -> anchor_of s' g = Some b ->
                                  b = appLinkSet).
      { intros g b Hg Hb. destruct (Hcases g b Hg Hb) as [Hs|(_ & -> & _)]; [|done].
        destruct (M6 g b Hg Hs) as [[-> _]|[_ ?]]; [done|lia]. }
      split.
      * intros m Hm. destruct (anchor_of s' m) as [b|] eqn:E.
        -- f_equal. apply (Honly m); [apply Hreal; lia|done].
        -- exfalso. destruct (decide (m = i)) as [->|]; [done|].
           assert (Hs : anchor_of s m <> None) by (apply M5; lia).
           destruct (anchor_of s m) as [x|] eqn:E'; [|done]. rewrite (Hmono m x E') in E. done.
      * intros g d Hg Hgd Hd0.
        destruct Hinv as (_ & _ & _ & G3 & _).
        destruct (G3 g) as [Hin|Hc]; [congruence|by apply elem_of_nil in Hin|].
        assert (Hdd : anchor_of s' d <> None).
        { apply Hc. apply (same_links_imports_from st0); [|done].
          by apply (same_links_trans _ s). }
        destruct (anchor_of s' d) as [b|] eqn:E; [|done]. f_equal. by apply (Honly d).
Qed.

Lemma link_all_inv (lastAppObj : ObjF) (st0 : State) :
  fresh_graph st0 = true ->
  exists ls st, link_all lastAppObj st0 = Done st /\
                main_inv lastAppObj st0 (length (objs st0)) (ls, st).
Proof.
  intros Hfresh. destruct (fresh_graph_ok st0 Hfresh) as (Hinv & A0 & A1 & _).
  assert (Hn : (1 <= length (objs st0))%nat).
  { apply anchor_of_Some in A0 as (o & Ho & _). apply lookup_lt_Some in Ho. lia. }
  destruct (for_each_seq_total (main_inv lastAppObj st0) (link_one lastAppObj)
              (length (objs st0) - 1) 1%nat) with (s := (appLinkSet, st0))
    as ([ls st] & Hloop & Hst).
  - intros i acc Hi. apply main_inv_step; [done|lia].
  - split; [unfold seed_set; by rewrite decide_False by lia|].
    split; [done|]. split; [done|]. split; [done|]. split; [intros; lia|].
    split; [intros g b Hg Hb; cbn [snd] in Hb; congruence|]. intros; lia.
  - exists ls, st. unfold link_all, fileList_from_first. rewrite Hloop.
    split; [done|]. by replace (1 + (length (objs st0) - 1))%nat with (length (objs st0)) in Hst by lia.
Qed.

Lemma is_olist_inj (st : State) (l : list ObjF) :
  forall p l', is_olist st p l -> is_olist st p l' -> l = l'.
Proof.
  induction l as [|g l IH]; intros p [|g' l']; simpl.
  - done.
  - intros -> [? _]. done.
  - intros [-> _] ?. done.
  - intros (-> & n & Hn & Hl) ([= <-] & n' & Hn' & Hl'). f_equal.
    rewrite Hn in Hn'. injection Hn' as <-. by apply (IH n).
Qed.

Lemma reach_sentinel (st : State) (g : ObjF) :
  (forall d, ~ imports_from st 0%nat d) -> reach st 0%nat g -> g = 0%nat.
Proof. intros Hno H. inversion H as [|x y z Hxy]; [done|]. by apply Hno in Hxy. Qed.

(** The program up to the linking loop: the inputs are scanned, the
    undefined symbols gathered and the index built. *)
Definition ingest (inputs : list (list scanned * string)) : res (ObjF * State) :=
  '(last, st) ← scan_files inputs None initial_state;
  lastAppObj ← deref last;
  st ← gatherDanglingUndefs st;
  idx ← fileListBuildIndex st;
  Done (lastAppObj, set_fileListIndex idx st).

(** [a.o] of the first input needs [puts], which [b.o] of the second input
    defines, and [xyz], which nobody defines; nobody needs [c.o]. *)
Definition pull_inputs : list (list scanned * string) :=
  [([Conv1 "a.o:"; Conv2 "main" "T"; Conv2 "puts" "U"; Conv2 "xyz" "U"], "app");
   ([Conv1 "b.o:"; Conv2 "puts" "T"; Conv1 "c.o:"; Conv2 "orphan" "T"], "opt")].

Definition pull_ingested : State := result_state (snd <$> ingest pull_inputs).
Definition pull_linked : State := result_state (link_all 1%nat pull_ingested).

(** The first input holds no object: [lastAppObj] is the sentinel. *)
Definition late_inputs : list (list scanned * string) :=
  [([], "app"); ([Conv1 "b.o:"; Conv2 "puts" "T"; Conv1 "c.o:"; Conv2 "orphan" "T"], "opt")].

Definition late_ingested : State := result_state (snd <$> ingest late_inputs).
Definition late_linked : State := result_state (link_all 0%nat late_ingested).

Lemma ldep_ingest (inputs : list (list scanned * string)) :
  ldep inputs
  = ('(last, st) ← ingest inputs;
     if checkObjPtrs st =? 0 then st ← link_all last st; Done (last, st)
     else Fail (AssertFailed A_obj_ptrs)).
Proof.
  unfold ldep, ingest. destruct (scan_files inputs None initial_state) as [[last st]| |]; [|done..].
  simpl. destruct last as [last|]; [|done]. simpl.
  destruct (gatherDanglingUndefs st) as [st1| |]; [|done..]. simpl.
  by destruct (fileListBuildIndex st1).
Qed.

(** The linking loop of [main] returns from a fresh graph, whatever
    [lastAppObj] is: no assertion of [linkObj] fires and its recursion ends.
    Of the graph it changes nothing but the link sets, the [next] of
    imports and the importer lists.  Afterwards the sentinel is still in
    UNDEFINED, every other object is in Application or in Optional, and the
    list of each link set holds exactly the objects anchored to it. *)
Theorem link_all_partitions (lastAppObj : ObjF) (st0 : State) :
  fresh_graph st0 = true ->
  exists st,
    link_all lastAppObj st0 = Done st /\ same_links st0 st /\
    anchor_of st 0 = Some undefLinkSet /\
    (forall g, (1 <= g < length (objs st))%nat ->
       anchor_of st g = Some appLinkSet \/ anchor_of st g = Some optionalLinkSet) /\
    (forall a g, in_set st a g <-> anchor_of st g = Some a).
Proof.
  intros Hfresh. destruct (link_all_inv lastAppObj st0 Hfresh) as (ls & st & Hall & Hm).
  destruct (fresh_graph_ok st0 Hfresh) as (_ & A0 & A1 & _).
  destruct Hm as (_ & M1 & M2 & M4 & M5 & M6 & _). cbn [fst snd] in *.
  exists st. split; [done|]. split; [done|]. split; [by apply M4|]. split.
  - intros g Hg. rewrite (same_links_length _ _ M1) in Hg.
    pose proof (M5 g Hg) as Ha. destruct (anchor_of st g) as [b|] eqn:E; [|done].
    destruct (M6 g b (A1 g (proj1 Hg)) E) as [[-> _]|[-> _]]; [by left|by right].
  - intros a g. destruct M2 as (_ & _ & _ & _ & G4). destruct (G4 a) as (l & Hl & Hmem).
    split.
    + intros (l' & Hl' & Hg). rewrite (is_olist_inj _ _ _ _ Hl' Hl) in Hg.
      by apply Hmem in Hg as [? _].
    + intros Hg. exists l. split; [done|]. apply Hmem. split; [done|]. apply not_elem_of_nil.
Qed.

Lemma link_all_partitions_witness :
  exists st,
    link_all 1%nat pull_ingested = Done st /\ same_links pull_ingested st /\
    anchor_of st 0 = Some undefLinkSet /\
    (forall g, (1 <= g < length (objs st))%nat ->
       anchor_of st g = Some appLinkSet \/ anchor_of st g = Some optionalLinkSet) /\
    (forall a g, in_set st a g <-> anchor_of st g = Some a).
Proof. apply (link_all_partitions 1%nat pull_ingested). vm_compute. reflexivity. Defined.

(** With [lastAppObj] an object of the input, after the linking loop an
    object other than the sentinel is in Application exactly if it is
    reached from an object of the first batch by following, import after
    import, the first exporter of the import's symbol; it is in Optional
    exactly if it is not. *)
Theorem link_all_closure (lastAppObj : ObjF) (st0 st : State) (g : ObjF) :
  fresh_graph st0 = true -> (1 <= lastAppObj < length (objs st0))%nat ->
  link_all lastAppObj st0 = Done st -> (1 <= g < length (objs st0))%nat ->
  (anchor_of st g = Some appLinkSet <->
     exists m, mandatory lastAppObj m /\ reach st0 m g) /\
  (anchor_of st g = Some optionalLinkSet <->
     ~ exists m, mandatory lastAppObj m /\ reach st0 m g).
Proof.
  intros Hfresh Hlast Hall Hg.
  destruct (link_all_inv lastAppObj st0 Hfresh) as (ls & st1 & Hall1 & Hm).
  rewrite Hall in Hall1. injection Hall1 as <-.
  destruct (fresh_graph_ok st0 Hfresh) as (_ & A0 & A1 & I0 & _).
  destruct Hm as (_ & M1 & M2 & M4 & M5 & M6 & M7). cbn [fst snd] in *.
  destruct (M7 Hlast) as [Ma Mb].
  assert (Hclos : forall m h, reach st0 m h -> anchor_of st m = Some appLinkSet ->
                              (1 <= h)%nat -> anchor_of st h = Some appLinkSet).
  { intros m h Hr. induction Hr as [|x y z Hxy Hyz IH]; [done|]. intros Hx Hz.
    destruct (anchor_of st0 y) as [b|] eqn:Ey.
    - assert (y = 0%nat) as ->.
      { destruct y as [|y]; [done|]. rewrite A1 in Ey by lia. done. }
      apply reach_sentinel in Hyz; [lia|done].
    - apply IH; [|done]. by apply (Mb x y). }
  assert (Happ : anchor_of st g = Some appLinkSet <->
                 exists m, mandatory lastAppObj m /\ reach st0 m g).
  { split.
    - intros Ha. destruct (M6 g _ (A1 g (proj1 Hg)) Ha) as [(_ & m & Hm1 & Hseed & Hr)|[? _]];
        [|done].
      exists m. split; [|done]. unfold mandatory. unfold seed_set in Hseed.
      destruct (decide (1 <= lastAppObj < m)%nat); [done|]. lia.
    - intros (m & Hm & Hr). apply (Hclos m g); [done| |lia]. by apply Ma. }
  split; [done|]. rewrite <- Happ.
  pose proof (M5 g Hg) as Ha. destruct (anchor_of st g) as [b|] eqn:E; [|done].
  destruct (M6 g b (A1 g (proj1 Hg)) E) as [[-> _]|[-> _]]; split; congruence.
Qed.

Lemma link_all_closure_witness :
  (anchor_of pull_linked 2 = Some appLinkSet <->
     exists m, mandatory 1%nat m /\ reach pull_ingested m 2%nat) /\
  (anchor_of pull_linked 2 = Some optionalLinkSet <->
     ~ exists m, mandatory 1%nat m /\ reach pull_ingested m 2%nat).
Proof.
  apply (link_all_closure 1%nat pull_ingested pull_linked 2%nat).
  - vm_compute. reflexivity.
  - vm_compute. lia.
  - vm_compute. reflexivity.
  - vm_compute. lia.
Defined.

(** When [lastAppObj] is the sentinel (the first input held no object),
    the loop never switches to Optional: every object other than the
    sentinel ends in Application. *)
Theorem link_all_no_first_batch (st0 st : State) (g : ObjF) :
  fresh_graph st0 = true -> link_all 0%nat st0 = Done st ->
  (1 <= g < length (objs st0))%nat -> anchor_of st g = Some appLinkSet.
Proof.
  intros Hfresh Hall Hg.
  destruct (link_all_inv 0%nat st0 Hfresh) as (ls & st1 & Hall1 & Hm).
  rewrite Hall in Hall1. injection Hall1 as <-.
  destruct (fresh_graph_ok st0 Hfresh) as (_ & A0 & A1 & _).
  destruct Hm as (_ & M1 & M2 & M4 & M5 & M6 & _). cbn [fst snd] in *.
  pose proof (M5 g Hg) as Ha. destruct (anchor_of st g) as [b|] eqn:E; [|done].
  destruct (M6 g b (A1 g (proj1 Hg)) E) as [[-> _]|[_ ?]]; [done|lia].
Qed.

Lemma link_all_no_first_batch_witness : anchor_of late_linked 2 = Some appLinkSet.
Proof.
  apply (link_all_no_first_batch late_ingested late_linked 2%nat).
  - vm_compute. reflexivity.
  - vm_compute. reflexivity.
  - vm_compute. lia.
Defined.

(** ** What ingestion leaves (scan_file, gatherDanglingUndefs) *)

(** [e] points into the export array of an object. *)
Definition export_ptr (st : State) (e : Xref) : Prop :=
  xr_arr e = Exports /\
  exists o, objs st !! xr_obj e = Some o /\ (xr_idx e < length (exports o))%nat.

(** The object [f] before linking: in no link set (the sentinel in
    UNDEFINED), its [work] slot clear, its cross references naming it as
    their object and existing symbols, no import linked, and the [next] of
    exports pointing to exports. *)
Definition obj_fresh (st : State) (f : ObjF) (o : ObjFRec) : Prop :=
  link_anchor o = (if decide (f = 0%nat) then Some undefLinkSet else None) /\
  link_next o = None /\ work o = WNull /\ (f = 0%nat -> imports o = []) /\
  Forall (fun r => x_next r = None /\ (x_sym r < length (syms st))%nat /\ x_obj r = f)
         (imports o) /\
  Forall (fun r => (x_sym r < length (syms st))%nat /\ x_obj r = f /\
                   forall e, x_next r = Some e -> export_ptr st e)
         (exports o).

Definition heads (st : State) : option ObjF * option ObjF * option ObjF :=
  (appSet st, optionalSet st, undefSet st).

Definition ingested (st : State) : Prop :=
  (0 < length (objs st))%nat /\ heads st = (None, None, Some 0%nat) /\
  (forall f o, objs st !! f = Some o -> obj_fresh st f o) /\
  (forall s fr, syms st !! s = Some fr ->
     importedFrom fr = None /\ forall e, exportedBy fr = Some e -> export_ptr st e).

(** The object being read, if any, is not the sentinel. *)
Definition cur_ok (obj : option ObjF) (st : State) : Prop :=
  forall cur, obj = Some cur -> (1 <= cur < length (objs st))%nat.

(** Objects, symbols and export arrays are only added to. *)
Definition grows (st st' : State) : Prop :=
  (length (objs st) <= length (objs st'))%nat /\
  (length (syms st) <= length (syms st'))%nat /\
  (forall e, export_ptr st e -> export_ptr st' e).

Lemma grows_refl (st : State) : grows st st.
Proof. done. Qed.

Lemma grows_trans (st1 st2 st3 : State) : grows st1 st2 -> grows st2 st3 -> grows st1 st3.
Proof.
  intros (A1 & B1 & C1) (A2 & B2 & C2). split; [lia|]. split; [lia|]. auto.
Qed.

Lemma obj_fresh_grows (st st' : State) (f : ObjF) (o : ObjFRec) :
  grows st st' -> obj_fresh st f o -> obj_fresh st' f o.
Proof.
  intros (_ & Hs & He) (H1 & H2 & H3 & H4 & H5 & H6).
  split; [done|]. split; [done|]. split; [done|]. split; [done|]. split.
  - eapply Forall_impl; [exact H5|]. simpl. intros r (? & ? & ?). split; [done|]. split; [lia|done].
  - eapply Forall_impl; [exact H6|]. simpl. intros r (? & ? & ?). split; [lia|]. split; [done|].
    auto.
Qed.

(** An object is replaced by one that is fresh too and has no fewer
    exports. *)
Lemma ingested_upd_obj (st st' : State) (f : ObjF) (o o' : ObjFRec) :
  ingested st -> objs st !! f = Some o ->
  objs st' = <[f := o']> (objs st) -> syms st' = syms st -> heads st' = heads st ->
  (length (exports o) <= length (exports o'))%nat ->
  (grows st st' -> obj_fresh st' f o') ->
  ingested st' /\ grows st st'.
Proof.
  intros (Hlen & Hh & Ho & Hs) Hf Eo Es Eh Hle Hnew.
  assert (Hlt : (f < length (objs st))%nat) by by apply lookup_lt_Some in Hf.
  assert (G : grows st st').
  { split; [by rewrite Eo, length_insert|]. split; [by rewrite Es|].
    intros e (Ha & oe & Hoe & Hi). split; [done|]. rewrite Eo.
    destruct (decide (xr_obj e = f)) as [E|E].
    - rewrite E in *. rewrite list_lookup_insert_eq by done. exists o'. split; [done|].
      rewrite Hf in Hoe. injection Hoe as <-. lia.
    - rewrite list_lookup_insert_ne by done. eauto. }
  split; [|done]. split; [by rewrite Eo, length_insert|]. split; [by rewrite Eh|]. split.
  - intros g og. rewrite Eo. destruct (decide (g = f)) as [->|E].
    + rewrite list_lookup_insert_eq by done. intros [= <-]. by apply Hnew.
    + rewrite list_lookup_insert_ne by done. intros Hg.
      apply (obj_fresh_grows st); [done|]. by apply Ho.
  - intros s fr. rewrite Es. intros Hfr. destruct (Hs s fr Hfr) as [Hi He].
    split; [done|]. intros e Hee. destruct G as (_ & _ & G). by apply G, He.
Qed.

Lemma ingested_add_obj (st st' : State) (o : ObjFRec) :
  ingested st ->
  objs st' = objs st ++ [o] -> syms st' = syms st -> heads st' = heads st ->
  link_anchor o = None -> link_next o = None -> work o = WNull ->
  exports o = [] -> imports o = [] ->
  ingested st' /\ grows st st'.
Proof.
  intros (Hlen & Hh & Ho & Hs) Eo Es Eh Ha Hn Hw He Hi.
  assert (G : grows st st').
  { split; [rewrite Eo, length_app; lia|]. split; [by rewrite Es|].
    intros e (Hae & oe & Hoe & Hie). split; [done|]. exists oe. split; [|done].
    rewrite Eo. by apply lookup_app_l_Some. }
  split; [|done]. split; [rewrite Eo, length_app; simpl; lia|]. split; [by rewrite Eh|]. split.
  - intros g og. rewrite Eo. intros Hg. apply lookup_app_Some in Hg as [Hg|[Hge Hg]].
    + apply (obj_fresh_grows st); [done|]. by apply Ho.
    + apply list_lookup_singleton_Some in Hg as [Hg0 <-].
      split; [rewrite decide_False by lia; done|]. split; [done|]. split; [done|].
      split; [done|]. rewrite He, Hi. done.
  - intros s fr. rewrite Es. intros Hfr. destruct (Hs s fr Hfr) as [Hi' He'].
    split; [done|]. intros e Hee. destruct G as (_ & _ & G). by apply G, He'.
Qed.

Lemma ingested_upd_sym (st st' : State) (s : Sym) (fr fr' : SymRec) :
  ingested st -> syms st !! s = Some fr ->
  objs st' = objs st -> syms st' = <[s := fr']> (syms st) -> heads st' = heads st ->
  importedFrom fr' = None -> (forall e, exportedBy fr' = Some e -> export_ptr st e) ->
  ingested st' /\ grows st st'.
Proof.
  intros (Hlen & Hh & Ho & Hs) Hfr Eo Es Eh Hi He.
  assert (Hlt : (s < length (syms st))%nat) by by apply lookup_lt_Some in Hfr.
  assert (P : forall e, export_ptr st e -> export_ptr st' e).
  { intros e. unfold export_ptr. by rewrite Eo. }
  assert (G : grows st st').
  { split; [by rewrite Eo|]. split; [by rewrite Es, length_insert|]. done. }
  split; [|done]. split; [by rewrite Eo|]. split; [by rewrite Eh|]. split.
  - intros g og. rewrite Eo. intros Hg. apply (obj_fresh_grows st); [done|]. by apply Ho.
  - intros t tr. rewrite Es. destruct (decide (t = s)) as [->|E].
    + rewrite list_lookup_insert_eq by done. intros [= <-]. split; [done|]. auto.
    + rewrite list_lookup_insert_ne by done. intros Ht. destruct (Hs t tr Ht) as [? ?].
      split; [done|]. auto.
Qed.

Lemma ingested_add_sym (st st' : State) (r : SymRec) :
  ingested st ->
  objs st' = objs st -> syms st' = syms st ++ [r] -> heads st' = heads st ->
  importedFrom r = None -> exportedBy r = None ->
  ingested st' /\ grows st st'.
Proof.
  intros (Hlen & Hh & Ho & Hs) Eo Es Eh Hi He.
  assert (P : forall e, export_ptr st e -> export_ptr st' e).
  { intros e. unfold export_ptr. by rewrite Eo. }
  assert (G : grows st st').
  { split; [by rewrite Eo|]. split; [rewrite Es, length_app; lia|]. done. }
  split; [|done]. split; [by rewrite Eo|]. split; [by rewrite Eh|]. split.
  - intros g og. rewrite Eo. intros Hg. apply (obj_fresh_grows st); [done|]. by apply Ho.
  - intros t tr. rewrite Es. intros Ht. apply lookup_app_Some in Ht as [Ht|[_ Ht]].
    + destruct (Hs t tr Ht) as [? ?]. split; [done|]. auto.
    + apply list_lookup_singleton_Some in Ht as [_ <-]. split; [done|]. congruence.
Qed.

Lemma ingested_same (st st' : State) :
  ingested st -> objs st' = objs st -> syms st' = syms st -> heads st' = heads st ->
  ingested st' /\ grows st st'.
Proof.
  intros (Hlen & Hh & Ho & Hs) Eo Es Eh.
  assert (P : forall e, export_ptr st e -> export_ptr st' e).
  { intros e. unfold export_ptr. by rewrite Eo. }
  assert (G : grows st st').
  { split; [by rewrite Eo|]. split; [by rewrite Es|]. done. }
  split; [|done]. split; [by rewrite Eo|]. split; [by rewrite Eh|]. split.
  - intros g og. rewrite Eo. intros Hg. apply (obj_fresh_grows st); [done|]. by apply Ho.
  - intros t tr. rewrite Es. intros Ht. destruct (Hs t tr Ht) as [? ?]. split; [done|]. auto.
Qed.

Lemma for_each_keeps {A St} (Inv : St -> Prop) (l : list A) (body : A -> St -> res St) :
  (forall a s s', a ∈ l -> Inv s -> body a s = Done s' -> Inv s') ->
  forall s s', Inv s -> for_each l body s = Done s' -> Inv s'.
Proof.
  induction l as [|a l IH]; intros Hstep s s' Hs; simpl.
  - by intros [= <-].
  - intros H. apply bind_Done in H as (s1 & H1 & H). apply (IH (fun b t t' Hb => Hstep b t t' (list_elem_of_further _ _ _ Hb)) s1); [|done].
    apply (Hstep a s); [by left|done..].
Qed.

Lemma libAddObj_heads (libname : string) (obj : ObjF) (st st' : State) :
  libAddObj libname obj st = Done st' -> heads st' = heads st.
Proof.
  unfold libAddObj.
  set (p := match find_lib libname (libs st) with
            | Some l => (l, st) | None => createLib libname st end).
  assert (Hp : heads p.2 = heads st) by (unfold p; by destruct (find_lib _ _)).
  destruct p as [l st1]. simpl in Hp. intros H.
  apply bind_Done in H as (lr & _ & H). apply bind_Done in H as (o & _ & H).
  apply bind_Done in H as (u & _ & H). apply upd_obj_Done in H as (o' & _ & ->).
  by rewrite <- Hp.
Qed.

Lemma createObj_new (name : string) (st st' : State) (f : ObjF) :
  createObj name st = Done (f, st') ->
  f = length (objs st) /\ syms st' = syms st /\ heads st' = heads st /\
  exists o, objs st' = objs st ++ [o] /\ exports o = [] /\ imports o = [] /\
            link_anchor o = None /\ link_next o = None /\ work o = WNull.
Proof.
  intros H. pose proof (createObj_syms _ _ _ _ H) as Hs. revert H.
  unfold createObj. destruct (splitName name st) as [sp st1] eqn:E.
  assert (Hst1 : objs st1 = objs st /\ heads st1 = heads st).
  { pose proof (splitName_state name st) as H. rewrite E in H. simpl in H.
    by destruct H as [->| ->]. }
  destruct Hst1 as [Ho1 Hh1].
  destruct sp as [[[po libname] objn]|]; [|done]. rewrite Ho1. destruct po.
  - intros H. apply bind_Done in H as (st2 & Hadd & [= <- <-]).
    pose proof (libAddObj_heads _ _ _ _ Hadd) as Hh2.
    apply libAddObj_objs in Hadd as (o & l & Ho & Ho'). simpl in Ho, Ho'.
    rewrite lookup_app_r in Ho by lia.
    replace (length (objs st) - length (objs st))%nat with 0%nat in Ho by lia.
    injection Ho as <-.
    split; [done|]. split; [done|]. split; [by rewrite Hh2|].
    exists (with_lib (LPtr l) (new_obj objn)). split; [|done].
    rewrite Ho'. rewrite insert_app_r_alt by lia.
    by replace (length (objs st) - length (objs st))%nat with 0%nat by lia.
  - intros [= <- <-]. split; [done|]. split; [done|]. split; [done|].
    exists (new_obj objn). done.
Qed.

Lemma createObj_ingested (name : string) (st st' : State) (f : ObjF) :
  ingested st -> createObj name st = Done (f, st') ->
  ingested st' /\ grows st st' /\ cur_ok (Some f) st'.
Proof.
  intros Hi H. apply createObj_new in H as (-> & Hs & Hh & o & Ho & He & Him & Ha & Hn & Hw).
  destruct (ingested_add_obj st st' o Hi Ho Hs Hh Ha Hn Hw He Him) as [Hi' G].
  split; [done|]. split; [done|]. intros cur [= <-]. rewrite Ho, length_app. simpl.
  destruct Hi as (Hlen & _). lia.
Qed.

Lemma intern_sym_ingested (name : string) (type : ascii) (st st' : State) (s : Sym) :
  ingested st -> intern_sym name type st = Done (s, st') ->
  ingested st' /\ grows st st' /\ (s < length (syms st'))%nat /\ objs st' = objs st.
Proof.
  intros Hi. unfold intern_sym. destruct (tfind name st) as [s0|].
  2:{ intros [= <- <-].
      destruct (ingested_add_sym st (set_syms (syms st ++ [mkSymRec name type None None]) st)
                  (mkSymRec name type None None) Hi) as [Hi' G]; try done.
      split; [done|]. split; [done|]. simpl. rewrite length_app. simpl. split; [lia|done]. }
  intros H. apply bind_Done in H as (r & Hr & H). apply get_sym_Done in Hr.
  assert (Hlt : (s0 < length (syms st))%nat) by by apply lookup_lt_Some in Hr.
  assert (Hsame : forall st1, objs st1 = objs st -> syms st1 = syms st -> heads st1 = heads st ->
            ingested st1 /\ grows st st1 /\ (s0 < length (syms st1))%nat /\ objs st1 = objs st).
  { intros st1 Ho Hs Hh. destruct (ingested_same st st1 Hi Ho Hs Hh) as [? ?].
    split; [done|]. split; [done|]. by rewrite Hs. }
  case_bool_decide as Hne; [|injection H as <- <-; by apply Hsame].
  set (st1 := if _ && _ then _ else st) in H.
  assert (Ho1 : objs st1 = objs st) by (unfold st1; by destruct (_ && _)).
  assert (Hs1 : syms st1 = syms st) by (unfold st1; by destruct (_ && _)).
  assert (Hh1 : heads st1 = heads st) by (unfold st1; by destruct (_ && _)).
  case_bool_decide as Hu; [|injection H as <- <-; by apply Hsame].
  apply bind_Done in H as (st2 & Hupd & [= <- <-]).
  apply upd_sym_Done in Hupd as (r' & Hr' & ->). rewrite Hs1, Hr in Hr'. injection Hr' as <-.
  destruct Hi as (Hlen & Hh & Hobj & Hsym). destruct (Hsym s0 r Hr) as [Him Hex].
  destruct (ingested_upd_sym st (set_syms (<[s0 := with_type type r]> (syms st1)) st1)
              s0 r (with_type type r)) as [Hi' G]; try done.
  { simpl. by rewrite Hs1. }
  split; [done|]. split; [done|]. simpl. rewrite length_insert, Hs1. done.
Qed.

Lemma add_export_ingested (cur : ObjF) (s : Sym) (weak : bool) (st st' : State) :
  ingested st -> (s < length (syms st))%nat ->
  upd_obj cur (fun o => with_exports (exports o ++ [new_xref s cur weak]) o) st = Done st' ->
  ingested st' /\ grows st st'.
Proof.
  intros Hi Hs H. apply upd_obj_Done in H as (o & Ho & ->).
  pose proof Hi as (_ & _ & Hobj & _). destruct (Hobj cur o Ho) as (F1 & F2 & F3 & F4 & F5 & F6).
  eapply (ingested_upd_obj st _ cur o); [done|done|done|done|done| |].
  - simpl. rewrite length_app. lia.
  - intros G. pose proof (obj_fresh_grows st _ cur o G (Hobj cur o Ho)) as G'.
    destruct G' as (G1 & G2 & G3 & G4 & G5 & G6).
    split; [done|]. split; [done|]. split; [done|]. split; [done|]. split; [done|].
    simpl. apply Forall_app. split; [done|]. constructor; [|done]. simpl.
    split; [done|]. split; [done|]. congruence.
Qed.

Lemma add_import_ingested (cur : ObjF) (s : Sym) (st st' : State) :
  ingested st -> (s < length (syms st))%nat -> cur <> 0%nat ->
  upd_obj cur (fun o => with_imports (imports o ++ [new_xref s cur false]) o) st = Done st' ->
  ingested st' /\ grows st st'.
Proof.
  intros Hi Hs Hne H. apply upd_obj_Done in H as (o & Ho & ->).
  pose proof Hi as (_ & _ & Hobj & _).
  eapply (ingested_upd_obj st _ cur o); [done|done|done|done|done|done|].
  intros G. pose proof (obj_fresh_grows st _ cur o G (Hobj cur o Ho)) as G'.
  destruct G' as (G1 & G2 & G3 & G4 & G5 & G6).
  split; [done|]. split; [done|]. split; [done|]. split; [done|]. split; [|done].
  simpl. apply Forall_app. split; [done|]. constructor; [|done]. simpl. done.
Qed.

(** The end of an exporter list is an export. *)
Lemma xref_tail_export (st : State) (fuel : nat) :
  forall e0 t, ingested st -> export_ptr st e0 -> xref_tail fuel e0 st = Done t ->
               export_ptr st t.
Proof.
  induction fuel as [|fuel IH]; intros e0 t Hi He0; [done|]. simpl.
  intros H. apply bind_Done in H as (n & Hn & H).
  unfold XREF_NEXT in Hn. apply bind_Done in Hn as (r & Hr & [= <-]).
  destruct (x_next r) as [e|] eqn:En; [|by injection H as <-].
  apply (IH e); [done| |done].
  apply get_xref_Done in Hr as (o & Ho & Hr). destruct He0 as (Ha & _).
  rewrite Ha in Hr. simpl in Hr.
  destruct Hi as (_ & _ & Hobj & _). destruct (Hobj _ o Ho) as (_ & _ & _ & _ & _ & F6).
  rewrite Forall_forall in F6. destruct (F6 r) as (_ & _ & Hp); [by eapply list_elem_of_lookup_2|].
  by apply Hp.
Qed.

Lemma fixup_export_ingested (f : ObjF) (i : nat) (st st' : State) :
  ingested st -> fixup_export f i st = Done st' -> ingested st' /\ grows st st'.
Proof.
  intros Hi. unfold fixup_export. intros H.
  apply bind_Done in H as (r & Hr & H). apply bind_Done in H as (s & Hs & H).
  apply get_sym_Done in Hs.
  assert (Hex : export_ptr st (mkXref Exports f i)).
  { apply get_xref_Done in Hr as (o & Ho & Hr). simpl in *. split; [done|].
    exists o. split; [done|]. by apply lookup_lt_Some in Hr. }
  pose proof Hi as (_ & _ & Hobj & Hsym).
  destruct (exportedBy s) as [e0|] eqn:E0.
  - apply bind_Done in H as (etmp & Ht & H).
    assert (Hp : export_ptr st etmp).
    { apply (xref_tail_export st (Datatypes.S (nxrefs st)) e0); [done| |done].
      by apply (Hsym _ s Hs). }
    apply xref_set_next_Done in H as (o & rt & Ho & Hrt & ->).
    destruct Hp as (Ha & _). rewrite Ha in *. simpl in *.
    eapply (ingested_upd_obj st _ (xr_obj etmp) o); [done|done|done|done|done| |].
    + simpl. by rewrite length_insert.
    + intros G. pose proof (obj_fresh_grows st _ _ o G (Hobj _ o Ho)) as G'.
      destruct G' as (G1 & G2 & G3 & G4 & G5 & G6).
      split; [done|]. split; [done|]. split; [done|]. split; [done|]. split; [done|].
      simpl. apply Forall_insert; [done|]. simpl.
      rewrite Forall_forall in G6. destruct (G6 rt) as (? & ? & _);
        [by eapply list_elem_of_lookup_2|].
      split; [done|]. split; [done|]. intros e [= <-]. destruct G as (_ & _ & G). by apply G.
  - apply upd_sym_Done in H as (s' & Hs' & ->). rewrite Hs in Hs'. injection Hs' as <-.
    destruct (Hsym _ s Hs) as [Him _].
    eapply (ingested_upd_sym st _ (x_sym r) s); try done.
    simpl. by intros e [= <-].
Qed.

Lemma fixupObj_ingested (obj : option ObjF) (st st' : State) :
  ingested st -> fixupObj obj st = Done st' -> ingested st' /\ grows st st'.
Proof.
  destruct obj as [f|]; simpl; [|by intros ? [= <-]].
  intros Hi H. apply bind_Done in H as (o & _ & H).
  apply (for_each_keeps (fun s => ingested s /\ grows st s) _ _) in H; [done| |].
  - intros i s s' _ [Hs G] Hb. destruct (fixup_export_ingested f i s s' Hs Hb) as [Hs' G'].
    split; [done|]. by apply (grows_trans _ s).
  - split; [done|apply grows_refl].
Qed.

Lemma cur_ok_grows (obj : option ObjF) (st st' : State) :
  grows st st' -> cur_ok obj st -> cur_ok obj st'.
Proof. intros (Hl & _) H cur Hc. specialize (H cur Hc). lia. Qed.

Lemma scan_switch_ingested (name : string) (got : scanned) (buf : list ascii) (line : Z)
    (obj : option ObjF) (st : State) (loc' : scan_locals) (st' : State) :
  ingested st -> cur_ok obj st ->
  scan_switch name got buf line obj st = Done (Continue loc' st') ->
  ingested st' /\ grows st st' /\ cur_ok (sl_obj loc') st'.
Proof.
  intros Hi Hc. unfold scan_switch. destruct got as [|tok|tok type]; [done|..].
  - destruct (bool_decide _); [|done]. intros H.
    apply bind_Done in H as (st1 & Hfix & H).
    apply bind_Done in H as ([o st2] & Hcr & [= <- <-]). simpl.
    destruct (fixupObj_ingested obj st st1 Hi Hfix) as [Hi1 G1].
    destruct (createObj_ingested _ _ _ _ Hi1 Hcr) as (Hi2 & G2 & Hc2).
    split; [done|]. split; [by apply (grows_trans _ st1)|done].
  - intros H. apply bind_Done in H as ([cur st1] & Ho & H).
    assert (H1 : ingested st1 /\ grows st st1 /\ cur_ok (Some cur) st1).
    { destruct obj as [c|].
      - injection Ho as <- <-. split; [done|]. split; [apply grows_refl|done].
      - apply createObj_ingested in Ho; [done|].
        by apply (ingested_same st). }
    destruct H1 as (Hi1 & G1 & Hc1).
    apply bind_Done in H as ([s st2] & Hint & H).
    destruct (intern_sym_ingested _ _ _ _ _ Hi1 Hint) as (Hi2 & G2 & Hs2 & Ho2).
    assert (Hc2 : cur_ok (Some cur) st2) by by apply (cur_ok_grows _ st1).
    destruct (classify st2 (TOUPPER st1 type)) as [weak| |]; [| |done].
    + apply bind_Done in H as (st3 & Hupd & [= <- <-]). simpl.
      destruct (add_export_ingested _ _ _ _ _ Hi2 Hs2 Hupd) as [Hi3 G3].
      split; [done|]. split; [by apply (grows_trans _ st1), (grows_trans _ st2)|].
      by apply (cur_ok_grows _ st2).
    + apply bind_Done in H as (st3 & Hupd & [= <- <-]). simpl.
      assert (Hne : cur <> 0%nat) by (specialize (Hc2 cur eq_refl); lia).
      destruct (add_import_ingested _ _ _ _ Hi2 Hs2 Hne Hupd) as [Hi3 G3].
      split; [done|]. split; [by apply (grows_trans _ st1), (grows_trans _ st2)|].
      by apply (cur_ok_grows _ st2).
Qed.

Lemma scan_loop_ingested (name : string) (input : list scanned) :
  forall loc st st',
    ingested st -> cur_ok (sl_obj loc) st -> scan_loop name input loc st = Done (0, st') ->
    ingested st' /\ grows st st'.
Proof.
  induction input as [|got input IH]; intros loc st st' Hi Hc; simpl.
  - intros H. apply bind_Done in H as (st1 & Hfix & [= <-]).
    by apply (fixupObj_ingested (sl_obj loc)).
  - intros H. apply bind_Done in H as (step & Hl & H). destruct step as [rc st1|loc1 st1].
    + injection H as -> <-. unfold scan_line in Hl. destruct (bool_decide _); [done|].
      by apply scan_switch_step in Hl.
    + unfold scan_line in Hl. destruct (bool_decide _); [done|].
      apply scan_switch_ingested in Hl as (Hi1 & G1 & Hc1); [|done..].
      destruct (IH loc1 st1 st' Hi1 Hc1 H) as [Hi' G']. split; [done|].
      by apply (grows_trans _ st1).
Qed.

Lemma initial_state_ingested : ingested initial_state.
Proof.
  split; [simpl; lia|]. split; [done|]. split.
  - intros [|f] o; [|done]. intros [= <-]. repeat split; done.
  - intros s fr. done.
Qed.

Lemma scan_files_ingested (inputs : list (list scanned * string)) :
  forall last st last' st',
    ingested st -> (forall l, last = Some l -> (l < length (objs st))%nat) ->
    scan_files inputs last st = Done (last', st') ->
    ingested st' /\ grows st st' /\ (forall l, last' = Some l -> (l < length (objs st'))%nat).
Proof.
  induction inputs as [|[input nm] inputs IH]; intros last st last' st' Hi Hl; simpl.
  - intros [= <- <-]. split; [done|]. split; [apply grows_refl|done].
  - intros H. apply bind_Done in H as ([rc st1] & Hs & H).
    destruct (Z.eqb_spec rc 0) as [->|]; [|done].
    apply scan_loop_ingested in Hs as [Hi1 G1]; [|done|done].
    apply IH in H as (Hi' & G' & Hl'); [|done|].
    + split; [done|]. split; [by apply (grows_trans _ st1)|done].
    + intros l. destruct last as [l0|].
      * intros [= <-]. specialize (Hl l0 eq_refl). destruct G1 as (? & _). lia.
      * intros [= <-]. unfold fileListTail. destruct Hi1 as (? & _). lia.
Qed.

Lemma gatherDanglingUndefs_ingested (st st' : State) :
  ingested st -> gatherDanglingUndefs st = Done st' -> ingested st' /\ grows st st'.
Proof.
  intros Hi H. unfold gatherDanglingUndefs in H. apply bind_Done in H as (st1 & Hg & Hfix).
  assert (H1 : ingested st1 /\ grows st st1).
  { apply (for_each_keeps (fun s => ingested s /\ grows st s) _ _) in Hg; [done| |].
    - intros s t t' _ [Ht G] Hb. unfold gatherDanglingUndefsAct in Hb.
      apply bind_Done in Hb as (r & Hr & Hb). apply get_sym_Done in Hr.
      destruct (exportedBy r).
      + injection Hb as <-. done.
      + apply add_export_ingested in Hb as [Ht' G']; [|done|by apply lookup_lt_Some in Hr].
        split; [done|]. by apply (grows_trans _ t).
    - split; [done|apply grows_refl]. }
  destruct H1 as [Hi1 G1]. apply fixupObj_ingested in Hfix as [Hi' G']; [|done].
  split; [done|]. by apply (grows_trans _ st1).
Qed.

Lemma ingest_ingested (inputs : list (list scanned * string)) (last : ObjF) (st : State) :
  ingest inputs = Done (last, st) -> ingested st /\ (last < length (objs st))%nat.
Proof.
  unfold ingest. intros H. apply bind_Done in H as ([l st1] & Hs & H).
  apply bind_Done in H as (l0 & Hl & H). apply deref_Done in Hl as ->.
  apply bind_Done in H as (st2 & Hg & H). apply bind_Done in H as (idx & _ & [= <- <-]).
  apply scan_files_ingested in Hs as (Hi1 & _ & Hl1);
    [|apply initial_state_ingested|done].
  apply gatherDanglingUndefs_ingested in Hg as [Hi2 G2]; [|done].
  split; [by apply (ingested_same st2)|]. simpl.
  specialize (Hl1 l0 eq_refl). destruct G2 as (? & _). lia.
Qed.

Lemma forallb_intro {A} (f : A -> bool) (l : list A) :
  (forall x, x ∈ l -> f x = true) -> forallb f l = true.
Proof. intros H. apply forallb_forall. intros x Hx. apply H. by apply list_elem_of_In. Qed.

Lemma export_ptr_xref (st : State) (e : Xref) :
  ingested st -> export_ptr st e ->
  exists r, get_xref e st = Done r /\ x_obj r = xr_obj e /\
            (xr_obj e < length (objs st))%nat.
Proof.
  intros (_ & _ & Hobj & _) (Ha & o & Ho & Hi).
  destruct (lookup_lt_is_Some_2 _ _ Hi) as [r Hr]. exists r. split; [|split].
  - apply get_xref_Done. exists o. split; [done|]. by rewrite Ha.
  - destruct (Hobj _ o Ho) as (_ & _ & _ & _ & _ & F6). rewrite Forall_forall in F6.
    by destruct (F6 r (list_elem_of_lookup_2 _ _ _ Hr)) as (_ & ? & _).
  - by apply lookup_lt_Some in Ho.
Qed.

Lemma ingested_fresh_graph (st : State) : ingested st -> fresh_graph st = true.
Proof.
  intros Hi. pose proof Hi as (Hlen & Hh & Hobj & Hsym). unfold fresh_graph.
  assert (H1 : match objs st with
               | o0 :: os =>
                   bool_decide (link_anchor o0 = Some undefLinkSet)
                   && bool_decide (link_next o0 = None) && bool_decide (imports o0 = [])
                   && forallb (fun o => bool_decide (link_anchor o = None)) os
               | [] => false
               end = true).
  { destruct (objs st) as [|o0 os] eqn:Eo; [simpl in Hlen; lia|].
    destruct (Hobj 0%nat o0) as (F1 & F2 & F3 & F4 & _); [done|].
    repeat (apply andb_true_iff; split); try by apply bool_decide_eq_true.
    - apply bool_decide_eq_true. by apply F4.
    - apply forallb_intro. intros o Ho. apply list_elem_of_lookup in Ho as (k & Hk).
      destruct (Hobj (Datatypes.S k) o) as (G1 & _); [done|].
      by apply bool_decide_eq_true. }
  rewrite H1. injection Hh as Ha Hop Hu.
  repeat (apply andb_true_iff; split); try done; try by apply bool_decide_eq_true.
  - apply forallb_intro. intros o Ho. apply list_elem_of_lookup in Ho as (k & Hk).
    destruct (Hobj k o Hk) as (_ & _ & _ & _ & F5 & _). rewrite Forall_forall in F5.
    apply forallb_intro. intros r Hr. destruct (F5 r Hr) as (? & ? & _).
    apply andb_true_iff. split; by apply bool_decide_eq_true.
  - apply forallb_intro. intros s Hs. apply list_elem_of_lookup in Hs as (k & Hk).
    destruct (Hsym k s Hk) as [_ He]. destruct (exportedBy s) as [e|]; [|done].
    destruct (export_ptr_xref st e Hi (He e eq_refl)) as (r & Hr & Ho & Hlt).
    unfold xref_obj_ok. rewrite Hr. apply bool_decide_eq_true. by rewrite Ho.
Qed.

Lemma sum_imap_0 {A} (g : nat -> A -> Z) (l : list A) :
  (forall i a, l !! i = Some a -> g i a = 0) -> foldr Z.add 0 (imap g l) = 0.
Proof.
  revert g. induction l as [|a l IH]; intros g H; [done|]. simpl.
  rewrite (H 0%nat a eq_refl). rewrite IH; [done|]. intros i b Hb. by apply (H (Datatypes.S i)).
Qed.

Lemma filter_none {A} (P : A -> Prop) `{!forall x, Decision (P x)} (l : list A) :
  Forall (fun x => ~ P x) l -> filter P l = [].
Proof.
  induction 1 as [|x l Hx _ IH]; [done|]. rewrite filter_cons. by rewrite decide_False.
Qed.

(** [checkObjPtrs] finds nothing exactly when every cross reference names
    the object that holds it. *)
Lemma checkObjPtrs_ok (st : State) :
  (forall f o, objs st !! f = Some o ->
     Forall (fun r => x_obj r = f) (exports o) /\ Forall (fun r => x_obj r = f) (imports o)) ->
  checkObjPtrs st = 0.
Proof.
  intros H. unfold checkObjPtrs. apply sum_imap_0. intros f o Ho.
  destruct (H f o Ho) as [He Hi].
  rewrite !filter_none; [done|..].
  - eapply Forall_impl; [exact Hi|]. simpl. intros r Hr Hn. done.
  - eapply Forall_impl; [exact He|]. simpl. intros r Hr Hn. done.
Qed.

Lemma ingested_checkObjPtrs (st : State) : ingested st -> checkObjPtrs st = 0.
Proof.
  intros (_ & _ & Hobj & _). apply checkObjPtrs_ok. intros f o Ho.
  destruct (Hobj f o Ho) as (_ & _ & _ & _ & F5 & F6). split.
  - eapply Forall_impl; [exact F6|]. simpl. by intros r (_ & ? & _).
  - eapply Forall_impl; [exact F5|]. simpl. by intros r (_ & _ & ?).
Qed.

(** After the inputs are scanned and the undefined symbols gathered, the
    graph is fresh: the sentinel alone is in a link set (UNDEFINED) and has
    no imports, the other link sets are empty, no import is on an importer
    list, every cross reference names an existing symbol and the object that
    holds it (so that [checkObjPtrs] returns 0), every first exporter
    exists, all [work] slots are clear, and [lastAppObj] is an object. *)
Theorem ingest_leaves_fresh_graph (inputs : list (list scanned * string)) (last : ObjF)
    (st : State) :
  ingest inputs = Done (last, st) ->
  fresh_graph st = true /\ checkObjPtrs st = 0 /\ all_work_nil st /\
  (last < length (objs st))%nat /\
  appSet st = None /\ optionalSet st = None /\ undefSet st = Some 0%nat /\
  (forall s r, syms st !! s = Some r ->
     importedFrom r = None /\ forall e, exportedBy r = Some e -> export_ptr st e) /\
  (forall f o, objs st !! f = Some o ->
     link_anchor o = (if decide (f = 0%nat) then Some undefLinkSet else None) /\
     link_next o = None /\ (f = 0%nat -> imports o = []) /\
     Forall (fun r => x_next r = None /\ (x_sym r < length (syms st))%nat /\ x_obj r = f)
            (imports o) /\
     Forall (fun r => (x_sym r < length (syms st))%nat /\ x_obj r = f) (exports o)).
Proof.
  intros H. apply ingest_ingested in H as [Hi Hl].
  split; [by apply ingested_fresh_graph|]. split; [by apply ingested_checkObjPtrs|].
  destruct Hi as (_ & Hh & Hobj & Hsym). unfold heads in Hh. injection Hh as H1 H2 H3.
  split; [|split; [done|]].
  { intros f o Ho. by destruct (Hobj f o Ho) as (_ & _ & ? & _). }
  split; [done|]. split; [done|]. split; [done|]. split; [done|].
  intros f o Ho. destruct (Hobj f o Ho) as (F1 & F2 & _ & F4 & F5 & F6).
  split; [done|]. split; [done|]. split; [done|]. split; [done|].
  eapply Forall_impl; [exact F6|]. simpl. by intros r (? & ? & _).
Qed.

Lemma ingest_leaves_fresh_graph_witness :
  fresh_graph pull_ingested = true /\ checkObjPtrs pull_ingested = 0 /\
  all_work_nil pull_ingested /\ (1 < length (objs pull_ingested))%nat /\
  appSet pull_ingested = None /\ optionalSet pull_ingested = None /\
  undefSet pull_ingested = Some 0%nat /\
  (forall s r, syms pull_ingested !! s = Some r ->
     importedFrom r = None /\ forall e, exportedBy r = Some e -> export_ptr pull_ingested e) /\
  (forall f o, objs pull_ingested !! f = Some o ->
     link_anchor o = (if decide (f = 0%nat) then Some undefLinkSet else None) /\
     link_next o = None /\ (f = 0%nat -> imports o = []) /\
     Forall (fun r => x_next r = None /\ (x_sym r < length (syms pull_ingested))%nat /\
                      x_obj r = f) (imports o) /\
     Forall (fun r => (x_sym r < length (syms pull_ingested))%nat /\ x_obj r = f)
            (exports o)).
Proof.
  apply (ingest_leaves_fresh_graph pull_inputs 1%nat pull_ingested).
  vm_compute. reflexivity.
Defined.

(** Whenever scanning, gathering and indexing succeed, the rest of [main]
    up to the end of the linking loop runs through: the assertion on
    [checkObjPtrs] holds, no assertion of [linkObj] fires, and the linking
    loop returns. *)
Theorem ldep_links_all (inputs : list (list scanned * string)) (last : ObjF) (st0 : State) :
  ingest inputs = Done (last, st0) ->
  exists st, ldep inputs = Done (last, st) /\ link_all last st0 = Done st.
Proof.
  intros H. pose proof (ingest_ingested _ _ _ H) as [Hi Hl].
  pose proof (ingested_fresh_graph _ Hi) as Hfresh.
  destruct (link_all_inv last st0 Hfresh) as (ls & st & Hall & _).
  exists st. split; [|done].
  rewrite ldep_ingest, H, ret_bind. cbv beta iota.
  rewrite (ingested_checkObjPtrs _ Hi). simpl. by rewrite Hall.
Qed.

Lemma ldep_links_all_witness :
  exists st, ldep pull_inputs = Done (1%nat, st) /\ link_all 1%nat pull_ingested = Done st.
Proof. apply (ldep_links_all pull_inputs 1%nat pull_ingested). vm_compute. reflexivity. Defined.

Lemma ldep_Done (inputs : list (list scanned * string)) (last : ObjF) (st : State) :
  ldep inputs = Done (last, st) ->
  exists st0, ingest inputs = Done (last, st0) /\ link_all last st0 = Done st.
Proof.
  rewrite ldep_ingest. intros H. apply bind_Done in H as ([l st0] & Hi & H).
  destruct (checkObjPtrs st0 =? 0); [|done].
  apply bind_Done in H as (st1 & Hl & [= <- <-]). eauto.
Qed.

(** For every input on which the program gets through its linking loop,
    with a first batch that holds an object: an object other than the
    sentinel is in Application exactly if it is reached from an object of
    the first batch along first exporters of imports, and in Optional
    exactly if it is not. *)
Theorem ldep_closure (inputs : list (list scanned * string)) (last : ObjF) (st : State)
    (g : ObjF) :
  ldep inputs = Done (last, st) -> (1 <= last)%nat -> (1 <= g < length (objs st))%nat ->
  (anchor_of st g = Some appLinkSet <-> exists m, mandatory last m /\ reach st m g) /\
  (anchor_of st g = Some optionalLinkSet <-> ~ exists m, mandatory last m /\ reach st m g).
Proof.
  intros H Hlast Hg. apply ldep_Done in H as (st0 & Hing & Hall).
  pose proof (ingest_ingested _ _ _ Hing) as [Hi Hl].
  pose proof (ingested_fresh_graph _ Hi) as Hfresh.
  destruct (link_all_inv last st0 Hfresh) as (ls & st1 & Hall1 & Hm).
  rewrite Hall in Hall1. injection Hall1 as <-.
  destruct (fresh_graph_ok st0 Hfresh) as (_ & A0 & A1 & I0 & _).
  destruct Hm as (_ & M1 & M2 & M4 & M5 & M6 & M7). cbn [fst snd] in *.
  rewrite (same_links_length _ _ M1) in Hg.
  destruct (M7 (conj Hlast Hl)) as [Ma Mb].
  assert (Hreach : forall m h, reach st m h <-> reach st0 m h).
  { intros m h. split; apply same_links_reach; [by apply same_links_sym|done]. }
  assert (Hclos : forall m h, reach st0 m h -> anchor_of st m = Some appLinkSet ->
                              (1 <= h)%nat -> anchor_of st h = Some appLinkSet).
  { intros m h Hr. induction Hr as [|x y z Hxy Hyz IH]; [done|]. intros Hx Hz.
    destruct (anchor_of st0 y) as [b|] eqn:Ey.
    - assert (y = 0%nat) as ->.
      { destruct y as [|y]; [done|]. rewrite A1 in Ey by lia. done. }
      apply reach_sentinel in Hyz; [lia|done].
    - apply IH; [|done]. by apply (Mb x y). }
  assert (Happ : anchor_of st g = Some appLinkSet <->
                 exists m, mandatory last m /\ reach st m g).
  { split.
    - intros Ha. destruct (M6 g _ (A1 g (proj1 Hg)) Ha) as [(_ & m & Hm1 & Hseed & Hr)|[? _]];
        [|done].
      exists m. split; [|by apply Hreach]. unfold mandatory. unfold seed_set in Hseed.
      destruct (decide (1 <= last < m)%nat); [done|]. lia.
    - intros (m & Hm & Hr). apply (Hclos m g); [by apply Hreach| |lia]. by apply Ma. }
  split; [done|]. rewrite <- Happ.
  pose proof (M5 g Hg) as Ha. destruct (anchor_of st g) as [b|] eqn:E; [|done].
  destruct (M6 g b (A1 g (proj1 Hg)) E) as [[-> _]|[-> _]]; split; congruence.
Qed.

Lemma ldep_closure_witness :
  (anchor_of pull_linked 3 = Some appLinkSet <->
     exists m, mandatory 1%nat m /\ reach pull_linked m 3%nat) /\
  (anchor_of pull_linked 3 = Some optionalLinkSet <->
     ~ exists m, mandatory 1%nat m /\ reach pull_linked m 3%nat).
Proof.
  apply (ldep_closure pull_inputs 1%nat pull_linked 3%nat).
  - vm_compute. reflexivity.
  - lia.
  - vm_compute. lia.
Defined.

(** ** The symbol table (tsearch, tfind) *)

Definition sym_names (st : State) : list string := s_name <$> syms st.

Lemma find_sym_None (name : string) (ss : list SymRec) :
  find_sym name ss = None -> name ∉ (s_name <$> ss).
Proof.
  induction ss as [|s ss IH]; simpl; [intros _; apply not_elem_of_nil|].
  destruct (strcmp name (s_name s) =? 0) eqn:E; [done|].
  destruct (find_sym name ss); [done|]. intros _.
  apply not_elem_of_cons. split; [|by apply IH].
  intros ->. by rewrite strcmp_refl in E.
Qed.

Lemma find_sym_unique (ss : list SymRec) :
  NoDup (s_name <$> ss) ->
  forall s r, ss !! s = Some r -> find_sym (s_name r) ss = Some s.
Proof.
  induction ss as [|s0 ss IH]; intros Hnd s r Hs; [done|].
  rewrite fmap_cons in Hnd. apply NoDup_cons in Hnd as [Hnotin Hnd]. simpl.
  destruct s as [|s].
  - injection Hs as ->. by rewrite strcmp_refl.
  - simpl in Hs. destruct (strcmp (s_name r) (s_name s0) =? 0) eqn:E.
    + apply Z.eqb_eq, strcmp_eq in E. exfalso. apply Hnotin. rewrite <- E.
      apply list_elem_of_fmap. exists r. split; [done|]. by eapply list_elem_of_lookup_2.
    + by rewrite (IH Hnd s r Hs).
Qed.

Lemma sym_names_insert (st : State) (s : Sym) (r r' : SymRec) (st' : State) :
  syms st !! s = Some r -> s_name r' = s_name r -> syms st' = <[s := r']> (syms st) ->
  sym_names st' = sym_names st.
Proof.
  intros Hs Hn E. unfold sym_names. rewrite E, list_fmap_insert. apply list_insert_id.
  by rewrite list_lookup_fmap, Hs, Hn.
Qed.

Lemma fixup_export_names (f : ObjF) (i : nat) (st st' : State) :
  fixup_export f i st = Done st' -> sym_names st' = sym_names st.
Proof.
  unfold fixup_export. intros H. apply bind_Done in H as (r & _ & H).
  apply bind_Done in H as (s & Hs & H). destruct (exportedBy s).
  - apply bind_Done in H as (t & _ & H). apply xref_set_next_syms in H.
    unfold sym_names. by rewrite H.
  - apply upd_sym_Done in H as (s' & Hs' & ->).
    eapply (sym_names_insert st (x_sym r) s'); [done| |simpl; reflexivity]. done.
Qed.

Lemma fixupObj_names (obj : option ObjF) (st st' : State) :
  fixupObj obj st = Done st' -> sym_names st' = sym_names st.
Proof.
  destruct obj as [f|]; simpl; [|by intros [= <-]].
  intros H. apply bind_Done in H as (o & _ & H).
  apply (for_each_invariant (fun s s' => sym_names s' = sym_names s)) in H; [done|done| |].
  - intros s1 s2 s3. congruence.
  - intros i s s' _. apply fixup_export_names.
Qed.

(** What [tsearch] does to the names in the table. *)
Lemma intern_sym_names (name : string) (type : ascii) (st st' : State) (s : Sym) :
  intern_sym name type st = Done (s, st') ->
  sym_names st' = sym_names st \/
  (sym_names st' = sym_names st ++ [name] /\ name ∉ sym_names st).
Proof.
  unfold intern_sym, tfind. destruct (find_sym name (syms st)) as [s0|] eqn:F.
  2:{ intros [= <- <-]. right. split; [|by apply find_sym_None].
      unfold sym_names. simpl. by rewrite fmap_app. }
  intros H. left. apply bind_Done in H as (r & Hr & H). apply get_sym_Done in Hr.
  case_bool_decide as Hne; [|by injection H as <- <-].
  set (st1 := if _ && _ then _ else st) in H.
  assert (Hs1 : syms st1 = syms st) by (unfold st1; by destruct (_ && _)).
  case_bool_decide as Hu.
  - apply bind_Done in H as (st2 & Hupd & [= <- <-]).
    apply upd_sym_Done in Hupd as (r' & Hr' & ->). rewrite Hs1 in Hr'.
    eapply (sym_names_insert st s0 r'); [done| |simpl; by rewrite Hs1]. done.
  - injection H as <- <-. unfold sym_names. by rewrite Hs1.
Qed.

Lemma scan_switch_names (name : string) (got : scanned) (buf : list ascii) (line : Z)
    (obj : option ObjF) (st : State) (loc' : scan_locals) (st' : State) :
  NoDup (sym_names st) ->
  scan_switch name got buf line obj st = Done (Continue loc' st') ->
  NoDup (sym_names st').
Proof.
  intros Hnd. unfold scan_switch. destruct got as [|tok|tok type]; [done|..].
  - destruct (bool_decide _); [|done]. intros H.
    apply bind_Done in H as (st1 & Hfix & H).
    apply bind_Done in H as ([o st2] & Hcr & [= <- <-]).
    apply fixupObj_names in Hfix. apply createObj_syms in Hcr.
    unfold sym_names in *. by rewrite Hcr, Hfix.
  - intros H. apply bind_Done in H as ([cur st1] & Ho & H).
    assert (H1 : sym_names st1 = sym_names st).
    { destruct obj as [c|]; [by injection Ho as <- <-|].
      apply createObj_syms in Ho. unfold sym_names. by rewrite Ho. }
    apply bind_Done in H as ([s st2] & Hint & H).
    assert (H2 : NoDup (sym_names st2)).
    { apply intern_sym_names in Hint as [E|[E Hn]]; rewrite E, H1; [done|].
      apply NoDup_app. split; [done|]. split; [|apply NoDup_singleton].
      intros x Hx ->%list_elem_of_singleton. by rewrite H1 in Hn. }
    destruct (classify st2 (TOUPPER st1 type)) as [weak| |]; [| |done].
    + apply bind_Done in H as (st3 & Hupd & [= <- <-]).
      apply upd_obj_syms in Hupd. unfold sym_names in *. by rewrite Hupd.
    + apply bind_Done in H as (st3 & Hupd & [= <- <-]).
      apply upd_obj_syms in Hupd. unfold sym_names in *. by rewrite Hupd.
Qed.

Lemma scan_loop_names (name : string) (input : list scanned) :
  forall loc st st',
    NoDup (sym_names st) -> scan_loop name input loc st = Done (0, st') ->
    NoDup (sym_names st').
Proof.
  induction input as [|got input IH]; intros loc st st' Hnd; simpl.
  - intros H. apply bind_Done in H as (st1 & Hfix & [= <-]).
    apply fixupObj_names in Hfix. by rewrite Hfix.
  - intros H. apply bind_Done in H as (step & Hl & H). destruct step as [rc st1|loc1 st1].
    + injection H as -> <-. unfold scan_line in Hl. destruct (bool_decide _); [done|].
      by apply scan_switch_step in Hl.
    + unfold scan_line in Hl. destruct (bool_decide _); [done|].
      apply scan_switch_names in Hl; [|done]. by apply (IH loc1 st1).
Qed.

Lemma scan_files_names (inputs : list (list scanned * string)) :
  forall last st last' st',
    NoDup (sym_names st) -> scan_files inputs last st = Done (last', st') ->
    NoDup (sym_names st').
Proof.
  induction inputs as [|[input nm] inputs IH]; intros last st last' st' Hnd; simpl.
  - by intros [= <- <-].
  - intros H. apply bind_Done in H as ([rc st1] & Hs & H).
    destruct (Z.eqb_spec rc 0) as [->|]; [|done].
    apply IH in H; [done|]. by apply scan_loop_names in Hs.
Qed.

Lemma gatherDanglingUndefs_names (st st' : State) :
  gatherDanglingUndefs st = Done st' -> sym_names st' = sym_names st.
Proof.
  unfold gatherDanglingUndefs. intros H. apply bind_Done in H as (st1 & Hg & Hfix).
  apply fixupObj_names in Hfix. rewrite Hfix.
  apply (for_each_invariant (fun s s' => sym_names s' = sym_names s)) in Hg; [done|done| |].
  - intros s1 s2 s3. congruence.
  - intros s t t' _ Hb. unfold gatherDanglingUndefsAct in Hb.
    apply bind_Done in Hb as (r & _ & Hb). destruct (exportedBy r).
    + by injection Hb as <-.
    + apply upd_obj_syms in Hb. unfold sym_names. by rewrite Hb.
Qed.

Lemma same_links_names (st st' : State) : same_links st st' -> sym_names st' = sym_names st.
Proof.
  intros H. apply (f_equal syms) in H. simpl in H.
  apply (f_equal (fmap s_name)) in H. rewrite <- !list_fmap_compose in H. exact H.
Qed.

(** The symbol table never holds two symbols of one name, so that [tfind]
    with the name of a symbol finds that very symbol: after ingestion, and
    still after the linking loop, where [linkObj] looks up the symbol of
    each import by [tfind]. *)
Theorem symbol_names_unique (inputs : list (list scanned * string)) (last : ObjF)
    (st : State) :
  ingest inputs = Done (last, st) \/ ldep inputs = Done (last, st) ->
  NoDup (sym_names st) /\
  forall s r, syms st !! s = Some r -> tfind (s_name r) st = Some s.
Proof.
  intros H.
  assert (Hnd : NoDup (sym_names st)).
  { assert (Hing : forall l s0, ingest inputs = Done (l, s0) -> NoDup (sym_names s0)).
    { intros l s0 Hi. unfold ingest in Hi. apply bind_Done in Hi as ([l1 st1] & Hs & Hi).
      apply bind_Done in Hi as (l0 & _ & Hi). apply bind_Done in Hi as (st2 & Hg & Hi).
      apply bind_Done in Hi as (idx & _ & [= <- <-]).
      apply scan_files_names in Hs; [|apply NoDup_nil_2].
      apply gatherDanglingUndefs_names in Hg. unfold sym_names in *. simpl. by rewrite Hg. }
    destruct H as [H|H]; [by apply (Hing last)|].
    apply ldep_Done in H as (st0 & Hi & Hall).
    pose proof (ingest_ingested _ _ _ Hi) as [Hi0 _].
    destruct (link_all_inv last st0 (ingested_fresh_graph _ Hi0)) as (ls & st1 & Hall1 & Hm).
    rewrite Hall in Hall1. injection Hall1 as <-.
    destruct Hm as (_ & M1 & _). cbn [snd] in M1.
    rewrite (same_links_names _ _ M1). by apply (Hing last). }
  split; [done|]. intros s r Hs. by apply find_sym_unique.
Qed.

Lemma symbol_names_unique_witness :
  NoDup (sym_names pull_linked) /\
  forall s r, syms pull_linked !! s = Some r -> tfind (s_name r) pull_linked = Some s.
Proof.
  apply (symbol_names_unique pull_inputs 1%nat pull_linked). right. vm_compute. reflexivity.
Defined.

(** ** The undefined symbols (gatherDanglingUndefs) *)

Lemma insert_by_name_perm (i : Sym) (n : string) (l : list (Sym * string)) :
  insert_by_name i n l ≡ₚ (i, n) :: l.
Proof.
  induction l as [|[j m] l IH]; simpl; [done|].
  destruct (strcmp n m <? 0); [done|]. rewrite IH. apply Permutation_swap.
Qed.

Lemma twalk_fold_perm (l : list (Sym * SymRec)) :
  forall acc,
    (foldl (fun acc '(i, s) => insert_by_name i (s_name s) acc) acc l).*1 ≡ₚ acc.*1 ++ l.*1.
Proof.
  induction l as [|[i s] l IH]; intros acc; simpl; [by rewrite app_nil_r|].
  rewrite IH, insert_by_name_perm. simpl. by rewrite Permutation_middle.
Qed.

Lemma imap_pair_fst {A} (l : list A) :
  forall n, (imap (fun i x => ((n + i)%nat, x)) l).*1 = seq n (length l).
Proof.
  induction l as [|x l IH]; intros n; simpl; [done|].
  rewrite Nat.add_0_r. f_equal. rewrite <- (IH (Datatypes.S n)). f_equal.
  apply imap_ext. intros i y _. simpl. f_equal. lia.
Qed.

(** [twalk] visits every symbol once. *)
Lemma twalk_order_perm (ss : list SymRec) : twalk_order ss ≡ₚ seq 0 (length ss).
Proof.
  unfold twalk_order. rewrite twalk_fold_perm. simpl.
  rewrite <- (imap_pair_fst ss 0). done.
Qed.

(** The symbols of the sentinel's exports. *)
Definition pod_syms (st : State) : list Sym :=
  match objs st !! 0%nat with
  | Some o => x_sym <$> exports o
  | None => []
  end.

Lemma pod_syms_shape (st st' : State) : shape st' = shape st -> pod_syms st' = pod_syms st.
Proof.
  intros H. unfold pod_syms. apply (f_equal (.!! 0%nat)) in H. unfold shape in H.
  rewrite !list_lookup_fmap in H.
  destruct (objs st' !! 0%nat), (objs st !! 0%nat); simpl in H; congruence.
Qed.

Lemma gather_loop (l : list Sym) :
  forall st st1,
    for_each l gatherDanglingUndefsAct st = Done st1 ->
    syms st1 = syms st /\
    (forall s, s ∈ pod_syms st -> s ∈ pod_syms st1) /\
    (forall s r, s ∈ l -> syms st !! s = Some r -> exportedBy r = None -> s ∈ pod_syms st1).
Proof.
  induction l as [|s l IH]; intros st st1; simpl.
  - intros [= <-]. split; [done|]. split; [done|]. by intros s r ?%elem_of_nil.
  - intros H. apply bind_Done in H as (st0 & Hact & H).
    destruct (IH _ _ H) as (Hs & Hmono & Hl).
    unfold gatherDanglingUndefsAct in Hact.
    apply bind_Done in Hact as (r & Hr & Hact). apply get_sym_Done in Hr.
    destruct (exportedBy r) as [e|] eqn:He.
    + injection Hact as <-. split; [done|]. split; [done|].
      intros t tr [->|Ht]%elem_of_cons Htr Hnone; [congruence|]. by apply (Hl t tr).
    + pose proof (upd_obj_syms _ _ _ _ Hact) as Hs0.
      apply upd_obj_Done in Hact as (o & Ho & ->).
      assert (Hpod : pod_syms (set_objs (<[0%nat := with_exports (exports o ++ [new_xref s 0%nat false]) o]> (objs st)) st)
                     = pod_syms st ++ [s]).
      { unfold pod_syms. simpl. rewrite list_lookup_insert_eq by by apply lookup_lt_Some in Ho.
        rewrite Ho. simpl. by rewrite fmap_app. }
      split; [by rewrite Hs|]. split.
      * intros t Ht. apply Hmono. rewrite Hpod. apply elem_of_app. by left.
      * intros t tr [->|Ht]%elem_of_cons Htr Hnone.
        -- apply Hmono. rewrite Hpod. apply elem_of_app. right. by left.
        -- apply (Hl t tr); [done| |done]. by rewrite Hs0.
Qed.

(** What one [fixup_export] of the sentinel does to the first exporters. *)
Definition exporters_kept (st st' : State) : Prop :=
  length (syms st') = length (syms st) /\ shape st' = shape st /\
  (forall s r e, syms st !! s = Some r -> exportedBy r = Some e ->
     exists r', syms st' !! s = Some r' /\ exportedBy r' = Some e) /\
  (forall s r' e, syms st' !! s = Some r' -> exportedBy r' = Some e ->
     (exists r, syms st !! s = Some r /\ exportedBy r = Some e) \/
     (xr_arr e = Exports /\ xr_obj e = 0%nat)).

Lemma exporters_kept_refl (st : State) : exporters_kept st st.
Proof. split; [done|]. split; [done|]. split; [eauto|]. intros s r e ? ?. left. eauto. Qed.

Lemma exporters_kept_trans (st1 st2 st3 : State) :
  exporters_kept st1 st2 -> exporters_kept st2 st3 -> exporters_kept st1 st3.
Proof.
  intros (A1 & B1 & C1 & D1) (A2 & B2 & C2 & D2). split; [congruence|]. split; [congruence|].
  split.
  - intros s r e Hs He. destruct (C1 s r e Hs He) as (r' & Hs' & He'). by apply (C2 s r').
  - intros s r' e Hs He. destruct (D2 s r' e Hs He) as [(r & Hr & Her)|?]; [|by right].
    by apply (D1 s r).
Qed.

Lemma fixup_pod_export (i : nat) (st st' : State) :
  fixup_export 0%nat i st = Done st' ->
  exporters_kept st st' /\
  exists s r', pod_syms st !! i = Some s /\ syms st' !! s = Some r' /\ exportedBy r' <> None.
Proof.
  unfold fixup_export. intros H. apply bind_Done in H as (r & Hr & H).
  apply bind_Done in H as (s & Hs & H). apply get_sym_Done in Hs.
  apply get_xref_Done in Hr as (o & Ho & Hr). simpl in Ho, Hr.
  assert (Hpod : pod_syms st !! i = Some (x_sym r)).
  { unfold pod_syms. rewrite Ho, list_lookup_fmap, Hr. done. }
  destruct (exportedBy s) as [e0|] eqn:E0.
  - apply bind_Done in H as (t & _ & H).
    apply xref_set_next_shape in H as [Hsh Hsy].
    split.
    + split; [by rewrite Hsy|]. split; [done|]. rewrite Hsy. split; [eauto|].
      intros ? ? ? ? ?. left. eauto.
    + exists (x_sym r), s. rewrite Hsy. split; [done|]. split; [done|]. congruence.
  - apply upd_sym_Done in H as (s' & Hs' & ->). rewrite Hs in Hs'. injection Hs' as <-.
    assert (Hlt : (x_sym r < length (syms st))%nat) by by apply lookup_lt_Some in Hs.
    split.
    + split; [simpl; by rewrite length_insert|]. split; [done|]. simpl. split.
      * intros t tr e Ht He. destruct (decide (t = x_sym r)) as [->|Hne]; [congruence|].
        rewrite list_lookup_insert_ne by done. eauto.
      * intros t tr e. destruct (decide (t = x_sym r)) as [->|Hne].
        -- rewrite list_lookup_insert_eq by done. intros [= <-]. simpl. intros [= <-].
           by right.
        -- rewrite list_lookup_insert_ne by done. intros Ht He. left. eauto.
    + exists (x_sym r), (with_exportedBy (Some (mkXref Exports 0%nat i)) s).
      split; [done|]. simpl. rewrite list_lookup_insert_eq by done. done.
Qed.

(** After [gatherDanglingUndefs] every symbol has a first exporter: a symbol
    that had one keeps it, and a symbol that had none has an export of the
    sentinel as its first exporter. *)
Theorem gather_defines_all (st st' : State) :
  gatherDanglingUndefs st = Done st' ->
  length (syms st') = length (syms st) /\
  forall s r, syms st !! s = Some r ->
    exists r' e, syms st' !! s = Some r' /\ exportedBy r' = Some e /\
      match exportedBy r with
      | Some e0 => e = e0
      | None => xr_arr e = Exports /\ xr_obj e = 0%nat
      end.
Proof.
  unfold gatherDanglingUndefs. intros H. apply bind_Done in H as (st1 & Hg & Hfix).
  apply gather_loop in Hg as (Hs1 & _ & Hpod).
  simpl in Hfix. apply bind_Done in Hfix as (o & Ho & Hfix). apply get_obj_Done in Ho.
  assert (Hlen : length (exports o) = length (pod_syms st1)).
  { unfold pod_syms. by rewrite Ho, length_fmap. }
  rewrite Hlen in Hfix.
  apply (for_each_seq_invariant
           (fun i t => exporters_kept st1 t /\
              forall j s, (j < i)%nat -> pod_syms st1 !! j = Some s ->
                          exists r', syms t !! s = Some r' /\ exportedBy r' <> None)
           _ (length (pod_syms st1)) 0%nat) in Hfix.
  - destruct Hfix as [(K1 & K2 & K3 & K4) Hdone]. rewrite <- Hs1.
    split; [done|]. intros s r Hs.
    destruct (exportedBy r) as [e0|] eqn:E0.
    + destruct (K3 s r e0 Hs E0) as (r' & Hr' & He'). eauto.
    + assert (Hin : s ∈ pod_syms st1).
      { apply (Hpod s r); [|by rewrite <- Hs1|done].
        rewrite twalk_order_perm. apply elem_of_seq. apply lookup_lt_Some in Hs.
        rewrite Hs1 in Hs. lia. }
      apply list_elem_of_lookup in Hin as (j & Hj).
      destruct (Hdone j s) as (r' & Hr' & He'); [by apply lookup_lt_Some in Hj|done|].
      destruct (exportedBy r') as [e|] eqn:E; [|done]. exists r', e.
      split; [done|]. split; [done|].
      destruct (K4 s r' e Hr' E) as [(r0 & Hr0 & He0)|?]; [|done]. congruence.
  - intros i t t' Hi [Hk Hd] Hb. apply fixup_pod_export in Hb as [Hk' (s & r' & Hs & Hr' & He')].
    split; [by apply (exporters_kept_trans _ t)|].
    intros j s0 Hj Hs0. destruct (decide (j = i)) as [->|Hne].
    + destruct Hk as (_ & Hsh & _). rewrite (pod_syms_shape _ _ Hsh) in Hs.
      rewrite Hs0 in Hs. injection Hs as <-. eauto.
    + destruct (Hd j s0) as (r0 & Hr0 & He0); [lia|done|].
      destruct (exportedBy r0) as [e|] eqn:E; [|done].
      destruct Hk' as (_ & _ & K3 & _). destruct (K3 s0 r0 e Hr0 E) as (r1 & Hr1 & He1).
      exists r1. split; [done|]. congruence.
  - split; [apply exporters_kept_refl|]. intros; lia.
Qed.

Lemma gather_defines_all_witness :
  exists r' e, syms pull_ingested !! 2%nat = Some r' /\ exportedBy r' = Some e /\
               xr_arr e = Exports /\ xr_obj e = 0%nat.
Proof.
  destruct (gather_defines_all
              (result_state (snd <$> scan_files pull_inputs None initial_state))
              (set_fileListIndex [] pull_ingested)) as [_ H].
  { vm_compute. reflexivity. }
  destruct (H 2%nat (mkSymRec "xyz" "U" None None)) as (r' & e & Hr' & He & Hx).
  { vm_compute. reflexivity. }
  exists r', e. split; [exact Hr'|]. split; [exact He|]. exact Hx.
Defined.

(** ** One walk at a time (depwalk, depwalkListRelease) *)

Lemma depwalk_mode (f : ObjF) (action : option DepPrintArgRec) (mode : Z) (st st1 : State) :
  depwalk f action mode st = Done st1 -> depwalkMode st1 = mode.
Proof.
  unfold depwalk. intros H. apply bind_Done in H as (o & _ & H).
  apply bind_Done in H as (u & _ & H). apply bind_Done in H as (u' & _ & H).
  set (sta := set_depwalk _ mode st) in H.
  apply bind_Done in H as (stb & Hup & H). apply upd_work_Done in Hup as (_ & [Wb _] & _).
  apply bind_Done in H as (stc & Hrec & H).
  apply depwalk_rec_walked in Hrec as (_ & [Wc _] & _).
  assert (Wa : depwalkMode sta = mode) by done.
  destruct (BUILD_LIST stc).
  - injection H as <-. simpl. congruence.
  - apply upd_work_Done in H as (_ & [Wd _] & _). congruence.
Qed.

Lemma depwalk_while_building (g : ObjF) (action : option DepPrintArgRec) (mode : Z)
    (st : State) :
  BUILD_LIST st = true -> (g < length (objs st))%nat ->
  depwalk g action mode st = Fail (AssertFailed A_work_clear) \/
  depwalk g action mode st = Fail (AssertFailed A_not_building).
Proof.
  intros Hb Hg. unfold depwalk. destruct (get_obj_valid g st Hg) as (o & -> & _).
  rewrite ret_bind. destruct (bool_decide (work o = WNull)); [|by left].
  right. by rewrite Hb.
Qed.

Lemma depwalkListRelease_not_building (g : ObjF) (st : State) :
  BUILD_LIST st = false -> depwalkListRelease g st = Fail (AssertFailed A_building).
Proof. intros Hb. unfold depwalkListRelease. by rewrite Hb. Qed.

(** The walk engine serves one walk at a time.  After a list-building walk
    has returned, and until its list is released, every further [depwalk]
    aborts on one of its two assertions.  After a walk in direct mode there
    is no list: [depwalkListRelease] aborts on its assertion; and so does a
    second release of the same list. *)
Theorem one_walk_at_a_time (f : ObjF) (action : option DepPrintArgRec) (mode : Z)
    (st st1 : State) :
  depwalk f action mode st = Done st1 ->
  (flag_set mode WALK_BUILD_LIST = true ->
     forall g action' mode', (g < length (objs st1))%nat ->
       depwalk g action' mode' st1 = Fail (AssertFailed A_work_clear) \/
       depwalk g action' mode' st1 = Fail (AssertFailed A_not_building)) /\
  (flag_set mode WALK_BUILD_LIST = false ->
     forall g, depwalkListRelease g st1 = Fail (AssertFailed A_building)) /\
  (forall st2, depwalkListRelease f st1 = Done st2 ->
     forall g, depwalkListRelease g st2 = Fail (AssertFailed A_building)).
Proof.
  intros H. apply depwalk_mode in H as Hm. split; [|split].
  - intros Hb g action' mode' Hg. apply depwalk_while_building; [|done].
    unfold BUILD_LIST. by rewrite Hm.
  - intros Hb g. apply depwalkListRelease_not_building. unfold BUILD_LIST. by rewrite Hm.
  - intros st2 H2 g. apply depwalkListRelease_not_building.
    unfold depwalkListRelease in H2. apply bind_Done in H2 as (u & _ & H2).
    apply bind_Done in H2 as (sta & _ & H2). apply bind_Done in H2 as (stb & _ & [= <-]).
    done.
Qed.

Lemma one_walk_at_a_time_witness :
  (depwalk 2%nat None WALK_IMPORTS cycle_listed = Fail (AssertFailed A_work_clear) \/
   depwalk 2%nat None WALK_IMPORTS cycle_listed = Fail (AssertFailed A_not_building)) /\
  depwalkListRelease 1%nat cycle_walked = Fail (AssertFailed A_building).
Proof.
  split.
  - destruct (one_walk_at_a_time 1%nat (Some print_arg) (Z.lor WALK_EXPORTS WALK_BUILD_LIST)
                cycle_state cycle_listed) as (H & _).
    + vm_compute. reflexivity.
    + apply H; [vm_compute; reflexivity|vm_compute; lia].
  - destruct (one_walk_at_a_time 1%nat (Some print_arg) WALK_EXPORTS
                cycle_state cycle_walked) as (_ & H & _).
    + vm_compute. reflexivity.
    + apply H. vm_compute. reflexivity.
Defined.

(** ** The index (fileListBuildIndex) *)

(** Every library an object points to exists. *)
Definition libs_ok (st : State) : Prop :=
  forall f o l, objs st !! f = Some o -> o_lib o = LPtr l -> (l < length (libs st))%nat.

Lemma objcmp_total (st : State) (f g : ObjF) (a b : ObjFRec) :
  libs_ok st -> objs st !! f = Some a -> objs st !! g = Some b ->
  exists c, objcmp st a b = Done c.
Proof.
  intros Hl Ha Hb. unfold objcmp.
  destruct (negb _); [eauto|]. destruct (_ || _); [eauto|].
  destruct (o_lib a) as [| |la] eqn:Ea, (o_lib b) as [| |lb] eqn:Eb; eauto.
  destruct (lookup_lt_is_Some_2 _ _ (Hl f a la Ha Ea)) as [ra ->].
  destruct (lookup_lt_is_Some_2 _ _ (Hl g b lb Hb Eb)) as [rb ->]. simpl. eauto.
Qed.

Lemma insert_sorted_total (st : State) (f : ObjF) (l : list ObjF) :
  libs_ok st -> (f < length (objs st))%nat ->
  Forall (fun g => g < length (objs st))%nat l ->
  exists l', insert_sorted st f l = Done l'.
Proof.
  intros Hl Hf. induction 1 as [|g l Hg _ IH]; simpl; [eauto|].
  destruct (get_obj_valid f st Hf) as (a & -> & Ha).
  destruct (get_obj_valid g st Hg) as (b & -> & Hb). rewrite !ret_bind.
  destruct (objcmp_total st f g a b Hl Ha Hb) as (c & ->). rewrite ret_bind.
  destruct (c <? 0); [eauto|]. destruct IH as (l' & ->). simpl. eauto.
Qed.

Lemma qsort_objs_total (st : State) (l : list ObjF) :
  libs_ok st -> Forall (fun g => g < length (objs st))%nat l ->
  exists l', qsort_objs st l = Done l'.
Proof.
  intros Hl. induction 1 as [|f l Hf Hall IH]; [by exists []|].
  destruct IH as (s & Hs). unfold qsort_objs in *. simpl. rewrite Hs, ret_bind.
  apply insert_sorted_total; [done|done|].
  apply qsort_objs_spec in Hs as [_ Hp]. by rewrite Hp.
Qed.

(** [fileListBuildIndex] returns an index that holds every object once,
    the sentinel too, in ascending order of the object names. *)
Theorem fileListBuildIndex_sorts (st : State) :
  libs_ok st ->
  exists idx,
    fileListBuildIndex st = Done idx /\ idx ≡ₚ seq 0 (length (objs st)) /\
    StronglySorted (fun p q => strcmp (obj_name st p) (obj_name st q) <= 0) idx.
Proof.
  intros Hl. destruct (qsort_objs_total st (seq 0 (length (objs st))) Hl) as (idx & Hidx).
  { apply Forall_forall. intros g Hg. apply elem_of_seq in Hg. lia. }
  exists idx. split; [done|]. apply qsort_objs_spec in Hidx as [Hs Hp]. done.
Qed.

Lemma fileListBuildIndex_sorts_witness :
  exists idx,
    fileListBuildIndex two_libs_state = Done idx /\
    idx ≡ₚ seq 0 (length (objs two_libs_state)) /\
    StronglySorted (fun p q => strcmp (obj_name two_libs_state p) (obj_name two_libs_state q) <= 0)
                   idx.
Proof.
  apply (fileListBuildIndex_sorts two_libs_state).
  intros f o l Ho Hlib. apply lookup_lt_Some in Ho as Hf.
  change (length (objs two_libs_state)) with 5%nat in Hf.
  change (length (libs two_libs_state)) with 2%nat.
  destruct f as [|[|[|[|[|f]]]]]; [..|lia];
    vm_compute in Ho; injection Ho as <-; vm_compute in Hlib;
    try discriminate; injection Hlib as <-; lia.
Defined.

(** ** Libraries (createLib, libAddObj, createObj) *)

(** A property of the store that every step of the scanner keeps is kept
    by the scan of all inputs. *)
Section scan_keeps.
Variable P : State -> Prop.
Hypothesis keeps_emit : forall e st, P st -> P (emit e st).
Hypothesis keeps_createObj :
  forall name st f st', P st -> createObj name st = Done (f, st') -> P st'.
Hypothesis keeps_intern_sym :
  forall name type st s st', P st -> intern_sym name type st = Done (s, st') -> P st'.
Hypothesis keeps_export :
  forall cur s weak st st', P st ->
    upd_obj cur (fun o => with_exports (exports o ++ [new_xref s cur weak]) o) st = Done st' ->
    P st'.
Hypothesis keeps_import :
  forall cur s st st', P st ->
    upd_obj cur (fun o => with_imports (imports o ++ [new_xref s cur false]) o) st = Done st' ->
    P st'.
Hypothesis keeps_fixup :
  forall f i st st', P st -> fixup_export f i st = Done st' -> P st'.

Lemma fixupObj_keeps (obj : option ObjF) (st st' : State) :
  P st -> fixupObj obj st = Done st' -> P st'.
Proof.
  destruct obj as [f|]; simpl; [|by intros ? [= <-]].
  intros HP H. apply bind_Done in H as (o & _ & H).
  apply (for_each_keeps P) in H; [done| |done]. intros i s s' _. apply keeps_fixup.
Qed.

Lemma scan_switch_keeps (name : string) (got : scanned) (buf : list ascii) (line : Z)
    (obj : option ObjF) (st : State) (loc' : scan_locals) (st' : State) :
  P st -> scan_switch name got buf line obj st = Done (Continue loc' st') -> P st'.
Proof.
  intros HP. unfold scan_switch. destruct got as [|tok|tok type]; [done|..].
  - destruct (bool_decide _); [|done]. intros H.
    apply bind_Done in H as (st1 & Hfix & H).
    apply bind_Done in H as ([o st2] & Hcr & [= <- <-]).
    apply keeps_createObj in Hcr; [done|]. by apply (fixupObj_keeps obj st).
  - intros H. apply bind_Done in H as ([cur st1] & Ho & H).
    assert (H1 : P st1).
    { destruct obj as [c|]; [by injection Ho as <- <-|].
      apply keeps_createObj in Ho; [done|]. by apply keeps_emit. }
    apply bind_Done in H as ([s st2] & Hint & H).
    apply keeps_intern_sym in Hint; [|done].
    destruct (classify st2 (TOUPPER st1 type)) as [weak| |]; [| |done].
    + apply bind_Done in H as (st3 & Hupd & [= <- <-]). by apply keeps_export in Hupd.
    + apply bind_Done in H as (st3 & Hupd & [= <- <-]). by apply keeps_import in Hupd.
Qed.

Lemma scan_loop_keeps (name : string) (input : list scanned) :
  forall loc st st', P st -> scan_loop name input loc st = Done (0, st') -> P st'.
Proof.
  induction input as [|got input IH]; intros loc st st' HP; simpl.
  - intros H. apply bind_Done in H as (st1 & Hfix & [= <-]).
    by apply (fixupObj_keeps (sl_obj loc) st).
  - intros H. apply bind_Done in H as (step & Hl & H). destruct step as [rc st1|loc1 st1].
    + injection H as -> <-. unfold scan_line in Hl. destruct (bool_decide _); [done|].
      by apply scan_switch_step in Hl.
    + unfold scan_line in Hl. destruct (bool_decide _); [done|].
      apply scan_switch_keeps in Hl; [|done]. by apply (IH loc1 st1).
Qed.

Lemma scan_files_keeps (inputs : list (list scanned * string)) :
  forall last st last' st', P st -> scan_files inputs last st = Done (last', st') -> P st'.
Proof.
  induction inputs as [|[input nm] inputs IH]; intros last st last' st' HP; simpl.
  - by intros [= <- <-].
  - intros H. apply bind_Done in H as ([rc st1] & Hs & H).
    destruct (Z.eqb_spec rc 0) as [->|]; [|done].
    apply IH in H; [done|]. by apply scan_loop_keeps in Hs.
Qed.

Lemma gatherDanglingUndefs_keeps (st st' : State) :
  P st -> gatherDanglingUndefs st = Done st' -> P st'.
Proof.
  intros HP H. unfold gatherDanglingUndefs in H. apply bind_Done in H as (st1 & Hg & Hfix).
  apply (fixupObj_keeps (Some 0%nat) st1); [|done].
  apply (for_each_keeps P) in Hg; [done| |done].
  intros s t t' _ Ht Hb. unfold gatherDanglingUndefsAct in Hb.
  apply bind_Done in Hb as (r & _ & Hb). destruct (exportedBy r).
  - by injection Hb as <-.
  - by apply keeps_export in Hb.
Qed.
End scan_keeps.

(** The name and the library of an object. *)
Definition name_lib (st : State) (m : ObjF) : option (string * libp) :=
  (fun o => (o_name o, o_lib o)) <$> objs st !! m.

(** Libraries have distinct names; the members of a library are distinct
    objects with distinct names that point back to the library; an object
    that points to a library is one of its members, and no object has
    [MATCH_ANY] for its library. *)
Definition libs_inv (st : State) : Prop :=
  NoDup (l_name <$> libs st) /\
  (forall l lr, libs st !! l = Some lr ->
     NoDup (files lr) /\
     (forall m, m ∈ files lr -> exists n, name_lib st m = Some (n, LPtr l)) /\
     (forall m m' n x x', m ∈ files lr -> m' ∈ files lr ->
        name_lib st m = Some (n, x) -> name_lib st m' = Some (n, x') -> m = m')) /\
  (forall f n l, name_lib st f = Some (n, LPtr l) ->
     exists lr, libs st !! l = Some lr /\ f ∈ files lr) /\
  (forall f n, name_lib st f <> Some (n, LAny)).

Lemma libs_inv_view (st st' : State) :
  libs st' = libs st -> (forall m, name_lib st' m = name_lib st m) ->
  libs_inv st -> libs_inv st'.
Proof.
  intros El En (H1 & H2 & H3 & H4). split; [by rewrite El|]. split; [|split].
  - intros l lr. rewrite El. intros Hl. destruct (H2 l lr Hl) as (A & B & C).
    split; [done|]. split.
    + intros m Hm. rewrite En. by apply B.
    + intros m m' n x x' Hm Hm'. rewrite !En. by apply C.
  - intros f n l. rewrite En, El. apply H3.
  - intros f n. rewrite En. apply H4.
Qed.

Lemma name_lib_upd (cur : ObjF) (g : ObjFRec -> ObjFRec) (st st' : State) :
  (forall o, o_name (g o) = o_name o /\ o_lib (g o) = o_lib o) ->
  upd_obj cur g st = Done st' ->
  libs st' = libs st /\ forall m, name_lib st' m = name_lib st m.
Proof.
  intros Hg H. apply upd_obj_Done in H as (o & Ho & ->). split; [done|].
  intros m. unfold name_lib. simpl. destruct (decide (m = cur)) as [->|Hne].
  - rewrite list_lookup_insert_eq by by apply lookup_lt_Some in Ho. rewrite Ho. simpl.
    destruct (Hg o) as [-> ->]. done.
  - by rewrite list_lookup_insert_ne.
Qed.

Lemma libs_inv_upd (cur : ObjF) (g : ObjFRec -> ObjFRec) (st st' : State) :
  (forall o, o_name (g o) = o_name o /\ o_lib (g o) = o_lib o) ->
  libs_inv st -> upd_obj cur g st = Done st' -> libs_inv st'.
Proof.
  intros Hg Hi H. destruct (name_lib_upd cur g st st' Hg H) as [El En].
  by apply (libs_inv_view st).
Qed.

Lemma libs_inv_fixup (f : ObjF) (i : nat) (st st' : State) :
  libs_inv st -> fixup_export f i st = Done st' -> libs_inv st'.
Proof.
  intros Hi. unfold fixup_export. intros H. apply bind_Done in H as (r & _ & H).
  apply bind_Done in H as (s & _ & H). destruct (exportedBy s).
  - apply bind_Done in H as (t & _ & H). unfold xref_set_next in H.
    apply bind_Done in H as (rt & _ & H). apply (libs_inv_upd _ _ st) in H; [done| |done].
    intros o. by destruct (xr_arr t).
  - apply upd_sym_Done in H as (s' & _ & ->). by apply (libs_inv_view st).
Qed.

Lemma libs_inv_intern (name : string) (type : ascii) (st st' : State) (s : Sym) :
  libs_inv st -> intern_sym name type st = Done (s, st') -> libs_inv st'.
Proof.
  intros Hi. unfold intern_sym. destruct (tfind name st).
  2:{ intros [= <- <-]. by apply (libs_inv_view st). }
  intros H. apply bind_Done in H as (r & _ & H).
  case_bool_decide; [|injection H as <- <-; done].
  set (st1 := if _ && _ then _ else st) in H.
  assert (H1 : libs_inv st1) by (unfold st1; destruct (_ && _); [by apply (libs_inv_view st)|done]).
  case_bool_decide; [|injection H as <- <-; done].
  apply bind_Done in H as (st2 & Hupd & [= <- <-]).
  apply upd_sym_Done in Hupd as (r' & _ & ->). by apply (libs_inv_view st1).
Qed.

(** What [libAddObj] does. *)
Lemma libAddObj_spec (libname : string) (obj : ObjF) (st st' : State) :
  libAddObj libname obj st = Done st' ->
  exists o l lr0 libs1,
    objs st !! obj = Some o /\
    ((find_lib libname (libs st) = Some l /\ libs1 = libs st) \/
     (find_lib libname (libs st) = None /\ l = length (libs st) /\
      libs1 = libs st ++ [mkLibRec libname []])) /\
    libs1 !! l = Some lr0 /\ l_name lr0 = libname /\
    (forall m, m ∈ files lr0 ->
       exists mo, objs st !! m = Some mo /\ o_name mo <> o_name o) /\
    libs st' = <[l := mkLibRec libname (files lr0 ++ [obj])]> libs1 /\
    objs st' = <[obj := with_lib (LPtr l) o]> (objs st).
Proof.
  unfold libAddObj.
  set (p := match find_lib libname (libs st) with
            | Some l => (l, st) | None => createLib libname st end).
  assert (Hp : objs p.2 = objs st /\
               ((find_lib libname (libs st) = Some p.1 /\ libs p.2 = libs st) \/
                (find_lib libname (libs st) = None /\ p.1 = length (libs st) /\
                 libs p.2 = libs st ++ [mkLibRec libname []])) /\
               exists lr, libs p.2 !! p.1 = Some lr /\ l_name lr = libname).
  { unfold p. destruct (find_lib libname (libs st)) as [l|] eqn:F; simpl.
    - split; [done|]. split; [by left|]. by apply find_lib_Some.
    - split; [done|]. split; [by right|]. exists (mkLibRec libname []).
      split; [|done]. by apply list_lookup_middle. }
  destruct p as [l st1]. simpl in Hp. destruct Hp as (Ho & Hcase & lr & Hl & Hn).
  rewrite Hl. simpl. intros H.
  apply bind_Done in H as (o & Hgo & H). apply get_obj_Done in Hgo. rewrite Ho in Hgo.
  apply bind_Done in H as (u & Hchk & H).
  apply upd_obj_Done in H as (o' & Ho' & ->). simpl in Ho'. rewrite Ho, Hgo in Ho'.
  injection Ho' as <-.
  exists o, l, lr, (libs st1). split; [done|]. split.
  { destruct Hcase as [[? ?]|[? [? ?]]]; [left|right]; done. }
  split; [done|]. split; [done|]. split.
  - clear -Hchk Ho. revert Hchk. generalize (files lr). intros fs.
    induction fs as [|m fs IH]; simpl; [by intros _ m ?%elem_of_nil|].
    intros H. apply bind_Done in H as ([] & Hm & H).
    apply bind_Done in Hm as (mo & Hmo & Ha). apply get_obj_Done in Hmo. rewrite Ho in Hmo.
    apply assert_that_Done, negb_true_iff, Z.eqb_neq in Ha.
    intros m' [->|Hin]%elem_of_cons.
    + exists mo. split; [done|]. intros E. apply Ha. by apply strcmp_eq.
    + by apply IH.
  - simpl. rewrite Hn, Ho. done.
Qed.

Lemma name_lib_app (st st' : State) (o : ObjFRec) (m : ObjF) :
  objs st' = objs st ++ [o] ->
  name_lib st' m = if decide (m = length (objs st)) then Some (o_name o, o_lib o)
                   else name_lib st m.
Proof.
  intros E. unfold name_lib. rewrite E. destruct (decide (m = length (objs st))) as [->|Hne].
  - by rewrite list_lookup_middle.
  - destruct (decide (m < length (objs st))%nat).
    + by rewrite lookup_app_l.
    + rewrite !lookup_ge_None_2; [done|lia|rewrite length_app; simpl; lia].
Qed.

Lemma libs_inv_members_valid (st : State) (l : Lib) (lr : LibRec) (m : ObjF) :
  libs_inv st -> libs st !! l = Some lr -> m ∈ files lr -> (m < length (objs st))%nat.
Proof.
  intros (_ & H2 & _) Hl Hm. destruct (H2 l lr Hl) as (_ & B & _).
  destruct (B m Hm) as (n & Hn). unfold name_lib in Hn.
  destruct (objs st !! m) eqn:E; [|done]. by apply lookup_lt_Some in E.
Qed.

Lemma libs_inv_createObj (name : string) (st st' : State) (f : ObjF) :
  libs_inv st -> createObj name st = Done (f, st') -> libs_inv st'.
Proof.
  intros Hi. unfold createObj. destruct (splitName name st) as [sp st1] eqn:E.
  assert (Hst1 : objs st1 = objs st /\ libs st1 = libs st).
  { pose proof (splitName_state name st) as H. rewrite E in H. simpl in H.
    by destruct H as [->| ->]. }
  destruct Hst1 as [Ho1 Hl1].
  assert (Hi1 : libs_inv st1).
  { apply (libs_inv_view st); [done| |done]. intros m. unfold name_lib. by rewrite Ho1. }
  clear Hi E. destruct sp as [[[po libname] objn]|]; [|done].
  set (n := length (objs st1)).
  set (st2 := set_objs (objs st1 ++ [new_obj objn]) st1).
  assert (N2 : forall m, name_lib st2 m
                         = if decide (m = n) then Some (objn, LNull) else name_lib st1 m).
  { intros m. by rewrite (name_lib_app st1 st2 (new_obj objn)). }
  assert (Hval : forall l lr m, libs st1 !! l = Some lr -> m ∈ files lr -> m <> n).
  { intros l lr m Hl Hm. pose proof (libs_inv_members_valid _ _ _ _ Hi1 Hl Hm). unfold n. lia. }
  assert (Hnone : forall m, (n <= m)%nat -> name_lib st1 m = None).
  { intros m Hm. unfold name_lib. by rewrite lookup_ge_None_2. }
  assert (Hi2 : libs_inv st2).
  { destruct Hi1 as (H1 & H2 & H3 & H4). split; [done|]. split; [|split].
    - intros l lr Hl. destruct (H2 l lr Hl) as (A & B & C). split; [done|]. split.
      + intros m Hm. rewrite N2, decide_False by by eapply Hval. by apply B.
      + intros m m' nn x x' Hm Hm'. rewrite !N2.
        rewrite !decide_False by by eapply Hval. by apply C.
    - intros g nn l. rewrite N2. destruct (decide (g = n)); [done|]. apply H3.
    - intros g nn. rewrite N2. destruct (decide (g = n)); [done|]. apply H4. }
  destruct po as [po|]; [|by intros [= <- <-]].
  intros H. apply bind_Done in H as (st3 & Hadd & [= <- <-]).
  apply libAddObj_spec in Hadd as (o & l & lr0 & libs1 & Ho & Hcase & Hl0 & Hn0 & Hdist & El & Eo).
  assert (o = new_obj objn) as ->.
  { simpl in Ho. fold n in Ho. unfold n in Ho. rewrite list_lookup_middle in Ho by done.
    by injection Ho as <-. }
  assert (N3 : forall m, name_lib st3 m
                         = if decide (m = n) then Some (objn, LPtr l) else name_lib st1 m).
  { intros m. unfold name_lib. rewrite Eo. destruct (decide (m = n)) as [->|Hne].
    - rewrite list_lookup_insert_eq by by apply lookup_lt_Some in Ho. done.
    - rewrite list_lookup_insert_ne by done. fold (name_lib st2 m). rewrite N2.
      by rewrite decide_False. }
  assert (Hlt : (l < length libs1)%nat) by by apply lookup_lt_Some in Hl0.
  assert (Hold : forall k lr, k <> l -> libs st3 !! k = Some lr -> libs st1 !! k = Some lr).
  { intros k lr Hk. rewrite El, list_lookup_insert_ne by done.
    destruct Hcase as [[_ ->]|(_ & -> & ->)]; [done|].
    intros Hlk. apply lookup_app_Some in Hlk as [?|[Hge Hlk]]; [done|].
    apply list_lookup_singleton_Some in Hlk as [? _]. lia. }
  assert (Hfiles0 : forall m, m ∈ files lr0 ->
            exists lr1, libs st1 !! l = Some lr1 /\ m ∈ files lr1 /\ files lr1 = files lr0).
  { intros m Hm. destruct Hcase as [[_ ->]|(_ & -> & ->)]; [eauto|].
    rewrite list_lookup_middle in Hl0 by done. injection Hl0 as <-. by apply elem_of_nil in Hm. }
  destruct Hi1 as (H1 & H2 & H3 & H4).
  split; [|split; [|split]].
  - rewrite El, list_fmap_insert. simpl.
    rewrite list_insert_id; [|by rewrite list_lookup_fmap, Hl0; simpl; rewrite Hn0].
    destruct Hcase as [[_ ->]|(Hnf & -> & ->)]; [done|].
    rewrite fmap_app. simpl. apply NoDup_app. split; [done|]. split; [|apply NoDup_singleton].
    intros x Hx ->%list_elem_of_singleton. apply list_elem_of_fmap in Hx as (lr & -> & Hlr).
    apply list_elem_of_lookup in Hlr as (k & Hk). by apply (find_lib_None _ _ Hnf k lr).
  - intros k lr Hk. destruct (decide (k = l)) as [->|Hne].
    + rewrite El, list_lookup_insert_eq in Hk by done. injection Hk as <-. simpl.
      split; [|split].
      * apply NoDup_app. split; [|split; [|apply NoDup_singleton]].
        -- destruct Hcase as [[_ ->]|(_ & -> & ->)].
           ++ by destruct (H2 l lr0 Hl0) as (? & _).
           ++ rewrite list_lookup_middle in Hl0 by done. injection Hl0 as <-. constructor.
        -- intros m Hm ->%list_elem_of_singleton.
           destruct (Hfiles0 n Hm) as (lr1 & Hl1' & Hm1 & _). by eapply Hval.
      * intros m [Hm| ->%list_elem_of_singleton]%elem_of_app.
        -- destruct (Hfiles0 m Hm) as (lr1 & Hl1' & Hm1 & _).
           rewrite N3, decide_False by by eapply Hval.
           by destruct (H2 l lr1 Hl1') as (_ & B & _); apply B.
        -- rewrite N3, decide_True by done. eauto.
      * assert (Hnew : forall m nn x, m ∈ files lr0 -> name_lib st3 m = Some (nn, x) ->
                                      nn <> objn).
        { intros m nn x Hm Hnm. destruct (Hdist m Hm) as (mo & Hmo & Hne).
          destruct (Hfiles0 m Hm) as (lr1 & Hl1' & Hm1 & _).
          rewrite N3, decide_False in Hnm by by eapply Hval.
          unfold name_lib in Hnm. simpl in Hmo. rewrite lookup_app_l in Hmo
            by (by apply (libs_inv_members_valid st1 l lr1); [split|..]).
          rewrite Hmo in Hnm. simpl in Hnm. injection Hnm as <- _. done. }
        intros m m' nn x x' [Hm| ->%list_elem_of_singleton]%elem_of_app
               [Hm'| ->%list_elem_of_singleton]%elem_of_app Hnm Hnm'; [| | |done].
        -- destruct (Hfiles0 m Hm) as (lr1 & Hl1' & Hm1 & Ef1).
           rewrite <- Ef1 in Hm'.
           rewrite N3, decide_False in Hnm by by eapply Hval.
           rewrite N3, decide_False in Hnm' by by eapply Hval.
           destruct (H2 l lr1 Hl1') as (_ & _ & C). by apply (C m m' nn x x').
        -- rewrite N3, decide_True in Hnm' by done. injection Hnm' as <- _.
           by apply Hnew in Hnm.
        -- rewrite N3, decide_True in Hnm by done. injection Hnm as <- _.
           by apply Hnew in Hnm'.
    + pose proof (Hold k lr Hne Hk) as Hk1. destruct (H2 k lr Hk1) as (A & B & C).
      split; [done|]. split.
      * intros m Hm. rewrite N3, decide_False by by eapply Hval. by apply B.
      * intros m m' nn x x' Hm Hm'. rewrite !N3.
        rewrite !decide_False by by eapply Hval. by apply C.
  - intros g nn k. rewrite N3. destruct (decide (g = n)) as [->|Hne].
    + intros [= <- <-]. exists (mkLibRec libname (files lr0 ++ [n])).
      split; [by rewrite El, list_lookup_insert_eq|]. simpl. apply elem_of_app. right. by left.
    + intros Hg. destruct (H3 g nn k Hg) as (lr & Hlr & Hin).
      destruct (decide (k = l)) as [->|Hkl].
      * exists (mkLibRec libname (files lr0 ++ [n])).
        split; [by rewrite El, list_lookup_insert_eq|]. simpl. apply elem_of_app. left.
        destruct Hcase as [[_ ->]|(_ & -> & ->)].
        -- change (libs st2) with (libs st1) in Hl0. rewrite Hl0 in Hlr.
           by injection Hlr as <-.
        -- apply lookup_lt_Some in Hlr. change (libs st2) with (libs st1) in Hlr. lia.
      * exists lr. split; [|done]. rewrite El, list_lookup_insert_ne by done.
        destruct Hcase as [[_ ->]|(_ & -> & ->)]; [done|]. by apply lookup_app_l_Some.
  - intros g nn. rewrite N3. destruct (decide (g = n)); [done|]. apply H4.
Qed.

Lemma libs_inv_initial : libs_inv initial_state.
Proof.
  split; [constructor|]. split; [|split].
  - by intros l lr ?.
  - intros [|f] n l; [done|]. by destruct f.
  - intros [|f] n; [done|]. by destruct f.
Qed.

Lemma libs_inv_same_links (st st' : State) : same_links st st' -> libs_inv st -> libs_inv st'.
Proof.
  intros H. apply libs_inv_view.
  - by apply (f_equal libs) in H.
  - intros m. apply (f_equal objs) in H. simpl in H.
    apply (f_equal (fun l => (fun o => (o_name o, o_lib o)) <$> l !! m)) in H.
    rewrite !list_lookup_fmap in H. unfold name_lib.
    destruct (objs st' !! m), (objs st !! m); simpl in *; congruence.
Qed.

Lemma libs_inv_ingest (inputs : list (list scanned * string)) (last : ObjF) (st : State) :
  ingest inputs = Done (last, st) -> libs_inv st.
Proof.
  intros Hi. unfold ingest in Hi. apply bind_Done in Hi as ([l1 st1] & Hs & Hi).
  apply bind_Done in Hi as (l0 & _ & Hi). apply bind_Done in Hi as (st2 & Hg & Hi).
  apply bind_Done in Hi as (idx & _ & [= <- <-]).
  assert (Hexp : forall cur x st st', libs_inv st ->
            upd_obj cur (fun o => with_exports (exports o ++ [x]) o) st = Done st' ->
            libs_inv st').
  { intros cur x s s' Hs' Hu. by apply (libs_inv_upd _ _ s) in Hu. }
  assert (Himp : forall cur x st st', libs_inv st ->
            upd_obj cur (fun o => with_imports (imports o ++ [x]) o) st = Done st' ->
            libs_inv st').
  { intros cur x s s' Hs' Hu. by apply (libs_inv_upd _ _ s) in Hu. }
  apply (libs_inv_view st2); [done|done|].
  apply (gatherDanglingUndefs_keeps libs_inv) in Hg; [done|..].
  - intros cur s weak. apply Hexp.
  - intros f i s s'. apply libs_inv_fixup.
  - apply (scan_files_keeps libs_inv) in Hs; [done|..].
    + intros e s Hs'. by apply (libs_inv_view s).
    + intros name s f s'. apply libs_inv_createObj.
    + intros name type s sy s'. apply libs_inv_intern.
    + intros cur s weak. apply Hexp.
    + intros cur s. apply Himp.
    + intros f i s s'. apply libs_inv_fixup.
    + apply libs_inv_initial.
Qed.

Lemma libs_inv_ldep (inputs : list (list scanned * string)) (last : ObjF) (st : State) :
  ldep inputs = Done (last, st) -> libs_inv st.
Proof.
  intros H. apply ldep_Done in H as (st0 & Hi & Hall).
  pose proof (ingest_ingested _ _ _ Hi) as [Hi0 _].
  destruct (link_all_inv last st0 (ingested_fresh_graph _ Hi0)) as (ls & st1 & Hall1 & Hm).
  rewrite Hall in Hall1. injection Hall1 as <-.
  destruct Hm as (_ & M1 & _). cbn [snd] in M1.
  apply (libs_inv_same_links st0); [done|]. by apply (libs_inv_ingest inputs last).
Qed.

Lemma two_libs_libs_inv : libs_inv two_libs_state.
Proof. apply (libs_inv_ldep two_libs_inputs 4%nat). vm_compute. reflexivity. Qed.

(** What [ldep] holds of libraries, after ingestion and still after the
    linking loop: no two libraries bear the same name; the members of a
    library are distinct objects with distinct names, each pointing back to
    the library; an object that points to a library is among its members. *)
Theorem libraries_well_formed (inputs : list (list scanned * string)) (last : ObjF)
    (st : State) :
  ingest inputs = Done (last, st) \/ ldep inputs = Done (last, st) -> libs_inv st.
Proof.
  intros [H|H]; [by apply (libs_inv_ingest inputs last)|by apply (libs_inv_ldep inputs last)].
Qed.

Lemma libraries_well_formed_witness : libs_inv two_libs_state.
Proof.
  apply (libraries_well_formed two_libs_inputs 4%nat two_libs_state).
  right. vm_compute. reflexivity.
Defined.

Lemma find_lib_named (st : State) (lib : string) (l : Lib) (lr : LibRec) :
  NoDup (l_name <$> libs st) -> libs st !! l = Some lr -> l_name lr = lib ->
  find_lib lib (libs st) = Some l.
Proof.
  intros Hnd Hl Hn. destruct (find_lib lib (libs st)) as [k|] eqn:F.
  - destruct (find_lib_Some _ _ _ F) as (kr & Hk & Hkn). f_equal.
    apply (NoDup_lookup _ k l lib Hnd); rewrite list_lookup_fmap.
    + by rewrite Hk; simpl; rewrite Hkn.
    + by rewrite Hl; simpl; rewrite Hn.
  - exfalso. by apply (find_lib_None _ _ F l lr).
Qed.

(** [createObj] on [lib[mem]] stops on the assertion of [libAddObj] exactly
    if the library called [lib] already has a member called [mem];
    otherwise it returns the new object, the next one of the store. *)
Theorem createObj_member_twice (lib mem : string) (st : State) :
  "["%char ∉ chars mem -> libs_inv st ->
  let dup := exists l lr m, libs st !! l = Some lr /\ l_name lr = lib /\
                            m ∈ files lr /\ obj_name st m = mem in
  (dup -> createObj (lib +:+ "[" +:+ mem +:+ "]") st
          = Fail (AssertFailed A_lib_member_unique)) /\
  (~ dup -> exists st', createObj (lib +:+ "[" +:+ mem +:+ "]") st
                        = Done (length (objs st), st')).
Proof.
  intros Hmem Hi dup. unfold createObj. rewrite splitName_member by done.
  cbn [negb]. set (n := length (objs st)).
  set (st2 := set_objs (objs st ++ [new_obj mem]) st).
  assert (Hn : objs st2 !! n = Some (new_obj mem)) by by apply list_lookup_middle.
  assert (Hold : forall l lr m, libs st !! l = Some lr -> m ∈ files lr ->
            exists mo, objs st !! m = Some mo /\ get_obj m st2 = Done mo /\
                       obj_name st m = o_name mo).
  { intros l lr m Hl Hm. pose proof (libs_inv_members_valid _ _ _ _ Hi Hl Hm) as Hlt.
    destruct (lookup_lt_is_Some_2 _ _ Hlt) as [mo Hmo]. exists mo. split; [done|].
    split; [|by unfold obj_name; rewrite Hmo].
    unfold get_obj. simpl. by rewrite lookup_app_l, Hmo. }
  assert (Hget : get_obj n st2 = Done (new_obj mem)) by (unfold get_obj; by rewrite Hn).
  assert (Hloop : forall l lr fs, libs st !! l = Some lr ->
            (forall m, m ∈ fs -> m ∈ files lr) ->
            (forall m, m ∈ fs -> obj_name st m <> mem) ->
            for_each fs
              (fun m (_ : unit) =>
                 mo ← get_obj m st2;
                 assert_that A_lib_member_unique
                   (negb (strcmp (o_name mo) (o_name (new_obj mem)) =? 0)))
              tt = Done tt).
  { intros l lr fs Hl.
    induction fs as [|m fs IH]; intros Hsub Hall; simpl; [done|].
    destruct (Hold l lr m Hl) as (mo & _ & -> & E); [apply Hsub; by left|].
    rewrite ret_bind. destruct (Z.eqb_spec (strcmp (o_name mo) mem) 0) as [E0|_].
    - apply strcmp_eq in E0. exfalso. apply (Hall m); [by left|congruence].
    - simpl. apply IH; intros m' Hm'; [apply Hsub|apply Hall]; by right. }
  unfold libAddObj.
  destruct (find_lib lib (libs st2)) as [l|] eqn:F.
  - change (libs st2) with (libs st) in F.
    destruct (find_lib_Some _ _ _ F) as (lr & Hl & Hln).
    change (libs st2 !! l) with (libs st !! l). rewrite Hl. simpl.
    rewrite Hget, !ret_bind. split.
    + intros (l' & lr' & m & Hl' & Hln' & Hm & Hnm).
      assert (l' = l) as ->.
      { destruct Hi as (Hnd & _).
        pose proof (find_lib_named st lib l' lr' Hnd Hl' Hln'). congruence. }
      rewrite Hl in Hl'. injection Hl' as <-.
      rewrite (for_each_hits (AssertFailed A_lib_member_unique) (fun _ => True)
                 (files lr) _ m); [done| | |done| |done].
      * intros a [] Ha _. destruct (Hold l lr a Hl Ha) as (mo & _ & -> & _). simpl.
        destruct (negb _); [left; by exists tt|by right].
      * done.
      * intros [] _. destruct (Hold l lr m Hl Hm) as (mo & _ & -> & E). simpl.
        rewrite <- E, Hnm, strcmp_refl. done.
    + intros Hnd. rewrite (Hloop l lr (files lr) Hl), ret_bind; [|done|].
      2:{ intros m Hm E. apply Hnd. by exists l, lr, m. }
      unfold upd_obj, get_obj. simpl. fold n. rewrite list_lookup_middle by done. simpl. eauto.
  - change (libs st2) with (libs st) in F. split.
    + intros (l' & lr' & m & Hl' & Hln' & _). exfalso. by apply (find_lib_None _ _ F l' lr').
    + intros _. simpl. rewrite list_lookup_middle by done. simpl.
      unfold get_obj at 1. simpl. fold n. rewrite list_lookup_middle by done. simpl.
      unfold upd_obj, get_obj. simpl. fold n. rewrite list_lookup_middle by done. simpl. eauto.
Qed.

Lemma createObj_member_twice_witness :
  createObj "libc.a[printf.o]" two_libs_state = Fail (AssertFailed A_lib_member_unique)
  /\ exists st', createObj "libc.a[scanf.o]" two_libs_state = Done (5%nat, st').
Proof.
  split.
  - apply (createObj_member_twice "libc.a" "printf.o" two_libs_state).
    + vm_compute. intros H. repeat (apply elem_of_cons in H as [H|H]; [done|]).
      by apply elem_of_nil in H.
    + apply two_libs_libs_inv.
    + exists 0%nat, (mkLibRec "libc.a" [2%nat]), 2%nat. vm_compute.
      repeat split; try reflexivity. by left.
  - apply (createObj_member_twice "libc.a" "scanf.o" two_libs_state).
    + vm_compute. intros H. repeat (apply elem_of_cons in H as [H|H]; [done|]).
      by apply elem_of_nil in H.
    + apply two_libs_libs_inv.
    + vm_compute. intros (l & lr & m & Hl & Hn & Hm & Hnm).
      destruct l as [|[|l]]; [| |done]; injection Hl as <-; [|done].
      apply elem_of_cons in Hm as [->|Hm]; [done|]. by apply elem_of_nil in Hm.
Defined.

(** ** How the program can stop before the link sets are built *)

(** The ways in which scanning can end: it returns, it leaves with
    [exit(1)], or the assertion of [libAddObj] fires. *)
Definition scan_stops {A} (m : res A) : Prop :=
  (exists a, m = Done a) \/ m = Fail Exit1 \/ m = Fail (AssertFailed A_lib_member_unique).

Lemma scan_stops_bind {A B} (m : res A) (k : A -> res B) :
  scan_stops m -> (forall a, m = Done a -> scan_stops (k a)) -> scan_stops (m ≫= k).
Proof.
  intros [[a ->]|[->| ->]] Hk; [by apply Hk|right; by left|right; by right].
Qed.

Lemma scan_stops_Done {A} (a : A) : scan_stops (Done a).
Proof. left. eauto. Qed.

Lemma find_sym_lt (name : string) (ss : list SymRec) (i : Sym) :
  find_sym name ss = Some i -> (i < length ss)%nat.
Proof.
  revert i. induction ss as [|s ss IH]; intros i; simpl; [done|].
  destruct (strcmp name (s_name s) =? 0); [intros [= <-]; lia|].
  destruct (find_sym name ss) as [j|]; [|done]. intros [= <-]. specialize (IH j eq_refl). lia.
Qed.

Lemma intern_sym_total (name : string) (type : ascii) (st : State) :
  exists s st', intern_sym name type st = Done (s, st').
Proof.
  unfold intern_sym. destruct (tfind name st) as [s|] eqn:F; [|eauto].
  apply find_sym_lt in F. destruct (lookup_lt_is_Some_2 _ _ F) as [r Hr].
  unfold get_sym. rewrite Hr. simpl. destruct (bool_decide (type ≠ s_type r)); [|eauto].
  destruct (bool_decide ("U"%char = s_type r)); [|eauto].
  match goal with |- context [upd_sym s ?g ?t] => set (st1 := t) end.
  assert (Hr1 : syms st1 !! s = Some r) by (unfold st1; by destruct (_ && _)).
  unfold upd_sym, get_sym. rewrite Hr1. simpl. eauto.
Qed.

Lemma is_chain_last (st : State) (l : list Xref) (t : Xref) :
  forall p, is_chain st p (l ++ [t]) -> exists r, get_xref t st = Done r.
Proof.
  induction l as [|x l IH]; intros p; simpl.
  - intros (_ & r & Hr & _). eauto.
  - intros (_ & r & _ & Hc). by apply (IH (x_next r)).
Qed.

Lemma xref_set_next_total (e : Xref) (n : option Xref) (st : State) (r : XrefRec) :
  get_xref e st = Done r -> exists st', xref_set_next e n st = Done st'.
Proof.
  intros Hr. unfold xref_set_next. rewrite Hr, ret_bind.
  apply get_xref_Done in Hr as (o & Ho & _). apply upd_obj_valid. by apply lookup_lt_Some in Ho.
Qed.

Lemma fixup_export_total (sh : list (list Sym)) (cs : list Sym) (i : nat) (st : State) :
  fixup_inv sh cs i st -> (i < length cs)%nat ->
  exists st', fixup_export (length sh) i st = Done st'.
Proof.
  intros (Hsh & Hch & Hnx & Hrg) Hi. unfold fixup_export.
  assert (Hc : shape st !! length sh = Some cs) by (rewrite Hsh; by apply list_lookup_middle).
  apply shape_lookup in Hc as (o & Ho & ->). rewrite length_fmap in Hi.
  destruct (lookup_lt_is_Some_2 _ _ Hi) as [r Hr].
  assert (Hget : get_xref (mkXref Exports (length sh) i) st = Done r).
  { apply get_xref_Done. exists o. done. }
  rewrite Hget, ret_bind.
  assert (Hs : (x_sym r < length (syms st))%nat).
  { apply (Hrg (x_sym <$> exports o)).
    - rewrite Hsh. apply elem_of_app. right. by left.
    - apply list_elem_of_fmap. exists r. split; [done|]. by eapply list_elem_of_lookup_2. }
  destruct (lookup_lt_is_Some_2 _ _ Hs) as [sr Hsr].
  assert (Hgs : get_sym (x_sym r) st = Done sr) by by apply get_sym_Done.
  rewrite Hgs, ret_bind.
  destruct (exportedBy sr) as [e0|] eqn:E0.
  - pose proof (Hch _ _ Hsr) as Hc. rewrite E0 in Hc.
    set (A := sites_from 0 sh ++ take i (obj_sites (length sh) (x_sym <$> exports o))) in *.
    destruct (sites_of_sym (x_sym r) A) as [|x l] eqn:El using rev_ind; [done|].
    clear IHl.
    assert (Hlen : (length l < Datatypes.S (nxrefs st))%nat).
    { pose proof (length_sites_of_sym (x_sym r) A) as H1. rewrite El, length_app in H1.
      simpl in H1. pose proof (length_export_sites st) as H2.
      assert (H3 : (length A <= length (export_sites st))%nat).
      { unfold export_sites. rewrite Hsh, sites_from_snoc. unfold A.
        rewrite !length_app, length_take. simpl. lia. }
      lia. }
    rewrite (xref_tail_chain st l x e0 _ Hc Hlen), ret_bind.
    destruct (is_chain_last _ _ _ _ Hc) as [rx Hrx].
    by apply (xref_set_next_total _ _ _ rx).
  - unfold upd_sym, get_sym. rewrite Hsr. simpl. eauto.
Qed.

Lemma fixupObj_total (obj : option ObjF) (st : State) :
  scan_inv obj st -> exists st', fixupObj obj st = Done st'.
Proof.
  destruct obj as [cur|]; simpl; [|eauto].
  intros (sh & cs & Hsh & -> & Hch & Hnx & Hrg).
  assert (Hc : shape st !! length sh = Some cs) by (rewrite Hsh; by apply list_lookup_middle).
  apply shape_lookup in Hc as (o & Ho & ->).
  unfold get_obj. rewrite Ho. simpl.
  destruct (for_each_seq_total (fixup_inv sh (x_sym <$> exports o)) (fixup_export (length sh))
              (length (exports o)) 0%nat) with (s := st) as (st' & H & _); [| |eauto].
  - intros i s Hi Hinv. destruct (fixup_export_total sh _ i s Hinv) as (s' & Hs').
    { rewrite length_fmap. lia. }
    exists s'. split; [done|]. by apply (fixup_export_step sh _ i s).
  - split; [done|]. split; [by rewrite take_0, app_nil_r|]. split; [|done].
    intros j r _. apply Hnx.
Qed.

Lemma libAddObj_ends (libname : string) (obj : ObjF) (st : State) :
  (obj < length (objs st))%nat ->
  (forall l lr m, libs st !! l = Some lr -> m ∈ files lr -> (m < length (objs st))%nat) ->
  ends_or (AssertFailed A_lib_member_unique) (libAddObj libname obj st).
Proof.
  intros Hobj Hval. unfold libAddObj.
  set (p := match find_lib libname (libs st) with
            | Some l => (l, st) | None => createLib libname st end).
  assert (Hp : objs p.2 = objs st /\
               exists lr, libs p.2 !! p.1 = Some lr /\
                          forall m, m ∈ files lr -> (m < length (objs st))%nat).
  { unfold p. destruct (find_lib libname (libs st)) as [l|] eqn:F; simpl.
    - split; [done|]. destruct (find_lib_Some _ _ _ F) as (lr & Hl & _).
      exists lr. split; [done|]. intros m. by apply (Hval l lr).
    - split; [done|]. exists (mkLibRec libname []). split; [by apply list_lookup_middle|].
      by intros m ?%elem_of_nil. }
  destruct p as [l st1]. simpl in Hp. destruct Hp as (Ho & lr & Hl & Hm).
  rewrite Hl. simpl. rewrite <- Ho in Hobj, Hm.
  destruct (get_obj_valid obj st1 Hobj) as (o & Hgo & Hoo). rewrite Hgo, ret_bind.
  apply ends_or_bind.
  - apply (for_each_ends _ (fun _ => True)); [|done|done].
    intros m [] Hin _. destruct (get_obj_valid m st1 (Hm m Hin)) as (mo & -> & _).
    rewrite ret_bind. destruct (negb _); [left; by exists tt|by right].
  - intros [] _. left. apply upd_obj_valid. simpl. by rewrite Ho in *.
Qed.

Lemma createObj_stops (name : string) (st : State) :
  libs_inv st -> scan_stops (createObj name st).
Proof.
  intros Hi. unfold createObj. destruct (splitName name st) as [sp st1] eqn:E.
  assert (Hst1 : objs st1 = objs st /\ libs st1 = libs st).
  { pose proof (splitName_state name st) as H. rewrite E in H. simpl in H.
    by destruct H as [->| ->]. }
  destruct Hst1 as [Ho1 Hl1].
  destruct sp as [[[po libname] objn]|]; [|right; by left].
  destruct po as [po|]; [|apply scan_stops_Done].
  destruct (libAddObj_ends libname (length (objs st1))
              (set_objs (objs st1 ++ [new_obj objn]) st1)) as [[st2 ->]| ->].
  - simpl. rewrite length_app. simpl. lia.
  - simpl. rewrite Hl1. intros l lr m Hl Hm.
    pose proof (libs_inv_members_valid _ _ _ _ Hi Hl Hm). rewrite length_app, Ho1. lia.
  - apply scan_stops_Done.
  - right. by right.
Qed.

(** What holds of the store while the inputs are scanned. *)
Definition scan_good (obj : option ObjF) (st : State) : Prop :=
  ingested st /\ cur_ok obj st /\ scan_inv obj st /\ libs_inv st /\ pod_syms st = [].

Lemma pod_syms_same (st st' : State) :
  objs st' !! 0%nat = objs st !! 0%nat -> pod_syms st' = pod_syms st.
Proof. intros H. unfold pod_syms. by rewrite H. Qed.

Lemma fixup_export_shape (f : ObjF) (i : nat) (st st' : State) :
  fixup_export f i st = Done st' -> shape st' = shape st.
Proof.
  unfold fixup_export. intros H. apply bind_Done in H as (r & _ & H).
  apply bind_Done in H as (s & _ & H). destruct (exportedBy s).
  - apply bind_Done in H as (t & _ & H). by apply xref_set_next_shape in H as [? _].
  - by apply upd_sym_Done in H as (s' & _ & ->).
Qed.

Lemma fixupObj_shape (obj : option ObjF) (st st' : State) :
  fixupObj obj st = Done st' -> shape st' = shape st.
Proof.
  destruct obj as [f|]; simpl; [|by intros [= <-]].
  intros H. apply bind_Done in H as (o & _ & H).
  apply (for_each_keeps (fun s => shape s = shape st)) in H; [done| |done].
  intros i s s' _ Hs Hb. apply fixup_export_shape in Hb. congruence.
Qed.

Lemma libs_inv_emit (e : event) (st : State) : libs_inv st -> libs_inv (emit e st).
Proof. by apply libs_inv_view. Qed.

Lemma libs_inv_export (cur : ObjF) (x : XrefRec) (st st' : State) :
  libs_inv st -> upd_obj cur (fun o => with_exports (exports o ++ [x]) o) st = Done st' ->
  libs_inv st'.
Proof. intros Hs Hu. by apply (libs_inv_upd _ _ st) in Hu. Qed.

Lemma libs_inv_import (cur : ObjF) (x : XrefRec) (st st' : State) :
  libs_inv st -> upd_obj cur (fun o => with_imports (imports o ++ [x]) o) st = Done st' ->
  libs_inv st'.
Proof. intros Hs Hu. by apply (libs_inv_upd _ _ st) in Hu. Qed.

Lemma libs_inv_fixupObj (obj : option ObjF) (st st' : State) :
  libs_inv st -> fixupObj obj st = Done st' -> libs_inv st'.
Proof. apply (fixupObj_keeps libs_inv). intros f i s s'. apply libs_inv_fixup. Qed.

Lemma createObj_pod (name : string) (st st' : State) (f : ObjF) :
  (0 < length (objs st))%nat -> createObj name st = Done (f, st') ->
  pod_syms st' = pod_syms st.
Proof.
  intros Hlen H. apply createObj_objs in H as (_ & _ & o & Ho & _).
  apply pod_syms_same. rewrite Ho. by rewrite lookup_app_l.
Qed.

Lemma scan_switch_good (name : string) (got : scanned) (buf : list ascii) (line : Z)
    (obj : option ObjF) (st : State) (loc' : scan_locals) (st' : State) :
  scan_good obj st ->
  scan_switch name got buf line obj st = Done (Continue loc' st') ->
  scan_good (sl_obj loc') st'.
Proof.
  intros (Hi & Hc & Hinv & Hl & Hp) H.
  destruct (scan_switch_ingested _ _ _ _ _ _ _ _ Hi Hc H) as (Hi' & _ & Hc').
  split; [done|]. split; [done|]. split; [by apply scan_switch_inv in H|].
  split.
  - apply (scan_switch_keeps libs_inv) in H; [done|..|done].
    + apply libs_inv_emit.
    + intros nm s f s'. apply libs_inv_createObj.
    + intros nm type s sy s'. apply libs_inv_intern.
    + intros cur s weak. apply libs_inv_export.
    + intros cur s. apply libs_inv_import.
    + intros f i s s'. apply libs_inv_fixup.
  - revert H. unfold scan_switch. destruct got as [|tok|tok type]; [done|..].
    + destruct (bool_decide _); [|done]. intros H.
      apply bind_Done in H as (st1 & Hfix & H).
      apply bind_Done in H as ([o st2] & Hcr & [= <- <-]).
      destruct (fixupObj_ingested obj st st1 Hi Hfix) as [(Hlen1 & _) _].
      rewrite (createObj_pod _ _ _ _ Hlen1 Hcr).
      by rewrite (pod_syms_shape _ _ (fixupObj_shape _ _ _ Hfix)).
    + intros H. apply bind_Done in H as ([cur st1] & Ho & H).
      assert (H1 : ingested st1 /\ cur_ok (Some cur) st1 /\ pod_syms st1 = []).
      { destruct obj as [c|].
        - injection Ho as <- <-. done.
        - pose proof Hi as (Hlen & _).
          assert (Hie : ingested (emit (E_symbol_without_object line) st))
            by by apply (ingested_same st).
          destruct (createObj_ingested _ _ _ _ Hie Ho) as (Hi1 & _ & Hc1).
          split; [done|]. split; [done|]. rewrite (createObj_pod _ (emit (E_symbol_without_object line) st) _ _ Hlen Ho).
          exact Hp. }
      destruct H1 as (Hi1 & Hc1 & Hp1).
      apply bind_Done in H as ([s st2] & Hint & H).
      destruct (intern_sym_ingested _ _ _ _ _ Hi1 Hint) as (Hi2 & G2 & Hs2 & Ho2).
      assert (Hp2 : pod_syms st2 = []) by (rewrite <- Hp1; apply pod_syms_same; by rewrite Ho2).
      assert (Hne : cur <> 0%nat) by (specialize (Hc1 cur eq_refl); lia).
      destruct (classify st2 (TOUPPER st1 type)) as [weak| |]; [| |done].
      * apply bind_Done in H as (st3 & Hupd & [= <- <-]).
        apply upd_obj_Done in Hupd as (o & Hoo & ->). rewrite <- Hp2.
        apply pod_syms_same. simpl. by rewrite list_lookup_insert_ne.
      * apply bind_Done in H as (st3 & Hupd & [= <- <-]).
        apply upd_obj_Done in Hupd as (o & Hoo & ->). rewrite <- Hp2.
        apply pod_syms_same. simpl. by rewrite list_lookup_insert_ne.
Qed.

Lemma scan_switch_stops (name : string) (got : scanned) (buf : list ascii) (line : Z)
    (obj : option ObjF) (st : State) :
  scan_good obj st -> scan_stops (scan_switch name got buf line obj st).
Proof.
  intros (Hi & Hc & Hinv & Hl & Hp). unfold scan_switch.
  destruct got as [|tok|tok type]; [apply scan_stops_Done|..].
  - destruct (bool_decide _); [|apply scan_stops_Done].
    destruct (fixupObj_total obj st Hinv) as (st1 & Hfix). rewrite Hfix, ret_bind.
    apply scan_stops_bind.
    + apply createObj_stops. by apply (libs_inv_fixupObj obj st).
    + intros [o st2] _. apply scan_stops_Done.
  - apply scan_stops_bind.
    + destruct obj; [apply scan_stops_Done|]. apply createObj_stops. by apply libs_inv_emit.
    + intros [cur st1] Ho.
      assert (H1 : ingested st1 /\ cur_ok (Some cur) st1).
      { destruct obj as [c|].
        - injection Ho as <- <-. done.
        - assert (Hie : ingested (emit (E_symbol_without_object line) st))
            by by apply (ingested_same st).
          destruct (createObj_ingested _ _ _ _ Hie Ho) as (Hi1 & _ & Hc1). done. }
      destruct H1 as (Hi1 & Hc1).
      destruct (intern_sym_total (c_string buf) (TOUPPER st1 type) st1) as (s & st2 & Hint).
      rewrite Hint, ret_bind.
      destruct (intern_sym_ingested _ _ _ _ _ Hi1 Hint) as (_ & _ & _ & Ho2).
      assert (Hcur : (cur < length (objs st2))%nat).
      { rewrite Ho2. specialize (Hc1 cur eq_refl). lia. }
      destruct (classify st2 (TOUPPER st1 type)) as [weak| |]; [| |apply scan_stops_Done].
      * match goal with |- context [upd_obj cur ?g st2] =>
          destruct (upd_obj_valid cur g st2 Hcur) as (st3 & ->) end.
        apply scan_stops_Done.
      * match goal with |- context [upd_obj cur ?g st2] =>
          destruct (upd_obj_valid cur g st2 Hcur) as (st3 & ->) end.
        apply scan_stops_Done.
Qed.

Lemma scan_loop_stops (name : string) (input : list scanned) :
  forall loc st,
    scan_good (sl_obj loc) st ->
    scan_stops (scan_loop name input loc st) /\
    forall st', scan_loop name input loc st = Done (0, st') -> scan_good None st'.
Proof.
  induction input as [|got input IH]; intros loc st Hg; simpl.
  - destruct Hg as (Hi & Hc & Hinv & Hl & Hp).
    destruct (fixupObj_total _ st Hinv) as (st1 & Hfix). rewrite Hfix, ret_bind.
    split; [apply scan_stops_Done|]. intros st' [= <-].
    split; [by apply (fixupObj_ingested (sl_obj loc) st)|]. split; [done|].
    split; [by apply (fixupObj_fixed (sl_obj loc) st)|].
    split; [by apply (libs_inv_fixupObj (sl_obj loc) st)|].
    by rewrite (pod_syms_shape _ _ (fixupObj_shape _ _ _ Hfix)).
  - unfold scan_line. destruct (bool_decide _).
    + rewrite ret_bind. split; [apply scan_stops_Done|]. done.
    + pose proof (scan_switch_stops name got
                    (match token_of got with
                     | Some tok => store_token tok (sl_buf loc)
                     | None => sl_buf loc
                     end) (sl_line loc + 1) (sl_obj loc) st Hg) as [[step Hs]|Hs].
      * rewrite Hs, ret_bind. destruct step as [rc st1|loc1 st1].
        -- split; [apply scan_stops_Done|]. intros st' [= -> <-].
           by apply scan_switch_step in Hs.
        -- apply IH. by apply (scan_switch_good _ _ _ _ _ _ _ _ Hg Hs).
      * split; [|by destruct Hs as [-> | ->]].
        destruct Hs as [-> | ->]; [right; by left|right; by right].
Qed.

Lemma scan_good_initial : scan_good None initial_state.
Proof.
  split; [apply initial_state_ingested|]. split; [done|].
  split; [apply initial_state_fixed|]. split; [apply libs_inv_initial|done].
Qed.

Lemma scan_files_good (inputs : list (list scanned * string)) :
  forall last st,
    scan_good None st ->
    scan_stops (scan_files inputs last st) /\
    forall last' st', scan_files inputs last st = Done (last', st') -> scan_good None st'.
Proof.
  induction inputs as [|[input nm] inputs IH]; intros last st Hg; simpl.
  - split; [apply scan_stops_Done|]. by intros last' st' [= <- <-].
  - unfold scan_file.
    destruct (scan_loop_stops nm input (mkScanLocals tagged_buf 0 None) st Hg) as [Hs Hgood].
    destruct Hs as [[[rc st1] Hs]|Hs].
    + rewrite Hs, ret_bind. destruct (Z.eqb_spec rc 0) as [->|].
      * apply IH. by apply Hgood.
      * split; [right; by left|done].
    + split; [|by destruct Hs as [-> | ->]].
      destruct Hs as [-> | ->]; [right; by left|right; by right].
Qed.

(** The symbol [s] has no exporter. *)
Definition undefined_sym (st : State) (s : Sym) : Prop :=
  exists r, syms st !! s = Some r /\ exportedBy r = None.

#[local] Instance undefined_sym_dec (st : State) (s : Sym) : Decision (undefined_sym st s).
Proof.
  unfold undefined_sym. destruct (syms st !! s) as [r|].
  - destruct (exportedBy r) as [e|] eqn:E.
    + right. intros (r' & [= <-] & ?). congruence.
    + left. eauto.
  - right. by intros (r' & ? & _).
Defined.

Lemma gather_loop_total (l : list Sym) :
  forall st,
    (0 < length (objs st))%nat -> (forall s, s ∈ l -> (s < length (syms st))%nat) ->
    exists st', for_each l gatherDanglingUndefsAct st = Done st' /\
                syms st' = syms st /\ length (objs st') = length (objs st) /\
                pod_syms st' = pod_syms st ++ filter (undefined_sym st) l.
Proof.
  induction l as [|s l IH]; intros st Hlen Hl; simpl.
  - exists st. by rewrite app_nil_r.
  - destruct (lookup_lt_is_Some_2 _ _ (Hl s ltac:(by left))) as [r Hr].
    assert (Hact : gatherDanglingUndefsAct s st
                   = match exportedBy r with
                     | None => upd_obj 0%nat
                                 (fun o => with_exports (exports o ++ [new_xref s 0%nat false]) o) st
                     | Some _ => Done st
                     end)
      by (unfold gatherDanglingUndefsAct, get_sym; by rewrite Hr).
    rewrite Hact. clear Hact.
    destruct (exportedBy r) as [e|] eqn:E.
    + rewrite ret_bind. destruct (IH st Hlen) as (st' & H & Hs & Ho & Hp).
      { intros t Ht. apply Hl. by right. }
      exists st'. split; [done|]. split; [done|]. split; [done|].
      rewrite Hp. f_equal. rewrite filter_cons_False; [done|].
      intros (r' & Hr' & E'). congruence.
    + destruct (lookup_lt_is_Some_2 _ _ Hlen) as [o Ho].
      unfold upd_obj, get_obj. rewrite Ho. simpl.
      set (st1 := set_objs _ st).
      destruct (IH st1) as (st' & H & Hs & Hob & Hp).
      { unfold st1. simpl. by rewrite length_insert. }
      { intros t Ht. apply Hl. by right. }
      exists st'. split; [done|]. split; [done|].
      split; [rewrite Hob; unfold st1; simpl; by rewrite length_insert|].
      rewrite Hp. rewrite filter_cons_True by (exists r; done).
      assert (Hpod : pod_syms st1 = pod_syms st ++ [s]).
      { unfold pod_syms, st1. simpl. rewrite list_lookup_insert_eq by done.
        rewrite Ho. simpl. by rewrite fmap_app. }
      rewrite Hpod, <- app_assoc. done.
Qed.

Lemma pod_fixup_total (st : State) :
  (0 < length (objs st))%nat -> NoDup (pod_syms st) ->
  (forall s, s ∈ pod_syms st -> undefined_sym st s) ->
  exists st', fixupObj (Some 0%nat) st = Done st'.
Proof.
  intros Hlen Hnd Hun. simpl.
  destruct (lookup_lt_is_Some_2 _ _ Hlen) as [o Ho].
  unfold get_obj. rewrite Ho. simpl.
  assert (Hps : pod_syms st = x_sym <$> exports o) by (unfold pod_syms; by rewrite Ho).
  destruct (for_each_seq_total
              (fun i t => objs t = objs st /\
                 forall j s, (i <= j)%nat -> pod_syms st !! j = Some s -> undefined_sym t s)
              (fixup_export 0%nat) (length (exports o)) 0%nat) with (s := st)
    as (st' & H & _); [| |eauto].
  - intros i t Hi [Hobj Hrest].
    destruct (lookup_lt_is_Some_2 (exports o) i) as [r Hr]; [lia|].
    assert (Hpi : pod_syms st !! i = Some (x_sym r)).
    { by rewrite Hps, list_lookup_fmap, Hr. }
    destruct (Hrest i (x_sym r)) as (sr & Hsr & Hnone); [lia|done|].
    unfold fixup_export.
    assert (Hget : get_xref (mkXref Exports 0%nat i) t = Done r).
    { apply get_xref_Done. exists o. rewrite Hobj. done. }
    rewrite Hget, ret_bind.
    assert (Hgs : get_sym (x_sym r) t = Done sr) by by apply get_sym_Done.
    rewrite Hgs, ret_bind, Hnone. unfold upd_sym. rewrite Hgs, ret_bind.
    eexists. split; [done|]. split; [done|].
    intros j s Hj Hjs. destruct (Hrest j s) as (sj & Hsj & Hnj); [lia|done|].
    exists sj. split; [|done]. simpl. rewrite list_lookup_insert_ne; [done|].
    intros E. rewrite <- E in Hjs.
    pose proof (NoDup_lookup _ _ _ _ Hnd Hpi Hjs). lia.
  - split; [done|]. intros j s _ Hj. apply Hun. by eapply list_elem_of_lookup_2.
Qed.

Lemma gatherDanglingUndefs_total (st : State) :
  (0 < length (objs st))%nat -> pod_syms st = [] ->
  exists st', gatherDanglingUndefs st = Done st'.
Proof.
  intros Hlen Hp. unfold gatherDanglingUndefs.
  destruct (gather_loop_total (twalk_order (syms st)) st Hlen) as (st1 & -> & Hs & Ho & Hp1).
  { intros s Hs. rewrite twalk_order_perm in Hs. apply elem_of_seq in Hs. lia. }
  rewrite ret_bind. rewrite Hp in Hp1. simpl in Hp1.
  apply pod_fixup_total.
  - by rewrite Ho.
  - rewrite Hp1. apply NoDup_filter. rewrite twalk_order_perm. apply NoDup_seq.
  - intros s. rewrite Hp1. intros [Hu _]%list_elem_of_filter.
    unfold undefined_sym. by rewrite Hs.
Qed.

Lemma libs_inv_libs_ok (st : State) : libs_inv st -> libs_ok st.
Proof.
  intros (_ & _ & H3 & _) f o l Ho Hl.
  destruct (H3 f (o_name o) l) as (lr & Hlr & _).
  - unfold name_lib. rewrite Ho. simpl. by rewrite Hl.
  - by apply lookup_lt_Some in Hlr.
Qed.

Lemma libs_inv_gather (st st' : State) :
  libs_inv st -> gatherDanglingUndefs st = Done st' -> libs_inv st'.
Proof.
  apply (gatherDanglingUndefs_keeps libs_inv).
  - intros cur s weak. apply libs_inv_export.
  - intros f i s s'. apply libs_inv_fixup.
Qed.

Lemma scan_files_last (inputs : list (list scanned * string)) :
  forall l st last' st',
    scan_files inputs (Some l) st = Done (last', st') -> last' = Some l.
Proof.
  induction inputs as [|[input nm] inputs IH]; intros l st last' st'; simpl.
  - by intros [= <- _].
  - intros H. apply bind_Done in H as ([rc st1] & _ & H).
    destruct (rc =? 0); [|done]. by apply IH in H.
Qed.

Lemma scan_files_some (inputs : list (list scanned * string)) (st : State)
    (last : option ObjF) (st' : State) :
  inputs <> [] -> scan_files inputs None st = Done (last, st') -> exists l, last = Some l.
Proof.
  destruct inputs as [|[input nm] inputs]; [done|]. intros _. simpl.
  intros H. apply bind_Done in H as ([rc st1] & _ & H).
  destruct (rc =? 0); [|done]. apply scan_files_last in H. eauto.
Qed.

Lemma scanned_ldep (inputs : list (list scanned * string)) (last : ObjF) (st1 : State) :
  scan_files inputs None initial_state = Done (Some last, st1) ->
  exists st0 st, ingest inputs = Done (last, st0) /\ ldep inputs = Done (last, st).
Proof.
  intros Hs.
  destruct (scan_files_good inputs None initial_state scan_good_initial) as [_ Hg].
  destruct (Hg _ _ Hs) as (Hi & _ & _ & Hl & Hp).
  destruct (gatherDanglingUndefs_total st1) as (st2 & Hgather); [by destruct Hi|done|].
  pose proof (libs_inv_gather _ _ Hl Hgather) as Hl2.
  destruct (qsort_objs_total st2 (seq 0 (length (objs st2))) (libs_inv_libs_ok _ Hl2))
    as (idx & Hidx).
  { apply Forall_forall. intros g Hgi. apply elem_of_seq in Hgi. lia. }
  assert (Hing : ingest inputs = Done (last, set_fileListIndex idx st2)).
  { unfold ingest. rewrite Hs, ret_bind. cbv beta iota. simpl.
    rewrite Hgather, ret_bind. unfold fileListBuildIndex. by rewrite Hidx. }
  pose proof (ingest_ingested _ _ _ Hing) as [Hi0 _].
  destruct (link_all_inv last _ (ingested_fresh_graph _ Hi0)) as (ls & st & Hall & _).
  exists (set_fileListIndex idx st2), st. split; [done|].
  rewrite ldep_ingest, Hing, ret_bind. cbv beta iota.
  rewrite (ingested_checkObjPtrs _ Hi0). simpl. by rewrite Hall.
Qed.

(** Once every input is scanned without error, nothing stops the program
    before the link sets are built: the undefined symbols are gathered, the
    index is built, the assertion on [checkObjPtrs] holds and every object
    is linked, without a failed assertion and without following a null
    pointer. *)
Theorem scanned_inputs_get_linked (inputs : list (list scanned * string))
    (last : option ObjF) (st1 : State) :
  inputs <> [] -> scan_files inputs None initial_state = Done (last, st1) ->
  exists l st, last = Some l /\ ldep inputs = Done (l, st).
Proof.
  intros Hne Hs. destruct (scan_files_some _ _ _ _ Hne Hs) as [l ->].
  destruct (scanned_ldep inputs l st1 Hs) as (st0 & st & _ & Hld). eauto.
Qed.

Lemma scanned_inputs_get_linked_witness :
  exists l st, Some 1%nat = Some l /\ ldep pull_inputs = Done (l, st).
Proof.
  apply (scanned_inputs_get_linked pull_inputs (Some 1%nat)
           (result_state (snd <$> scan_files pull_inputs None initial_state))).
  - discriminate.
  - vm_compute. reflexivity.
Defined.

(** The program, up to the end of the linking loop, ends in one of three
    ways whatever it reads: it gets there, or it leaves with [exit(1)]
    because an input could not be scanned, or the assertion of [libAddObj]
    fires because a library has two members of one name.  No other
    assertion fires and no null pointer is followed (the allocations of
    memory, which always succeed here, apart). *)
Theorem ldep_stops (inputs : list (list scanned * string)) :
  inputs <> [] -> scan_stops (ldep inputs).
Proof.
  intros Hne.
  destruct (scan_files_good inputs None initial_state scan_good_initial) as [Hs _].
  destruct Hs as [[[last st1] Hs]|Hs].
  - destruct (scan_files_some _ _ _ _ Hne Hs) as [l ->].
    destruct (scanned_ldep inputs l st1 Hs) as (st0 & st & _ & Hld). left. eauto.
  - unfold ldep. destruct Hs as [-> | ->]; [right; by left|right; by right].
Qed.

Lemma ldep_stops_witness :
  scan_stops (ldep pull_inputs)
  /\ ldep [([Conv1 "a.o:"; Conv2 "main" "x"], "in")] = Fail Exit1
  /\ ldep [([Conv1 "l.a[m.o]:"; Conv1 "l.a[m.o]:"], "in")]
     = Fail (AssertFailed A_lib_member_unique).
Proof.
  split; [apply (ldep_stops pull_inputs); discriminate|].
  split; vm_compute; reflexivity.
Defined.

(** ** Importer lists (linkObj) *)

(** [x] is an element of an import array, and its symbol is [s]. *)
Definition isite (st : State) (x : Xref) (s : Sym) : Prop :=
  xr_arr x = Imports /\ exists r, get_xref x st = Done r /\ x_sym r = s.

(** [g] is in a link set. *)
Definition anchored (st : State) (g : ObjF) : Prop := anchor_of st g <> None.

(** The importer list of every symbol holds, once each, the imports of
    that symbol that are in [D]. *)
Definition imp_inv (D : Xref -> Prop) (st : State) : Prop :=
  forall s r, syms st !! s = Some r ->
    exists L, is_chain st (importedFrom r) L /\ NoDup L /\
              forall x, x ∈ L <-> D x /\ isite st x s.

(** What [linkObj(f)] adds to the imports [D] that are on importer lists:
    the imports of [f] and of the objects it puts into a link set. *)
Definition imp_post (f : ObjF) (D D' : Xref -> Prop) (st st' : State) : Prop :=
  forall x, D' x <-> D x \/ ((exists s, isite st x s) /\ anchored st' (xr_obj x) /\
                             (~ anchored st (xr_obj x) \/ xr_obj x = f)).

Definition imp_spec (rec : ObjF -> option string -> State -> res State) : Prop :=
  forall f sym st st' D,
    rec f sym st = Done st' -> NoDup (sym_names st) -> imp_inv D st ->
    (forall x, D x -> anchored st (xr_obj x)) -> (forall x, D x -> xr_obj x <> f) ->
    exists D', imp_inv D' st' /\ imp_post f D D' st st' /\ same_links st st' /\
               (forall g, anchored st g -> anchored st' g).

(** The loop of [linkObj(f)] before its [i]-th turn. *)
Definition imp_loop (f : ObjF) (D : Xref -> Prop) (st : State) (i : nat) (t : State) : Prop :=
  same_links st t /\ (forall g, anchored st g -> anchored t g) /\
  exists Di, imp_inv Di t /\
    forall x, Di x <-> D x \/ ((exists s, isite st x s) /\
                               ((anchored t (xr_obj x) /\ ~ anchored st (xr_obj x)) \/
                                (xr_obj x = f /\ (xr_idx x < i)%nat))).

Lemma anchored_dec (st : State) (g : ObjF) : anchored st g \/ ~ anchored st g.
Proof. unfold anchored. destruct (anchor_of st g); [left|right]; congruence. Qed.

Lemma isite_same (st st' : State) (x : Xref) (s : Sym) :
  same_links st st' -> isite st x s -> isite st' x s.
Proof.
  intros H (Ha & r & Hr & Hs). split; [done|].
  destruct (same_links_xref _ _ _ _ H Hr) as (r' & Hr' & Es & _). exists r'. split; [done|].
  congruence.
Qed.

Lemma isite_same_iff (st st' : State) (x : Xref) (s : Sym) :
  same_links st st' -> isite st' x s <-> isite st x s.
Proof.
  intros H. split; [apply isite_same; by apply same_links_sym|by apply isite_same].
Qed.

Lemma isite_fun (st : State) (x : Xref) (s s' : Sym) : isite st x s -> isite st x s' -> s = s'.
Proof. intros (_ & r & Hr & <-) (_ & r' & Hr' & <-). congruence. Qed.

Lemma imp_inv_frame (D : Xref -> Prop) (t t' : State) :
  syms t' = syms t -> (forall x, get_xref x t' = get_xref x t) ->
  imp_inv D t -> imp_inv D t'.
Proof.
  intros Hs Hx H s r Hr. rewrite Hs in Hr. destruct (H s r Hr) as (L & Hc & Hnd & Hm).
  exists L. split; [|split; [done|]].
  - apply (is_chain_frame t); [|done]. intros x _. apply Hx.
  - intros x. rewrite Hm. unfold isite. by rewrite Hx.
Qed.

Lemma imp_inv_ext (D D' : Xref -> Prop) (t : State) :
  (forall x, D x <-> D' x) -> imp_inv D t -> imp_inv D' t.
Proof.
  intros E H s r Hr. destruct (H s r Hr) as (L & Hc & Hnd & Hm).
  exists L. split; [done|]. split; [done|]. intros x. by rewrite Hm, E.
Qed.

Lemma get_xref_link_site (f : ObjF) (i : nat) (o : ObjFRec) (r : XrefRec) (found : Sym)
    (fr : SymRec) (t : State) (x : Xref) :
  objs t !! f = Some o -> imports o !! i = Some r ->
  get_xref x (link_site f i o r found fr t)
  = if decide (x = mkXref Imports f i) then Done (with_next (importedFrom fr) r)
    else get_xref x t.
Proof.
  intros Ho Hr. assert (Hf : (f < length (objs t))%nat) by by apply lookup_lt_Some in Ho.
  assert (Hi : (i < length (imports o))%nat) by by apply lookup_lt_Some in Hr.
  destruct (decide (x = mkXref Imports f i)) as [->|Hne].
  - unfold get_xref, get_obj, link_site. simpl.
    rewrite list_lookup_insert_eq by done. simpl. by rewrite list_lookup_insert_eq.
  - unfold get_xref, get_obj, link_site. simpl. destruct x as [arr g j]. simpl.
    destruct (decide (g = f)) as [->|Hgf].
    + rewrite list_lookup_insert_eq by done. rewrite Ho. simpl.
      destruct arr; simpl; [done|].
      rewrite list_lookup_insert_ne; [done|]. intros ->. done.
    + by rewrite list_lookup_insert_ne.
Qed.

Lemma link_site_imp (D : Xref -> Prop) (f : ObjF) (i : nat) (o : ObjFRec) (r : XrefRec)
    (fr : SymRec) (t : State) :
  objs t !! f = Some o -> imports o !! i = Some r -> syms t !! x_sym r = Some fr ->
  imp_inv D t -> ~ D (mkXref Imports f i) ->
  imp_inv (fun x => D x \/ x = mkXref Imports f i) (link_site f i o r (x_sym r) fr t).
Proof.
  intros Ho Hr Hfr Hinv HnD. set (imp := mkXref Imports f i) in *.
  set (t2 := link_site f i o r (x_sym r) fr t).
  assert (Hx : forall x, get_xref x t2
                         = if decide (x = imp) then Done (with_next (importedFrom fr) r)
                           else get_xref x t).
  { intros x. by apply get_xref_link_site. }
  assert (Himp : isite t imp (x_sym r)).
  { split; [done|]. exists r. split; [|done]. apply get_xref_Done. exists o. done. }
  assert (Hsite : forall x s, isite t2 x s <-> isite t x s).
  { intros x s. unfold isite. rewrite Hx. destruct (decide (x = imp)) as [->|Hne]; [|done].
    split.
    - intros (Ha & r' & [= <-] & Hs). simpl in Hs. subst s. exact Himp.
    - intros Hs. rewrite (isite_fun _ _ _ _ Hs Himp). split; [done|]. eexists. split; done. }
  assert (Hlt : (x_sym r < length (syms t))%nat) by by apply lookup_lt_Some in Hfr.
  intros s sr Hs. unfold t2, link_site in Hs. simpl in Hs.
  destruct (decide (s = x_sym r)) as [->|Hne].
  - rewrite list_lookup_insert_eq in Hs by done. injection Hs as <-. simpl.
    destruct (Hinv _ _ Hfr) as (L & Hc & Hnd & Hm).
    assert (HL : imp ∉ L) by (rewrite Hm; tauto).
    exists (imp :: L). split; [|split].
    + split; [done|]. exists (with_next (importedFrom fr) r). split.
      * by rewrite Hx, decide_True.
      * simpl. apply (is_chain_frame t); [|done]. intros x Hin. rewrite Hx.
        rewrite decide_False; [done|]. intros ->. done.
    + by constructor.
    + intros x. rewrite elem_of_cons, Hm, Hsite. split.
      * intros [->|[? ?]]; [split; [by right|done]|split; [by left|done]].
      * intros [[?| ->] ?]; [right; done|by left].
  - rewrite list_lookup_insert_ne in Hs by done.
    destruct (Hinv _ _ Hs) as (L & Hc & Hnd & Hm).
    exists L. split; [|split; [done|]].
    + apply (is_chain_frame t); [|done]. intros x Hin. rewrite Hx.
      rewrite decide_False; [done|]. intros ->. apply Hm in Hin. tauto.
    + intros x. rewrite Hm, Hsite. split; [intros [? ?]; split; [by left|done]|].
      intros [[?| ->] Hxs]; [done|]. exfalso. apply Hne. by apply (isite_fun t imp).
Qed.

Lemma get_xref_upd_keep (g : ObjF) (h : ObjFRec -> ObjFRec) (t t' : State) (x : Xref) :
  (forall o, exports (h o) = exports o /\ imports (h o) = imports o) ->
  upd_obj g h t = Done t' -> get_xref x t' = get_xref x t.
Proof.
  intros Hh H. apply upd_obj_Done in H as (o & Ho & ->).
  unfold get_xref, get_obj. simpl. destruct (decide (xr_obj x = g)) as [->|Hne].
  - rewrite list_lookup_insert_eq by by apply lookup_lt_Some in Ho. rewrite Ho. simpl.
    destruct (Hh o) as [He Hi]. destruct (xr_arr x); simpl; congruence.
  - by rewrite list_lookup_insert_ne.
Qed.

Lemma anchored_upd_anchor (t : State) (dep : ObjF) (d : ObjFRec) (a : LinkSet) (g : ObjF) :
  objs t !! dep = Some d ->
  anchored (set_objs (<[dep := with_anchor (Some a) d]> (objs t)) t) g
  <-> anchored t g \/ g = dep.
Proof.
  intros Hd. destruct (upd_obj_views t dep d (with_anchor (Some a) d) Hd) as (V1 & _).
  unfold anchored. rewrite V1. destruct (decide (g = dep)) as [->|Hne]; simpl.
  - split; [by right|done].
  - split; [by left|]. by intros [?|?].
Qed.

Section imp_rec.
Variable rec : ObjF -> option string -> State -> res State.
Hypothesis rec_imp : imp_spec rec.

Lemma link_import_imp (f : ObjF) (D : Xref -> Prop) (st : State) (i : nat) (t t' : State) :
  NoDup (sym_names st) -> anchored st f ->
  (forall x, D x -> anchored st (xr_obj x)) -> (forall x, D x -> xr_obj x <> f) ->
  imp_loop f D st i t -> link_import rec f i t = Done t' ->
  imp_loop f D st (Datatypes.S i) t'.
Proof.
  intros Hnames Haf HD HDf (Hsame & Hgrow & Di & Hinv & HDi) H.
  set (imp := mkXref Imports f i) in *.
  unfold link_import in H. fold imp in H.
  apply bind_Done in H as (r & Hr & H). apply bind_Done in H as (u & _ & H).
  apply bind_Done in H as (sr & Hsr & H). apply get_sym_Done in Hsr.
  apply bind_Done in H as (found & Hfound & H).
  assert (found = x_sym r) as ->.
  { assert (Hn : NoDup (sym_names t)) by by rewrite (same_links_names _ _ Hsame).
    unfold tfind in Hfound. rewrite (find_sym_unique _ Hn _ _ Hsr) in Hfound.
    by injection Hfound as <-. }
  clear Hfound.
  apply bind_Done in H as (fr & Hfr & H). apply get_sym_Done in Hfr.
  apply bind_Done in H as (t1 & Hset & H). apply bind_Done in H as (t2 & Hupd & H).
  pose proof Hr as Hr'. apply get_xref_Done in Hr' as (o & Ho & Hro). simpl in Ho, Hro.
  assert (Et2 : t2 = link_site f i o r (x_sym r) fr t).
  { apply xref_set_next_Done in Hset as (o1 & r1 & Ho1 & Hr1 & ->). simpl in Ho1, Hr1.
    rewrite Ho in Ho1. injection Ho1 as <-. rewrite Hro in Hr1. injection Hr1 as <-.
    apply upd_sym_Done in Hupd as (fr1 & Hfr1 & ->). simpl in Hfr1.
    rewrite Hfr in Hfr1. by injection Hfr1 as <-. }
  clear Hset Hupd. subst t2.
  destruct (link_site_views f i o r (x_sym r) fr t Ho Hro Hfr) as (L1 & L2 & _).
  set (t2 := link_site f i o r (x_sym r) fr t) in *.
  (* the import is not on a list yet *)
  assert (HnD : ~ Di imp).
  { rewrite HDi. intros [Hd|(_ & [[_ Hn]|[_ Hlt]])].
    - by apply (HDf imp).
    - by apply Hn.
    - simpl in Hlt. lia. }
  pose proof (link_site_imp Di f i o r fr t Ho Hro Hfr Hinv HnD) as Hinv2. fold imp t2 in Hinv2.
  assert (Hsame2 : same_links st t2) by by apply (same_links_trans _ t).
  assert (Hanch2 : forall g, anchored t2 g <-> anchored t g).
  { intros g. unfold anchored. by rewrite L2. }
  assert (Hsite : exists s, isite st imp s).
  { exists (x_sym r). apply (isite_same t); [by apply same_links_sym|].
    split; [done|]. eauto. }
  (* the state after the turn, when no object is linked in it *)
  assert (Hnorec : forall t3, syms t3 = syms t2 -> (forall x, get_xref x t3 = get_xref x t2) ->
            same_links t2 t3 -> (forall g, anchored t3 g <-> anchored t2 g) ->
            imp_loop f D st (Datatypes.S i) t3).
  { intros t3 Hs3 Hx3 Hl3 Ha3. split; [by apply (same_links_trans _ t2)|].
    split; [intros g Hg; apply Ha3, Hanch2; by apply Hgrow|].
    exists (fun x => Di x \/ x = imp). split; [by apply (imp_inv_frame _ t2)|].
    intros x. rewrite HDi. split.
    - intros [[Hd|(Hs & [[Ha Hn]|[Hf Hlt]])]| ->].
      + by left.
      + right. split; [done|]. left. split; [|done]. by apply Ha3, Hanch2.
      + right. split; [done|]. right. split; [done|lia].
      + right. split; [done|]. right. simpl. split; [done|lia].
    - intros [Hd|(Hs & [[Ha Hn]|[Hf Hlt]])].
      + left. by left.
      + left. right. split; [done|]. left. split; [|done]. by apply Hanch2, Ha3.
      + destruct (decide (xr_idx x = i)) as [Hi|Hi].
        * right. destruct Hs as (s & Ha & _). destruct x as [arr g j]. simpl in *.
          unfold imp. congruence.
        * left. right. split; [done|]. right. split; [done|lia]. }
  destruct (exportedBy fr) as [e|] eqn:He.
  2:{ destruct (flag_set (warn t2) WARN_UNDEFINED_SYMS).
      - apply bind_Done in H as (o2 & _ & [= <-]). by apply Hnorec.
      - injection H as <-. by apply Hnorec. }
  apply bind_Done in H as (er & Her & H). apply bind_Done in H as (o2 & Ho2 & H).
  apply bind_Done in H as (d & Hd & H). apply get_obj_Done in Ho2, Hd.
  destruct (link_anchor o2) as [a|] eqn:Ha2; [|injection H as <-; by apply Hnorec].
  destruct (link_anchor d) as [ad|] eqn:Had; [injection H as <-; by apply Hnorec|].
  apply bind_Done in H as (t3 & Hanc & H).
  set (dep := x_obj er) in *.
  assert (Hdep : ~ anchored t2 dep).
  { unfold anchored, anchor_of. rewrite Hd. simpl. rewrite Had. auto. }
  pose proof (get_xref_upd_keep dep (with_anchor (Some a)) t2 t3) as Hx3.
  apply upd_obj_Done in Hanc as (d' & Hd' & Et3). rewrite Hd in Hd'. injection Hd' as <-.
  destruct (upd_obj_views t2 dep d (with_anchor (Some a) d) Hd) as (_ & _ & _ & V4).
  assert (Hsame3 : same_links t2 t3) by (rewrite Et3; by apply V4).
  assert (Hanch3 : forall g, anchored t3 g <-> anchored t2 g \/ g = dep).
  { intros g. rewrite Et3. by apply anchored_upd_anchor. }
  assert (Hinv3 : imp_inv (fun x => Di x \/ x = imp) t3).
  { apply (imp_inv_frame _ t2); [by rewrite Et3| |done].
    intros x. apply Hx3; [done|]. unfold upd_obj, get_obj. rewrite Hd. simpl. by rewrite Et3. }
  assert (HDi_anch : forall x, Di x \/ x = imp -> anchored t2 (xr_obj x)).
  { intros x [Hx| ->].
    - apply Hanch2. apply HDi in Hx as [Hd0|(_ & [[Ha _]|[-> _]])].
      + apply Hgrow. by apply HD.
      + done.
      + by apply Hgrow.
    - simpl. apply Hanch2. by apply Hgrow. }
  destruct (rec_imp dep _ t3 t' (fun x => Di x \/ x = imp) H) as (D' & Hinv' & Hpost & Hsame' & Hgrow').
  - rewrite (same_links_names _ _ Hsame3), (same_links_names _ _ Hsame2). done.
  - done.
  - intros x Hx. apply Hanch3. left. by apply HDi_anch.
  - intros x Hx E. apply Hdep. rewrite <- E. by apply HDi_anch.
  - split; [by apply (same_links_trans _ t2), (same_links_trans _ t3)|].
    split; [intros g Hg; apply Hgrow', Hanch3; left; apply Hanch2; by apply Hgrow|].
    exists D'. split; [done|]. intros x. rewrite (Hpost x).
    assert (Hs3 : (exists s, isite t3 x s) <-> (exists s, isite st x s)).
    { split; intros [s Hs]; exists s.
      - apply (isite_same t3); [|done].
        apply same_links_sym. by apply (same_links_trans _ t2).
      - apply (isite_same st); [|done]. by apply (same_links_trans _ t2). }
    rewrite Hs3, HDi. split.
    + intros [[[Hd0|(Hs & [[Ha Hn]|[Hf Hlt]])]| ->]|(Hs & Ha' & Hwhy)].
      * by left.
      * right. split; [done|]. left. split; [|done]. apply Hgrow', Hanch3. left. by apply Hanch2.
      * right. split; [done|]. right. split; [done|lia].
      * right. split; [done|]. right. simpl. split; [done|lia].
      * right. split; [done|]. left. split; [done|].
        intros Hst. destruct Hwhy as [Hn|E].
        -- apply Hn, Hanch3. left. apply Hanch2. by apply Hgrow.
        -- rewrite E in Hst. apply Hdep, Hanch2. by apply Hgrow.
    + intros [Hd0|(Hs & [[Ha Hn]|[Hf Hlt]])].
      * left. left. by left.
      * destruct (anchored_dec t (xr_obj x)) as [Ht|Ht].
        -- left. left. right. split; [done|]. left. done.
        -- right. split; [done|]. split; [done|].
           destruct (decide (xr_obj x = dep)) as [E|E]; [by right|left].
           rewrite Hanch3, Hanch2. tauto.
      * destruct (decide (xr_idx x = i)) as [Hi|Hi].
        -- left. right. destruct Hs as (s & Ha & _). destruct x as [arr g j]. simpl in *.
           unfold imp. congruence.
        -- left. left. right. split; [done|]. right. split; [done|lia].
Qed.
End imp_rec.

Lemma linkObj_imp (fuel : nat) : imp_spec (linkObj fuel).
Proof.
  induction fuel as [|fuel IH]; intros f sym st st' D H Hnames Hinv HD HDf; [done|].
  rewrite linkObj_S in H. apply bind_Done in H as (o & Ho & H). apply get_obj_Done in Ho.
  apply bind_Done in H as (a & Ha & H).
  destruct (link_anchor o) as [a0|] eqn:Hao; [|done]. injection Ha as ->.
  cbv zeta in H. apply bind_Done in H as (t & Hloop & H).
  assert (Haf : anchored st f).
  { unfold anchored, anchor_of. rewrite Ho. simpl. rewrite Hao. done. }
  set (st1 := if flag_set (verbose st) DEBUG_LINK then emit (E_linking f sym a) st else st) in *.
  assert (E1 : objs st1 = objs st /\ syms st1 = syms st)
    by (unfold st1; by destruct (flag_set _ _)).
  destruct E1 as [Eo1 Es1].
  assert (Hsame1 : same_links st st1) by (unfold st1; by destruct (flag_set _ _)).
  assert (Hanch1 : forall g, anchored st1 g <-> anchored st g).
  { intros g. unfold anchored, anchor_of. by rewrite Eo1. }
  apply (for_each_seq_invariant (imp_loop f D st) _ (length (imports o)) 0%nat) in Hloop.
  2:{ intros i s s' _ Hi Hb. by apply (link_import_imp (linkObj fuel) IH f D st i s s'). }
  2:{ split; [done|]. split; [intros g; by apply Hanch1|].
      exists D. split.
      - apply (imp_inv_frame _ st); [done| |done]. intros x. by apply get_xref_same_objs.
      - intros x. split; [by left|]. intros [?|(_ & [[Ha Hn]|[_ Hlt]])]; [done| |lia].
        exfalso. by apply Hn, Hanch1. }
  destruct Hloop as (Hsame & Hgrow & Dn & Hinvn & HDn). simpl in HDn.
  apply bind_Done in H as (o' & Ho' & H). apply get_obj_Done in Ho'.
  apply bind_Done in H as (a' & _ & H). apply bind_Done in H as (t1 & Hupd & [= <-]).
  pose proof (get_xref_upd_keep f (with_link_next (set_head a' t)) t t1) as Hx1.
  apply upd_obj_Done in Hupd as (o1 & Ho1 & Et1). rewrite Ho' in Ho1. injection Ho1 as <-.
  destruct (upd_obj_views t f o' (with_link_next (set_head a' t) o') Ho') as (V1 & _ & _ & V4).
  assert (Hsame1' : same_links t t1) by (rewrite Et1; by apply V4).
  assert (Hanch1' : forall g, anchored t1 g <-> anchored t g).
  { intros g. unfold anchored. rewrite Et1, V1. destruct (decide (g = f)) as [->|]; [|done].
    unfold anchor_of. by rewrite Ho'. }
  set (st2 := set_set_head a' (Some f) t1).
  assert (E2 : objs st2 = objs t1 /\ syms st2 = syms t1) by (unfold st2; by destruct a').
  destruct E2 as [Eo2 Es2].
  assert (Hsame2 : same_links t1 st2) by (unfold st2; by destruct a').
  assert (Hanch2 : forall g, anchored st2 g <-> anchored t g).
  { intros g. rewrite <- Hanch1'. unfold anchored, anchor_of. by rewrite Eo2. }
  exists Dn. split; [|split; [|split]].
  - apply (imp_inv_frame _ t1); [done|intros x; by apply get_xref_same_objs|].
    apply (imp_inv_frame _ t); [by rewrite Et1| |done].
    intros x. apply Hx1; [done|]. unfold upd_obj, get_obj. rewrite Ho'. simpl. by rewrite Et1.
  - intros x. rewrite HDn. split.
    + intros [?|(Hs & [[Ha Hn]|[Hf _]])]; [by left|..].
      * right. split; [done|]. split; [by apply Hanch2|by left].
      * right. split; [done|]. split; [|by right]. rewrite Hf. by apply Hanch2, Hgrow.
    + intros [?|(Hs & Ha & [Hn|Hf])]; [by left|..].
      * right. split; [done|]. left. split; [by apply Hanch2|done].
      * right. split; [done|]. right. split; [done|].
        destruct Hs as (s & Harr & r & Hr & _). apply get_xref_Done in Hr as (ox & Hox & Hrx).
        rewrite Hf, Ho in Hox. injection Hox as <-. rewrite Harr in Hrx. simpl in Hrx.
        by apply lookup_lt_Some in Hrx.
  - by apply (same_links_trans _ t), (same_links_trans _ t1).
  - intros g Hg. apply Hanch2. by apply Hgrow.
Qed.

Lemma ingest_names (inputs : list (list scanned * string)) (last : ObjF) (st : State) :
  ingest inputs = Done (last, st) -> NoDup (sym_names st).
Proof.
  intros Hi. unfold ingest in Hi. apply bind_Done in Hi as ([l1 st1] & Hs & Hi).
  apply bind_Done in Hi as (l0 & _ & Hi). apply bind_Done in Hi as (st2 & Hg & Hi).
  apply bind_Done in Hi as (idx & _ & [= <- <-]).
  apply scan_files_names in Hs; [|apply NoDup_nil_2].
  apply gatherDanglingUndefs_names in Hg. unfold sym_names in *. simpl. by rewrite Hg.
Qed.

(** What holds of the importer lists before [main]'s linking loop comes to
    the object [i]. *)
Definition imp_main (st0 : State) (i : nat) (acc : LinkSet * State) : Prop :=
  same_links st0 acc.2 /\ (forall g, anchored st0 g -> anchored acc.2 g) /\
  (forall g, (1 <= g < i)%nat -> anchored acc.2 g) /\
  imp_inv (fun x => (exists s, isite st0 x s) /\ anchored acc.2 (xr_obj x)) acc.2.

Lemma ingested_anchored (st : State) (g : ObjF) : ingested st -> anchored st g -> g = 0%nat.
Proof.
  intros (_ & _ & Hobj & _) Hg. unfold anchored, anchor_of in Hg.
  destruct (objs st !! g) as [o|] eqn:Ho; [|done]. simpl in Hg.
  destruct (Hobj g o Ho) as (Ha & _). rewrite Ha in Hg. by destruct (decide (g = 0%nat)).
Qed.

Lemma ingested_no_pod_site (st : State) (x : Xref) (s : Sym) :
  ingested st -> isite st x s -> xr_obj x <> 0%nat.
Proof.
  intros (_ & _ & Hobj & _) (Ha & r & Hr & _) E.
  apply get_xref_Done in Hr as (o & Ho & Hr). rewrite E in Ho.
  destruct (Hobj 0%nat o Ho) as (_ & _ & _ & Hi & _). rewrite Ha in Hr. simpl in Hr.
  by rewrite Hi in Hr.
Qed.

Lemma link_one_imp (lastAppObj : ObjF) (st0 : State) (f : nat) (acc acc' : LinkSet * State) :
  NoDup (sym_names st0) -> (1 <= f)%nat ->
  imp_main st0 f acc -> link_one lastAppObj f acc = Done acc' ->
  imp_main st0 (Datatypes.S f) acc'.
Proof.
  intros Hnames Hf (Hsame & Hgrow & Hall & Hinv) H. destruct acc as [ls t].
  cbn [fst snd] in *. unfold link_one in H.
  apply bind_Done in H as (o & Ho & H). apply get_obj_Done in Ho.
  apply bind_Done in H as (t' & Ht' & [= <-]). unfold imp_main. cbn [fst snd].
  destruct (link_anchor o) as [a|] eqn:Ha.
  - injection Ht' as <-. split; [done|]. split; [done|]. split; [|done].
    intros g Hg. destruct (decide (g = f)) as [->|Hne]; [|apply Hall; lia].
    unfold anchored, anchor_of. rewrite Ho. simpl. by rewrite Ha.
  - apply bind_Done in Ht' as (t1 & Hupd & Hlink).
    assert (Hnf : ~ anchored t f).
    { unfold anchored, anchor_of. rewrite Ho. simpl. rewrite Ha. auto. }
    pose proof (get_xref_upd_keep f (with_anchor (Some ls)) t t1) as Hx1.
    apply upd_obj_Done in Hupd as (o1 & Ho1 & Et1). rewrite Ho in Ho1. injection Ho1 as <-.
    destruct (upd_obj_views t f o (with_anchor (Some ls) o) Ho) as (_ & _ & _ & V4).
    assert (Hsame1 : same_links t t1) by (rewrite Et1; by apply V4).
    assert (Hanch1 : forall g, anchored t1 g <-> anchored t g \/ g = f).
    { intros g. rewrite Et1. by apply anchored_upd_anchor. }
    set (D := fun x => (exists s, isite st0 x s) /\ anchored t (xr_obj x)) in *.
    destruct (linkObj_imp _ f None t1 t' D Hlink) as (D' & Hinv' & Hpost & Hsame' & Hgrow').
    + by rewrite (same_links_names _ _ Hsame1), (same_links_names _ _ Hsame).
    + apply (imp_inv_frame _ t); [by rewrite Et1| |done].
      intros x. apply Hx1; [done|]. unfold upd_obj, get_obj. rewrite Ho. simpl. by rewrite Et1.
    + intros x [_ Hx]. apply Hanch1. by left.
    + intros x [_ Hx] E. apply Hnf. by rewrite <- E.
    + split; [by apply (same_links_trans _ t), (same_links_trans _ t1)|].
      split; [intros g Hg; apply Hgrow', Hanch1; left; by apply Hgrow|].
      split.
      * intros g Hg. apply Hgrow', Hanch1. destruct (decide (g = f)) as [->|Hne]; [by right|].
        left. apply Hall. lia.
      * apply (imp_inv_ext D'); [|done]. intros x. rewrite (Hpost x).
        assert (Hs1 : (exists s, isite t1 x s) <-> (exists s, isite st0 x s)).
        { split; intros [s Hs]; exists s.
          - apply (isite_same t1); [|done].
            apply same_links_sym. by apply (same_links_trans _ t).
          - apply (isite_same st0); [|done]. by apply (same_links_trans _ t). }
        rewrite Hs1. unfold D. split.
        -- intros [[Hs Hx]|(Hs & Hx & _)]; [|done]. split; [done|].
           apply Hgrow', Hanch1. by left.
        -- intros [Hs Hx]. destruct (anchored_dec t (xr_obj x)) as [Ht|Ht]; [by left|].
           right. split; [done|]. split; [done|].
           destruct (decide (xr_obj x = f)) as [E|E]; [by right|left].
           rewrite Hanch1. tauto.
Qed.

Lemma link_all_imp (lastAppObj : ObjF) (st0 st : State) :
  ingested st0 -> NoDup (sym_names st0) -> link_all lastAppObj st0 = Done st ->
  same_links st0 st /\ imp_inv (fun x => exists s, isite st0 x s) st.
Proof.
  intros Hi Hnames H. unfold link_all, fileList_from_first in H.
  apply bind_Done in H as ([ls st1] & Hloop & [= <-]).
  apply (for_each_seq_invariant (imp_main st0) _ (length (objs st0) - 1) 1%nat) in Hloop.
  - destruct Hloop as (Hsame & Hgrow & Hall & Hinv). cbn [fst snd] in *. split; [done|].
    apply (imp_inv_ext _ _ _ ) with (2 := Hinv). intros x. split; [by intros [? _]|].
    intros [s Hs]. split; [by exists s|]. apply Hall.
    pose proof (ingested_no_pod_site _ _ _ Hi Hs) as Hne.
    destruct Hs as (_ & r & Hr & _). apply get_xref_Done in Hr as (o & Ho & _).
    apply lookup_lt_Some in Ho. lia.
  - intros i acc acc' Hi'. apply link_one_imp; [done|lia].
  - split; [done|]. split; [done|]. split; [intros; lia|]. cbn [fst snd].
    intros s r Hr. pose proof Hi as (_ & _ & _ & Hsym).
    destruct (Hsym s r Hr) as [-> _]. exists []. split; [done|]. split; [constructor|].
    intros x. split; [by intros ?%elem_of_nil|]. intros [[[s' Hs'] Ha] _]. exfalso.
    apply (ingested_no_pod_site _ _ _ Hi Hs'). by apply (ingested_anchored st0).
Qed.

(** The elements of the import arrays of the objects [os], the first of
    which is the object [f]. *)
Fixpoint isites_from (f : ObjF) (os : list ObjFRec) : list Xref :=
  match os with
  | [] => []
  | o :: os' => (mkXref Imports f <$> seq 0 (length (imports o))) ++ isites_from (S f) os'
  end.

Lemma elem_of_isites_from (os : list ObjFRec) :
  forall f x o, xr_arr x = Imports -> (f <= xr_obj x)%nat ->
    os !! (xr_obj x - f)%nat = Some o -> (xr_idx x < length (imports o))%nat ->
    x ∈ isites_from f os.
Proof.
  induction os as [|o0 os IH]; intros f x o Ha Hf Ho Hi; [done|]. simpl.
  apply elem_of_app. destruct (decide (xr_obj x = f)) as [E|E].
  - left. rewrite E, Nat.sub_diag in Ho. injection Ho as ->.
    apply list_elem_of_fmap. exists (xr_idx x). split.
    + destruct x as [arr g j]. simpl in *. congruence.
    + apply elem_of_seq. lia.
  - right. apply (IH _ _ o); [done|lia| |done].
    replace (xr_obj x - f)%nat with (Datatypes.S (xr_obj x - Datatypes.S f)) in Ho by lia. done.
Qed.

Lemma length_isites_from (os : list ObjFRec) :
  forall f, (length (isites_from f os)
             <= foldr (fun o n => (length (exports o) + length (imports o) + n)%nat) 0%nat os)%nat.
Proof.
  induction os as [|o os IH]; intros f; simpl; [done|].
  rewrite length_app, length_fmap, length_seq. specialize (IH (Datatypes.S f)). lia.
Qed.

Lemma isite_lookup (st : State) (x : Xref) (s : Sym) :
  isite st x s <->
  xr_arr x = Imports /\
  exists o e, objs st !! xr_obj x = Some o /\ imports o !! xr_idx x = Some e /\ x_sym e = s.
Proof.
  unfold isite. split.
  - intros (Ha & r & Hr & Hs). split; [done|]. apply get_xref_Done in Hr as (o & Ho & Hr).
    rewrite Ha in Hr. eauto.
  - intros (Ha & o & e & Ho & He & Hs). split; [done|]. exists e. split; [|done].
    apply get_xref_Done. exists o. rewrite Ha. done.
Qed.

Lemma isites_bound (st : State) (L : list Xref) :
  NoDup L -> (forall x, x ∈ L -> exists s, isite st x s) -> (length L <= nxrefs st)%nat.
Proof.
  intros Hnd Hall. transitivity (length (isites_from 0 (objs st))).
  - apply submseteq_length, NoDup_submseteq; [done|]. intros x Hx.
    destruct (Hall x Hx) as (s & Hs). apply isite_lookup in Hs as (Ha & o & e & Ho & He & _).
    apply (elem_of_isites_from _ _ _ o); [done|lia|by rewrite Nat.sub_0_r|].
    by apply lookup_lt_Some in He.
  - apply length_isites_from.
Qed.

Lemma ldep_importers (inputs : list (list scanned * string)) (last : ObjF) (st : State)
    (s : Sym) (r : SymRec) :
  ldep inputs = Done (last, st) -> syms st !! s = Some r ->
  exists L, is_chain st (importedFrom r) L /\ (length L <= nxrefs st)%nat /\ NoDup L /\
            forall x, x ∈ L <-> isite st x s.
Proof.
  intros H Hs. apply ldep_Done in H as (st0 & Hi & Hall).
  pose proof (ingest_ingested _ _ _ Hi) as [Hi0 _].
  destruct (link_all_imp last st0 st Hi0 (ingest_names _ _ _ Hi) Hall) as [Hsame Hinv].
  destruct (Hinv s r Hs) as (L & Hc & Hnd & Hm).
  assert (Hm' : forall x, x ∈ L <-> isite st x s).
  { intros x. rewrite Hm. split; [tauto|]. intros Hx. split; [|done].
    exists s. apply (isite_same st); [by apply same_links_sym|done]. }
  exists L. split; [done|]. split; [|done].
  apply isites_bound; [done|]. intros x Hx. exists s. by apply Hm'.
Qed.

(** After the linking loop the importer list of every symbol holds every
    import of that symbol, of whatever object, exactly once, and nothing
    else. *)
Theorem importer_lists_complete (inputs : list (list scanned * string)) (last : ObjF)
    (st : State) (s : Sym) (r : SymRec) :
  ldep inputs = Done (last, st) -> syms st !! s = Some r ->
  exists L, importers s st = Done L /\ NoDup L /\
    forall x, x ∈ L <->
      xr_arr x = Imports /\
      exists o e, objs st !! xr_obj x = Some o /\ imports o !! xr_idx x = Some e /\
                  x_sym e = s.
Proof.
  intros H Hs. destruct (ldep_importers inputs last st s r H Hs) as (L & Hc & Hlen & Hnd & Hm).
  exists L. split; [|split; [done|]].
  - unfold importers. rewrite (proj2 (get_sym_Done s st r) Hs), ret_bind.
    apply xref_chain_is_chain; [done|lia].
  - intros x. rewrite Hm. apply isite_lookup.
Qed.

Lemma importer_lists_complete_witness :
  exists L, importers 1%nat pull_linked = Done L /\ NoDup L /\
    forall x, x ∈ L <->
      xr_arr x = Imports /\
      exists o e, objs pull_linked !! xr_obj x = Some o /\ imports o !! xr_idx x = Some e /\
                  x_sym e = 1%nat.
Proof.
  apply (importer_lists_complete pull_inputs 1%nat pull_linked 1%nat
           (mkSymRec "puts" "T" (Some (mkXref Exports 2 0)) (Some (mkXref Imports 1 0)))).
  - vm_compute. reflexivity.
  - vm_compute. reflexivity.
Defined.

(** *** Walks after linking *)

Lemma upd_obj_mode (f : ObjF) (g : ObjFRec -> ObjFRec) (st st' : State) :
  upd_obj f g st = Done st' -> depwalkMode st' = depwalkMode st.
Proof. intros H. by apply upd_obj_Done in H as (o & _ & ->). Qed.

Lemma upd_sym_mode (s : Sym) (g : SymRec -> SymRec) (st st' : State) :
  upd_sym s g st = Done st' -> depwalkMode st' = depwalkMode st.
Proof. intros H. by apply upd_sym_Done in H as (o & _ & ->). Qed.

Lemma libAddObj_mode (libname : string) (obj : ObjF) (st st' : State) :
  libAddObj libname obj st = Done st' -> depwalkMode st' = depwalkMode st.
Proof.
  unfold libAddObj.
  set (p := match find_lib libname (libs st) with
            | Some l => (l, st) | None => createLib libname st end).
  assert (Hp : depwalkMode p.2 = depwalkMode st) by (unfold p; by destruct (find_lib _ _)).
  destruct p as [l st1]. simpl in Hp. intros H.
  apply bind_Done in H as (lr & _ & H). apply bind_Done in H as (o & _ & H).
  apply bind_Done in H as (u & _ & H). apply upd_obj_mode in H. by rewrite H.
Qed.

Lemma createObj_mode (name : string) (st st' : State) (f : ObjF) :
  createObj name st = Done (f, st') -> depwalkMode st' = depwalkMode st.
Proof.
  unfold createObj. destruct (splitName name st) as [sp st1] eqn:E.
  assert (Hst1 : depwalkMode st1 = depwalkMode st).
  { pose proof (splitName_state name st) as H. rewrite E in H. simpl in H.
    by destruct H as [->| ->]. }
  destruct sp as [[[po libname] objn]|]; [|done]. destruct po.
  - intros H. apply bind_Done in H as (st2 & Hadd & [= <- <-]).
    apply libAddObj_mode in Hadd. by rewrite Hadd.
  - by intros [= <- <-].
Qed.

Lemma intern_sym_mode (name : string) (type : ascii) (st st' : State) (s : Sym) :
  intern_sym name type st = Done (s, st') -> depwalkMode st' = depwalkMode st.
Proof.
  unfold intern_sym. destruct (tfind name st); [|by intros [= <- <-]].
  intros H. apply bind_Done in H as (r & _ & H).
  case_bool_decide; [|by injection H as <- <-].
  set (st1 := if _ && _ then _ else st) in H.
  assert (H1 : depwalkMode st1 = depwalkMode st) by (unfold st1; by destruct (_ && _)).
  case_bool_decide; [|by injection H as <- <-].
  apply bind_Done in H as (st2 & Hupd & [= <- <-]). apply upd_sym_mode in Hupd. congruence.
Qed.

Lemma fixup_export_mode (f : ObjF) (i : nat) (st st' : State) :
  fixup_export f i st = Done st' -> depwalkMode st' = depwalkMode st.
Proof.
  unfold fixup_export. intros H. apply bind_Done in H as (r & _ & H).
  apply bind_Done in H as (s & _ & H). destruct (exportedBy s).
  - apply bind_Done in H as (t & _ & H). unfold xref_set_next in H.
    apply bind_Done in H as (rt & _ & H). by apply upd_obj_mode in H.
  - by apply upd_sym_mode in H.
Qed.

Lemma ingest_mode (inputs : list (list scanned * string)) (last : ObjF) (st : State) :
  ingest inputs = Done (last, st) -> depwalkMode st = 0.
Proof.
  intros Hi. unfold ingest in Hi. apply bind_Done in Hi as ([l1 st1] & Hs & Hi).
  apply bind_Done in Hi as (l0 & _ & Hi). apply bind_Done in Hi as (st2 & Hg & Hi).
  apply bind_Done in Hi as (idx & _ & [= <- <-]). simpl.
  apply (gatherDanglingUndefs_keeps (fun s => depwalkMode s = 0)) in Hg; [done|..].
  - intros cur s weak t t' Ht Hu. apply upd_obj_mode in Hu. congruence.
  - intros f i t t' Ht Hf. apply fixup_export_mode in Hf. congruence.
  - apply (scan_files_keeps (fun s => depwalkMode s = 0)) in Hs; [done|..|done].
    + done.
    + intros name t f t' Ht Hc. apply createObj_mode in Hc. congruence.
    + intros name type t sy t' Ht Hc. apply intern_sym_mode in Hc. congruence.
    + intros cur s weak t t' Ht Hu. apply upd_obj_mode in Hu. congruence.
    + intros cur s t t' Ht Hu. apply upd_obj_mode in Hu. congruence.
    + intros f i t t' Ht Hf. apply fixup_export_mode in Hf. congruence.
Qed.

Lemma ldep_objs (inputs : list (list scanned * string)) (last : ObjF) (st : State) :
  ldep inputs = Done (last, st) ->
  depwalkMode st = 0 /\ link_wf st /\
  forall f o, objs st !! f = Some o ->
    work o = WNull /\
    Forall (fun r => (x_sym r < length (syms st))%nat /\ x_obj r = f) (exports o) /\
    Forall (fun r => (x_sym r < length (syms st))%nat /\ x_obj r = f) (imports o).
Proof.
  intros H. apply ldep_Done in H as (st0 & Hi & Hall).
  pose proof (ingest_ingested _ _ _ Hi) as [Hi0 _].
  destruct (link_all_inv last st0 (ingested_fresh_graph _ Hi0)) as (ls & st1 & Hall1 & Hm).
  rewrite Hall in Hall1. injection Hall1 as <-.
  destruct Hm as (_ & Hsame & (Hwf & _) & _). cbn [snd] in *.
  split; [|split; [done|]].
  - apply (f_equal depwalkMode) in Hsame. simpl in Hsame. rewrite Hsame.
    by apply (ingest_mode inputs last).
  - intros f o Ho.
    destruct (same_links_obj _ _ _ _ (same_links_sym _ _ Hsame) Ho) as (o0 & Ho0 & E).
    destruct Hi0 as (_ & _ & Hobj & _).
    destruct (Hobj f o0 Ho0) as (_ & _ & Hw & _ & F5 & F6).
    rewrite (same_links_syms_length _ _ Hsame).
    split; [|split].
    + apply (f_equal work) in E. simpl in E. congruence.
    + apply (f_equal exports) in E. simpl in E. rewrite <- E.
      eapply Forall_impl; [exact F6|]. simpl. by intros r (? & ? & _).
    + apply Forall_forall. intros r Hr. apply list_elem_of_lookup in Hr as (j & Hj).
      destruct (erase_obj_imports o o0 j r) as (r0 & Hr0 & Es & Eo); [done|done|].
      rewrite Forall_forall in F5. destruct (F5 r0) as (_ & ? & ?);
        [by eapply list_elem_of_lookup_2|]. split; congruence.
Qed.

Lemma ldep_wf_walk (inputs : list (list scanned * string)) (last : ObjF) (st : State) :
  ldep inputs = Done (last, st) -> wf_walk st = true.
Proof.
  intros H. destruct (ldep_objs _ _ _ H) as (_ & [_ W2] & Hobj).
  unfold wf_walk. apply andb_true_iff. split.
  - apply forallb_intro. intros o Ho. apply list_elem_of_lookup in Ho as (f & Ho).
    destruct (Hobj f o Ho) as (_ & Fe & Fi). rewrite Forall_forall in Fe, Fi.
    apply forallb_intro. intros e [He|He]%elem_of_app; apply bool_decide_eq_true.
    + by destruct (Fe e He).
    + by destruct (Fi e He).
  - apply forallb_intro. intros r Hr. apply list_elem_of_lookup in Hr as (s & Hs).
    unfold sym_ok. apply andb_true_iff. split.
    + destruct (ldep_importers inputs last st s r H Hs) as (L & Hc & Hlen & _ & Hm).
      rewrite (xref_chain_is_chain st L _ _ Hc) by lia.
      apply forallb_intro. intros x Hx. apply Hm in Hx as (Ha & rx & Hrx & _).
      unfold xref_obj_ok. rewrite Hrx. apply bool_decide_eq_true.
      apply get_xref_Done in Hrx as (o & Ho & Hr). rewrite Ha in Hr. simpl in Hr.
      destruct (Hobj _ o Ho) as (_ & _ & Fi). rewrite Forall_forall in Fi.
      destruct (Fi rx) as [_ ->]; [by eapply list_elem_of_lookup_2|].
      by apply lookup_lt_Some in Ho.
    + destruct (exportedBy r) as [e|] eqn:He; [|done].
      destruct (W2 s r e Hs He) as (er & Her & Hlt).
      unfold xref_obj_ok. rewrite Her. by apply bool_decide_eq_true.
Qed.

(** After the linking loop the graph is one a walk can be started on:
    the cross references are sound ([checkObjPtrs] is 0, every importer
    chain ends, every first exporter exists), all [work] slots are clear
    and no work list is held.  A walk from any object, in either
    direction, with or without list building, then returns or stops on the
    assertion [ref->obj != f] of [depwalk_rec]; nothing else stops it. *)
Theorem linked_graph_walkable (inputs : list (list scanned * string)) (last : ObjF)
    (st : State) (f : ObjF) (action : option DepPrintArgRec) (mode : Z) :
  ldep inputs = Done (last, st) -> (f < length (objs st))%nat ->
  wf_walk st = true /\ all_work_nil st /\ BUILD_LIST st = false /\ checkObjPtrs st = 0 /\
  ends_or (AssertFailed A_self_ref) (depwalk f action mode st).
Proof.
  intros H Hf. pose proof (ldep_wf_walk _ _ _ H) as Hwf.
  destruct (ldep_objs _ _ _ H) as (Hmode & _ & Hobj).
  assert (Hnil : all_work_nil st) by (intros g o Ho; by destruct (Hobj g o Ho)).
  assert (Hb : BUILD_LIST st = false) by (unfold BUILD_LIST; by rewrite Hmode).
  split; [done|]. split; [done|]. split; [done|]. split.
  - apply checkObjPtrs_ok. intros g o Ho. destruct (Hobj g o Ho) as (_ & Fe & Fi). split.
    + eapply Forall_impl; [exact Fe|]. simpl. by intros r [_ ?].
    + eapply Forall_impl; [exact Fi|]. simpl. by intros r [_ ?].
  - by apply depwalk_ends.
Qed.

Lemma linked_graph_walkable_witness :
  wf_walk pull_linked = true /\ all_work_nil pull_linked /\ BUILD_LIST pull_linked = false /\
  checkObjPtrs pull_linked = 0 /\
  ends_or (AssertFailed A_self_ref)
          (depwalk 2%nat None (Z.lor WALK_EXPORTS WALK_BUILD_LIST) pull_linked).
Proof.
  apply (linked_graph_walkable pull_inputs 1%nat pull_linked).
  - vm_compute. reflexivity.
  - vm_compute. lia.
Defined.

(** ** The string space allocator (stralloc) *)

Definition STRCHUNK : Z := 10000.

(** A pointer into the string space: the chunk, numbered in the order of
    the calls of [malloc], and the offset into it. *)
Abbreviation sptr := (nat * Z)%type (only parsing).

(** The static variables [buf] and [avail] of [stralloc], and the number
    of chunks obtained so far. *)
Record StrSpace := mkStrSpace {
  sa_buf : option sptr;
  sa_avail : Z;
  sa_chunks : nat
}.

Definition str_space_0 : StrSpace := mkStrSpace None 0 0.

Inductive sa_assertion :=
  | SA_len      (* assert(len<=STRCHUNK) *)
  | SA_malloc.  (* assert( buf=malloc(avail) ) *)

Inductive sa_result :=
  | SA_abort (a : sa_assertion)
  | SA_block (rval : option sptr) (s : StrSpace).

(** [buf += len] *)
Definition sptr_add (p : option sptr) (len : Z) : option sptr :=
  match p with
  | Some (c, off) => Some (c, off + len)
  | None => None
  end.

(** [stralloc(len)]; [malloc_ok] tells whether [malloc], if it is called,
    returns a chunk. *)
Definition stralloc (malloc_ok : bool) (len : Z) (s : StrSpace) : sa_result :=
  if negb (len <=? STRCHUNK) then SA_abort SA_len
  else if sa_avail s <? len then
    if malloc_ok then
      let buf := Some (sa_chunks s, 0) in
      SA_block buf (mkStrSpace (sptr_add buf len) (STRCHUNK - len) (S (sa_chunks s)))
    else SA_abort SA_malloc
  else SA_block (sa_buf s) (mkStrSpace (sptr_add (sa_buf s) len) (sa_avail s - len) (sa_chunks s)).

(** A block handed out: where it starts and its length. *)
Abbreviation block := (option (nat * Z) * Z)%type (only parsing).

(** A run of calls, each with the outcome of its [malloc] and its [len];
    the result is the blocks handed out, the latest first. *)
Fixpoint stralloc_run (calls : list (bool * Z)) (s : StrSpace) (bs : list block)
  : option (list block * StrSpace) :=
  match calls with
  | [] => Some (bs, s)
  | (ok, len) :: calls' =>
      match stralloc ok len s with
      | SA_abort _ => None
      | SA_block rval s' => stralloc_run calls' s' ((rval, len) :: bs)
      end
  end.

(** The block lies in a chunk that [malloc] returned. *)
Definition block_ok (s : StrSpace) (b : block) : Prop :=
  exists c off, b.1 = Some (c, off) /\ (c < sa_chunks s)%nat /\
                0 <= off /\ off + b.2 <= STRCHUNK.

Definition blocks_apart (b1 b2 : block) : Prop :=
  match b1.1, b2.1 with
  | Some (c1, o1), Some (c2, o2) => c1 <> c2 \/ o1 + b1.2 <= o2 \/ o2 + b2.2 <= o1
  | _, _ => True
  end.

(** The space left is the tail of the latest chunk, and every block handed
    out lies before it. *)
Definition space_inv (s : StrSpace) (bs : list block) : Prop :=
  0 <= sa_avail s <= STRCHUNK /\
  (0 < sa_avail s ->
     exists c off, sa_buf s = Some (c, off) /\ sa_chunks s = S c /\ 0 <= off /\
                   off + sa_avail s = STRCHUNK) /\
  Forall (block_ok s) bs /\
  (forall b c off, b ∈ bs -> sa_buf s = Some (c, off) -> sa_chunks s = S c ->
     forall c' off', b.1 = Some (c', off') -> c' = c -> off' + b.2 <= off).

Lemma block_ok_mono (s s' : StrSpace) (b : block) :
  (sa_chunks s <= sa_chunks s')%nat -> block_ok s b -> block_ok s' b.
Proof. intros H (c & off & ? & ? & ?). exists c, off. split; [done|]. split; [lia|done]. Qed.

Lemma stralloc_step (ok : bool) (len : Z) (s s' : StrSpace) (rval : option sptr)
    (bs : list block) :
  0 < len -> space_inv s bs -> stralloc ok len s = SA_block rval s' ->
  space_inv s' ((rval, len) :: bs) /\ block_ok s' (rval, len) /\
  Forall (blocks_apart (rval, len)) bs.
Proof.
  intros Hlen (Hav & Hbuf & Hbs & Hbefore). unfold stralloc.
  destruct (Z.leb_spec len STRCHUNK) as [Hle|]; [|done]. simpl.
  destruct (Z.ltb_spec (sa_avail s) len) as [Hlt|Hge].
  - destruct ok; [|done]. intros [= <- <-]. simpl.
    assert (Hnew : block_ok (mkStrSpace (Some (sa_chunks s, 0 + len)) (STRCHUNK - len)
                               (S (sa_chunks s))) (Some (sa_chunks s, 0), len)).
    { exists (sa_chunks s), 0. simpl. split; [done|]. split; [lia|]. lia. }
    assert (Hold : Forall (block_ok (mkStrSpace (Some (sa_chunks s, 0 + len)) (STRCHUNK - len)
                                       (S (sa_chunks s)))) bs).
    { eapply Forall_impl; [exact Hbs|]. intros b. apply block_ok_mono. simpl. lia. }
    split; [|split; [done|]].
    + split; [simpl; lia|]. split; [|split].
      * simpl. intros _. exists (sa_chunks s), (0 + len). split; [done|]. split; [done|]. lia.
      * by constructor.
      * simpl. intros b c off Hb [= <- <-] _ c' off' Hb1 Hc.
        apply elem_of_cons in Hb as [->|Hb]; simpl in *.
        -- injection Hb1 as <- <-. lia.
        -- rewrite Forall_forall in Hbs. destruct (Hbs b Hb) as (c0 & o0 & E & Hc0 & _).
           rewrite E in Hb1. injection Hb1 as <- <-. lia.
    + apply Forall_forall. intros b Hb. rewrite Forall_forall in Hbs.
      destruct (Hbs b Hb) as (c0 & o0 & E & Hc0 & _). unfold blocks_apart. simpl.
      rewrite E. left. lia.
  - intros [= <- <-].
    destruct Hbuf as (c & off & Eb & Ec & Hoff & Hsum); [lia|]. rewrite Eb. simpl.
    assert (Hnew : block_ok (mkStrSpace (Some (c, off + len)) (sa_avail s - len) (sa_chunks s))
                            (Some (c, off), len)).
    { exists c, off. simpl. split; [done|]. split; [lia|]. lia. }
    split; [|split; [done|]].
    + split; [simpl; lia|]. split; [|split].
      * simpl. intros _. exists c, (off + len). split; [done|]. split; [done|]. lia.
      * constructor; [done|]. eapply Forall_impl; [exact Hbs|]. intros b.
        apply block_ok_mono. simpl. lia.
      * simpl. intros b c1 off1 Hb [= <- <-] _ c' off' Hb1 Hc.
        apply elem_of_cons in Hb as [->|Hb]; simpl in *.
        -- injection Hb1 as <- <-. lia.
        -- pose proof (Hbefore b c off Hb Eb Ec c' off' Hb1 Hc). lia.
    + apply Forall_forall. intros b Hb. unfold blocks_apart. simpl.
      destruct b.1 as [[c' off']|] eqn:E; [|done].
      destruct (decide (c = c')) as [<-|Hne]; [|by left].
      right. right. by apply (Hbefore b c off Hb Eb Ec c off').
Qed.

(** Blocks handed out by [stralloc] for lengths from 1 to [STRCHUNK] never
    overlap each other, and each lies inside one chunk; so it is for any
    run of such calls that comes to its end. *)
Theorem stralloc_blocks_apart (calls : list (bool * Z)) (bs : list block) (s : StrSpace) :
  Forall (fun c => 0 < c.2) calls ->
  stralloc_run calls str_space_0 [] = Some (bs, s) ->
  Forall (block_ok s) bs /\
  forall i j b1 b2, i <> j -> bs !! i = Some b1 -> bs !! j = Some b2 -> blocks_apart b1 b2.
Proof.
  intros Hpos Hrun.
  assert (Hgen : forall calls s0 bs0,
            Forall (fun c => 0 < c.2) calls -> space_inv s0 bs0 ->
            (forall i j b1 b2, (i < j)%nat -> bs0 !! i = Some b1 -> bs0 !! j = Some b2 ->
                               blocks_apart b1 b2) ->
            stralloc_run calls s0 bs0 = Some (bs, s) ->
            space_inv s bs /\
            forall i j b1 b2, (i < j)%nat -> bs !! i = Some b1 -> bs !! j = Some b2 ->
                              blocks_apart b1 b2).
  { clear. induction calls as [|[ok len] calls IH]; intros s0 bs0 Hpos Hinv Hap; simpl.
    - by intros [= <- <-].
    - apply Forall_cons in Hpos as [Hlen Hpos]. simpl in Hlen.
      destruct (stralloc ok len s0) as [a|rval s1] eqn:E; [done|].
      destruct (stralloc_step ok len s0 s1 rval bs0 Hlen Hinv E) as (Hinv1 & _ & Hnew).
      apply IH; [done|done|].
      intros i j b1 b2 Hij H1 H2. destruct i as [|i], j as [|j]; try lia; simpl in *.
      + injection H1 as <-. rewrite Forall_forall in Hnew. apply Hnew.
        by eapply list_elem_of_lookup_2.
      + apply (Hap i j); [lia|done|done]. }
  destruct (Hgen calls str_space_0 [] Hpos) as [(_ & _ & Hok & _) Hap]; [| |done|].
  - split; [simpl; unfold STRCHUNK; lia|]. split; [simpl; lia|]. split; [constructor|].
    by intros b c off ?%elem_of_nil.
  - intros i j b1 b2 _ H1. done.
  - split; [done|]. intros i j b1 b2 Hne H1 H2.
    destruct (decide (i < j)%nat); [by apply (Hap i j)|].
    assert (Hji : (j < i)%nat) by lia. pose proof (Hap j i b2 b1 Hji H2 H1) as H.
    unfold blocks_apart in *. destruct b1.1 as [[c1 o1]|], b2.1 as [[c2 o2]|]; try done.
    destruct H as [?|[?|?]]; [left; congruence|right; by right|right; by left].
Qed.

Lemma stralloc_blocks_apart_witness :
  Forall (block_ok (mkStrSpace (Some (1%nat, 9990)) 10 2))
         [(Some (1%nat, 0), 9990); (Some (0%nat, 7), 5); (Some (0%nat, 0), 7)]
  /\ forall i j b1 b2, i <> j ->
       [(Some (1%nat, 0), 9990); (Some (0%nat, 7), 5); (Some (0%nat, 0), 7)] !! i = Some b1 ->
       [(Some (1%nat, 0), 9990); (Some (0%nat, 7), 5); (Some (0%nat, 0), 7)] !! j = Some b2 ->
       blocks_apart b1 b2.
Proof.
  apply (stralloc_blocks_apart [(true, 7); (true, 5); (true, 9990)]).
  - repeat constructor.
  - vm_compute. reflexivity.
Defined.

(** ** The linker script (printObjName, writeLinkSet, writeScript) *)

(** What is written to the script file. *)
Inductive script_line :=
  | SL_title (title : string)    (* "/* ----- %s Link Set ----- */\n\n" *)
  | SL_object (name : string)    (* "/* " printObjName ": */\n" *)
  | SL_extern (sym : string)     (* "EXTERN( %s )\n" *)
  | SL_newline.                  (* fputc('\n',feil) *)

(** [printObjName]: the name of the object, after the name of its library
    without the directories, in brackets. *)
Definition printObjName (f : ObjF) (st : State) : res string :=
  o ← get_obj f st;
  match o_lib o with
  | LNull => Done (o_name o)
  | LAny => Fail BadPointer
  | LPtr l =>
      lr ← deref (libs st !! l);
      let cs := chars (l_name lr) in
      let lname := match strrchr cs "/"%char with
                   | Some slash => str (drop (S slash) cs)
                   | None => l_name lr
                   end in
      Done (lname +:+ "[" +:+ o_name o +:+ "]")
  end.

(** The inner loop of [writeLinkSet]: one [EXTERN] for every export. *)
Fixpoint write_externs (es : list XrefRec) (st : State) : res (list script_line) :=
  match es with
  | [] => Done []
  | e :: es' =>
      s ← get_sym (x_sym e) st;
      ls ← write_externs es' st;
      Done (SL_extern (s_name s) :: ls)
  end.

(** The outer loop of [writeLinkSet], along [link.next]. *)
Fixpoint write_members (fuel : nat) (p : option ObjF) (st : State) : res (list script_line) :=
  match p with
  | None => Done []
  | Some f =>
      match fuel with
      | O => OutOfFuel
      | S fuel' =>
          o ← get_obj f st;
          nm ← printObjName f st;
          ex ← write_externs (exports o) st;
          rest ← write_members fuel' (link_next o) st;
          Done (SL_object nm :: ex ++ rest)
      end
  end.

Definition writeLinkSet (s : LinkSet) (title : option string) (st : State)
  : res (list script_line) :=
  match set_head s st with
  | None => Done []
  | Some f =>
      body ← write_members (work_fuel st) (Some f) st;
      Done (match title with Some t => [SL_title t] | None => [] end ++ body)
  end.

Definition writeScript (optionalOnly : bool) (st : State) : res (list script_line) :=
  app ← (if optionalOnly then Done []
         else l ← writeLinkSet appLinkSet (Some "Application") st; Done (l ++ [SL_newline]));
  opt ← writeLinkSet optionalLinkSet (Some "Optional") st;
  Done (app ++ opt).

(** The list of the link set [a] holds the objects anchored in [a]. *)
Definition set_listed (st : State) (a : LinkSet) : Prop :=
  exists l, is_olist st (set_head a st) l /\ forall g, g ∈ l <-> anchor_of st g = Some a.

(** What the script writer reads is in place: the symbols of exports and
    the libraries of objects. *)
Definition script_ok (st : State) : Prop :=
  forall f o, objs st !! f = Some o ->
    Forall (fun e => (x_sym e < length (syms st))%nat) (exports o) /\
    match o_lib o with
    | LNull => True
    | LAny => False
    | LPtr l => (l < length (libs st))%nat
    end.

(** The symbol [n] is exported by an object of the link set [a]. *)
Definition exported_in (st : State) (a : LinkSet) (n : string) : Prop :=
  exists f o e sr, objs st !! f = Some o /\ link_anchor o = Some a /\ e ∈ exports o /\
                   syms st !! x_sym e = Some sr /\ s_name sr = n.

Lemma write_externs_spec (st : State) (es : list XrefRec) :
  Forall (fun e => (x_sym e < length (syms st))%nat) es ->
  exists ls, write_externs es st = Done ls /\
    forall ln, ln ∈ ls <-> exists e sr, e ∈ es /\ syms st !! x_sym e = Some sr /\
                                        ln = SL_extern (s_name sr).
Proof.
  induction 1 as [|e es He _ IH]; simpl.
  - exists []. split; [done|]. intros ln. split; [by intros ?%elem_of_nil|].
    by intros (e & sr & ?%elem_of_nil & _).
  - destruct (lookup_lt_is_Some_2 _ _ He) as [sr Hsr]. unfold get_sym. rewrite Hsr. simpl.
    destruct IH as (ls & -> & Hls). simpl. eexists. split; [done|].
    intros ln. rewrite elem_of_cons, Hls. split.
    + intros [->|(e' & sr' & He' & Hs' & ->)].
      * exists e, sr. split; [by left|done].
      * exists e', sr'. split; [by right|done].
    + intros (e' & sr' & [->|He']%elem_of_cons & Hs' & ->).
      * left. congruence.
      * right. eauto.
Qed.

Lemma printObjName_total (st : State) (f : ObjF) (o : ObjFRec) :
  script_ok st -> objs st !! f = Some o -> exists nm, printObjName f st = Done nm.
Proof.
  intros Hok Ho. unfold printObjName, get_obj. rewrite Ho. simpl.
  destruct (Hok f o Ho) as [_ Hl]. destruct (o_lib o) as [| |l]; [eauto|done|].
  destruct (lookup_lt_is_Some_2 _ _ Hl) as [lr ->]. simpl. eauto.
Qed.

Lemma is_olist_objs (st : State) (l : list ObjF) :
  forall p g, is_olist st p l -> g ∈ l -> (g < length (objs st))%nat.
Proof.
  induction l as [|h l IH]; intros p g; simpl; [by intros _ ?%elem_of_nil|].
  intros (-> & n & Hn & Hl) [->|Hg]%elem_of_cons; [|by apply (IH n)].
  unfold next_of in Hn. destruct (objs st !! h) eqn:E; [|done]. by apply lookup_lt_Some in E.
Qed.

Lemma is_olist_NoDup (st : State) (l : list ObjF) :
  forall p, is_olist st p l -> NoDup l.
Proof.
  induction l as [|g l IH]; intros p; simpl; [constructor|].
  intros (-> & n & Hn & Hl). constructor; [|by apply (IH n)].
  intros Hin. apply list_elem_of_split in Hin as (l1 & l2 & ->).
  assert (Hsuf : forall l1 q, is_olist st q (l1 ++ g :: l2) -> is_olist st (Some g) (g :: l2)).
  { clear. induction l1 as [|h l1 IH]; intros q; simpl.
    - intros (-> & n & Hn & Hl). split; [done|]. eauto.
    - intros (-> & n & Hn & Hl). by apply (IH n). }
  pose proof (Hsuf l1 n Hl) as H1.
  assert (H2 : is_olist st (Some g) (g :: l1 ++ g :: l2)) by (simpl; eauto).
  pose proof (is_olist_inj _ _ _ _ H1 H2) as E. apply (f_equal length) in E.
  simpl in E. rewrite length_app in E. simpl in E. lia.
Qed.

Lemma write_members_spec (st : State) (l : list ObjF) :
  script_ok st ->
  forall fuel p, is_olist st p l -> (length l < fuel)%nat ->
    exists ls, write_members fuel p st = Done ls /\
      forall n, SL_extern n ∈ ls <->
        exists f o e sr, f ∈ l /\ objs st !! f = Some o /\ e ∈ exports o /\
                         syms st !! x_sym e = Some sr /\ s_name sr = n.
Proof.
  intros Hok. induction l as [|g l IH]; intros fuel p; simpl.
  - intros -> _. exists []. split; [by destruct fuel|]. intros n.
    split; [by intros ?%elem_of_nil|]. by intros (f & o & e & sr & ?%elem_of_nil & _).
  - intros (-> & nx & Hn & Hl) Hf. destruct fuel as [|fuel]; [lia|]. simpl.
    unfold next_of in Hn. destruct (objs st !! g) as [o|] eqn:Ho; [|done].
    injection Hn as <-. unfold get_obj at 1. rewrite Ho. simpl.
    destruct (printObjName_total st g o Hok Ho) as (nm & ->). simpl.
    destruct (write_externs_spec st (exports o)) as (ex & -> & Hex); [by destruct (Hok g o Ho)|].
    simpl. destruct (IH fuel (link_next o) Hl) as (rest & -> & Hrest); [lia|]. simpl.
    eexists. split; [done|]. intros n.
    rewrite elem_of_cons, elem_of_app, Hrest, Hex. split.
    + intros [?|[(e & sr & He & Hs & [= ->])|(f & o' & e & sr & Hf' & ?)]]; [done|..].
      * exists g, o, e, sr. split; [by left|done].
      * exists f, o', e, sr. split; [by right|done].
    + intros (f & o' & e & sr & [->|Hf']%elem_of_cons & Ho' & He & Hs & Hn).
      * right. left. rewrite Ho in Ho'. injection Ho' as <-. exists e, sr. by rewrite Hn.
      * right. right. exists f, o', e, sr. done.
Qed.

Lemma writeLinkSet_spec (st : State) (a : LinkSet) (title : string) :
  script_ok st -> set_listed st a ->
  exists ls, writeLinkSet a (Some title) st = Done ls /\
             forall n, SL_extern n ∈ ls <-> exported_in st a n.
Proof.
  intros Hok (l & Hl & Hm). unfold writeLinkSet.
  assert (Hlen : (length l < work_fuel st)%nat).
  { unfold work_fuel. pose proof (is_olist_NoDup _ _ _ Hl) as Hnd.
    assert (Hsub : l ⊆+ seq 0 (length (objs st))).
    { apply NoDup_submseteq; [done|]. intros g Hg. apply elem_of_seq.
      pose proof (is_olist_objs _ _ _ _ Hl Hg). lia. }
    apply submseteq_length in Hsub. rewrite length_seq in Hsub. lia. }
  destruct (write_members_spec st l Hok _ _ Hl Hlen) as (ls & Hw & Hls).
  assert (Hchar : forall n, SL_extern n ∈ ls <-> exported_in st a n).
  { intros n. rewrite Hls. unfold exported_in. split.
    - intros (f & o & e & sr & Hf & Ho & He & Hs & Hn). exists f, o, e, sr.
      split; [done|]. split; [|done]. apply Hm in Hf. unfold anchor_of in Hf.
      by rewrite Ho in Hf.
    - intros (f & o & e & sr & Ho & Ha & He & Hs & Hn). exists f, o, e, sr.
      split; [|done]. apply Hm. unfold anchor_of. by rewrite Ho. }
  destruct (set_head a st) as [f|] eqn:Hh.
  - rewrite Hw. simpl. eexists. split; [done|]. intros n. rewrite elem_of_cons, Hchar.
    split; [by intros [?|?]|by right].
  - destruct l as [|g l]; [|by destruct Hl]. exists []. split; [done|]. intros n.
    rewrite <- Hchar. simpl in Hw. destruct (work_fuel st); by injection Hw as <-.
Qed.

(** [writeScript] on a store whose link sets list the objects anchored in
    them: it returns, and there is an [EXTERN] for a symbol exactly if an
    object of the Optional set exports it or, unless the script is for
    that set alone, an object of the Application set; so no symbol of
    which the sentinel is the only exporter is named. *)
Theorem writeScript_externs (optionalOnly : bool) (st : State) :
  script_ok st -> set_listed st appLinkSet -> set_listed st optionalLinkSet ->
  exists ls, writeScript optionalOnly st = Done ls /\
    forall n, SL_extern n ∈ ls <->
      exported_in st optionalLinkSet n \/
      (optionalOnly = false /\ exported_in st appLinkSet n).
Proof.
  intros Hok Happ Hopt. unfold writeScript.
  destruct (writeLinkSet_spec st appLinkSet "Application" Hok Happ) as (la & Ha & Hla).
  destruct (writeLinkSet_spec st optionalLinkSet "Optional" Hok Hopt) as (lo & Ho & Hlo).
  rewrite Ho. destruct optionalOnly.
  - simpl. exists lo. split; [done|]. intros n. rewrite Hlo. split; [by left|].
    by intros [?|[? _]].
  - rewrite Ha. simpl. eexists. split; [done|]. intros n.
    rewrite !elem_of_app, Hla, Hlo, list_elem_of_singleton. split.
    + intros [[?|?]|?]; [right; done|done|by left].
    + intros [?|[_ ?]]; [by right|left; by left].
Qed.

Lemma ldep_script_ready (inputs : list (list scanned * string)) (last : ObjF) (st : State) :
  ldep inputs = Done (last, st) -> script_ok st /\ forall a, set_listed st a.
Proof.
  intros H. split.
  - destruct (ldep_objs _ _ _ H) as (_ & _ & Hobj).
    pose proof (libs_inv_ldep _ _ _ H) as (_ & _ & H3 & H4).
    intros f o Ho. destruct (Hobj f o Ho) as (_ & Fe & _). split.
    + eapply Forall_impl; [exact Fe|]. simpl. by intros e [? _].
    + destruct (o_lib o) as [| |l] eqn:El; [done| |].
      * apply (H4 f (o_name o)). unfold name_lib. rewrite Ho. simpl. by rewrite El.
      * destruct (H3 f (o_name o) l) as (lr & Hlr & _).
        -- unfold name_lib. rewrite Ho. simpl. by rewrite El.
        -- by apply lookup_lt_Some in Hlr.
  - apply ldep_Done in H as (st0 & Hi & Hall).
    pose proof (ingest_ingested _ _ _ Hi) as [Hi0 _].
    destruct (link_all_inv last st0 (ingested_fresh_graph _ Hi0)) as (ls & st1 & Hall1 & Hm).
    rewrite Hall in Hall1. injection Hall1 as <-.
    destruct Hm as (_ & _ & (_ & _ & _ & _ & G4) & _). cbn [snd] in G4.
    intros a. destruct (G4 a) as (l & Hl & Hmem). exists l. split; [done|].
    intros g. rewrite Hmem. split; [by intros [? _]|]. intros ?. split; [done|].
    apply not_elem_of_nil.
Qed.

Lemma writeScript_externs_witness :
  exists ls, writeScript false pull_linked = Done ls /\
    forall n, SL_extern n ∈ ls <->
      exported_in pull_linked optionalLinkSet n \/
      (false = false /\ exported_in pull_linked appLinkSet n).
Proof.
  destruct (ldep_script_ready pull_inputs 1%nat pull_linked) as [Hok Hsets].
  { vm_compute. reflexivity. }
  apply (writeScript_externs false pull_linked Hok (Hsets appLinkSet) (Hsets optionalLinkSet)).
Defined.

(** ** What the multiple-definition scan reports (checkMultipleDefs) *)

(** The objects met from [p] on along [link.next]. *)
Fixpoint set_members (fuel : nat) (p : option ObjF) (st : State) : res (list ObjF) :=
  match p with
  | None => Done []
  | Some f =>
      match fuel with
      | O => OutOfFuel
      | S fuel' =>
          o ← get_obj f st;
          l ← set_members fuel' (link_next o) st;
          Done (f :: l)
      end
  end.

(** The store is one the scan of the link set [s] can read: the list of the
    set ends, every export's symbol has a first exporter, and every exporter
    chain ends and names existing objects. *)
Definition defs_ok (s : LinkSet) (st : State) : bool :=
  match set_members (work_fuel st) (set_head s st) st with Done _ => true | _ => false end
  && forallb (fun o => forallb (fun e => match syms st !! x_sym e with
                                         | Some sr => bool_decide (exportedBy sr <> None)
                                         | None => false
                                         end) (exports o)) (objs st)
  && forallb (fun sr => match xref_chain (S (nxrefs st)) (exportedBy sr) st with
                        | Done L => forallb (xref_obj_ok st) L
                        | _ => false
                        end) (syms st).

(** The symbol called [n], of type [ty], is not common, is exported by an
    object of [l], and its first exporter is not its only one. *)
Definition multiply_defined (st : State) (l : list ObjF) (n : string) (ty : ascii) : Prop :=
  ty <> "C"%char /\
  exists f o e sr r xr nx,
    f ∈ l /\ objs st !! f = Some o /\ e ∈ exports o /\ syms st !! x_sym e = Some sr /\
    s_name sr = n /\ s_type sr = ty /\ exportedBy sr = Some r /\
    get_xref r st = Done xr /\ x_next xr = Some nx.

Definition clash_sound (st : State) (l : list ObjF) (e : event) : Prop :=
  match e with
  | E_clash n ty => multiply_defined st l n ty
  | _ => True
  end.

(** What holds of the count and the store during the scan that began in
    [st]. *)
Definition cmd_inv (st : State) (l : list ObjF) (acc : Z * State) : Prop :=
  same_graph st acc.2 /\ same_walk st acc.2 /\
  exists evs, out acc.2 = out st ++ evs /\
              acc.1 = Z.of_nat (length (filter (fun e => is_clash e) evs)) /\
              Forall (clash_sound st l) evs.

Lemma set_members_Done (fuel : nat) :
  forall p st l, set_members fuel p st = Done l -> is_olist st p l /\ (length l <= fuel)%nat.
Proof.
  induction fuel as [|fuel IH]; intros p st l; simpl.
  - destruct p; [done|]. intros [= <-]. simpl. split; [done|lia].
  - destruct p as [f|]; [|intros [= <-]; simpl; split; [done|lia]].
    intros H. apply bind_Done in H as (o & Ho & H). apply get_obj_Done in Ho.
    apply bind_Done in H as (l' & Hl' & [= <-]). apply IH in Hl' as [Hc Hlen].
    simpl. split; [|lia]. split; [done|]. exists (link_next o). split; [|done].
    unfold next_of. by rewrite Ho.
Qed.

Lemma same_graph_next_of (st t : State) (g : ObjF) :
  same_graph st t -> next_of t g = next_of st g.
Proof.
  intros G. unfold next_of. destruct (objs st !! g) as [o|] eqn:E.
  - destruct (same_graph_obj _ _ _ _ G E) as (o' & -> & Ho'). simpl.
    apply (f_equal link_next) in Ho'. simpl in Ho'. by rewrite Ho'.
  - destruct (objs t !! g) as [o'|] eqn:E'; [|done].
    destruct (same_graph_obj _ _ _ _ (same_graph_sym _ _ G) E') as (o & Ho & _). congruence.
Qed.

Lemma mark_exporters_spec (isCommon : bool) (L : list Xref) :
  forall fuel r t,
    is_chain t r L -> (length L <= fuel)%nat ->
    (forall x, x ∈ L -> exists xr, get_xref x t = Done xr /\
                                   (x_obj xr < length (objs t))%nat) ->
    exists t', mark_exporters fuel isCommon r t = Done t' /\
               same_graph t t' /\ same_walk t t' /\
               exists evs, out t' = out t ++ evs /\
                           Forall (fun e => is_clash e = false) evs.
Proof.
  induction L as [|x L IH]; intros fuel r t; simpl.
  - intros -> _ _. exists t. split; [by destruct fuel|]. split; [apply same_graph_refl|].
    split; [done|]. exists []. by rewrite app_nil_r.
  - intros (-> & xr & Hxr & Hc) Hfuel Hobj. destruct fuel as [|fuel]; [lia|]. simpl.
    rewrite Hxr, ret_bind.
    set (t1 := if isCommon then t else emit (E_clash_site (x_obj xr) (x_weak xr)) t).
    assert (G1 : same_graph t t1) by (unfold t1; by destruct isCommon).
    assert (W1 : same_walk t t1) by (unfold t1; by destruct isCommon).
    assert (O1 : exists evs, out t1 = out t ++ evs /\ Forall (fun e => is_clash e = false) evs).
    { unfold t1. destruct isCommon.
      - exists []. by rewrite app_nil_r.
      - eexists. split; [done|]. by repeat constructor. }
    destruct (Hobj x) as (xr' & Hxr' & Hlt); [by left|].
    rewrite Hxr in Hxr'. injection Hxr' as <-.
    destruct (upd_obj_valid (x_obj xr) (with_work WBusy) t1) as (t2 & Hupd).
    { by rewrite (same_graph_length _ _ G1). }
    rewrite Hupd, ret_bind.
    apply upd_work_Done in Hupd as (G2 & W2 & _ & _ & O2).
    assert (G12 : same_graph t t2) by by apply (same_graph_trans _ t1).
    destruct (IH fuel (x_next xr) t2) as (t' & Ht' & G' & W' & evs' & O' & F').
    + apply (is_chain_same t); done.
    + lia.
    + intros y Hy. destruct (Hobj y) as (yr & Hyr & Hylt); [by right|]. exists yr.
      rewrite (same_graph_xref _ _ _ G12), (same_graph_length _ _ G12). done.
    + exists t'. split; [done|]. split; [by apply (same_graph_trans _ t2)|].
      split; [apply (same_walk_trans _ t2); [by apply (same_walk_trans _ t1)|done]|].
      destruct O1 as (evs1 & O1 & F1). exists (evs1 ++ evs').
      split; [by rewrite O', O2, O1, app_assoc|]. by apply Forall_app.
Qed.

Lemma filter_clash_none (evs : list event) :
  Forall (fun e => is_clash e = false) evs -> filter (fun e => is_clash e) evs = [].
Proof.
  induction 1 as [|e evs He _ IH]; [done|].
  rewrite filter_cons_False; [done|]. rewrite He. simpl. auto.
Qed.

Lemma clash_sound_other (st : State) (l : list ObjF) (evs : list event) :
  Forall (fun e => is_clash e = false) evs -> Forall (clash_sound st l) evs.
Proof. intros H. eapply Forall_impl; [exact H|]. intros e He. by destruct e. Qed.

#[local] Arguments mark_exporters : simpl never.

Section scan_of_set.
Variable st : State.
Variable l : list ObjF.
Hypothesis exporter_known :
  forall f o e, objs st !! f = Some o -> e ∈ exports o ->
    exists sr r, syms st !! x_sym e = Some sr /\ exportedBy sr = Some r.
Hypothesis chains_end :
  forall sy sr, syms st !! sy = Some sr ->
    exists L, is_chain st (exportedBy sr) L /\ (length L <= Datatypes.S (nxrefs st))%nat /\
      forall x, x ∈ L -> exists xr, get_xref x st = Done xr /\
                                    (x_obj xr < length (objs st))%nat.

Lemma check_export_spec (f : ObjF) (o : ObjFRec) (i : nat) (acc : Z * State) :
  f ∈ l -> objs st !! f = Some o -> (i < length (exports o))%nat -> cmd_inv st l acc ->
  exists acc', check_export f i acc = Done acc' /\ cmd_inv st l acc'.
Proof.
  intros Hf Ho Hi. destruct acc as [rv t]. intros (G & W & evs & O & Hrv & F). simpl in *.
  destruct (same_graph_fields _ _ G) as (Hsy & _ & _ & _ & Hobj).
  destruct (Hobj f o Ho) as (o' & Ho' & He' & _).
  destruct (lookup_lt_is_Some_2 _ _ Hi) as [ex Hex].
  destruct (exporter_known f o ex Ho) as (sr & r & Hsr & Hr); [by eapply list_elem_of_lookup_2|].
  destruct (chains_end _ sr Hsr) as (L & Hc & Hlen & Hval).
  rewrite Hr in Hc. destruct L as [|r0 L]; [done|].
  pose proof Hc as ([= <-] & xr & Hxr & Hc').
  rewrite (proj2 (get_obj_Done f t o') Ho'), ret_bind, He', Hex. simpl.
  unfold get_sym. rewrite Hsy, Hsr. simpl. rewrite Hr. simpl.
  unfold XREF_NEXT. rewrite (same_graph_xref _ _ _ G), Hxr. simpl.
  destruct (x_next xr) as [nx|] eqn:Hnx.
  2:{ eexists. split; [done|]. split; [done|]. split; [done|]. exists evs. done. }
  set (isCommon := bool_decide ("C"%char = s_type sr)).
  set (p := if isCommon then (rv, t)
            else (rv + 1, emit (E_clash (s_name sr) (s_type sr)) t)).
  assert (Hp : cmd_inv st l p).
  { unfold p. destruct isCommon eqn:Eic.
    - split; [done|]. split; [done|]. exists evs. done.
    - split; [done|]. split; [done|]. exists (evs ++ [E_clash (s_name sr) (s_type sr)]).
      simpl. split; [by rewrite O, app_assoc|]. split.
      + rewrite filter_app, length_app. simpl. lia.
      + apply Forall_app. split; [done|]. constructor; [|constructor]. simpl.
        split.
        * unfold isCommon in Eic. apply bool_decide_eq_false in Eic. congruence.
        * exists f, o, ex, sr, r, xr, nx. split; [done|]. split; [done|].
          split; [by eapply list_elem_of_lookup_2|]. done. }
  destruct p as [rv1 t1]. destruct Hp as (G1 & W1 & evs1 & O1 & Hrv1 & F1).
  cbv beta iota. cbn [fst snd] in *.
  destruct (mark_exporters_spec isCommon (r :: L) (Datatypes.S (nxrefs t1)) (Some r) t1)
    as (t2 & Hm & G2 & W2 & evs2 & O2 & F2).
  - by apply (is_chain_same st).
  - by rewrite (same_graph_nxrefs _ _ G1).
  - intros x Hx. destruct (Hval x Hx) as (xr' & Hxr' & Hlt). exists xr'.
    by rewrite (same_graph_xref _ _ _ G1), (same_graph_length _ _ G1).
  - rewrite Hm. simpl. eexists. split; [done|].
    split; [by apply (same_graph_trans _ t1)|]. split; [by apply (same_walk_trans _ t1)|].
    exists (evs1 ++ evs2). simpl. split; [by rewrite O2, O1, app_assoc|]. split.
    + rewrite filter_app, length_app, (filter_clash_none evs2 F2). simpl. lia.
    + apply Forall_app. split; [done|]. by apply clash_sound_other.
Qed.

Lemma check_members_spec (l' : list ObjF) :
  forall fuel p acc,
    is_olist st p l' -> (forall g, g ∈ l' -> g ∈ l) -> (length l' <= fuel)%nat ->
    cmd_inv st l acc ->
    exists acc', check_members fuel p acc = Done acc' /\ cmd_inv st l acc'.
Proof.
  induction l' as [|f l' IH]; intros fuel p acc; simpl.
  - intros -> _ _ Hinv. exists acc. split; [by destruct fuel|done].
  - intros (-> & nx & Hn & Hl) Hsub Hfuel Hinv. destruct fuel as [|fuel]; [lia|]. simpl.
    unfold next_of in Hn. destruct (objs st !! f) as [o|] eqn:Ho; [|done].
    injection Hn as <-.
    pose proof Hinv as (G & _). destruct (same_graph_fields _ _ G) as (_ & _ & _ & _ & Hobj).
    destruct (Hobj f o Ho) as (o' & Ho' & He' & _).
    rewrite (proj2 (get_obj_Done f acc.2 o') Ho'), ret_bind.
    assert (Hin : exists acc1,
              (if bool_decide (work o' = WBusy) then Done acc
               else for_each (seq 0 (length (exports o'))) (check_export f) acc) = Done acc1 /\
              cmd_inv st l acc1).
    { destruct (bool_decide (work o' = WBusy)); [eauto|].
      destruct (for_each_seq_total (fun _ a => cmd_inv st l a) (check_export f)
                  (length (exports o')) 0%nat) with (s := acc) as (acc1 & H1 & Hinv1);
        [|done|eauto].
      intros i a Hi Ha. apply (check_export_spec f o i a); [|done| |done].
      - apply Hsub. by left.
      - rewrite <- He'. lia. }
    destruct Hin as (acc1 & -> & Hinv1). rewrite ret_bind.
    pose proof Hinv1 as (G1 & _).
    destruct (same_graph_fields _ _ G1) as (_ & _ & _ & _ & Hobj1).
    destruct (Hobj1 f o Ho) as (o1 & Ho1 & _ & _ & _ & Hnx1).
    rewrite (proj2 (get_obj_Done f acc1.2 o1) Ho1), ret_bind, Hnx1.
    apply IH; [done| |lia|done]. intros g Hg. apply Hsub. by right.
Qed.
End scan_of_set.

Lemma clear_work_same_graph (t : State) : same_graph t (emit E_ok (clear_work t)).
Proof.
  unfold same_graph, skel. simpl. f_equal. rewrite <- list_fmap_compose.
  apply list_fmap_ext. intros i o _. done.
Qed.

(** On a store the scan can read, [checkMultipleDefs] returns; what it
    leaves differs from what it found in the log alone (and in [work]
    slots that were not clear); its result is the number of clashes it has
    logged, and every clash it logs is one: the symbol is not common, an
    object of the link set exports it, and it has more than one exporter. *)
Theorem checkMultipleDefs_sound (s : LinkSet) (st : State) :
  defs_ok s st = true ->
  exists rval st' evs l,
    checkMultipleDefs s st = Done (rval, st') /\
    set_members (work_fuel st) (set_head s st) st = Done l /\
    same_graph st st' /\ same_walk st st' /\ objs st' = with_work WNull <$> objs st /\
    out st' = out st ++ evs /\
    rval = Z.of_nat (length (filter (fun e => is_clash e) evs)) /\
    forall n ty, E_clash n ty ∈ evs -> multiply_defined st l n ty.
Proof.
  unfold defs_ok. intros [[H0 H1]%andb_true_iff H2]%andb_true_iff.
  destruct (set_members (work_fuel st) (set_head s st) st) as [l| |] eqn:Hl; [|done..].
  clear H0. apply set_members_Done in Hl as [Hol Hlen].
  assert (P1 : forall f o e, objs st !! f = Some o -> e ∈ exports o ->
            exists sr r, syms st !! x_sym e = Some sr /\ exportedBy sr = Some r).
  { intros f o e Ho He. apply list_elem_of_lookup_2 in Ho.
    pose proof (forallb_elem _ _ (forallb_elem _ _ H1 o Ho) e He) as H. simpl in H.
    destruct (syms st !! x_sym e) as [sr|]; [|done]. apply bool_decide_eq_true in H.
    destruct (exportedBy sr) as [r|] eqn:E; [|done]. eauto. }
  assert (P2 : forall sy sr, syms st !! sy = Some sr ->
            exists L, is_chain st (exportedBy sr) L /\
              (length L <= Datatypes.S (nxrefs st))%nat /\
              forall x, x ∈ L -> exists xr, get_xref x st = Done xr /\
                                            (x_obj xr < length (objs st))%nat).
  { intros sy sr Hsr. apply list_elem_of_lookup_2 in Hsr.
    pose proof (forallb_elem _ _ H2 sr Hsr) as H. cbv beta in H.
    destruct (xref_chain (Datatypes.S (nxrefs st)) (exportedBy sr) st) as [L| |] eqn:E;
      [|done..].
    apply xref_chain_Done in E as [Hc HL]. exists L. split; [done|]. split; [done|].
    intros x Hx. pose proof (forallb_elem _ _ H x Hx) as Hx'. unfold xref_obj_ok in Hx'.
    destruct (get_xref x st) as [xr| |]; [|done..]. apply bool_decide_eq_true in Hx'. eauto. }
  unfold checkMultipleDefs.
  destruct (check_members_spec st l P1 P2 l (work_fuel (emit (E_checking s) st))
              (set_head s (emit (E_checking s) st)) (0, emit (E_checking s) st))
    as ([rval t] & Hcm & G & W & evs & O & Hrv & F).
  - by destruct s.
  - done.
  - done.
  - split; [apply emit_same_graph|]. split; [done|]. exists [E_checking s]. cbn [fst snd].
    split; [done|]. split; [done|]. by repeat constructor.
  - rewrite Hcm, ret_bind. cbn [fst snd] in *.
    exists rval, (emit E_ok (clear_work t)), (evs ++ [E_ok]), l.
    split; [done|]. split; [done|]. split; [|split; [|split; [|split; [|split]]]].
    + apply (same_graph_trans _ t); [done|]. apply clear_work_same_graph.
    + done.
    + apply same_graph_erase in G. simpl. rewrite <- G. done.
    + simpl. by rewrite O, app_assoc.
    + rewrite Hrv, filter_app, length_app. simpl. lia.
    + intros n ty [Hin|Hin]%elem_of_app.
      * rewrite Forall_forall in F. by apply (F _ Hin).
      * apply list_elem_of_singleton in Hin. done.
Qed.

Lemma checkMultipleDefs_sound_witness :
  exists rval st' evs l,
    checkMultipleDefs appLinkSet clash_state = Done (rval, st') /\
    set_members (work_fuel clash_state) (set_head appLinkSet clash_state) clash_state = Done l /\
    same_graph clash_state st' /\ same_walk clash_state st' /\
    objs st' = with_work WNull <$> objs clash_state /\
    out st' = out clash_state ++ evs /\
    rval = Z.of_nat (length (filter (fun e => is_clash e) evs)) /\
    forall n ty, E_clash n ty ∈ evs -> multiply_defined clash_state l n ty.
Proof. apply (checkMultipleDefs_sound appLinkSet clash_state). vm_compute. reflexivity. Defined.

(** ** What the linking loop logs (linkObj) *)

Lemma gather_exporters (st st' : State) :
  gatherDanglingUndefs st = Done st' ->
  length (syms st') = length (syms st) /\
  forall s r, syms st !! s = Some r ->
    exists r' e, syms st' !! s = Some r' /\ exportedBy r' = Some e /\
      match exportedBy r with
      | Some e0 => e = e0
      | None => xr_arr e = Exports /\ xr_obj e = 0%nat
      end.
Proof.
  unfold gatherDanglingUndefs. intros H. apply bind_Done in H as (st1 & Hg & Hfix).
  apply gather_loop in Hg as (Hs1 & _ & Hpod).
  simpl in Hfix. apply bind_Done in Hfix as (o & Ho & Hfix). apply get_obj_Done in Ho.
  assert (Hlen : length (exports o) = length (pod_syms st1)).
  { unfold pod_syms. by rewrite Ho, length_fmap. }
  rewrite Hlen in Hfix.
  apply (for_each_seq_invariant
           (fun i t => exporters_kept st1 t /\
              forall j s, (j < i)%nat -> pod_syms st1 !! j = Some s ->
                          exists r', syms t !! s = Some r' /\ exportedBy r' <> None)
           _ (length (pod_syms st1)) 0%nat) in Hfix.
  - destruct Hfix as [(K1 & K2 & K3 & K4) Hdone]. rewrite <- Hs1.
    split; [done|]. intros s r Hs.
    destruct (exportedBy r) as [e0|] eqn:E0.
    + destruct (K3 s r e0 Hs E0) as (r' & Hr' & He'). eauto.
    + assert (Hin : s ∈ pod_syms st1).
      { apply (Hpod s r); [|by rewrite <- Hs1|done].
        rewrite twalk_order_perm. apply elem_of_seq. apply lookup_lt_Some in Hs.
        rewrite Hs1 in Hs. lia. }
      apply list_elem_of_lookup in Hin as (j & Hj).
      destruct (Hdone j s) as (r' & Hr' & He'); [by apply lookup_lt_Some in Hj|done|].
      destruct (exportedBy r') as [e|] eqn:E; [|done]. exists r', e.
      split; [done|]. split; [done|].
      destruct (K4 s r' e Hr' E) as [(r0 & Hr0 & He0)|?]; [|done]. congruence.
  - intros i t t' Hi [Hk Hd] Hb. apply fixup_pod_export in Hb as [Hk' (s & r' & Hs & Hr' & He')].
    split; [by apply (exporters_kept_trans _ t)|].
    intros j s0 Hj Hs0. destruct (decide (j = i)) as [->|Hne].
    + destruct Hk as (_ & Hsh & _). rewrite (pod_syms_shape _ _ Hsh) in Hs.
      rewrite Hs0 in Hs. injection Hs as <-. eauto.
    + destruct (Hd j s0) as (r0 & Hr0 & He0); [lia|done|].
      destruct (exportedBy r0) as [e|] eqn:E; [|done].
      destruct Hk' as (_ & _ & K3 & _). destruct (K3 s0 r0 e Hr0 E) as (r1 & Hr1 & He1).
      exists r1. split; [done|]. congruence.
  - split; [apply exporters_kept_refl|]. intros; lia.
Qed.

Definition is_linking (e : event) : Prop :=
  match e with E_linking _ _ _ => True | _ => False end.

(** Every symbol has a first exporter. *)
Definition all_exported (st : State) : Prop :=
  forall s r, syms st !! s = Some r -> exportedBy r <> None.

(** Since [st0] nothing but "linking" lines has been logged. *)
Definition logs_linking (st0 t : State) : Prop :=
  exists evs, out t = out st0 ++ evs /\ Forall is_linking evs.

Definition quiet_inv (st0 t : State) : Prop := all_exported t /\ logs_linking st0 t.

Lemma logs_linking_refl (st : State) : logs_linking st st.
Proof. exists []. by rewrite app_nil_r. Qed.

Lemma quiet_inv_same (st0 t t' : State) :
  (forall s r', syms t' !! s = Some r' ->
     exists r, syms t !! s = Some r /\ exportedBy r' = exportedBy r) ->
  out t' = out t -> quiet_inv st0 t -> quiet_inv st0 t'.
Proof.
  intros Hs Ho [Ha (evs & He & Hf)]. split.
  - intros s r' Hr'. destruct (Hs s r' Hr') as (r & Hr & ->). by apply (Ha s).
  - exists evs. by rewrite Ho.
Qed.

Lemma quiet_inv_upd_obj (st0 : State) (f : ObjF) (g : ObjFRec -> ObjFRec) (t t' : State) :
  upd_obj f g t = Done t' -> quiet_inv st0 t -> quiet_inv st0 t'.
Proof.
  intros H. apply upd_obj_Done in H as (o & _ & ->). apply quiet_inv_same; [|done].
  intros s r Hr. eauto.
Qed.

Section quiet_rec.
Variable rec : ObjF -> option string -> State -> res State.
Variable st0 : State.
Hypothesis rec_quiet : forall f sym t t', rec f sym t = Done t' -> quiet_inv st0 t -> quiet_inv st0 t'.

Lemma link_import_quiet (f : ObjF) (i : nat) (t t' : State) :
  link_import rec f i t = Done t' -> quiet_inv st0 t -> quiet_inv st0 t'.
Proof.
  intros H Hq. unfold link_import in H.
  apply bind_Done in H as (r & Hr & H). apply bind_Done in H as (u & _ & H).
  apply bind_Done in H as (sr & Hsr & H). apply bind_Done in H as (found & Hfound & H).
  apply bind_Done in H as (fr & Hfr & H). apply get_sym_Done in Hfr.
  apply bind_Done in H as (t1 & Hset & H). apply bind_Done in H as (t2 & Hupd & H).
  assert (Hq1 : quiet_inv st0 t1).
  { unfold xref_set_next in Hset. apply bind_Done in Hset as (r1 & _ & Hset).
    by apply (quiet_inv_upd_obj st0) in Hset. }
  pose proof (xref_set_next_syms _ _ _ _ Hset) as Hs1.
  assert (Hq2 : quiet_inv st0 t2).
  { apply upd_sym_Done in Hupd as (fr1 & Hfr1 & ->). apply (quiet_inv_same st0 t1); [|done|done].
    simpl. intros s r'. destruct (decide (s = found)) as [->|Hne].
    - rewrite list_lookup_insert_eq by by apply lookup_lt_Some in Hfr1.
      intros [= <-]. eauto.
    - rewrite list_lookup_insert_ne by done. eauto. }
  destruct (exportedBy fr) as [e|] eqn:He.
  2:{ exfalso. destruct Hq as [Ha _]. by apply (Ha found fr). }
  apply bind_Done in H as (er & _ & H). apply bind_Done in H as (o & _ & H).
  apply bind_Done in H as (d & _ & H).
  destruct (link_anchor o) as [a|]; [|by injection H as <-].
  destruct (link_anchor d) as [ad|]; [by injection H as <-|].
  apply bind_Done in H as (t3 & Hanc & H).
  apply (rec_quiet _ _ _ _ H). by apply (quiet_inv_upd_obj st0) in Hanc.
Qed.
End quiet_rec.

Lemma linkObj_quiet (st0 : State) (fuel : nat) :
  forall f sym t t', linkObj fuel f sym t = Done t' -> quiet_inv st0 t -> quiet_inv st0 t'.
Proof.
  induction fuel as [|fuel IH]; intros f sym t t' H Hq; [done|].
  rewrite linkObj_S in H. apply bind_Done in H as (o & _ & H).
  apply bind_Done in H as (a & _ & H). cbv zeta in H.
  apply bind_Done in H as (t1 & Hloop & H).
  apply (for_each_keeps (quiet_inv st0)) in Hloop.
  - apply bind_Done in H as (o' & _ & H). apply bind_Done in H as (a' & _ & H).
    apply bind_Done in H as (t2 & Hupd & [= <-]).
    apply (quiet_inv_upd_obj st0) in Hupd; [|done].
    apply (quiet_inv_same st0 t2); [|by destruct a'|done]. intros s r Hr.
    exists r. split; [|done]. by destruct a'.
  - intros i s s' _ Hs Hb. by apply (link_import_quiet (linkObj fuel) st0 IH f i s s').
  - destruct (flag_set (verbose t) DEBUG_LINK); [|done].
    destruct Hq as [Ha (evs & He & Hf)]. split; [done|].
    exists (evs ++ [E_linking f sym a]). simpl. split; [by rewrite He, app_assoc|].
    apply Forall_app. split; [done|]. by repeat constructor.
Qed.

Lemma link_all_quiet (lastAppObj : ObjF) (st0 st : State) :
  all_exported st0 -> link_all lastAppObj st0 = Done st -> quiet_inv st0 st.
Proof.
  intros Ha H. unfold link_all in H. apply bind_Done in H as ([ls st1] & Hloop & [= <-]).
  apply (for_each_keeps (fun acc => quiet_inv st0 acc.2)) in Hloop; [done| |].
  - intros f [ls0 t] [ls1 t'] _ Hq Hb. cbn [snd] in *. unfold link_one in Hb.
    apply bind_Done in Hb as (o & _ & Hb). apply bind_Done in Hb as (t1 & Ht1 & [= _ <-]).
    destruct (link_anchor o); [by injection Ht1 as <-|].
    apply bind_Done in Ht1 as (t2 & Hupd & Hlink).
    apply (linkObj_quiet st0) in Hlink; [done|]. by apply (quiet_inv_upd_obj st0) in Hupd.
  - split; [done|apply logs_linking_refl].
Qed.

(** In [main]'s linking loop [linkObj] never takes the branch that warns
    of an undefined symbol: [gatherDanglingUndefs] has given every symbol
    an exporter.  All that the loop logs are the "linking" lines of
    [linkObj] (with [DEBUG_LINK]). *)
Theorem linking_logs_no_undefined (inputs : list (list scanned * string)) (last : ObjF)
    (st0 st : State) :
  ingest inputs = Done (last, st0) -> link_all last st0 = Done st ->
  exists evs, out st = out st0 ++ evs /\
    Forall is_linking evs /\ forall o n, E_undefined o n ∉ evs.
Proof.
  intros Hi Hall.
  assert (Ha : all_exported st0).
  { unfold ingest in Hi. apply bind_Done in Hi as ([l1 st1] & Hs & Hi).
    apply bind_Done in Hi as (l0 & _ & Hi). apply bind_Done in Hi as (st2 & Hg & Hi).
    apply bind_Done in Hi as (idx & _ & [= <- <-]). simpl.
    apply gather_exporters in Hg as [Hlen Hg]. intros s r' Hr' Hnone. simpl in Hr'.
    destruct (lookup_lt_is_Some_2 (syms st1) s) as [r Hr].
    { rewrite <- Hlen. by apply lookup_lt_Some in Hr'. }
    destruct (Hg s r Hr) as (r2 & e & Hr2 & He & _). congruence. }
  destruct (link_all_quiet last st0 st Ha Hall) as [_ (evs & He & Hf)].
  exists evs. split; [done|]. split; [done|]. intros o n Hin.
  rewrite Forall_forall in Hf. by apply Hf in Hin.
Qed.

Lemma linking_logs_no_undefined_witness :
  exists evs, out pull_linked = out pull_ingested ++ evs /\
    Forall is_linking evs /\ forall o n, E_undefined o n ∉ evs.
Proof.
  apply (linking_logs_no_undefined pull_inputs 1%nat pull_ingested pull_linked).
  - vm_compute. reflexivity.
  - vm_compute. reflexivity.
Defined.

(** ** Unlinking (doUnlink, unlinkObj) *)

(** The graph between the calls of [linkObj] and [unlinkObj]: the list of
    every link set holds the objects anchored in it, the importer list of
    every symbol holds the imports of the objects that are in a link set,
    and an object in no link set has no successor and no linked import. *)
Definition links_ok (st : State) : Prop :=
  (forall a, set_listed st a) /\
  imp_inv (fun x => anchored st (xr_obj x)) st /\
  (forall g o, objs st !! g = Some o -> link_anchor o = None -> link_next o = None) /\
  (forall x r, xr_arr x = Imports -> get_xref x st = Done r -> ~ anchored st (xr_obj x) ->
               x_next r = None).

(** *** Chains *)

Lemma is_chain_head (st : State) (x : Xref) (L : list Xref) :
  is_chain st (Some x) L ->
  exists r L', L = x :: L' /\ get_xref x st = Done r /\ is_chain st (x_next r) L'.
Proof.
  destruct L as [|y L]; [done|]. simpl. intros ([= <-] & r & Hr & Hc). eauto.
Qed.

Lemma find_pred_Done (fuel : nat) :
  forall q imp u p L,
    find_pred fuel q imp u = Done (Some p) -> is_chain u q L ->
    exists L1 L2, L = L1 ++ p :: imp :: L2.
Proof.
  induction fuel as [|fuel IH]; intros q imp u p L; simpl.
  - by destruct q.
  - destruct q as [x|]; [|done]. intros H Hc.
    apply is_chain_head in Hc as (r & L' & -> & Hr & Hc).
    unfold XREF_NEXT in H. rewrite Hr in H. simpl in H.
    case_bool_decide as E.
    + injection H as <-. rewrite E in Hc.
      apply is_chain_head in Hc as (r2 & L2 & -> & _ & _). by exists [], L2.
    + destruct (IH _ _ _ _ _ H Hc) as (L1 & L2 & ->). by exists (x :: L1), L2.
Qed.

Lemma is_chain_unlink (u u' : State) (imp p : Xref) (r : XrefRec) (L1 L2 : list Xref) :
  forall q,
    is_chain u q (L1 ++ p :: imp :: L2) -> NoDup (L1 ++ p :: imp :: L2) ->
    get_xref imp u = Done r -> xref_set_next p (x_next r) u = Done u' ->
    is_chain u' q (L1 ++ p :: L2).
Proof.
  intros q Hc Hnd Hr Hset.
  assert (Hx : forall x, get_xref x u'
                         = if decide (x = p) then with_next (x_next r) <$> get_xref p u
                           else get_xref x u)
    by (intros x; by apply get_xref_set_next).
  revert q Hc Hnd. induction L1 as [|y L1 IH]; intros q; simpl.
  - intros (-> & rp & Hrp & (_ & ri & Hri & Hc2)) Hnd. rewrite Hr in Hri. injection Hri as <-.
    split; [done|]. exists (with_next (x_next r) rp). split.
    + by rewrite Hx, decide_True, Hrp.
    + simpl. apply (is_chain_frame u); [|done]. intros x Hin. rewrite Hx.
      rewrite decide_False; [done|]. intros ->.
      apply NoDup_cons in Hnd as [Hp _]. apply Hp. by right.
  - intros (-> & ry & Hry & Hc) Hnd. apply NoDup_cons in Hnd as [Hy Hnd].
    split; [done|]. exists ry. split; [|by apply IH].
    rewrite Hx, decide_False; [done|]. intros ->. apply Hy.
    apply elem_of_app. right. by left.
Qed.

(** *** What changing a [next] of an import or an importer list leaves *)

Lemma set_import_next_views (e : Xref) (n : option Xref) (u u' : State) :
  xr_arr e = Imports -> xref_set_next e n u = Done u' ->
  same_links u u' /\ (forall h, anchor_of u' h = anchor_of u h) /\
  (forall h, next_of u' h = next_of u h) /\ (forall a, set_head a u' = set_head a u) /\
  syms u' = syms u /\
  (forall x, get_xref x u' = if decide (x = e) then with_next n <$> get_xref e u
                             else get_xref x u).
Proof.
  intros Ha H.
  assert (Hx : forall x, get_xref x u' = if decide (x = e) then with_next n <$> get_xref e u
                                          else get_xref x u)
    by (intros x; by apply get_xref_set_next).
  apply xref_set_next_Done in H as (o & r & Ho & Hr & ->). rewrite Ha in *. simpl in *.
  destruct (upd_obj_views u (xr_obj e) o
              (with_imports (<[xr_idx e := with_next n r]> (imports o)) o) Ho)
    as (V1 & V2 & _ & V4).
  split; [|split; [|split; [|split; [|split]]]].
  - apply V4. unfold erase_obj. simpl. f_equal.
    rewrite list_fmap_insert. apply list_insert_id. by rewrite list_lookup_fmap, Hr.
  - intros h. rewrite V1. destruct (decide (h = xr_obj e)) as [->|]; [|done].
    unfold anchor_of. by rewrite Ho.
  - intros h. rewrite V2. destruct (decide (h = xr_obj e)) as [->|]; [|done].
    unfold next_of. by rewrite Ho.
  - done.
  - done.
  - done.
Qed.

Lemma set_importedFrom_views (s : Sym) (n : option Xref) (u u' : State) :
  upd_sym s (with_importedFrom n) u = Done u' ->
  same_links u u' /\ objs u' = objs u /\ (forall a, set_head a u' = set_head a u) /\
  exists sr, syms u !! s = Some sr /\ syms u' = <[s := with_importedFrom n sr]> (syms u).
Proof.
  intros H. apply upd_sym_Done in H as (sr & Hs & ->).
  split; [|split; [done|split; [done|eauto]]].
  unfold same_links, erase_links. simpl. f_equal.
  rewrite list_fmap_insert. apply list_insert_id. by rewrite list_lookup_fmap, Hs.
Qed.

Lemma isite_next (u u' : State) (e : Xref) (n : option Xref) :
  (forall x, get_xref x u' = if decide (x = e) then with_next n <$> get_xref e u
                             else get_xref x u) ->
  forall x s, isite u' x s <-> isite u x s.
Proof.
  intros Hx x s. unfold isite. rewrite Hx. destruct (decide (x = e)) as [->|]; [|done].
  destruct (get_xref e u) as [r| |]; simpl.
  - split; intros (Ha & r' & [= <-] & Hs); (split; [done|]); eauto.
  - split; intros (Ha & r' & ? & _); done.
  - split; intros (Ha & r' & ? & _); done.
Qed.

Lemma imp_inv_sites (D D' : Xref -> Prop) (t : State) :
  (forall x s, isite t x s -> (D x <-> D' x)) -> imp_inv D t -> imp_inv D' t.
Proof.
  intros E H s r Hr. destruct (H s r Hr) as (L & Hc & Hnd & Hm).
  exists L. split; [done|]. split; [done|]. intros x. rewrite Hm.
  split; intros [Hd Hs]; (split; [|done]); by apply (E x s Hs).
Qed.

(** *** The loop of [doUnlink] over the imports *)

(** What holds before the [i]-th turn of the loop of [doUnlink(g)] that
    started in [t]. *)
Definition uimp_inv (t : State) (g : ObjF) (i : nat) (u : State) : Prop :=
  same_links t u /\ (forall h, anchor_of u h = anchor_of t h) /\
  (forall h, next_of u h = next_of t h) /\ (forall a, set_head a u = set_head a t) /\
  imp_inv (fun x => anchored t (xr_obj x) /\ ~ (xr_obj x = g /\ (xr_idx x < i)%nat)) u /\
  (forall x r, xr_arr x = Imports -> get_xref x u = Done r ->
     ~ anchored t (xr_obj x) \/ (xr_obj x = g /\ (xr_idx x < i)%nat) -> x_next r = None).

Lemma unlink_import_spec (t : State) (g : ObjF) (i : nat) (u u' : State) :
  anchored t g -> uimp_inv t g i u -> unlink_import g i u = Done u' ->
  uimp_inv t g (Datatypes.S i) u'.
Proof.
  intros Hg (Hsame & Hanc & Hnext & Hhead & Hinv & Hclean) H.
  set (imp := mkXref Imports g i) in *.
  set (D := fun x => anchored t (xr_obj x) /\ ~ (xr_obj x = g /\ (xr_idx x < i)%nat)) in *.
  unfold unlink_import in H. fold imp in H.
  apply bind_Done in H as (r & Hr & H). apply bind_Done in H as (s & Hs & H).
  apply get_sym_Done in Hs. apply bind_Done in H as (u1 & H1 & H).
  assert (Himp : isite u imp (x_sym r)) by (split; [done|]; eauto).
  assert (HDimp : D imp) by (split; [done|]; simpl; lia).
  destruct (Hinv _ _ Hs) as (L & Hc & Hnd & Hm).
  assert (HimpL : imp ∈ L) by (by apply Hm).
  (* the import leaves the importer list *)
  assert (Hu1 : same_links u u1 /\ (forall h, anchor_of u1 h = anchor_of u h) /\
                (forall h, next_of u1 h = next_of u h) /\
                (forall a, set_head a u1 = set_head a u) /\
                imp_inv (fun x => D x /\ x <> imp) u1 /\
                (forall x s, isite u1 x s <-> isite u x s) /\
                (forall x rx, xr_arr x = Imports -> get_xref x u1 = Done rx ->
                   ~ anchored t (xr_obj x) \/ (xr_obj x = g /\ (xr_idx x < i)%nat) ->
                   x_next rx = None)).
  { case_bool_decide as Ehead.
    - (* it is the head of the list *)
      apply set_importedFrom_views in H1 as (S1 & O1 & H1' & sr & Hsr & Esy).
      rewrite Hs in Hsr. injection Hsr as <-.
      assert (Hx : forall x, get_xref x u1 = get_xref x u)
        by (intros x; by apply get_xref_same_objs).
      rewrite Ehead in Hc. apply is_chain_head in Hc as (r0 & L2 & -> & Hr0 & Hc2).
      rewrite Hr in Hr0. injection Hr0 as <-.
      apply NoDup_cons in Hnd as [HiL2 Hnd2].
      assert (Hsite : forall x s0, isite u1 x s0 <-> isite u x s0)
        by (intros x s0; unfold isite; by rewrite Hx).
      split; [done|]. split; [intros h; unfold anchor_of; by rewrite O1|].
      split; [intros h; unfold next_of; by rewrite O1|]. split; [done|].
      split; [|split; [done|]].
      + intros s' sr' Hs'. rewrite Esy in Hs'.
        assert (Hlt : (x_sym r < length (syms u))%nat) by by apply lookup_lt_Some in Hs.
        destruct (decide (s' = x_sym r)) as [->|Hne].
        * rewrite list_lookup_insert_eq in Hs' by done. injection Hs' as <-. simpl.
          exists L2. split; [by apply (is_chain_frame u)|]. split; [done|].
          intros x. rewrite Hsite. specialize (Hm x). rewrite elem_of_cons in Hm. split.
          -- intros Hx2. destruct Hm as [Hm _]. destruct Hm as [Hd Hs2]; [by right|].
             split; [|done]. split; [done|]. intros ->. done.
          -- intros [[Hd Hne] Hs2]. destruct Hm as [_ Hm].
             destruct Hm as [?|?]; [done|done|done].
        * rewrite list_lookup_insert_ne in Hs' by done.
          destruct (Hinv _ _ Hs') as (L' & Hc' & Hnd' & Hm').
          exists L'. split; [by apply (is_chain_frame u)|]. split; [done|].
          intros x. rewrite Hsite, Hm'. split; [|by intros [[? _] ?]].
          intros [Hd Hs2]. split; [|done]. split; [done|]. intros ->.
          apply Hne. by apply (isite_fun u imp).
      + intros x rx Ha. rewrite Hx. by apply Hclean.
    - (* it has a predecessor on the list *)
      apply bind_Done in H1 as (po & Hfp & H1). destruct po as [p|]; [|done].
      destruct (find_pred_Done _ _ _ _ _ L Hfp Hc) as (L1 & L2 & ->).
      assert (HpL : p ∈ L1 ++ p :: imp :: L2) by (apply elem_of_app; right; by left).
      pose proof (proj1 (Hm p) HpL) as [HDp Hps].
      pose proof Hps as (Hpa & _).
      pose proof (is_chain_unlink u u1 imp p r L1 L2 _ Hc Hnd Hr H1) as Hc1.
      apply set_import_next_views in H1 as (S1 & A1 & N1 & H1' & Esy & Hx); [|done].
      assert (Hsite : forall x s0, isite u1 x s0 <-> isite u x s0) by by apply (isite_next u u1 p (x_next r)).
      split; [done|]. split; [done|]. split; [done|]. split; [done|].
      split; [|split; [done|]].
      + intros s' sr' Hs'. rewrite Esy in Hs'.
        destruct (decide (s' = x_sym r)) as [->|Hne].
        * rewrite Hs in Hs'. injection Hs' as <-.
          exists (L1 ++ p :: L2). split; [done|]. split.
          -- apply NoDup_app in Hnd as (N1' & N2' & N3').
             apply NoDup_cons in N3' as [Hp3 N3']. apply NoDup_cons in N3' as [Hi3 N3'].
             apply NoDup_app. split; [done|]. split.
             ++ intros x Hx1 Hx2. apply (N2' x Hx1).
                apply elem_of_cons in Hx2 as [->|Hx2]; [by left|]. right. by right.
             ++ constructor; [|done]. intros Hp2. apply Hp3. by right.
          -- intros x. rewrite Hsite. specialize (Hm x).
             rewrite elem_of_app, !elem_of_cons in Hm.
             rewrite elem_of_app, elem_of_cons.
             assert (Himp_once : x = imp -> x ∈ L1 \/ x = p \/ x ∈ L2 -> False).
             { intros -> Hin. apply NoDup_app in Hnd as (N1' & N2' & N3').
               apply NoDup_cons in N3' as [Hp3 N3']. apply NoDup_cons in N3' as [Hi3 N3'].
               destruct Hin as [Hin|[Hin|Hin]].
               - apply (N2' imp Hin). right. by left.
               - apply Hp3. rewrite <- Hin. by left.
               - done. }
             split.
             ++ intros Hin. destruct Hm as [Hm _]. destruct Hm as [Hd Hs2]; [tauto|].
                split; [|done]. split; [done|]. intros E. by apply (Himp_once E).
             ++ intros [[Hd Hne] Hs2]. destruct Hm as [_ Hm].
                destruct Hm as [?|[?|[?|?]]]; [done|tauto|tauto|done|tauto].
        * destruct (Hinv _ _ Hs') as (L' & Hc' & Hnd' & Hm').
          exists L'. split; [|split; [done|]].
          -- apply (is_chain_frame u); [|done]. intros x Hin. rewrite Hx.
             rewrite decide_False; [done|]. intros ->. apply Hm' in Hin as [_ Hin].
             apply Hne. by apply (isite_fun u p).
          -- intros x. rewrite Hsite, Hm'. split; [|by intros [[? _] ?]].
             intros [Hd Hs2]. split; [|done]. split; [done|]. intros ->.
             apply Hne. by apply (isite_fun u imp).
      + intros x rx Ha. rewrite Hx. destruct (decide (x = p)) as [->|Hxp]; [|by apply Hclean].
        intros _ [Hn|Hgi]; exfalso; destruct HDp as [Hap Hnp]; [by apply Hn|by apply Hnp]. }
  clear H1. destruct Hu1 as (S1 & A1 & N1 & H1 & Hinv1 & Hsite1 & Hclean1).
  apply set_import_next_views in H as (S2 & A2 & N2 & H2 & Esy2 & Hx2); [|done].
  assert (Hsite2 : forall x s0, isite u' x s0 <-> isite u x s0).
  { intros x s0. rewrite (isite_next u1 u' imp None Hx2). apply Hsite1. }
  split; [by apply (same_links_trans _ u), (same_links_trans _ u1)|].
  split; [intros h; by rewrite A2, A1|]. split; [intros h; by rewrite N2, N1|].
  split; [intros a; by rewrite H2, H1|]. split.
  - apply (imp_inv_sites (fun x => D x /\ x <> imp)).
    + intros x s0 Hs0. apply Hsite2 in Hs0 as (Ha0 & _). unfold D. split.
      * intros [[Ha Hn] Hne]. split; [done|]. intros [Hg' Hlt].
        destruct (decide (xr_idx x = i)) as [Hi|Hi].
        -- apply Hne. destruct x as [arr h j]. simpl in *. unfold imp. congruence.
        -- apply Hn. split; [done|lia].
      * intros [Ha Hn]. split; [split; [done|]|].
        -- intros [Hg' Hlt]. apply Hn. split; [done|lia].
        -- intros ->. apply Hn. simpl. split; [done|lia].
    + intros s' sr' Hs'. rewrite Esy2 in Hs'.
      destruct (Hinv1 _ _ Hs') as (L' & Hc' & Hnd' & Hm').
      exists L'. split; [|split; [done|]].
      * apply (is_chain_frame u1); [|done]. intros x Hin. rewrite Hx2.
        rewrite decide_False; [done|]. intros ->. apply Hm' in Hin as [[_ Hne] _]. done.
      * intros x. rewrite Hm'. by rewrite (isite_next u1 u' imp None Hx2).
  - intros x rx Ha. rewrite Hx2. destruct (decide (x = imp)) as [->|Hne].
    + destruct (get_xref imp u1) as [r1| |]; simpl; [|done..]. by intros [= <-] _.
    + intros Hrx [Hn|[Hg' Hlt]]; [by apply (Hclean1 x rx Ha Hrx); left|].
      apply (Hclean1 x rx Ha Hrx). right. split; [done|].
      destruct (decide (xr_idx x = i)) as [Hi|Hi]; [|lia].
      exfalso. apply Hne. destruct x as [arr h j]. simpl in *. unfold imp. congruence.
Qed.

Lemma xref_set_next_anchor (e : Xref) (n : option Xref) (u u' : State) :
  xref_set_next e n u = Done u' -> forall h, anchor_of u' h = anchor_of u h.
Proof.
  intros H h. apply xref_set_next_Done in H as (o & r & Ho & Hr & ->).
  destruct (upd_obj_views u (xr_obj e) o
              (with_xarray (xr_arr e) (<[xr_idx e := with_next n r]> (xarray_of (xr_arr e) o)) o)
              Ho) as (V1 & _).
  rewrite V1. destruct (decide (h = xr_obj e)) as [->|]; [|done].
  unfold anchor_of. rewrite Ho. simpl. by destruct (xr_arr e).
Qed.

Lemma unlink_import_anchor (g : ObjF) (i : nat) (u u' : State) :
  unlink_import g i u = Done u' -> forall h, anchor_of u' h = anchor_of u h.
Proof.
  unfold unlink_import. intros H h.
  apply bind_Done in H as (r & _ & H). apply bind_Done in H as (s & _ & H).
  apply bind_Done in H as (u1 & H1 & H).
  rewrite (xref_set_next_anchor _ _ _ _ H). case_bool_decide.
  - apply upd_sym_Done in H1 as (sr & _ & ->). done.
  - apply bind_Done in H1 as (po & _ & H1). destruct po as [p|]; [|done].
    by apply (xref_set_next_anchor _ _ _ _ H1).
Qed.

(** *** Taking an object off the list of its link set *)

Lemma find_plink_spec (u : State) (g : ObjF) (la : list ObjF) :
  forall fuel pl v pl',
    read_plink pl u = Done v -> is_olist u v la -> g ∈ la ->
    find_plink fuel pl g u = Done pl' ->
    exists l1 l2, la = l1 ++ g :: l2 /\
      ((l1 = [] /\ pl' = pl) \/ (exists l1' q, l1 = l1' ++ [q] /\ pl' = PNext q)).
Proof.
  induction la as [|x la IH]; intros fuel pl v pl' Hv Hl Hg; [by apply elem_of_nil in Hg|].
  destruct fuel as [|fuel]; [done|]. simpl. rewrite Hv, ret_bind.
  simpl in Hl. destruct Hl as (-> & nx & Hnx & Hl). case_bool_decide as E.
  - intros [= <-]. subst x. exists [], la. split; [done|]. by left.
  - intros H. apply elem_of_cons in Hg as [->|Hg]; [done|].
    destruct (IH fuel (PNext x) nx pl') as (l1 & l2 & -> & Hcase); [|done|done|done|].
    + simpl. unfold next_of in Hnx. unfold get_obj.
      destruct (objs u !! x) as [ox|]; [|done]. simpl. by injection Hnx as <-.
    + exists (x :: l1), l2. split; [done|]. right.
      destruct Hcase as [[-> ->]|(l1' & q & -> & ->)].
      * by exists [], x.
      * by exists (x :: l1'), q.
Qed.

Lemma is_olist_unlink (u u' : State) (g q : ObjF) (n : option ObjF) (l1 l2 : list ObjF) :
  forall v,
    is_olist u v (l1 ++ q :: g :: l2) -> NoDup (l1 ++ q :: g :: l2) ->
    next_of u g = Some n ->
    (forall h, h <> g -> next_of u' h = if decide (h = q) then Some n else next_of u h) ->
    is_olist u' v (l1 ++ q :: l2).
Proof.
  intros v Hl Hnd Hn Hx. revert v Hl Hnd. induction l1 as [|y l1 IH]; intros v; simpl.
  - intros (-> & nq & Hnq & (_ & ng & Hng & Hl2)) Hnd. rewrite Hn in Hng. injection Hng as <-.
    apply NoDup_cons in Hnd as [Hq Hnd]. apply NoDup_cons in Hnd as [Hg Hnd].
    split; [done|]. exists n. split.
    + rewrite Hx, decide_True; [done|done|]. intros ->. apply Hq. by left.
    + apply (is_olist_frame u); [|done]. intros h Hh. rewrite Hx.
      * rewrite decide_False; [done|]. intros ->. apply Hq. by right.
      * intros ->. done.
  - intros (-> & ny & Hny & Hl) Hnd. apply NoDup_cons in Hnd as [Hy Hnd].
    split; [done|]. exists ny. split; [|by apply IH].
    rewrite Hx.
    + rewrite decide_False; [done|]. intros ->. apply Hy. apply elem_of_app. right. by left.
    + intros ->. apply Hy. apply elem_of_app. right. right. by left.
Qed.

Lemma links_ok_same (t t' : State) :
  objs t' = objs t -> syms t' = syms t -> (forall a, set_head a t' = set_head a t) ->
  links_ok t -> links_ok t'.
Proof.
  intros Eo Es Eh (H1 & H2 & H3 & H4).
  assert (Ha : forall h, anchor_of t' h = anchor_of t h) by (intros h; unfold anchor_of; by rewrite Eo).
  assert (Hx : forall x, get_xref x t' = get_xref x t) by (intros x; by apply get_xref_same_objs).
  split; [|split; [|split]].
  - intros a. destruct (H1 a) as (l & Hl & Hm). exists l. split.
    + rewrite Eh. apply (is_olist_frame t); [|done]. intros h _. unfold next_of. by rewrite Eo.
    + intros h. by rewrite Ha.
  - apply (imp_inv_ext (fun x => anchored t (xr_obj x))).
    + intros x. unfold anchored. by rewrite Ha.
    + by apply (imp_inv_frame _ t).
  - rewrite Eo. done.
  - intros x r Hxa. rewrite Hx. unfold anchored. rewrite Ha. by apply H4.
Qed.

Lemma unlink_from_set (u u2 : State) (g : ObjF) (a : LinkSet) (n : option ObjF)
    (l1 l2 : list ObjF) :
  is_olist u (set_head a u) (l1 ++ g :: l2) -> NoDup (l1 ++ g :: l2) ->
  next_of u g = Some n ->
  (l1 = [] /\ set_head a u2 = n /\ (forall h, h <> g -> next_of u2 h = next_of u h)) \/
  (exists l1' q, l1 = l1' ++ [q] /\ set_head a u2 = set_head a u /\
     forall h, h <> g -> next_of u2 h = if decide (h = q) then Some n else next_of u h) ->
  is_olist u2 (set_head a u2) (l1 ++ l2).
Proof.
  intros Hl Hnd Hn [(-> & Hh & Hx)|(l1' & q & -> & Hh & Hx)].
  - simpl in *. destruct Hl as (_ & ng & Hng & Hl2). rewrite Hn in Hng. injection Hng as <-.
    rewrite Hh. apply (is_olist_frame u); [|done]. intros h Hin. apply Hx. intros ->.
    apply NoDup_cons in Hnd as [Hg _]. done.
  - rewrite Hh. rewrite <- app_assoc in *. simpl in *.
    by apply (is_olist_unlink u u2 g q n l1' l2).
Qed.

(** The store [u2] that [doUnlink(g)] leaves, seen from the store [u] at
    the end of its loop over the imports. *)
Lemma unlink_finish (t u u2 : State) (g : ObjF) (a : LinkSet) (n : option ObjF)
    (l1 l2 : list ObjF) (k : nat) :
  links_ok t -> anchor_of t g = Some a -> uimp_inv t g k u ->
  (forall x s, isite t x s -> xr_obj x = g -> (xr_idx x < k)%nat) ->
  is_olist u (set_head a u) (l1 ++ g :: l2) ->
  (forall h, h ∈ l1 ++ g :: l2 <-> anchor_of t h = Some a) ->
  next_of u g = Some n ->
  (forall x, get_xref x u2 = get_xref x u) -> syms u2 = syms u ->
  (forall h, anchor_of u2 h = if decide (h = g) then None else anchor_of u h) ->
  next_of u2 g = Some None ->
  (forall a', a' <> a -> set_head a' u2 = set_head a' u) ->
  (l1 = [] /\ set_head a u2 = n /\ (forall h, h <> g -> next_of u2 h = next_of u h)) \/
  (exists l1' q, l1 = l1' ++ [q] /\ set_head a u2 = set_head a u /\
     forall h, h <> g -> next_of u2 h = if decide (h = q) then Some n else next_of u h) ->
  links_ok u2.
Proof.
  intros (K1 & K2 & K3 & K4) Hga (Hsame & Hanc & Hnext & Hhead & Hinv & Hclean) Hidx
         Hla Hmem Hng Vx Vs Va Vg Vh Hcase.
  pose proof (is_olist_NoDup _ _ _ Hla) as Hnd.
  assert (Hgl : g ∉ l1 ++ l2).
  { apply NoDup_app in Hnd as (N1 & N2 & N3). apply NoDup_cons in N3 as [N3 _].
    intros [Hin|Hin]%elem_of_app; [|done]. apply (N2 g Hin). by left. }
  assert (Hanch : forall h, anchored u2 h <-> anchored t h /\ h <> g).
  { intros h. unfold anchored. rewrite Va, Hanc. destruct (decide (h = g)); naive_solver. }
  split; [|split; [|split]].
  - intros a'. destruct (decide (a' = a)) as [->|Hne].
    + exists (l1 ++ l2). split; [by apply (unlink_from_set u u2 g a n)|].
      intros h. rewrite Va, Hanc. destruct (decide (h = g)) as [->|Hhg].
      * split; [done|done].
      * rewrite <- Hmem. rewrite !elem_of_app, elem_of_cons. naive_solver.
    + destruct (K1 a') as (l' & Hl' & Hm'). exists l'.
      assert (Hq : forall h, h ∈ l' -> h ∉ l1 ++ g :: l2).
      { intros h Hh Hh2. apply Hm' in Hh. apply Hmem in Hh2. congruence. }
      split.
      * rewrite Vh, Hhead by done. apply (is_olist_frame t); [|done].
        intros h Hh. rewrite <- Hnext. pose proof (Hq h Hh) as Hnot.
        assert (Hhg : h <> g) by (intros ->; apply Hnot, elem_of_app; right; by left).
        destruct Hcase as [(_ & _ & Hx)|(l1' & q & -> & _ & Hx)]; [by apply Hx|].
        rewrite Hx by done. rewrite decide_False; [done|]. intros ->. apply Hnot.
        apply elem_of_app. left. apply elem_of_app. right. by left.
      * intros h. rewrite Va, Hanc. destruct (decide (h = g)) as [->|Hhg]; [|apply Hm'].
        split; [|done]. intros Hh. apply Hm' in Hh. congruence.
  - apply (imp_inv_sites
             (fun x => anchored t (xr_obj x) /\ ~ (xr_obj x = g /\ (xr_idx x < k)%nat))).
    + intros x s Hs. rewrite Hanch. split.
      * intros [Ha Hn]. split; [done|]. intros E. apply Hn. split; [done|].
        apply (Hidx x s); [|done]. apply (isite_same u); [by apply same_links_sym|].
        unfold isite in *. by rewrite <- Vx.
      * intros [Ha Hne]. split; [done|]. by intros [? _].
    + by apply (imp_inv_frame _ u).
  - intros h o Ho Ha. assert (Hn2 : next_of u2 h = Some (link_next o))
      by (unfold next_of; by rewrite Ho).
    destruct (decide (h = g)) as [->|Hhg]; [rewrite Vg in Hn2; by injection Hn2|].
    assert (Hat : anchor_of t h = None).
    { rewrite <- Hanc. specialize (Va h). rewrite decide_False in Va by done.
      rewrite <- Va. unfold anchor_of. rewrite Ho. done. }
    assert (Hnl : h ∉ l1 ++ g :: l2) by (rewrite Hmem; congruence).
    assert (Hn : next_of u2 h = next_of t h).
    { rewrite <- Hnext. destruct Hcase as [(_ & _ & Hx)|(l1' & q & -> & _ & Hx)]; [by apply Hx|].
      rewrite Hx by done. rewrite decide_False; [done|]. intros ->. apply Hnl.
      apply elem_of_app. left. apply elem_of_app. right. by left. }
    rewrite Hn2 in Hn. unfold next_of in Hn. unfold anchor_of in Hat.
    destruct (objs t !! h) as [ot|] eqn:Hot; [|done]. simpl in *.
    injection Hn as ->. by apply (K3 h ot).
  - intros x r Hxa. rewrite Vx. intros Hr Hna. apply (Hclean x r Hxa Hr).
    destruct (anchored_dec t (xr_obj x)) as [Ha|Ha]; [|by left]. right.
    assert (Hg : xr_obj x = g).
    { destruct (decide (xr_obj x = g)); [done|]. exfalso. apply Hna. by apply Hanch. }
    split; [done|]. apply (Hidx x (x_sym r)); [|done].
    apply (isite_same u); [by apply same_links_sym|]. split; [done|]. eauto.
Qed.

Lemma uimp_inv_start (t : State) (g : ObjF) : links_ok t -> uimp_inv t g 0 t.
Proof.
  intros (K1 & K2 & K3 & K4). split; [done|]. split; [done|]. split; [done|]. split; [done|].
  split.
  - apply (imp_inv_ext (fun x => anchored t (xr_obj x))); [|done].
    intros x. split; [|by intros [? _]]. intros Ha. split; [done|]. intros [_ ?]. lia.
  - intros x r Ha Hr [Hn|[_ ?]]; [by apply (K4 x r)|lia].
Qed.

(** [doUnlink(g)], when it returns, has taken [g] out of its link set and
    its imports off the importer lists, and the graph is sound again. *)
Lemma doUnlink_spec (g : ObjF) (d : Z) (c c' : unit) (t t' : State) :
  links_ok t -> doUnlink g d c t = Done (c', t') ->
  links_ok t' /\ same_links t t' /\ anchored t g /\
  forall h, anchor_of t' h = if decide (h = g) then None else anchor_of t h.
Proof.
  intros Hok H. unfold doUnlink in H.
  set (t0 := if flag_set (verbose t) DEBUG_UNLINK then emit (E_removing g) t else t) in H.
  assert (E0 : objs t0 = objs t /\ syms t0 = syms t /\ (forall a, set_head a t0 = set_head a t)
               /\ same_links t t0).
  { unfold t0. by destruct (flag_set _ _). }
  destruct E0 as (Eo0 & Es0 & Eh0 & Sl0).
  assert (Hok0 : links_ok t0) by by apply (links_ok_same t).
  assert (Ha0 : forall h, anchor_of t0 h = anchor_of t h)
    by (intros h; unfold anchor_of; by rewrite Eo0).
  apply bind_Done in H as (o & Ho & H). apply get_obj_Done in Ho.
  apply bind_Done in H as (u & Hloop & H).
  assert (Hanc_loop : forall h, anchor_of u h = anchor_of t0 h).
  { refine (for_each_keeps (fun s => forall h, anchor_of s h = anchor_of t0 h) _ _ _ _ _ _ Hloop);
      [|done].
    intros i s s' _ Hs Hb h. by rewrite (unlink_import_anchor _ _ _ _ Hb). }
  apply bind_Done in H as (o2 & Ho2 & H). apply get_obj_Done in Ho2.
  apply bind_Done in H as (a & Ha & H). apply deref_Done in Ha.
  assert (Hga : anchor_of t0 g = Some a).
  { rewrite <- Hanc_loop. unfold anchor_of. rewrite Ho2. done. }
  assert (Hg : anchored t0 g) by (unfold anchored; by rewrite Hga).
  assert (Hloop' : uimp_inv t0 g (0 + length (imports o)) u).
  { refine (for_each_seq_invariant (uimp_inv t0 g) _ (length (imports o)) 0%nat _ _ _ _ Hloop).
    - intros i s s' _. by apply unlink_import_spec.
    - by apply uimp_inv_start. }
  simpl in Hloop'. pose proof Hloop' as (Hsame & Hanc & Hnext & Hhead & Hinv & Hclean).
  apply bind_Done in H as (pl & Hpl & H). apply bind_Done in H as (v & Hv & H).
  apply bind_Done in H as (x & _ & H). apply bind_Done in H as (u1 & Hw & H).
  apply bind_Done in H as (u2 & Hupd & [= _ <-]).
  pose proof Hok0 as (K1 & _). destruct (K1 a) as (la & Hla & Hmem).
  assert (Hla_u : is_olist u (set_head a u) la).
  { rewrite Hhead. apply (is_olist_frame t0); [|done]. intros h _. apply Hnext. }
  assert (Hgla : g ∈ la) by by apply Hmem.
  destruct (find_plink_spec u g la _ (PHead a) (set_head a u) pl eq_refl Hla_u Hgla Hpl)
    as (l1 & l2 & -> & Hcase).
  assert (Hng : next_of u g = Some (link_next o2)) by (unfold next_of; by rewrite Ho2).
  assert (Hidx : forall y s, isite t0 y s -> xr_obj y = g -> (xr_idx y < length (imports o))%nat).
  { intros y s (Hya & r & Hr & _) Hy. apply get_xref_Done in Hr as (oy & Hoy & Hr).
    rewrite Hy, Ho in Hoy. injection Hoy as <-. rewrite Hya in Hr. simpl in Hr.
    by apply lookup_lt_Some in Hr. }
  (* the store after the object is taken off the list *)
  assert (Hu1 : (forall y, get_xref y u1 = get_xref y u) /\ syms u1 = syms u /\
                (forall h, anchor_of u1 h = anchor_of u h) /\
                (forall a', a' <> a -> set_head a' u1 = set_head a' u) /\
                same_links u u1 /\ (exists og, objs u1 !! g = Some og) /\
                ((l1 = [] /\ set_head a u1 = link_next o2 /\
                  (forall h, next_of u1 h = next_of u h)) \/
                 (exists l1' q, l1 = l1' ++ [q] /\ set_head a u1 = set_head a u /\ q <> g /\
                    forall h, next_of u1 h = if decide (h = q) then Some (link_next o2)
                                             else next_of u h))).
  { destruct Hcase as [[-> ->]|(l1' & q & -> & ->)].
    - simpl in Hw. injection Hw as <-.
      split; [intros y; by apply get_xref_same_objs|]. split; [done|]. split; [done|].
      split; [intros a' Hne; simpl; destruct a', a; done|].
      split; [by destruct a|]. split; [by exists o2|]. left.
      split; [done|]. split; [by destruct a|done].
    - simpl in Hw. pose proof (get_xref_upd_keep q (with_link_next (link_next o2)) u u1) as Hx.
      apply upd_obj_Done in Hw as (oq & Hoq & Eu1).
      destruct (upd_obj_views u q oq (with_link_next (link_next o2) oq) Hoq)
        as (V1 & V2 & _ & V4).
      assert (Hqg : q <> g).
      { intros ->. pose proof (is_olist_NoDup _ _ _ Hla_u) as Hnd.
        rewrite <- app_assoc in Hnd. simpl in Hnd.
        apply NoDup_app in Hnd as (_ & _ & Hnd). apply NoDup_cons in Hnd as [Hnd _].
        apply Hnd. by left. }
      split; [|split; [by rewrite Eu1|split; [|split; [by rewrite Eu1|split; [|split]]]]].
      + intros y. apply Hx; [done|]. unfold upd_obj, get_obj. rewrite Hoq. simpl. by rewrite Eu1.
      + intros h. rewrite Eu1, V1. destruct (decide (h = q)) as [->|]; [|done].
        unfold anchor_of. by rewrite Hoq.
      + rewrite Eu1. by apply V4.
      + exists o2. rewrite Eu1. simpl. by rewrite list_lookup_insert_ne.
      + right. exists l1', q. split; [done|]. split; [by rewrite Eu1|]. split; [done|].
        intros h. rewrite Eu1, V2. done. }
  destruct Hu1 as (X1 & S1 & A1 & H1 & L1 & (og & Hog) & Hcase1).
  pose proof (get_xref_upd_keep g (fun o => with_anchor None (with_link_next None o)) u1 u2) as X2.
  apply upd_obj_Done in Hupd as (og' & Hog' & Eu2). rewrite Hog in Hog'. injection Hog' as <-.
  destruct (upd_obj_views u1 g og (with_anchor None (with_link_next None og)) Hog)
    as (V1 & V2 & _ & V4).
  assert (Hfin : links_ok u2).
  { apply (unlink_finish t0 u u2 g a (link_next o2) l1 l2 (length (imports o)));
      try done.
    - intros y. rewrite X2, X1; [done|done|].
      unfold upd_obj, get_obj. rewrite Hog. simpl. by rewrite Eu2.
    - by rewrite Eu2, <- S1.
    - intros h. rewrite Eu2, V1. destruct (decide (h = g)); [done|apply A1].
    - rewrite Eu2, V2. by rewrite decide_True.
    - intros a' Hne. rewrite Eu2. simpl. by apply H1.
    - destruct Hcase1 as [(-> & Hh & Hn)|(l1' & q & -> & Hh & Hqg & Hn)].
      + left. split; [done|]. split; [by rewrite Eu2|].
        intros h Hhg. rewrite Eu2, V2, decide_False by done. apply Hn.
      + right. exists l1', q. split; [done|]. split; [by rewrite Eu2|].
        intros h Hhg. rewrite Eu2, V2, decide_False by done. apply Hn. }
  assert (Sl2 : same_links t u2).
  { apply (same_links_trans _ t0); [done|]. apply (same_links_trans _ u); [done|].
    apply (same_links_trans _ u1); [done|]. rewrite Eu2. by apply V4. }
  assert (Hanc2 : forall h, anchor_of u2 h = if decide (h = g) then None else anchor_of t h).
  { intros h. rewrite Eu2, V1. destruct (decide (h = g)); [done|]. by rewrite A1, Hanc, Ha0. }
  set (t2 := if flag_set (verbose u2) DEBUG_UNLINK then emit E_ok u2 else u2).
  assert (E2 : objs t2 = objs u2 /\ syms t2 = syms u2 /\
               (forall a0, set_head a0 t2 = set_head a0 u2) /\ same_links u2 t2).
  { unfold t2. clear. destruct (flag_set _ _); repeat split. }
  destruct E2 as (Eo2 & Es2 & Eh2 & Sl3).
  split; [by apply (links_ok_same u2)|]. split; [by apply (same_links_trans _ u2)|].
  split; [unfold anchored; by rewrite <- Ha0, Hga|].
  intros h. unfold anchor_of. rewrite Eo2. apply Hanc2.
Qed.

(** The same holds of two states that differ in work slots, walk globals
    and output only. *)
Lemma anchor_of_skel (st : State) (h : ObjF) :
  anchor_of st h = (with_work WNull <$> objs st) !! h ≫= link_anchor.
Proof. unfold anchor_of. rewrite list_lookup_fmap. by destruct (objs st !! h). Qed.

Lemma same_graph_anchor_of (t t' : State) (h : ObjF) :
  same_graph t t' -> anchor_of t' h = anchor_of t h.
Proof. intros G%same_graph_erase. by rewrite !anchor_of_skel, G. Qed.

Lemma links_ok_same_graph (t t' : State) : same_graph t t' -> links_ok t -> links_ok t'.
Proof.
  intros G (H1 & H2 & H3 & H4).
  pose proof (same_graph_fields _ _ G) as (Es & E1 & E2 & E3 & _).
  assert (Ha : forall h, anchor_of t' h = anchor_of t h)
    by (intros h; by apply same_graph_anchor_of).
  assert (Hn : forall h, next_of t' h = next_of t h)
    by (intros h; by apply same_graph_next_of).
  assert (Hx : forall x, get_xref x t' = get_xref x t)
    by (intros x; by apply same_graph_xref).
  assert (Eh : forall a, set_head a t' = set_head a t) by (by intros []).
  split; [|split; [|split]].
  - intros a. destruct (H1 a) as (l & Hl & Hm). exists l. split.
    + rewrite Eh. apply (is_olist_frame t); [|done]. intros h _. apply Hn.
    + intros h. by rewrite Ha.
  - apply (imp_inv_ext (fun x => anchored t (xr_obj x))).
    + intros x. unfold anchored. by rewrite Ha.
    + by apply (imp_inv_frame _ t).
  - intros g o' Ho' Hnone.
    destruct (same_graph_obj _ _ _ _ (same_graph_sym _ _ G) Ho') as (o & Ho & E).
    apply (f_equal link_anchor) in E as Ea. apply (f_equal link_next) in E as En.
    simpl in Ea, En. rewrite <- En. apply (H3 g o Ho). congruence.
  - intros x r Hxa. rewrite Hx. unfold anchored. rewrite Ha. by apply H4.
Qed.

(** *** The passes of [unlinkObj] over the work list *)

Lemma work_list_frame (st st' : State) (fuel : nat) :
  (forall h, work <$> objs st' !! h = work <$> objs st !! h) ->
  forall w, work_list fuel w st' = work_list fuel w st.
Proof.
  intros Hw. induction fuel as [|fuel IH]; intros w; [by destruct w|].
  destruct w as [| |o]; [done..|]. simpl. unfold get_obj. pose proof (Hw o) as Ho.
  destruct (objs st' !! o) as [r'|], (objs st !! o) as [r|]; simpl in *; try done.
  injection Ho as ->. by rewrite IH.
Qed.

Lemma same_links_work (st st' : State) (h : ObjF) :
  same_links st st' -> work <$> objs st' !! h = work <$> objs st !! h.
Proof.
  intros H. apply (f_equal objs) in H. simpl in H. apply (f_equal (.!! h)) in H.
  rewrite !list_lookup_fmap in H.
  destruct (objs st' !! h) as [o'|], (objs st !! h) as [o|]; simpl in *; try done.
  assert (E : erase_obj o' = erase_obj o) by congruence.
  apply (f_equal work) in E. simpl in E. by rewrite E.
Qed.

Lemma same_links_works (st st' : State) : same_links st st' -> works st' = works st.
Proof.
  intros H. unfold works. apply list_eq. intros h. rewrite !list_lookup_fmap.
  by apply same_links_work.
Qed.

(** [workListIterate(f, doUnlink, 0)]: if it returns, the members of the
    list were in link sets, each is met once, and exactly they have lost
    their anchor. *)
Lemma workListIterate_unlink (fuel : nat) :
  forall w d c st c' st',
    links_ok st -> workListIterate fuel w doUnlink d c st = Done (c', st') ->
    exists l, work_list fuel w st = Done l /\ NoDup l /\
      (forall m, m ∈ l -> anchored st m) /\
      links_ok st' /\ same_links st st' /\
      forall h, anchor_of st' h = if decide (h ∈ l) then None else anchor_of st h.
Proof.
  induction fuel as [|fuel IH]; intros w d c st c' st' Hok H.
  - destruct w; simpl in H; [injection H as <- <-..|done];
      (exists []; split; [done|]; split; [apply NoDup_nil_2|];
       split; [by intros m ?%elem_of_nil|]; split; [done|]; split; [done|];
       intros h; rewrite decide_False; [done|apply not_elem_of_nil]).
  - destruct w as [| |o]; simpl in H; [injection H as <- <-..|].
    1,2: (exists []; split; [done|]; split; [apply NoDup_nil_2|];
       split; [by intros m ?%elem_of_nil|]; split; [done|]; split; [done|];
       intros h; rewrite decide_False; [done|apply not_elem_of_nil]).
    apply bind_Done in H as ([c1 st1] & Hu & H).
    apply doUnlink_spec in Hu as (Hok1 & S1 & Hao & Hanc1); [|done].
    apply bind_Done in H as (r & Hr & H). apply get_obj_Done in Hr.
    apply IH in H as (l & Hl & Hnd & Hm & Hok' & S2 & Hanc'); [|done].
    pose proof (same_links_work _ _ o S1) as Hwo. rewrite Hr in Hwo. simpl in Hwo.
    destruct (objs st !! o) as [r0|] eqn:Hr0; [|done]. simpl in Hwo. injection Hwo as Hwo.
    assert (Hl0 : work_list fuel (work r0) st = Done l).
    { rewrite <- Hwo, <- Hl. symmetry. apply work_list_frame. intros h.
      by apply same_links_work. }
    assert (Hmo : forall m, m ∈ l -> m <> o /\ anchored st m).
    { intros m Hm'. apply Hm in Hm'. unfold anchored in Hm'. rewrite Hanc1 in Hm'.
      by destruct (decide (m = o)). }
    exists (o :: l). split.
    { change (work_list (S fuel) (WObj o) st)
        with (get_obj o st ≫= fun r => work_list fuel (work r) st ≫= fun l => Done (o :: l)).
      rewrite (proj2 (get_obj_Done o st r0) Hr0), ret_bind, Hl0. reflexivity. }
    split. { apply NoDup_cons. split; [|done]. intros Ho. by destruct (Hmo o Ho). }
    split. { intros m [->|Hm']%elem_of_cons; [done|]. by apply Hmo. }
    split; [done|]. split; [by apply (same_links_trans _ st1)|].
    intros h. rewrite Hanc', Hanc1. destruct (decide (h = o)) as [->|Hne].
    + rewrite (decide_True (P := o ∈ o :: l)) by by left. by destruct (decide (o ∈ l)).
    + destruct (decide (h ∈ l)) as [Hin|Hout].
      * rewrite decide_True; [done|by right].
      * rewrite decide_False; [done|]. by intros [->|?]%elem_of_cons.
Qed.

Lemma for_each_unit {A} (l : list A) (body : A -> unit -> res unit) (u : unit) :
  for_each l body tt = Done u -> forall a, a ∈ l -> body a tt = Done tt.
Proof.
  induction l as [|x l IH]; simpl; [by intros _ a ?%elem_of_nil|].
  intros H. apply bind_Done in H as ([] & Hx & H).
  intros a [->|Ha]%elem_of_cons; [done|]. by apply IH.
Qed.

(** [workListIterate(f, checkSanity, 0)]: if it returns, no export of a
    member of the list has an importer left. *)
Lemma workListIterate_sanity (fuel : nat) :
  forall w d c st c' st',
    workListIterate fuel w checkSanity d c st = Done (c', st') ->
    st' = st /\
    exists l, work_list fuel w st = Done l /\
      forall m o e, m ∈ l -> objs st !! m = Some o -> e ∈ exports o ->
        exists s, syms st !! x_sym e = Some s /\ importedFrom s = None.
Proof.
  induction fuel as [|fuel IH]; intros w d c st c' st' H.
  - destruct w; simpl in H; [injection H as <- <-..|done];
      (split; [done|]; exists []; split; [done|]; by intros m o e ?%elem_of_nil).
  - destruct w as [| |o]; simpl in H; [injection H as <- <-..|].
    1,2: (split; [done|]; exists []; split; [done|]; by intros m o e ?%elem_of_nil).
    apply bind_Done in H as ([c1 st1] & Hs & H).
    unfold checkSanity in Hs. apply bind_Done in Hs as (ro & Hro & Hs).
    apply bind_Done in Hs as (u & Hall & [= <- <-]).
    apply bind_Done in H as (r & Hr & H).
    apply IH in H as (-> & l & Hl & Hm). split; [done|].
    exists (o :: l). split.
    { change (work_list (S fuel) (WObj o) st)
        with (get_obj o st ≫= fun r => work_list fuel (work r) st ≫= fun l => Done (o :: l)).
      rewrite Hr, ret_bind, Hl. reflexivity. }
    intros m om e [->|Hin]%elem_of_cons Hom He; [|by apply (Hm m om)].
    apply get_obj_Done in Hro. rewrite Hro in Hom. injection Hom as <-.
    pose proof (for_each_unit _ _ _ Hall e He) as Hb. simpl in Hb.
    apply bind_Done in Hb as (s & Hs & Hb). apply get_sym_Done in Hs.
    apply assert_that_Done, bool_decide_eq_true in Hb. by exists s.
Qed.

(** Nothing but what walking and linking write differs: the objects with
    their names, libraries, exports and the symbols of their imports, the
    symbols with their names and exporter lists, the libraries, the index
    and the options are the same. *)
Definition same_files (st st' : State) : Prop := erase_links (skel st') = erase_links (skel st).

Lemma erase_links_skel (st : State) : erase_links (skel st) = skel (erase_links st).
Proof.
  unfold erase_links, skel. simpl. f_equal.
  rewrite <- !list_fmap_compose. apply list_fmap_ext. by intros i [].
Qed.

Lemma same_graph_files (st st' : State) : same_graph st st' -> same_files st st'.
Proof. unfold same_graph, same_files. by intros ->. Qed.

Lemma same_links_files (st st' : State) : same_links st st' -> same_files st st'.
Proof. unfold same_links, same_files. rewrite !erase_links_skel. by intros ->. Qed.

Lemma same_files_trans (st1 st2 st3 : State) :
  same_files st1 st2 -> same_files st2 st3 -> same_files st1 st3.
Proof. unfold same_files. congruence. Qed.

Lemma work_list_head (fuel : nat) (f : ObjF) (st : State) (l : list ObjF) :
  work_list fuel (WObj f) st = Done l -> head l = Some f.
Proof.
  destruct fuel as [|fuel]; simpl; [done|]. intros H.
  apply bind_Done in H as (r & _ & H). by apply bind_Done in H as (l0 & _ & [= <-]).
Qed.

(** When [unlinkObj(f)] returns 0, the members of the work list built
    from [f] (f itself first, each once) were all in a link set and none in
    the Application set; exactly they have lost their anchor, no object that
    is still in a link set imports a symbol one of them exports, the link-set
    lists and importer lists are sound again, all work slots are cleared, and
    the files and symbols themselves are as before. *)
Theorem unlinkObj_accepted (f : ObjF) (st st' : State) :
  links_ok st -> all_work_nil st -> unlinkObj f st = Done (0, st') ->
  exists st1 l,
    depwalk f None (Z.lor WALK_EXPORTS WALK_BUILD_LIST) st = Done st1 /\
    work_list (work_fuel st1) (WObj f) st1 = Done l /\
    head l = Some f /\ NoDup l /\
    (forall m, m ∈ l -> anchored st m /\ ~ in_app st m) /\
    (forall h, anchor_of st' h = if decide (h ∈ l) then None else anchor_of st h) /\
    (forall m o e x, m ∈ l -> objs st' !! m = Some o -> e ∈ exports o ->
       isite st' x (x_sym e) -> ~ anchored st' (xr_obj x)) /\
    links_ok st' /\ all_work_nil st' /\ same_files st st'.
Proof.
  intros Hok Hnil H. unfold unlinkObj in H. apply bind_Done in H as (st1 & H1 & H).
  exists st1. apply depwalk_Done in H1 as HG. destruct HG as (G1 & _ & _ & _ & Hbuild).
  destruct Hbuild as (_ & _ & Hwl); [done|]. destruct (Hwl Hnil) as (l0 & Hl0).
  apply bind_Done in H as ([rej st2] & H2 & H).
  apply workListIterate_check in H2 as (E2 & G2 & W2 & l & Hl & Hrej).
  apply bind_Done in H as (st3 & H3 & H). apply bind_Done in H as (st4 & H4 & [= -> <-]).
  exists l. split; [done|]. split; [done|].
  split; [by apply (work_list_head _ _ _ _ Hl)|].
  destruct Hrej as [(? & _)|(_ & Hno)]; [done|].
  change (0 =? 0) with true in H3. cbv iota in H3.
  apply bind_Done in H3 as ([c3 st2a] & Hu & H3).
  apply bind_Done in H3 as ([c4 st2b] & Hs & [= <-]).
  assert (G12 : same_graph st st2) by by apply (same_graph_trans _ st1).
  assert (Hok2 : links_ok st2) by by apply (links_ok_same_graph st).
  apply workListIterate_unlink in Hu as (l' & Hl' & Hnd & Hanc & Hok3 & S3 & Hanc3); [|done].
  assert (El : l' = l).
  { assert (E : work_list (work_fuel st2) (WObj f) st2 = work_list (work_fuel st1) (WObj f) st1).
    { unfold work_fuel. rewrite E2. apply work_list_frame. intros h. by rewrite E2. }
    rewrite E, Hl in Hl'. by injection Hl'. }
  subst l'.
  apply workListIterate_sanity in Hs as (-> & l'' & Hl'' & Hsane).
  assert (El : l'' = l).
  { assert (E : work_list (work_fuel st2a) (WObj f) st2a
                = work_list (work_fuel st2) (WObj f) st2).
    { unfold work_fuel. rewrite (same_links_length _ _ S3). apply work_list_frame.
      intros h. by apply same_links_work. }
    rewrite E, Hl' in Hl''. by injection Hl''. }
  subst l''.
  assert (Ew : works st2a = works st1).
  { rewrite (same_links_works _ _ S3). unfold works. by rewrite E2. }
  apply (depwalkListRelease_Done f l0) in H4 as (G4 & Hnil4 & _); [|by rewrite Ew].
  assert (Hok4 : links_ok st4) by by apply (links_ok_same_graph st2a).
  split; [done|]. split.
  { intros m Hm. split.
    - pose proof (Hanc m Hm) as Ha. unfold anchored in *.
      by rewrite (same_graph_anchor_of _ _ m G12) in Ha.
    - intros Ha. apply (Hno m Hm). by apply (same_graph_in_app st). }
  split.
  { intros h. rewrite (same_graph_anchor_of _ _ h G4), Hanc3.
    by rewrite (same_graph_anchor_of _ _ h G12). }
  split.
  { intros m o e x Hm Ho He Hx Ha.
    destruct (same_graph_fields _ _ (same_graph_sym _ _ G4)) as (Es & _ & _ & _ & Hobj).
    destruct (Hobj m o Ho) as (o3 & Ho3 & Ee & _).
    rewrite <- Ee in He. destruct (Hsane m o3 e Hm Ho3 He) as (s & Hs & Himp).
    rewrite Es in Hs. destruct Hok4 as (_ & Hinv & _).
    destruct (Hinv _ _ Hs) as (L & Hc & _ & HL). rewrite Himp in Hc.
    destruct L as [|y L]; [|by destruct Hc].
    destruct (HL x) as [_ Hin]. by apply elem_of_nil in Hin. }
  split; [done|]. split; [done|].
  apply (same_files_trans _ st2); [by apply same_graph_files|].
  apply (same_files_trans _ st2a); [by apply same_links_files|by apply same_graph_files].
Qed.

(** After the linking loop the link sets and the importer lists are sound. *)
Lemma ldep_links_ok (inputs : list (list scanned * string)) (last : ObjF) (st : State) :
  ldep inputs = Done (last, st) -> links_ok st /\ all_work_nil st.
Proof.
  intros H. pose proof (ldep_script_ready _ _ _ H) as [_ Hsets].
  destruct (ldep_objs _ _ _ H) as (_ & _ & Hobj).
  apply ldep_Done in H as (st0 & Hi & Hall).
  pose proof (ingest_ingested _ _ _ Hi) as [Hi0 _].
  destruct (link_all_imp last st0 st Hi0 (ingest_names _ _ _ Hi) Hall) as [Hsame Hinv].
  destruct (link_all_inv last st0 (ingested_fresh_graph _ Hi0)) as (ls & st1 & Hall1 & Hm).
  rewrite Hall in Hall1. injection Hall1 as <-.
  destruct (fresh_graph_ok st0 (ingested_fresh_graph _ Hi0)) as (_ & A0 & _).
  destruct Hm as (_ & _ & _ & Hkeep & Hall' & _). cbn [snd] in *.
  assert (Hanch : forall g o, objs st !! g = Some o -> anchored st g).
  { intros g o Ho. destruct (decide (g = 0%nat)) as [->|Hne].
    - unfold anchored. by rewrite (Hkeep _ _ A0).
    - apply Hall'. apply lookup_lt_Some in Ho. rewrite (same_links_length _ _ Hsame) in Ho.
      lia. }
  split; [|intros g o Ho; by destruct (Hobj g o Ho)].
  split; [done|]. split; [|split].
  - intros s r Hr. destruct (Hinv s r Hr) as (L & Hc & Hnd & HL).
    exists L. split; [done|]. split; [done|]. intros x. rewrite HL. split.
    + intros [_ Hs]. split; [|done].
      destruct Hs as (_ & rx & Hrx & _). apply get_xref_Done in Hrx as (o & Ho & _).
      by apply (Hanch _ o).
    + intros [_ Hs]. split; [|done]. exists s.
      apply (isite_same st); [by apply same_links_sym|done].
  - intros g o Ho Hn. exfalso. apply (Hanch g o Ho). unfold anchor_of. by rewrite Ho.
  - intros x r _ Hr Hn. exfalso. apply Hn.
    apply get_xref_Done in Hr as (o & Ho & _). by apply (Hanch _ o).
Qed.

(** [a.o] is mandatory; [c.o] and [d.o] are optional, and [d.o] needs
    [foo] from [c.o]: removing [c.o] takes [d.o] along. *)
Definition drop_inputs : list (list scanned * string) :=
  [([Conv1 "a.o:"; Conv2 "main" "T"], "app");
   ([Conv1 "c.o:"; Conv2 "foo" "T"; Conv1 "d.o:"; Conv2 "bar" "T"; Conv2 "foo" "U"], "opt")].

Definition drop_linked : State := result_state (snd <$> ldep drop_inputs).
Definition drop_unlinked : State := result_state (snd <$> unlinkObj 2%nat drop_linked).

Lemma unlinkObj_accepted_witness :
  exists st1 l,
    depwalk 2%nat None (Z.lor WALK_EXPORTS WALK_BUILD_LIST) drop_linked = Done st1 /\
    work_list (work_fuel st1) (WObj 2%nat) st1 = Done l /\
    head l = Some 2%nat /\ NoDup l /\
    (forall m, m ∈ l -> anchored drop_linked m /\ ~ in_app drop_linked m) /\
    (forall h, anchor_of drop_unlinked h
               = if decide (h ∈ l) then None else anchor_of drop_linked h) /\
    (forall m o e x, m ∈ l -> objs drop_unlinked !! m = Some o -> e ∈ exports o ->
       isite drop_unlinked x (x_sym e) -> ~ anchored drop_unlinked (xr_obj x)) /\
    links_ok drop_unlinked /\ all_work_nil drop_unlinked /\
    same_files drop_linked drop_unlinked.
Proof.
  destruct (ldep_links_ok drop_inputs 1%nat drop_linked) as [Hok Hnil].
  { vm_compute. reflexivity. }
  apply (unlinkObj_accepted 2%nat drop_linked drop_unlinked Hok Hnil).
  vm_compute. reflexivity.
Defined.

Example drop_unlink_accepted :
  fst <$> unlinkObj 2%nat drop_linked = Done 0 /\
  (st1 ← depwalk 2%nat None (Z.lor WALK_EXPORTS WALK_BUILD_LIST) drop_linked;
   work_list (work_fuel st1) (WObj 2%nat) st1) = Done [2%nat; 3%nat] /\
  link_anchor <$> objs drop_linked
  = [Some undefLinkSet; Some appLinkSet; Some optionalLinkSet; Some optionalLinkSet] /\
  link_anchor <$> objs drop_unlinked = [Some undefLinkSet; Some appLinkSet; None; None] /\
  optionalSet drop_unlinked = None.
Proof. vm_compute. repeat split. Qed.

(** ** What a list-building walk collects (depwalk, depwalk_rec) *)

(** The work slot of [o] is in use: [o] is on a work list or is its end. *)
Definition marked (st : State) (o : ObjF) : Prop :=
  exists w, works st !! o = Some w /\ w <> WNull.

(** The walk goes from [f] to [g]: [g] is the [obj] of a cross reference
    followed when [f] is expanded. *)
Definition deps_of (st : State) (exports_mode : bool) (f g : ObjF) : Prop :=
  exists ref rr, followed st exports_mode f ref /\ get_xref ref st = Done rr /\ x_obj rr = g.

(** Every object the walk goes to from [f] is marked, and none is [f]
    itself: the assertion [ref->obj != f] has held while [f] was expanded. *)
Definition expanded (st : State) (f : ObjF) : Prop :=
  forall g, deps_of st (DO_EXPORTS st) f g -> marked st g /\ g <> f.

(** What a part of a list-building walk below [f] does to the marks: none
    is taken away, and an object newly marked is expanded and is reached
    from [f]. *)
Definition grown (f : ObjF) (st st' : State) : Prop :=
  same_graph st st' /\ same_walk st st' /\
  (forall o, marked st o -> marked st' o) /\
  (forall o, marked st' o -> ~ marked st o ->
     expanded st' o /\ rtc (deps_of st (DO_EXPORTS st)) f o).

#[local] Instance marked_dec (st : State) (o : ObjF) : Decision (marked st o).
Proof.
  unfold marked. destruct (works st !! o) as [w|] eqn:E.
  - destruct (decide (w = WNull)) as [->|Hne].
    + right. intros (w & [= <-] & H). done.
    + left. by exists w.
  - right. by intros (w & [=] & _).
Defined.

Lemma deps_of_same (st st' : State) (m : bool) (f g : ObjF) :
  same_graph st st' -> deps_of st m f g -> deps_of st' m f g.
Proof.
  intros G (ref & rr & Hf & Hr & Hg). exists ref, rr.
  split; [by apply (followed_same st)|]. split; [|done]. by rewrite (same_graph_xref st).
Qed.

Lemma rtc_deps_same (st st' : State) (m : bool) (f g : ObjF) :
  same_graph st st' -> rtc (deps_of st m) f g -> rtc (deps_of st' m) f g.
Proof.
  intros G. induction 1 as [|x y z Hxy _ IH]; [constructor|].
  econstructor; [|exact IH]. by apply (deps_of_same st).
Qed.

Lemma expanded_mono (st st' : State) (o : ObjF) :
  same_graph st st' -> same_walk st st' -> (forall g, marked st g -> marked st' g) ->
  expanded st o -> expanded st' o.
Proof.
  intros G W Hm He g Hg. destruct (He g) as [H1 H2]; [|split; [by apply Hm|done]].
  rewrite <- (same_walk_DO_EXPORTS _ _ W).
  apply (deps_of_same st'); [by apply same_graph_sym|done].
Qed.

Lemma grown_refl (f : ObjF) (st : State) : grown f st st.
Proof. split; [done|]. split; [done|]. split; [done|]. by intros o H1 H2. Qed.

Lemma grown_trans (f : ObjF) (st1 st2 st3 : State) :
  grown f st1 st2 -> grown f st2 st3 -> grown f st1 st3.
Proof.
  intros (G1 & W1 & M1 & N1) (G2 & W2 & M2 & N2).
  split; [by eapply same_graph_trans|]. split; [by eapply same_walk_trans|].
  split; [auto|]. intros o Ho3 Ho1. destruct (decide (marked st2 o)) as [Ho2|Ho2].
  - destruct (N1 o Ho2 Ho1) as [He Hr]. split; [|done]. by apply (expanded_mono st2).
  - destruct (N2 o Ho3 Ho2) as [He Hr]. split; [done|].
    rewrite (same_walk_DO_EXPORTS _ _ W1) in Hr.
    apply (rtc_deps_same st2); [by apply same_graph_sym|done].
Qed.

Lemma grown_same (f : ObjF) (st st' : State) :
  same_graph st st' -> same_walk st st' -> works st' = works st -> grown f st st'.
Proof.
  intros G W E. split; [done|]. split; [done|]. unfold marked. rewrite E.
  split; [done|]. by intros o H1 H2.
Qed.

(** The cross references [walk_refs] visits from [ref] on. *)
Definition visits (st : State) (ref : option Xref) (y : Xref) : Prop :=
  if DO_EXPORTS st then chain_reach st ref y else ref = Some y.

(** What a call of [depwalk_rec] for a marked object does while a list is
    built. *)
Definition rec_grows (rec : ObjF -> Z -> State -> res State) : Prop :=
  forall g d s s', BUILD_LIST s = true -> marked s g -> rec g d s = Done s' ->
    grown g s s' /\ expanded s' g.

Lemma marked_insert (W : list workp) (st' : State) (f : ObjF) (w : workp) (o : ObjF) :
  works st' = <[f := w]> W -> (f < length W)%nat ->
  marked st' o <-> (o = f /\ w <> WNull) \/ (o <> f /\ exists v, W !! o = Some v /\ v <> WNull).
Proof.
  intros E Hlt. unfold marked. rewrite E. destruct (decide (o = f)) as [->|Hne].
  - rewrite list_lookup_insert_eq by done. split.
    + intros (v & [= <-] & Hv). by left.
    + intros [[_ Hw]|[? _]]; [by exists w|done].
  - rewrite list_lookup_insert_ne by done. split; [by right|]. by intros [[? _]|[_ ?]].
Qed.

Lemma expand_ref_grown (rec : ObjF -> Z -> State -> res State) (f : ObjF) (depth : Z)
    (ref : Xref) (st st' : State) :
  rec_grows rec -> BUILD_LIST st = true -> marked st f ->
  followed st (DO_EXPORTS st) f ref ->
  expand_ref rec f depth ref st = Done st' ->
  grown f st st' /\
  exists rr, get_xref ref st = Done rr /\ marked st' (x_obj rr) /\ x_obj rr <> f.
Proof.
  intros Hrec Hb Hf Hfol H. unfold expand_ref in H.
  apply bind_Done in H as (rr & Hrr & H). set (g := x_obj rr) in *.
  apply bind_Done in H as (u & Hne & H). apply assert_that_Done in Hne.
  apply bool_decide_eq_true in Hne.
  apply bind_Done in H as (go & Hgo & H). apply get_obj_Done in Hgo.
  case_bool_decide as Hw.
  2:{ injection H as <-. split; [apply grown_refl|]. exists rr. split; [done|].
      split; [|done]. exists (work go). split; [by apply works_lookup|done]. }
  apply bind_Done in H as (fo & Hfo & H). apply get_obj_Done in Hfo.
  apply bind_Done in H as (st1 & H1 & H). apply upd_work_Done in H1 as (G1 & W1 & E1 & L1 & _).
  apply bind_Done in H as (st2 & H2 & H). apply upd_work_Done in H2 as (G2 & W2 & E2 & L2 & _).
  apply bind_Done in H as (c & _ & H). apply bind_Done in H as (u' & _ & H).
  apply bind_Done in H as (st3 & H3 & H).
  assert (Hwf : works st !! f = Some (work fo)) by by apply works_lookup.
  assert (Hwg : works st !! g = Some WNull) by (rewrite <- Hw; by apply works_lookup).
  assert (Hfn : work fo <> WNull).
  { destruct Hf as (w & Hw' & Hn). congruence. }
  assert (G12 : same_graph st st2) by by eapply same_graph_trans.
  assert (W12 : same_walk st st2) by by eapply same_walk_trans.
  assert (Hb2 : BUILD_LIST st2 = true) by by rewrite (same_walk_BUILD_LIST _ _ W12).
  assert (Hm2 : forall o, marked st2 o <-> o = g \/ marked st o).
  { intros o.
    rewrite (marked_insert (works st1) st2 f (WObj g) o E2)
      by (unfold works; by rewrite length_fmap).
    assert (Hlg : (g < length (works st))%nat) by by apply lookup_lt_Some in Hwg.
    split.
    - intros [[-> _]|[Ho (v & Hv & Hvn)]]; [by right|].
      rewrite E1 in Hv. destruct (decide (o = g)) as [->|Hog]; [by left|].
      rewrite list_lookup_insert_ne in Hv by done. right. by exists v.
    - intros [->|(v & Hv & Hvn)].
      + right. split; [done|]. exists (work fo). rewrite E1.
        rewrite list_lookup_insert_eq by done. done.
      + destruct (decide (o = f)) as [->|Hof]; [by left|]. right. split; [done|].
        destruct (decide (o = g)) as [->|Hog]; [congruence|].
        exists v. rewrite E1. by rewrite list_lookup_insert_ne. }
  destruct (Hrec g (depth + 1) st2 st3 Hb2) as ((G3 & W3 & M3 & N3) & He3); [|done|].
  { apply Hm2. by left. }
  assert (Hb3 : BUILD_LIST st3 = true) by by rewrite (same_walk_BUILD_LIST _ _ W3).
  rewrite Hb3 in H. simpl in H. injection H as <-.
  assert (Hedge : deps_of st (DO_EXPORTS st) f g) by by exists ref, rr.
  split.
  - split; [by eapply same_graph_trans|]. split; [by eapply same_walk_trans|].
    split; [intros o Ho; apply M3, Hm2; by right|].
    intros o Ho3 Ho. destruct (decide (o = g)) as [->|Hog].
    + split; [done|]. by apply rtc_once.
    + assert (Ho2 : ~ marked st2 o) by (rewrite Hm2; by intros [?|?]).
      destruct (N3 o Ho3 Ho2) as [He Hr]. split; [done|].
      apply rtc_l with g; [done|]. rewrite (same_walk_DO_EXPORTS _ _ W12) in Hr.
      apply (rtc_deps_same st2); [by apply same_graph_sym|done].
  - exists rr. split; [done|]. split; [|done]. apply M3, Hm2. by left.
Qed.

Lemma visits_same (st st' : State) (ref : option Xref) (y : Xref) :
  same_graph st st' -> same_walk st st' -> visits st ref y -> visits st' ref y.
Proof.
  intros G W. unfold visits. rewrite (same_walk_DO_EXPORTS _ _ W).
  destruct (DO_EXPORTS st); [|done]. by apply chain_reach_same.
Qed.

Lemma walk_refs_grown (rec : ObjF -> Z -> State -> res State) (fuel : nat) (f : ObjF)
    (depth : Z) :
  rec_grows rec ->
  forall ref st st',
    BUILD_LIST st = true -> marked st f ->
    (forall y, visits st ref y -> followed st (DO_EXPORTS st) f y) ->
    walk_refs rec fuel f depth ref st = Done st' ->
    grown f st st' /\
    forall y, visits st ref y ->
      exists rr, get_xref y st = Done rr /\ marked st' (x_obj rr) /\ x_obj rr <> f.
Proof.
  intros Hrec. induction fuel as [|fuel IH]; intros ref st st' Hb Hf Hfol; simpl.
  - destruct ref; [done|]. intros [= <-]. split; [apply grown_refl|].
    intros y Hy. unfold visits in Hy. destruct (DO_EXPORTS st); [inversion Hy|done].
  - destruct ref as [r|].
    2:{ intros [= <-]. split; [apply grown_refl|].
        intros y Hy. unfold visits in Hy. destruct (DO_EXPORTS st); [inversion Hy|done]. }
    intros H. apply bind_Done in H as (st1 & H1 & H). apply bind_Done in H as (nxt & Hn & H).
    assert (Hr : visits st (Some r) r).
    { unfold visits. destruct (DO_EXPORTS st); [constructor|done]. }
    destruct (expand_ref_grown rec f depth r st st1 Hrec Hb Hf (Hfol r Hr) H1)
      as (Hg1 & rr & Hrr & Hm1 & Hne1).
    pose proof Hg1 as (G1 & W1 & M1 & _).
    assert (Hnxt : forall y, visits st (Some r) y -> y = r \/ visits st nxt y).
    { intros y Hy. unfold visits in *. rewrite (same_walk_DO_EXPORTS _ _ W1) in Hn.
      destruct (DO_EXPORTS st).
      - unfold XREF_NEXT in Hn. rewrite (same_graph_xref st) in Hn by done.
        rewrite Hrr in Hn. simpl in Hn. injection Hn as <-.
        inversion Hy as [|x r0 y0 Hx Hc]; subst; [by left|right]. congruence.
      - left. congruence. }
    assert (Hvis : forall y, visits st nxt y -> visits st (Some r) y).
    { intros y Hy. unfold visits in *. rewrite (same_walk_DO_EXPORTS _ _ W1) in Hn.
      destruct (DO_EXPORTS st).
      - unfold XREF_NEXT in Hn. rewrite (same_graph_xref st) in Hn by done.
        rewrite Hrr in Hn. simpl in Hn. injection Hn as <-. by apply (chain_next _ r rr).
      - injection Hn as <-. done. }
    apply IH in H as [Hg2 Hall].
    + split; [by apply (grown_trans _ st st1)|]. intros y Hy.
      destruct (Hnxt y Hy) as [->|Hy'].
      * exists rr. split; [done|]. split; [|done].
        destruct Hg2 as (_ & _ & M2 & _). by apply M2.
      * destruct (Hall y) as (ry & Hry & Hmy); [by apply (visits_same st)|].
        exists ry. split; [|done]. by rewrite <- (same_graph_xref st st1).
    + by rewrite (same_walk_BUILD_LIST _ _ W1).
    + by apply M1.
    + intros y Hy. rewrite (same_walk_DO_EXPORTS _ _ W1).
      apply (followed_same st); [done|]. apply Hfol, Hvis.
      apply (visits_same st1); [by apply same_graph_sym| |done].
      destruct W1 as [? ?]. by split.
Qed.

(** The cross references followed from the [i]-th entry of the walked
    array of [f]. *)
Definition entry_visits (st : State) (f : ObjF) (i : nat) (y : Xref) : Prop :=
  exists o x s, objs st !! f = Some o /\ walked_array st o !! i = Some x /\
                syms st !! x_sym x = Some s /\ visits st (walked_chain st s) y.

Lemma entry_visits_followed (st : State) (f : ObjF) (i : nat) (y : Xref) :
  entry_visits st f i y -> followed st (DO_EXPORTS st) f y.
Proof.
  intros (o & x & s & Ho & Hx & Hs & Hv). exists o, x, s. split; [done|].
  unfold walked_array, walked_chain, visits in *. apply list_elem_of_lookup_2 in Hx.
  by destruct (DO_EXPORTS st).
Qed.

Lemma followed_entry_visits (st : State) (f : ObjF) (y : Xref) :
  followed st (DO_EXPORTS st) f y -> exists i, entry_visits st f i y.
Proof.
  intros (o & x & s & Ho & Hx & Hs & Hv).
  assert (Hx' : x ∈ walked_array st o) by (unfold walked_array; by destruct (DO_EXPORTS st)).
  apply list_elem_of_lookup in Hx' as (i & Hi). exists i, o, x, s.
  split; [done|]. split; [done|]. split; [done|].
  unfold walked_chain, visits. by destruct (DO_EXPORTS st).
Qed.

Lemma entry_visits_same (st st' : State) (f : ObjF) (i : nat) (y : Xref) :
  same_graph st st' -> same_walk st st' -> entry_visits st f i y -> entry_visits st' f i y.
Proof.
  intros G W (o & x & s & Ho & Hx & Hs & Hv).
  destruct (same_graph_fields _ _ G) as (Es & _ & _ & _ & Hobj).
  destruct (Hobj f o Ho) as (o' & Ho' & Ee & Ei & _).
  exists o', x, s. split; [done|]. split.
  { unfold walked_array in *. rewrite (same_walk_DO_EXPORTS _ _ W).
    destruct (DO_EXPORTS st); congruence. }
  split; [by rewrite Es|].
  assert (Ec : walked_chain st' s = walked_chain st s).
  { unfold walked_chain. by rewrite (same_walk_DO_EXPORTS _ _ W). }
  rewrite Ec. by apply (visits_same st).
Qed.

Lemma expand_entry_grown (rec : ObjF -> Z -> State -> res State) (f : ObjF) (depth : Z)
    (i : nat) (st st' : State) :
  rec_grows rec -> BUILD_LIST st = true -> marked st f ->
  expand_entry rec f depth i st = Done st' ->
  grown f st st' /\
  forall y, entry_visits st f i y ->
    exists rr, get_xref y st = Done rr /\ marked st' (x_obj rr) /\ x_obj rr <> f.
Proof.
  intros Hrec Hb Hf H. unfold expand_entry in H.
  apply bind_Done in H as (o & Ho & H). apply get_obj_Done in Ho.
  apply bind_Done in H as (x & Hx & H). apply deref_Done in Hx.
  apply bind_Done in H as (s & Hs & H). apply get_sym_Done in Hs.
  apply walk_refs_grown in H as [Hg Hall]; [|done..|].
  - split; [done|]. intros y (o' & x' & s' & Ho' & Hx' & Hs' & Hv).
    apply Hall. congruence.
  - intros y Hy. apply (entry_visits_followed st f i). by exists o, x, s.
Qed.

Lemma depwalk_body_grown (rec : ObjF -> Z -> State -> res State) (f : ObjF) (depth : Z)
    (st st' : State) :
  rec_grows rec -> BUILD_LIST st = true -> marked st f ->
  depwalk_body rec f depth st = Done st' -> grown f st st' /\ expanded st' f.
Proof.
  intros Hrec Hb Hf H. unfold depwalk_body in H.
  set (st0 := match depwalkAction st with
              | Some arg => depPrint arg f depth st | None => st end) in H.
  assert (H0 : same_graph st st0 /\ same_walk st st0 /\ works st0 = works st).
  { unfold st0. destruct (depwalkAction st) as [arg|]; [|done].
    destruct (depPrint_same arg f depth st) as (? & ? & E).
    split; [done|]. split; [done|]. unfold works. by rewrite E. }
  destruct H0 as (G0 & W0 & E0).
  assert (Hg0 : grown f st st0) by by apply grown_same.
  assert (Hb0 : BUILD_LIST st0 = true) by by rewrite (same_walk_BUILD_LIST _ _ W0).
  assert (Hf0 : marked st0 f) by (unfold marked; by rewrite E0).
  apply bind_Done in H as (o & Ho & H). apply get_obj_Done in Ho.
  set (Inv := fun (i : nat) (s : State) =>
                grown f st0 s /\
                forall j y, (j < i)%nat -> entry_visits st0 f j y ->
                  exists rr, get_xref y st0 = Done rr /\ marked s (x_obj rr) /\
                             x_obj rr <> f).
  assert (Hend : Inv (0 + length (walked_array st0 o))%nat st').
  { refine (for_each_seq_invariant Inv _ _ 0%nat _ _ _ _ H).
    - intros i s s' _ [Hg Hdone] Hs. pose proof Hg as (G & W & M & _).
      apply expand_entry_grown in Hs as [Hg' Hnew]; [|done| |].
      + split; [by apply (grown_trans _ st0 s)|]. intros j y Hj Hy.
        destruct (decide (j = i)) as [->|Hne].
        * destruct (Hnew y) as (rr & Hrr & Hm); [by apply (entry_visits_same st0)|].
          exists rr. split; [|done]. by rewrite <- (same_graph_xref st0 s).
        * destruct (Hdone j y) as (rr & Hrr & Hm & Hne'); [lia|done|].
          exists rr. split; [done|]. split; [|done].
          destruct Hg' as (_ & _ & M' & _). by apply M'.
      + by rewrite (same_walk_BUILD_LIST _ _ W).
      + by apply M.
    - split; [apply grown_refl|]. intros; lia. }
  destruct Hend as [Hg Hdone]. pose proof Hg as (G & W & M & _).
  split; [by apply (grown_trans _ st st0)|].
  intros g (ref & rr & Hfol & Hrr & Hgg).
  apply (followed_same _ st0) in Hfol; [|by apply same_graph_sym].
  rewrite (same_walk_DO_EXPORTS _ _ W) in Hfol.
  apply followed_entry_visits in Hfol as (i & Hi).
  assert (Hlt : (i < length (walked_array st0 o))%nat).
  { destruct Hi as (o' & x & s & Ho' & Hx & _). apply lookup_lt_Some in Hx. congruence. }
  destruct (Hdone i ref) as (rr' & Hrr' & Hm & Hne); [lia|done|].
  rewrite (same_graph_xref st0) in Hrr by done.
  assert (rr' = rr) as -> by congruence. by rewrite <- Hgg.
Qed.

Lemma depwalk_rec_grown (fuel : nat) : rec_grows (depwalk_rec fuel).
Proof.
  induction fuel as [|fuel IH]; intros g d s s' Hb Hg; simpl; [done|].
  by apply depwalk_body_grown.
Qed.

Lemma wl_work_list (st : State) (l : list ObjF) :
  forall fuel x, wl (works st) x l -> (length l < fuel)%nat ->
    work_list fuel (WObj x) st = Done (x :: l).
Proof.
  induction l as [|y l IH]; intros fuel x Hwl Hfuel; (destruct fuel as [|fuel]; [simpl in Hfuel; lia|]);
    change (work_list (S fuel) (WObj x) st)
      with (get_obj x st ≫= fun r => work_list fuel (work r) st ≫= fun l => Done (x :: l));
    simpl in Hwl.
  - unfold works in Hwl. rewrite list_lookup_fmap in Hwl. unfold get_obj.
    destruct (objs st !! x) as [r|]; [|done]. simpl in *. injection Hwl as ->.
    by destruct fuel.
  - destruct Hwl as [Hx Hwl]. unfold works in Hx. rewrite list_lookup_fmap in Hx.
    unfold get_obj. destruct (objs st !! x) as [r|]; [|done]. simpl in *.
    injection Hx as ->. rewrite (IH fuel y Hwl); [done|lia].
Qed.

(** The work list of a list-building walk and the objects the walk reaches. *)
Lemma depwalk_collects (f : ObjF) (action : option DepPrintArgRec) (mode : Z)
    (st st1 : State) :
  all_work_nil st -> flag_set mode WALK_BUILD_LIST = true ->
  depwalk f action mode st = Done st1 ->
  exists l, work_list (work_fuel st1) (WObj f) st1 = Done (f :: l) /\ NoDup (f :: l) /\
    (forall g, g ∈ f :: l <-> marked st1 g) /\
    (forall g, g ∈ f :: l <-> rtc (deps_of st (flag_set mode WALK_EXPORTS)) f g) /\
    forall g, g ∈ f :: l -> ~ deps_of st (flag_set mode WALK_EXPORTS) g g.
Proof.
  intros Hnil Hm H. pose proof (depwalk_Done _ _ _ _ _ H) as (G & _ & _ & _ & Hlist).
  destruct (Hlist Hm) as (_ & _ & Hex). destruct (Hex Hnil) as (l & Hinv).
  exists l. pose proof (work_list_length _ _ _ Hinv) as Hlen.
  pose proof Hinv as (Hwl & Hnd & Hmem).
  assert (Hmarked : forall g, g ∈ f :: l <-> marked st1 g).
  { intros g. split.
    - intros Hg. destruct (wl_valid _ _ _ Hwl g Hg) as [w Hw]. exists w. split; [done|].
      by apply (Hmem g w Hw).
    - intros (w & Hw & Hn). by apply (Hmem g w Hw). }
  split.
  { apply wl_work_list; [done|]. unfold work_fuel. unfold works in Hlen.
    rewrite length_fmap in Hlen. simpl in Hlen. lia. }
  split; [done|]. split; [done|].
  unfold depwalk in H. apply bind_Done in H as (o & Ho & H). apply get_obj_Done in Ho.
  apply bind_Done in H as (u & _ & H). apply bind_Done in H as (u' & _ & H).
  rewrite Hm in H.
  set (sta := set_depwalk None mode st) in H.
  apply bind_Done in H as (stb & Hup & H). apply upd_work_Done in Hup as (Gb & Wb & Eb & Lb & _).
  apply bind_Done in H as (stc & Hrec & H).
  assert (Hbb : BUILD_LIST stb = true).
  { rewrite (same_walk_BUILD_LIST _ _ Wb). exact Hm. }
  assert (Hdb : DO_EXPORTS stb = flag_set mode WALK_EXPORTS).
  { rewrite (same_walk_DO_EXPORTS _ _ Wb). done. }
  assert (Hmb : forall g, marked stb g <-> g = f).
  { intros g. rewrite (marked_insert (works sta) stb f WBusy g Eb)
      by (unfold works; by rewrite length_fmap).
    split; [intros [[-> _]|[_ (v & Hv & Hvn)]]; [done|]|intros ->; by left].
    change (works sta) with (works st) in Hv. unfold works in Hv.
    rewrite list_lookup_fmap in Hv. destruct (objs st !! g) as [og|] eqn:Eg; [|done].
    simpl in Hv. injection Hv as <-. by rewrite (Hnil g og Eg) in Hvn. }
  destruct (depwalk_rec_grown _ f 0 stb stc Hbb (proj2 (Hmb f) eq_refl) Hrec)
    as ((Gc & Wc & Mc & Nc) & Hexp).
  assert (Hbc : BUILD_LIST stc = true) by by rewrite (same_walk_BUILD_LIST _ _ Wc).
  rewrite Hbc in H. injection H as <-.
  change (marked (set_depwalk action (depwalkMode stc) stc)) with (marked stc) in Hmarked.
  assert (Gab : same_graph st stb) by (eapply same_graph_trans; [|exact Gb]; done).
  assert (Hdc : DO_EXPORTS stc = flag_set mode WALK_EXPORTS).
  { by rewrite (same_walk_DO_EXPORTS _ _ Wc). }
  assert (Hall : forall g, marked stc g ->
             expanded stc g /\ rtc (deps_of st (flag_set mode WALK_EXPORTS)) f g).
  { intros g Hg. destruct (decide (g = f)) as [->|Hne]; [by split|].
    destruct (Nc g Hg) as [He Hr]; [by rewrite Hmb|]. split; [done|].
    rewrite Hdb in Hr. apply (rtc_deps_same stb); [by apply same_graph_sym|done]. }
  assert (Gac : same_graph st stc) by (eapply same_graph_trans; [exact Gab|exact Gc]).
  split.
  - intros g. rewrite Hmarked. split; [intros Hg; by destruct (Hall g Hg)|].
    intros Hr. revert g Hr. apply (rtc_ind_r (fun g => marked stc g)).
    + apply Mc. by apply Hmb.
    + intros y z _ Hstep Hy. destruct (Hall y Hy) as [He _].
      destruct (He z) as [Hz _]; [|done]. rewrite Hdc. by apply (deps_of_same st).
  - intros g Hg Hself. apply Hmarked in Hg. destruct (Hall g Hg) as [He _].
    destruct (He g) as [_ Hne]; [|done]. rewrite Hdc. by apply (deps_of_same st).
Qed.

(** A list-building walk from [f], started with all work slots clear: the
    work list it returns starts with [f], holds no object twice, and holds
    exactly the objects reached from [f] in any number of steps of the
    walk: in exports mode a step goes to an object on the importer list of
    a symbol that the object exports, in imports mode to the first
    exporter of a symbol that it imports. *)
Theorem depwalk_list_is_closure (f : ObjF) (action : option DepPrintArgRec) (mode : Z)
    (st st1 : State) :
  all_work_nil st -> flag_set mode WALK_BUILD_LIST = true ->
  depwalk f action mode st = Done st1 ->
  exists l, work_list (work_fuel st1) (WObj f) st1 = Done (f :: l) /\ NoDup (f :: l) /\
    (forall g, g ∈ f :: l <-> marked st1 g) /\
    forall g, g ∈ f :: l <-> rtc (deps_of st (flag_set mode WALK_EXPORTS)) f g.
Proof.
  intros Hnil Hm H. destruct (depwalk_collects f action mode st st1 Hnil Hm H)
    as (l & H1 & H2 & H3 & H4 & _).
  by exists l.
Qed.

Definition drop_walked : State :=
  result_state (depwalk 2%nat None (Z.lor WALK_EXPORTS WALK_BUILD_LIST) drop_linked).

Lemma depwalk_list_is_closure_witness :
  exists l, work_list (work_fuel drop_walked) (WObj 2%nat) drop_walked = Done (2%nat :: l) /\
    NoDup (2%nat :: l) /\
    (forall g, g ∈ 2%nat :: l <-> marked drop_walked g) /\
    forall g, g ∈ 2%nat :: l <->
      rtc (deps_of drop_linked
             (flag_set (Z.lor WALK_EXPORTS WALK_BUILD_LIST) WALK_EXPORTS)) 2%nat g.
Proof.
  destruct (ldep_links_ok drop_inputs 1%nat drop_linked) as [_ Hnil].
  { vm_compute. reflexivity. }
  apply (depwalk_list_is_closure 2%nat None (Z.lor WALK_EXPORTS WALK_BUILD_LIST)
           drop_linked drop_walked Hnil).
  - vm_compute. reflexivity.
  - vm_compute. reflexivity.
Defined.

(** ** Removing what depends on undefined symbols (unlinkUndefs) *)

(** *** Unlinking keeps the order of the importer lists *)

(** [L] is the importer list of the symbol [s]. *)
Definition chain_of (st : State) (s : Sym) (L : list Xref) : Prop :=
  exists r, syms st !! s = Some r /\ is_chain st (importedFrom r) L.

(** Every importer list of [u] is what is left of the one of [t], in the
    same order. *)
Definition chains_shrink (t u : State) : Prop :=
  forall s L, chain_of t s L -> exists L', chain_of u s L' /\ sublist L' L.

Lemma is_chain_fun (st : State) (L1 : list Xref) :
  forall p L2, is_chain st p L1 -> is_chain st p L2 -> L1 = L2.
Proof.
  induction L1 as [|x L1 IH]; intros p [|y L2]; simpl; try congruence.
  - by intros -> [? _].
  - by intros [-> _] ?.
  - intros (-> & r & Hr & Hc) ([= <-] & r' & Hr' & Hc'). rewrite Hr in Hr'.
    injection Hr' as <-. f_equal. by apply (IH (x_next r)).
Qed.

Lemma chain_of_fun (st : State) (s : Sym) (L1 L2 : list Xref) :
  chain_of st s L1 -> chain_of st s L2 -> L1 = L2.
Proof.
  intros (r & Hr & Hc) (r' & Hr' & Hc'). rewrite Hr in Hr'. injection Hr' as <-.
  by apply (is_chain_fun st L1 (importedFrom r)).
Qed.

Lemma chains_shrink_refl (t : State) : chains_shrink t t.
Proof. intros s L H. by exists L. Qed.

Lemma chains_shrink_trans (t u v : State) :
  chains_shrink t u -> chains_shrink u v -> chains_shrink t v.
Proof.
  intros H1 H2 s L HL. destruct (H1 s L HL) as (L' & HL' & S1).
  destruct (H2 s L' HL') as (L'' & HL'' & S2). exists L''. split; [done|].
  by transitivity L'.
Qed.

(** Nothing of the importer lists is touched. *)
Lemma chains_shrink_same (t u : State) :
  syms u = syms t -> (forall x, get_xref x u = get_xref x t) -> chains_shrink t u.
Proof.
  intros Es Hx s L (r & Hr & Hc). exists L. split; [|done]. exists r.
  split; [by rewrite Es|]. apply (is_chain_frame t); [|done]. intros x _. apply Hx.
Qed.

Lemma unlink_import_shrinks (t : State) (g : ObjF) (i : nat) (u u' : State) :
  anchored t g -> uimp_inv t g i u -> unlink_import g i u = Done u' -> chains_shrink u u'.
Proof.
  intros Hg (Hsame & Hanc & Hnext & Hhead & Hinv & Hclean) H.
  set (imp := mkXref Imports g i) in *.
  set (D := fun x => anchored t (xr_obj x) /\ ~ (xr_obj x = g /\ (xr_idx x < i)%nat)) in *.
  unfold unlink_import in H. fold imp in H.
  apply bind_Done in H as (r & Hr & H). apply bind_Done in H as (s & Hs & H).
  apply get_sym_Done in Hs. apply bind_Done in H as (u1 & H1 & H).
  assert (Himp : isite u imp (x_sym r)) by (split; [done|]; eauto).
  assert (HDimp : D imp) by (split; [done|]; simpl; lia).
  destruct (Hinv _ _ Hs) as (L & Hc & Hnd & Hm).
  assert (HimpL : imp ∈ L) by (by apply Hm).
  assert (Hother : forall s' r' L', s' <> x_sym r -> syms u !! s' = Some r' ->
            is_chain u (importedFrom r') L' -> forall x, x ∈ L' -> isite u x s').
  { intros s' r' L' Hne Hs' Hc' x Hx. destruct (Hinv _ _ Hs') as (L0 & Hc0 & _ & Hm0).
    rewrite (is_chain_fun _ _ _ _ Hc' Hc0) in Hx. by apply Hm0 in Hx as [_ ?]. }
  (* the import leaves its list; the other lists do not hold it *)
  assert (Hu1 : chains_shrink u u1 /\
                (forall s' L', chain_of u1 s' L' -> imp ∉ L')).
  { case_bool_decide as Ehead.
    - apply set_importedFrom_views in H1 as (S1 & O1 & H1' & sr & Hsr & Esy).
      rewrite Hs in Hsr. injection Hsr as <-.
      assert (Hx : forall x, get_xref x u1 = get_xref x u)
        by (intros x; by apply get_xref_same_objs).
      rewrite Ehead in Hc. apply is_chain_head in Hc as (r0 & L2 & -> & Hr0 & Hc2).
      rewrite Hr in Hr0. injection Hr0 as <-.
      apply NoDup_cons in Hnd as [HiL2 Hnd2].
      assert (Hlt : (x_sym r < length (syms u))%nat) by by apply lookup_lt_Some in Hs.
      assert (Hnew : chain_of u1 (x_sym r) L2).
      { exists (with_importedFrom (x_next r) s). split.
        - rewrite Esy. by apply list_lookup_insert_eq.
        - simpl. apply (is_chain_frame u); [|done]. intros x _. apply Hx. }
      assert (Hold : forall s' L', s' <> x_sym r -> chain_of u s' L' <-> chain_of u1 s' L').
      { intros s' L' Hne. unfold chain_of. rewrite Esy.
        rewrite list_lookup_insert_ne by done.
        split; intros (r' & Hr' & Hc'); exists r'; (split; [done|]).
        - apply (is_chain_frame u); [|done]. intros x _. apply Hx.
        - apply (is_chain_frame u1); [|done]. intros x _. symmetry. apply Hx. }
      split.
      + intros s' L' HL'. destruct (decide (s' = x_sym r)) as [->|Hne].
        * exists L2. split; [done|].
          assert (L' = imp :: L2) as ->; [|by apply sublist_cons].
          apply (chain_of_fun u (x_sym r)); [done|]. exists s. split; [done|].
          rewrite Ehead. simpl. split; [done|]. eauto.
        * exists L'. split; [by apply Hold|done].
      + intros s' L' HL'. destruct (decide (s' = x_sym r)) as [->|Hne].
        * by rewrite (chain_of_fun _ _ _ _ HL' Hnew).
        * apply Hold in HL' as (r' & Hr' & Hc'); [|done]. intros Hin.
          apply Hne. apply (isite_fun u imp); [|done]. by apply (Hother s' r' L').
    - apply bind_Done in H1 as (po & Hfp & H1). destruct po as [p|]; [|done].
      destruct (find_pred_Done _ _ _ _ _ L Hfp Hc) as (L1 & L2 & ->).
      assert (HpL : p ∈ L1 ++ p :: imp :: L2) by (apply elem_of_app; right; by left).
      pose proof (proj1 (Hm p) HpL) as [HDp Hps].
      pose proof Hps as (Hpa & _).
      pose proof (is_chain_unlink u u1 imp p r L1 L2 _ Hc Hnd Hr H1) as Hc1.
      apply set_import_next_views in H1 as (S1 & A1 & N1 & H1' & Esy & Hx); [|done].
      assert (Hnew : chain_of u1 (x_sym r) (L1 ++ p :: L2)).
      { exists s. split; [by rewrite Esy|done]. }
      assert (Hold : forall s' L', s' <> x_sym r -> chain_of u s' L' -> chain_of u1 s' L').
      { intros s' L' Hne (r' & Hr' & Hc'). exists r'. split; [by rewrite Esy|].
        apply (is_chain_frame u); [|done]. intros x Hin. rewrite Hx.
        rewrite decide_False; [done|]. intros ->.
        apply Hne. apply (isite_fun u p); [|done]. by apply (Hother s' r' L'). }
      split.
      + intros s' L' HL'. destruct (decide (s' = x_sym r)) as [->|Hne].
        * exists (L1 ++ p :: L2). split; [done|].
          assert (L' = L1 ++ p :: imp :: L2) as ->.
          { apply (chain_of_fun u (x_sym r)); [done|]. by exists s. }
          apply sublist_app; [done|]. apply sublist_skip. by apply sublist_cons.
        * exists L'. split; [by apply Hold|done].
      + intros s' L' HL'. destruct (decide (s' = x_sym r)) as [->|Hne].
        * rewrite (chain_of_fun _ _ _ _ HL' Hnew). intros Hin.
          apply NoDup_app in Hnd as (N1' & N2' & N3').
          apply NoDup_cons in N3' as [Hp3 N3']. apply NoDup_cons in N3' as [Hi3 N3'].
          apply elem_of_app in Hin as [Hin|Hin].
          -- apply (N2' imp Hin). right. by left.
          -- apply elem_of_cons in Hin as [Hin|Hin]; [|done].
             apply Hp3. rewrite <- Hin. by left.
        * destruct HL' as (r' & Hr' & Hc'). rewrite Esy in Hr'.
          destruct (Hinv _ _ Hr') as (L0 & Hc0 & _ & Hm0).
          assert (Hc0' : is_chain u1 (importedFrom r') L0).
          { apply (is_chain_frame u); [|done]. intros x Hin. rewrite Hx.
            rewrite decide_False; [done|]. intros ->. apply Hm0 in Hin as [_ Hin].
            apply Hne. by apply (isite_fun u p). }
          rewrite (is_chain_fun _ _ _ _ Hc' Hc0'). intros Hin. apply Hm0 in Hin as [_ Hin].
          apply Hne. by apply (isite_fun u imp). }
  destruct Hu1 as [Hs1 Hno].
  apply set_import_next_views in H as (S2 & A2 & N2 & H2 & Esy2 & Hx2); [|done].
  apply (chains_shrink_trans _ u1); [done|].
  intros s' L' HL'. exists L'. split; [|done]. pose proof (Hno s' L' HL') as Hni.
  destruct HL' as (r' & Hr' & Hc'). exists r'. split; [by rewrite Esy2|].
  apply (is_chain_frame u1); [|done]. intros x Hin. rewrite Hx2.
  rewrite decide_False; [done|]. by intros ->.
Qed.

Lemma write_plink_chains (pl : plink) (v : option ObjF) (u u' : State) :
  write_plink pl v u = Done u' -> chains_shrink u u'.
Proof.
  destruct pl as [a|o]; simpl; intros H.
  - injection H as <-. apply chains_shrink_same; [done|].
    intros x. by apply get_xref_same_objs.
  - apply chains_shrink_same; [by apply (upd_obj_syms o (with_link_next v) u)|].
    intros x. by apply (get_xref_upd_keep o (with_link_next v)).
Qed.

Lemma doUnlink_shrinks (g : ObjF) (d : Z) (c c' : unit) (t t' : State) :
  links_ok t -> doUnlink g d c t = Done (c', t') -> chains_shrink t t'.
Proof.
  intros Hok H. unfold doUnlink in H.
  set (t0 := if flag_set (verbose t) DEBUG_UNLINK then emit (E_removing g) t else t) in H.
  assert (E0 : objs t0 = objs t /\ syms t0 = syms t /\ (forall a, set_head a t0 = set_head a t)).
  { unfold t0. by destruct (flag_set _ _). }
  destruct E0 as (Eo0 & Es0 & Eh0).
  assert (Hok0 : links_ok t0) by by apply (links_ok_same t).
  assert (Hs0 : chains_shrink t t0).
  { apply chains_shrink_same; [done|]. intros x. by apply get_xref_same_objs. }
  apply bind_Done in H as (o & Ho & H). apply get_obj_Done in Ho.
  apply bind_Done in H as (u & Hloop & H).
  assert (Hanc_loop : forall h, anchor_of u h = anchor_of t0 h).
  { refine (for_each_keeps (fun s => forall h, anchor_of s h = anchor_of t0 h) _ _ _ _ _ _ Hloop);
      [|done].
    intros i s s' _ Hs Hb h. by rewrite (unlink_import_anchor _ _ _ _ Hb). }
  apply bind_Done in H as (o2 & Ho2 & H). apply get_obj_Done in Ho2.
  apply bind_Done in H as (a & Ha & H). apply deref_Done in Ha.
  assert (Hg : anchored t0 g).
  { unfold anchored. rewrite <- Hanc_loop. unfold anchor_of. rewrite Ho2. simpl. by rewrite Ha. }
  assert (Hloop' : uimp_inv t0 g (0 + length (imports o)) u /\ chains_shrink t0 u).
  { refine (for_each_seq_invariant (fun i s => uimp_inv t0 g i s /\ chains_shrink t0 s)
              _ (length (imports o)) 0%nat _ _ _ _ Hloop).
    - intros i s s' _ [Hi Hs] Hb. split; [by apply (unlink_import_spec t0 g i s)|].
      apply (chains_shrink_trans _ s); [done|]. by apply (unlink_import_shrinks t0 g i).
    - split; [by apply uimp_inv_start|apply chains_shrink_refl]. }
  destruct Hloop' as [_ Hsu].
  apply bind_Done in H as (pl & Hpl & H). apply bind_Done in H as (v & Hv & H).
  apply bind_Done in H as (x & _ & H). apply bind_Done in H as (u1 & Hw & H).
  apply bind_Done in H as (u2 & Hupd & [= _ <-]).
  apply write_plink_chains in Hw.
  assert (Hs2 : chains_shrink u1 u2).
  { apply chains_shrink_same; [by apply (upd_obj_syms g (fun o => with_anchor None (with_link_next None o)) u1)|].
    intros y. by apply (get_xref_upd_keep g (fun o => with_anchor None (with_link_next None o))). }
  apply (chains_shrink_trans _ t0); [done|]. apply (chains_shrink_trans _ u); [done|].
  apply (chains_shrink_trans _ u1); [done|]. apply (chains_shrink_trans _ u2); [done|].
  clear. destruct (flag_set _ _); [|apply chains_shrink_refl].
  apply chains_shrink_same; [done|]. intros y. by apply get_xref_same_objs.
Qed.

Lemma workListIterate_unlink_shrinks (fuel : nat) :
  forall w d c st c' st',
    links_ok st -> workListIterate fuel w doUnlink d c st = Done (c', st') ->
    chains_shrink st st'.
Proof.
  induction fuel as [|fuel IH]; intros w d c st c' st' Hok H.
  - destruct w; simpl in H; [injection H as <- <-..|done]; apply chains_shrink_refl.
  - destruct w as [| |o]; simpl in H; [injection H as <- <-..|].
    1,2: apply chains_shrink_refl.
    apply bind_Done in H as ([c1 st1] & Hu & H).
    pose proof (doUnlink_shrinks _ _ _ _ _ _ Hok Hu) as Hs1.
    apply doUnlink_spec in Hu as (Hok1 & _); [|done].
    apply bind_Done in H as (r & Hr & H). apply IH in H; [|done].
    by apply (chains_shrink_trans _ st1).
Qed.

Lemma chains_shrink_same_graph (t u : State) : same_graph t u -> chains_shrink t u.
Proof.
  intros G. apply chains_shrink_same; [by apply same_graph_syms|].
  intros x. by apply same_graph_xref.
Qed.

(** *** One call of [unlinkObj] *)

(** [g] depends on [f]: it is met from [f] by going, any number of times,
    from an object to an importer of a symbol the object exports. *)
Definition dependent (st : State) (f g : ObjF) : Prop := rtc (deps_of st true) f g.

(** What a call of [unlinkObj(f)] that returns has done: if it refuses, an
    object that depends on [f] is in the Application set and the graph is
    as it was; if not, the objects that depend on [f] have lost their
    anchor and nothing else has. *)
Definition unlink_step (f : ObjF) (rej : Z) (st st' : State) : Prop :=
  links_ok st' /\ all_work_nil st' /\ same_files st st' /\ chains_shrink st st' /\
  exists l : list ObjF, (forall g, g ∈ l <-> dependent st f g) /\
    ((rej <> 0 /\ (exists m, m ∈ l /\ in_app st m) /\ same_graph st st') \/
     (rej = 0 /\ (forall m, m ∈ l -> anchored st m /\ ~ in_app st m) /\
      forall h, anchor_of st' h = if decide (h ∈ l) then None else anchor_of st h)).

Lemma unlinkObj_step (f : ObjF) (rej : Z) (st st' : State) :
  links_ok st -> all_work_nil st -> unlinkObj f st = Done (rej, st') ->
  unlink_step f rej st st'.
Proof.
  intros Hok Hnil H. unfold unlinkObj in H. apply bind_Done in H as (st1 & H1 & H).
  pose proof (depwalk_Done _ _ _ _ _ H1) as (G1 & _ & _ & _ & Hbuild).
  destruct Hbuild as (_ & _ & Hwl); [done|]. destruct (Hwl Hnil) as (l0 & Hl0).
  destruct (depwalk_collects f None (Z.lor WALK_EXPORTS WALK_BUILD_LIST) st st1 Hnil eq_refl H1)
    as (l1 & Hl1 & _ & _ & Hdep & _).
  change (flag_set (Z.lor WALK_EXPORTS WALK_BUILD_LIST) WALK_EXPORTS) with true in Hdep.
  apply bind_Done in H as ([rej' st2] & H2 & H).
  apply workListIterate_check in H2 as (E2 & G2 & W2 & l & Hl & Hrej).
  rewrite Hl1 in Hl. injection Hl as <-.
  apply bind_Done in H as (st3 & H3 & H). apply bind_Done in H as (st4 & H4 & [= -> <-]).
  assert (G12 : same_graph st st2) by by apply (same_graph_trans _ st1).
  assert (Hok2 : links_ok st2) by by apply (links_ok_same_graph st).
  assert (Hin : forall m, in_app st1 m <-> in_app st m).
  { intros m. split; apply same_graph_in_app; [by apply same_graph_sym|done]. }
  destruct (decide (rej = 0)) as [->|Hne].
  - destruct Hrej as [(? & _)|(_ & Hno)]; [done|].
    change (0 =? 0) with true in H3. cbv iota in H3.
    apply bind_Done in H3 as ([c3 st2a] & Hu & H3).
    apply bind_Done in H3 as ([c4 st2b] & Hs & [= <-]).
    pose proof (workListIterate_unlink_shrinks _ _ _ _ _ _ _ Hok2 Hu) as Hsh.
    apply workListIterate_unlink in Hu as (l' & Hl' & Hnd & Hanc & Hok3 & S3 & Hanc3); [|done].
    assert (El : l' = f :: l1).
    { assert (E : work_list (work_fuel st2) (WObj f) st2
                  = work_list (work_fuel st1) (WObj f) st1).
      { unfold work_fuel. rewrite E2. apply work_list_frame. intros h. by rewrite E2. }
      rewrite E, Hl1 in Hl'. by injection Hl'. }
    subst l'. apply workListIterate_sanity in Hs as (-> & _).
    assert (Ew : works st2a = works st1).
    { rewrite (same_links_works _ _ S3). unfold works. by rewrite E2. }
    apply (depwalkListRelease_Done f l0) in H4 as (G4 & Hnil4 & _); [|by rewrite Ew].
    split; [by apply (links_ok_same_graph st2a)|]. split; [done|]. split.
    { apply (same_files_trans _ st2); [by apply same_graph_files|].
      apply (same_files_trans _ st2a); [by apply same_links_files|by apply same_graph_files]. }
    split.
    { apply (chains_shrink_trans _ st2); [by apply chains_shrink_same_graph|].
      apply (chains_shrink_trans _ st2a); [done|by apply chains_shrink_same_graph]. }
    exists (f :: l1). split; [done|]. right. split; [done|]. split.
    + intros m Hm. split.
      * pose proof (Hanc m Hm) as Ha. unfold anchored in *.
        by rewrite (same_graph_anchor_of _ _ m G12) in Ha.
      * intros Ha. apply (Hno m Hm). by apply Hin.
    + intros h. rewrite (same_graph_anchor_of _ _ h G4), Hanc3.
      by rewrite (same_graph_anchor_of _ _ h G12).
  - assert (Hz : (rej =? 0) = false) by by apply Z.eqb_neq.
    rewrite Hz in H3. injection H3 as <-.
    apply (depwalkListRelease_Done f l0) in H4 as (G4 & Hnil4 & _).
    2:{ unfold works. rewrite E2. exact Hl0. }
    assert (G : same_graph st st4) by by apply (same_graph_trans _ st2).
    split; [by apply (links_ok_same_graph st)|]. split; [done|].
    split; [by apply same_graph_files|]. split; [by apply chains_shrink_same_graph|].
    exists (f :: l1). split; [done|]. left. split; [done|]. split; [|done].
    destruct Hrej as [(_ & m & Hm & Ha)|(-> & _)]; [|done].
    exists m. split; [done|]. by apply Hin.
Qed.

(** *** unlinkUndefs *)

(** What [unlinkUndefs] itself writes to the debug file. *)
Inductive undef_msg :=
  | U_removing (sname : string)    (* "removing objects depending on '%s'..." *)
  | U_skipping (oname : string)    (* "skipping application dependeny; object '%s'" *)
  | U_done.                        (* "done." *)

(** Its messages, each with the number of events that were written before
    it: [unlinkObj] writes to the same file in between. *)
Abbreviation ulog := (list (nat * undef_msg)) (only parsing).

Definition say (m : undef_msg) (log : ulog) (st : State) : ulog :=
  log ++ [(length (out st), m)].

(** [while (ex->sym->importedFrom && 0 == unlinkObj(ex->sym->importedFrom->obj))];
    every call that is not refused takes the head off the list, with its
    object. *)
Fixpoint unlink_heads (fuel : nat) (s : Sym) (st : State) : res State :=
  r ← get_sym s st;
  match importedFrom r with
  | None => Done st
  | Some x =>
      match fuel with
      | O => OutOfFuel
      | S fuel' =>
          xr ← get_xref x st;
          '(rej, st) ← unlinkObj (x_obj xr) st;
          if rej =? 0 then unlink_heads fuel' s st else Done st
      end
  end.

(** [while ((n = XREF_NEXT(p)) && 0 == unlinkObj(n->obj))]; the result is [n]. *)
Fixpoint unlink_after (fuel : nat) (p : Xref) (st : State) : res (option Xref * State) :=
  n ← XREF_NEXT p st;
  match n with
  | None => Done (None, st)
  | Some nx =>
      match fuel with
      | O => OutOfFuel
      | S fuel' =>
          xr ← get_xref nx st;
          '(rej, st) ← unlinkObj (x_obj xr) st;
          if rej =? 0 then unlink_after fuel' p st else Done (Some nx, st)
      end
  end.

(** The loop [do ... while (p = n)]: [p] goes along the importer list; an
    object is unlinked at most once and the list has no more elements than
    there are cross references. *)
Fixpoint skip_app (fuel : nat) (p : Xref) (log : ulog) (st : State) : res (ulog * State) :=
  match fuel with
  | O => OutOfFuel
  | S fuel' =>
      log ← (if flag_set (verbose st) DEBUG_UNLINK then
               pr ← get_xref p st;
               nm ← printObjName (x_obj pr) st;
               Done (say (U_skipping nm) log st)
             else Done log);
      '(n, st) ← unlink_after (S (length (objs st))) p st;
      match n with
      | None => Done (log, st)
      | Some n => skip_app fuel' n log st
      end
  end.

(** The body of the loop over the exports of [undefSymPod]. *)
Definition unlink_undef (i : nat) (acc : ulog * State) : res (ulog * State) :=
  let '(log, st) := acc in
  q ← get_obj 0%nat st;
  ex ← deref (exports q !! i);
  log ← (if flag_set (verbose st) DEBUG_UNLINK then
           s ← get_sym (x_sym ex) st; Done (say (U_removing (s_name s)) log st)
         else Done log);
  st ← unlink_heads (S (length (objs st))) (x_sym ex) st;
  s ← get_sym (x_sym ex) st;
  '(log, st) ← match importedFrom s with
               | Some p => skip_app (S (nxrefs st)) p log st
               | None => Done (log, st)
               end;
  Done (if flag_set (verbose st) DEBUG_UNLINK then say U_done log st else log, st).

Definition unlinkUndefs (st : State) : res (Z * ulog * State) :=
  q ← get_obj 0%nat st;
  '(log, st) ← for_each (seq 0 (length (exports q))) unlink_undef ([], st);
  Done (0, log, st).

(** *** What stays of the graph *)

Lemma skel_same_graph (st : State) : same_graph st (skel st).
Proof.
  unfold same_graph, skel. simpl. f_equal. rewrite <- list_fmap_compose.
  apply list_fmap_ext. by intros i [].
Qed.

Lemma same_files_skel (st st' : State) : same_files st st' -> same_links (skel st) (skel st').
Proof. done. Qed.

Lemma same_files_sym (st st' : State) : same_files st st' -> same_files st' st.
Proof. unfold same_files. congruence. Qed.

Lemma same_files_xref (st st' : State) (x : Xref) (r : XrefRec) :
  same_files st st' -> get_xref x st = Done r ->
  exists r', get_xref x st' = Done r' /\ x_sym r' = x_sym r /\ x_obj r' = x_obj r.
Proof.
  intros H Hx. rewrite <- (same_graph_xref st (skel st)) in Hx by apply skel_same_graph.
  destruct (same_links_xref _ _ _ _ (same_files_skel _ _ H) Hx) as (r' & Hr' & E).
  exists r'. split; [|done]. by rewrite <- (same_graph_xref st' (skel st')) by apply skel_same_graph.
Qed.

Lemma same_files_exports (st st' : State) (f : ObjF) (o : ObjFRec) :
  same_files st st' -> objs st !! f = Some o ->
  exists o', objs st' !! f = Some o' /\ exports o' = exports o /\
             length (imports o') = length (imports o).
Proof.
  intros H Ho.
  destruct (same_graph_obj _ _ _ _ (skel_same_graph st) Ho) as (o1 & Ho1 & E1).
  destruct (same_links_obj _ _ _ _ (same_files_skel _ _ H) Ho1) as (o2 & Ho2 & E2).
  destruct (same_graph_obj _ _ _ _ (same_graph_sym _ _ (skel_same_graph st')) Ho2)
    as (o' & Ho' & E3).
  exists o'. split; [done|].
  apply (f_equal exports) in E1 as X1, E2 as X2, E3 as X3.
  apply (f_equal imports) in E1 as I1, E2 as I2, E3 as I3. simpl in *.
  split; [congruence|]. apply (f_equal length) in I2. rewrite !length_fmap in I2. congruence.
Qed.

Lemma same_files_syms (st st' : State) (s : Sym) (r : SymRec) :
  same_files st st' -> syms st !! s = Some r ->
  exists r', syms st' !! s = Some r' /\ s_name r' = s_name r /\ exportedBy r' = exportedBy r.
Proof. intros H Hs. by apply (same_links_sym_rec _ _ _ _ (same_files_skel _ _ H)). Qed.

Lemma same_files_isite (st st' : State) (x : Xref) (s : Sym) :
  same_files st st' -> isite st x s -> isite st' x s.
Proof.
  intros H (Ha & r & Hr & Hs). split; [done|].
  destruct (same_files_xref _ _ _ _ H Hr) as (r' & Hr' & Es & _). exists r'. split; [done|].
  congruence.
Qed.

Lemma same_files_obj_ptrs (st st' : State) :
  same_files st st' -> obj_ptrs_ok st -> obj_ptrs_ok st'.
Proof.
  intros H Hp x r' Hr'.
  destruct (same_files_xref _ _ _ _ (same_files_sym _ _ H) Hr') as (r & Hr & _ & Eo).
  rewrite <- Eo. by apply Hp.
Qed.

(** The importer list of a symbol, in a sound graph. *)
Lemma links_ok_chain (st : State) (s : Sym) (r : SymRec) :
  links_ok st -> syms st !! s = Some r ->
  exists L, chain_of st s L /\ NoDup L /\
            forall x, x ∈ L <-> anchored st (xr_obj x) /\ isite st x s.
Proof.
  intros (_ & Hinv & _) Hs. destruct (Hinv s r Hs) as (L & Hc & Hnd & Hm).
  exists L. split; [by exists r|done].
Qed.

(** A step from [m] to [g] of the walk along importers stays when [g] stays
    in its link set. *)
Lemma deps_of_stays (st st' : State) (m g : ObjF) :
  links_ok st -> links_ok st' -> obj_ptrs_ok st -> same_files st st' ->
  anchored st' g -> deps_of st true m g -> deps_of st' true m g.
Proof.
  intros Hok Hok' Hp Hf Hg (ref & rr & (o & e & s & Ho & He & Hs & Hc) & Hrr & Hgg).
  destruct (same_files_exports _ _ _ _ Hf Ho) as (o' & Ho' & Ee & _).
  destruct (same_files_syms _ _ _ _ Hf Hs) as (s' & Hs' & _).
  destruct (same_files_xref _ _ _ _ Hf Hrr) as (rr' & Hrr' & _ & Eo).
  destruct (links_ok_chain st _ _ Hok Hs) as (L & (r0 & Hr0 & HL) & _ & Hm).
  rewrite Hs in Hr0. injection Hr0 as <-.
  pose proof (chain_reach_in_chain _ _ _ _ HL Hc) as Hin. apply Hm in Hin as [_ Hsite].
  destruct (links_ok_chain st' _ _ Hok' Hs') as (L' & (r1 & Hr1 & HL') & _ & Hm').
  rewrite Hs' in Hr1. injection Hr1 as <-.
  assert (Hin' : ref ∈ L').
  { apply Hm'. split; [|by apply (same_files_isite st)].
    rewrite <- (Hp ref rr Hrr). by rewrite Hgg. }
  exists ref, rr'. split; [|split; [done|congruence]].
  exists o', e, s'. split; [done|]. split; [by rewrite Ee|]. split; [done|].
  by apply (is_chain_reach st' L').
Qed.

(** A step of the walk in what is left of the graph is a step in the graph. *)
Lemma deps_of_was (st st' : State) (m g : ObjF) :
  links_ok st -> same_files st st' -> chains_shrink st st' ->
  deps_of st' true m g -> deps_of st true m g.
Proof.
  intros Hok Hf Hsh (ref & rr' & (o' & e & s' & Ho' & He & Hs' & Hc') & Hrr' & Hgg).
  pose proof (same_files_sym _ _ Hf) as Hf'.
  destruct (same_files_exports _ _ _ _ Hf' Ho') as (o & Ho & Ee & _).
  destruct (same_files_syms _ _ _ _ Hf' Hs') as (s & Hs & _).
  destruct (same_files_xref _ _ _ _ Hf' Hrr') as (rr & Hrr & _ & Eo).
  destruct (links_ok_chain st _ _ Hok Hs) as (L & HL & _ & Hm).
  destruct (Hsh _ _ HL) as (L' & (r1 & Hr1 & HL') & Hsub).
  rewrite Hs' in Hr1. injection Hr1 as <-.
  pose proof (chain_reach_in_chain _ _ _ _ HL' Hc') as Hin'.
  assert (Hin : ref ∈ L) by by apply (elem_of_submseteq L' L ref Hin'), sublist_submseteq.
  destruct HL as (r0 & Hr0 & HL). rewrite Hs in Hr0. injection Hr0 as <-.
  exists ref, rr. split; [|split; [done|congruence]].
  exists o, e, s. split; [done|]. split; [by rewrite Ee|]. split; [done|].
  by apply (is_chain_reach st L).
Qed.

Lemma dependent_was (st st' : State) (f g : ObjF) :
  links_ok st -> same_files st st' -> chains_shrink st st' ->
  dependent st' f g -> dependent st f g.
Proof.
  intros Hok Hf Hsh. induction 1 as [|x y z Hxy _ IH]; [constructor|].
  econstructor; [|exact IH]. by apply (deps_of_was st st').
Qed.

(** [g] is needed by the application: an object that depends on it is in
    the Application set. *)
Definition needed (st : State) (g : ObjF) : Prop :=
  exists a, dependent st g a /\ in_app st a.

(** The object a step of the walk goes to is in a link set. *)
Lemma deps_of_anchored (st : State) (m g : ObjF) :
  links_ok st -> obj_ptrs_ok st -> deps_of st true m g -> anchored st g.
Proof.
  intros Hok Hp (ref & rr & (o & e & s & Ho & He & Hs & Hc) & Hrr & Hgg).
  destruct (links_ok_chain st _ _ Hok Hs) as (L & (r0 & Hr0 & HL) & _ & Hm).
  rewrite Hs in Hr0. injection Hr0 as <-.
  pose proof (chain_reach_in_chain _ _ _ _ HL Hc) as Hin. apply Hm in Hin as [Ha _].
  rewrite <- Hgg, (Hp ref rr Hrr). done.
Qed.

Lemma in_app_anchor (st : State) (a : ObjF) :
  in_app st a <-> anchor_of st a = Some appLinkSet.
Proof.
  unfold in_app, anchor_of. split.
  - intros (o & -> & Ha). done.
  - destruct (objs st !! a) as [o|]; [|done]. simpl. intros Ha. by exists o.
Qed.

(** An object that is needed by the application stays so when objects are
    unlinked. *)
Lemma needed_step (f : ObjF) (rej : Z) (st st' : State) (g : ObjF) :
  links_ok st -> obj_ptrs_ok st -> unlink_step f rej st st' ->
  needed st g -> needed st' g /\ anchor_of st' g = anchor_of st g.
Proof.
  intros Hok Hp (Hok' & _ & Hf & _ & l & Hl & Hcase) (a & Hga & Ha).
  destruct Hcase as [(_ & _ & G)|(_ & Hnone & Hanc)].
  - split; [|by apply same_graph_anchor_of]. exists a.
    split; [by apply (rtc_deps_same st)|by apply (same_graph_in_app st)].
  - assert (Hout : forall m, dependent st m a -> m ∉ l).
    { intros m Hm Hin. apply Hl in Hin.
      assert (Hal : a ∈ l) by (apply Hl; by apply (rtc_trans _ m)).
      by destruct (Hnone a Hal). }
    assert (Hkeep : forall m, dependent st m a -> anchor_of st' m = anchor_of st m).
    { intros m Hm. rewrite Hanc. by rewrite decide_False by by apply Hout. }
    split; [|by apply Hkeep]. exists a. split.
    + clear Hout. induction Hga as [|x y z Hxy Hyz IH]; [constructor|].
      apply rtc_l with y; [|by apply IH].
      apply (deps_of_stays st); [done..| |done].
      unfold anchored. rewrite (Hkeep y Hyz). by apply (deps_of_anchored st x).
    + apply in_app_anchor. rewrite (Hkeep a); [by apply in_app_anchor|constructor].
Qed.

(** *** The loops of [unlinkUndefs] *)

Lemma sublist_keep {A} (l1 : list A) :
  forall l' l2, sublist l' (l1 ++ l2) -> NoDup (l1 ++ l2) -> (forall x, x ∈ l1 -> x ∈ l') ->
    exists l2', l' = l1 ++ l2' /\ sublist l2' l2.
Proof.
  induction l1 as [|a l1 IH]; intros l' l2 Hsub Hnd Hin; simpl in *; [by exists l'|].
  apply NoDup_cons in Hnd as [Ha Hnd].
  apply sublist_cons_r in Hsub as [Hsub|(l'' & -> & Hsub)].
  - exfalso. apply Ha. apply (elem_of_submseteq l'); [|by apply sublist_submseteq].
    apply Hin. by left.
  - destruct (IH l'' l2 Hsub Hnd) as (l2' & -> & Hs2).
    + intros x Hx. assert (Hx' : x ∈ a :: l'') by (apply Hin; by right).
      apply elem_of_cons in Hx' as [->|Hx']; [|done]. exfalso. apply Ha.
      apply elem_of_app. by left.
    + by exists l2'.
Qed.

Lemma is_chain_app_cons (st : State) (pre : list Xref) (p : Xref) (post : list Xref) :
  forall q, is_chain st q (pre ++ p :: post) ->
    exists r, get_xref p st = Done r /\ is_chain st (x_next r) post.
Proof.
  induction pre as [|y pre IH]; intros q; simpl.
  - intros (_ & r & Hr & Hc). eauto.
  - intros (_ & r & _ & Hc). by apply (IH (x_next r)).
Qed.

(** [f] holds an entry of the importer list of the symbol [s]. *)
Definition imports_sym (st : State) (s : Sym) (f : ObjF) : Prop :=
  exists L x, chain_of st s L /\ x ∈ L /\ xr_obj x = f.

(** [undefSymPod] exports [s]: no object of the input defines it. *)
Definition undef_sym (st : State) (s : Sym) : Prop :=
  exists q e, objs st !! 0%nat = Some q /\ e ∈ exports q /\ x_sym e = s.

(** [f] holds a linked import of an undefined symbol. *)
Definition undef_root (st : State) (f : ObjF) : Prop :=
  exists s, undef_sym st s /\ imports_sym st s f.

(** What calls of [unlinkObj] need and keep. *)
Definition unlink_ok (st : State) : Prop :=
  links_ok st /\ all_work_nil st /\ obj_ptrs_ok st.

(** Every entry of the importer list of [s] belongs to an object the
    application needs. *)
Definition settled (st : State) (s : Sym) : Prop :=
  (exists r, syms st !! s = Some r) /\
  forall L x, chain_of st s L -> x ∈ L -> needed st (xr_obj x).

(** [st] is what calls of [unlinkObj] for objects that hold a linked import
    of an undefined symbol have left of [st0]. *)
Definition unlinked_to (st0 st : State) : Prop :=
  unlink_ok st /\ same_files st0 st /\ chains_shrink st0 st /\
  (forall g, needed st0 g -> needed st g /\ anchor_of st g = anchor_of st0 g) /\
  (forall h, anchor_of st h = anchor_of st0 h \/
             (anchor_of st h = None /\ ~ in_app st0 h /\
              exists f, undef_root st0 f /\ dependent st0 f h)).

Lemma settled_step (f : ObjF) (rej : Z) (st st' : State) (s : Sym) :
  unlink_ok st -> unlink_step f rej st st' -> settled st s -> settled st' s.
Proof.
  intros (Hok & _ & Hp) Hstep [[r0 Hr0] Hs].
  pose proof Hstep as (_ & _ & Hf & Hsh & _). split.
  { destruct (same_files_syms _ _ _ _ Hf Hr0) as (r1 & Hr1 & _). by exists r1. }
  intros L' x HL' Hx. destruct HL' as (r' & Hr' & Hc').
  destruct (same_files_syms _ _ _ _ (same_files_sym _ _ Hf) Hr') as (r & Hr & _).
  destruct (links_ok_chain st s r Hok Hr) as (L & HL & _).
  destruct (Hsh s L HL) as (L2 & HL2 & Hsub).
  assert (L2 = L') as -> by (apply (chain_of_fun st' s); [done|by exists r']).
  apply (needed_step f rej st st'); [done..|]. apply (Hs L); [done|].
  apply (elem_of_submseteq L'); [done|by apply sublist_submseteq].
Qed.

Section unlink_loops.

Variable st0 : State.
Hypothesis ok0 : unlink_ok st0.

(** Something that calls of [unlinkObj] keep. *)
Variable P : State -> Prop.
Hypothesis P_stable :
  forall f rej st st', unlink_ok st -> unlink_step f rej st st' -> P st -> P st'.

Lemma unlinked_to_refl : unlinked_to st0 st0.
Proof.
  split; [done|]. split; [done|]. split; [apply chains_shrink_refl|].
  split; [done|]. intros h. by left.
Qed.

Lemma unlinked_chain (st : State) (s : Sym) (L : list Xref) (x : Xref) (xr : XrefRec) :
  unlinked_to st0 st -> undef_sym st0 s -> chain_of st s L -> x ∈ L ->
  get_xref x st = Done xr -> undef_root st0 (x_obj xr) /\ x_obj xr = xr_obj x.
Proof.
  intros ((_ & _ & Hp) & Hf & Hsh & _) Hs HL Hx Hxr.
  destruct ok0 as (Hok0 & _).
  destruct HL as (r & Hr & Hc).
  destruct (same_files_syms _ _ _ _ (same_files_sym _ _ Hf) Hr) as (r0 & Hr0 & _).
  destruct (links_ok_chain st0 s r0 Hok0 Hr0) as (L0 & HL0 & _).
  destruct (Hsh s L0 HL0) as (L2 & HL2 & Hsub).
  assert (L2 = L) as -> by (apply (chain_of_fun st s); [done|by exists r]).
  split; [|by apply Hp]. exists s. split; [done|]. exists L0, x. split; [done|].
  split; [|symmetry; by apply Hp].
  apply (elem_of_submseteq L); [done|by apply sublist_submseteq].
Qed.

(** One call, for an object that holds an import of an undefined symbol. *)
Lemma unlinked_step (f : ObjF) (rej : Z) (st st' : State) :
  unlinked_to st0 st -> P st -> undef_root st0 f -> unlinkObj f st = Done (rej, st') ->
  unlinked_to st0 st' /\ P st' /\ unlink_step f rej st st'.
Proof.
  intros (Hok & Hf & Hsh & Hneed & Hanc) HP Hroot H.
  pose proof Hok as (Hl & Hnil & Hp).
  pose proof (unlinkObj_step f rej st st' Hl Hnil H) as Hstep.
  split; [|split; [by apply (P_stable f rej st)|done]].
  pose proof Hstep as (Hl' & Hnil' & Hf' & Hsh' & l & Hdep & Hcase).
  split. { split; [done|]. split; [done|]. by apply (same_files_obj_ptrs st). }
  split; [by apply (same_files_trans _ st)|].
  split; [by apply (chains_shrink_trans _ st)|]. split.
  - intros g Hg. destruct (Hneed g Hg) as [Hg1 Ea].
    destruct (needed_step f rej st st' g Hl Hp Hstep Hg1) as [Hg2 Ea2].
    split; [done|congruence].
  - intros h. destruct Hcase as [(_ & _ & G)|(_ & Hnone & Hanc')].
    + rewrite (same_graph_anchor_of _ _ h G). apply Hanc.
    + rewrite Hanc'. destruct (decide (h ∈ l)) as [Hin|Hout]; [|apply Hanc].
      destruct (Hnone h Hin) as [Ha Hna]. destruct (Hanc h) as [E|(E & _)].
      * right. split; [done|]. split.
        { rewrite in_app_anchor in *. by rewrite <- E. }
        exists f. split; [done|]. destruct ok0 as (Hok0 & _).
        apply (dependent_was st0 st); [done..|]. by apply Hdep.
      * unfold anchored in Ha. by rewrite E in Ha.
Qed.

Variable s : Sym.
Hypothesis s_undef : undef_sym st0 s.

Lemma unlink_heads_spec (fuel : nat) :
  forall st st',
    unlinked_to st0 st -> P st -> unlink_heads fuel s st = Done st' ->
    unlinked_to st0 st' /\ P st' /\
    (chain_of st' s [] \/ exists p L, chain_of st' s (p :: L) /\ needed st' (xr_obj p)).
Proof.
  induction fuel as [|fuel IH]; intros st st' Hu HP H; simpl in H;
    apply bind_Done in H as (r & Hr & H); apply get_sym_Done in Hr;
    (destruct (importedFrom r) as [x|] eqn:Ehead;
     [|injection H as <-; split; [done|]; split; [done|]; left; exists r;
       split; [done|]; by rewrite Ehead]); [done|].
  apply bind_Done in H as (xr & Hxr & H). apply bind_Done in H as ([rej st1] & H1 & H).
  pose proof Hu as ((Hl & _ & Hp) & _).
  destruct (links_ok_chain st s r Hl Hr) as (L & HL & _).
  assert (Hx : x ∈ L).
  { destruct HL as (r' & Hr' & Hc). rewrite Hr in Hr'. injection Hr' as <-.
    rewrite Ehead in Hc. apply is_chain_head in Hc as (? & L' & -> & _). by left. }
  destruct (unlinked_chain st s L x xr Hu s_undef HL Hx Hxr) as [Hroot Eobj].
  destruct (unlinked_step _ _ _ _ Hu HP Hroot H1) as (Hu1 & HP1 & Hstep).
  destruct (rej =? 0) eqn:Erej; [by apply (IH st1)|].
  injection H as <-. split; [done|]. split; [done|]. right.
  apply Z.eqb_neq in Erej.
  destruct Hstep as (_ & _ & _ & _ & l & Hdep & [(_ & (m & Hm & Ha) & G)|(? & _)]); [|done].
  destruct HL as (r' & Hr' & Hc). rewrite Hr in Hr'. injection Hr' as <-.
  rewrite Ehead in Hc. pose proof Hc as Hc0.
  apply is_chain_head in Hc as (? & L' & -> & _).
  exists x, L'. split.
  - exists r. split; [by rewrite (same_graph_syms _ _ G)|].
    rewrite Ehead. by apply (is_chain_same st).
  - rewrite <- Eobj. exists m. split; [|by apply (same_graph_in_app st)].
    apply (rtc_deps_same st); [done|]. by apply Hdep.
Qed.

Variable p : Xref.

Lemma unlink_after_spec (pre : list Xref) (fuel : nat) :
  forall st n st' post,
    unlinked_to st0 st -> P st -> chain_of st s (pre ++ p :: post) ->
    (forall x, x ∈ pre ++ [p] -> needed st (xr_obj x)) ->
    unlink_after fuel p st = Done (n, st') ->
    unlinked_to st0 st' /\ P st' /\
    (forall x, x ∈ pre ++ [p] -> needed st' (xr_obj x)) /\
    match n with
    | None => chain_of st' s (pre ++ [p])
    | Some nx => exists post', chain_of st' s (pre ++ p :: nx :: post') /\
                               needed st' (xr_obj nx)
    end.
Proof.
  induction fuel as [|fuel IH]; intros st n st' post Hu HP HL Hpre H; simpl in H;
    apply bind_Done in H as (n0 & Hn0 & H);
    unfold XREF_NEXT in Hn0; apply bind_Done in Hn0 as (rp & Hrp & [= <-]);
    pose proof HL as (r & Hr & Hc);
    destruct (is_chain_app_cons _ _ _ _ _ Hc) as (rp' & Hrp' & Hpost);
    rewrite Hrp in Hrp'; injection Hrp' as <-;
    (destruct (x_next rp) as [nx|] eqn:Enext;
     [|injection H as <- <-; split; [done|]; split; [done|]; split; [done|];
       destruct post; [done|by destruct Hpost]]); [done|].
  apply bind_Done in H as (xr & Hxr & H). apply bind_Done in H as ([rej st1] & H1 & H).
  apply is_chain_head in Hpost as (rn & post1 & -> & _).
  pose proof Hu as ((Hl & _ & Hp) & _).
  assert (Hnx : nx ∈ pre ++ p :: nx :: post1).
  { apply elem_of_app. right. right. by left. }
  destruct (unlinked_chain st s _ nx xr Hu s_undef HL Hnx Hxr) as [Hroot Eobj].
  destruct (unlinked_step _ _ _ _ Hu HP Hroot H1) as (Hu1 & HP1 & Hstep).
  assert (Hpre1 : forall x, x ∈ pre ++ [p] -> needed st1 (xr_obj x)).
  { intros y Hy.
    by destruct (needed_step (x_obj xr) rej st st1 (xr_obj y) Hl Hp Hstep (Hpre y Hy)). }
  destruct (rej =? 0) eqn:Erej.
  - apply Z.eqb_eq in Erej as ->.
    pose proof Hstep as (Hl1 & _ & Hf & Hsh & l & Hdep & [(? & _)|(_ & Hnone & Hanc)]); [done|].
    destruct (Hsh _ _ HL) as (L1 & HL1 & Hsub).
    destruct (links_ok_chain st s r Hl Hr) as (L & HL' & Hnd & Hm).
    rewrite (chain_of_fun _ _ _ _ HL' HL) in Hnd, Hm.
    pose proof HL1 as (r1 & Hr1 & Hc1).
    destruct (links_ok_chain st1 s r1 Hl1 Hr1) as (L1' & HL1' & _ & Hm1).
    rewrite (chain_of_fun _ _ _ _ HL1' HL1) in Hm1.
    replace (pre ++ p :: nx :: post1) with ((pre ++ [p]) ++ nx :: post1) in Hsub, Hnd, Hm
      by by rewrite <- app_assoc.
    destruct (sublist_keep (pre ++ [p]) L1 (nx :: post1) Hsub Hnd) as (post' & -> & Hsub').
    { intros y Hy. apply Hm1. split.
      - destruct (needed_step (x_obj xr) 0 st st1 (xr_obj y) Hl Hp Hstep (Hpre y Hy))
          as [_ Ea].
        unfold anchored. rewrite Ea. apply Hm. apply elem_of_app. by left.
      - apply (same_files_isite st); [done|]. apply Hm. apply elem_of_app. by left. }
    apply sublist_cons_r in Hsub' as [Hsub'|(l'' & -> & _)].
    + apply (IH st1 n st' post'); [done|done| |done|done].
      by rewrite <- app_assoc in HL1.
    + exfalso. assert (Hin : nx ∈ (pre ++ [p]) ++ nx :: l'').
      { apply elem_of_app. right. by left. }
      apply Hm1 in Hin as [Ha _]. unfold anchored in Ha. rewrite Hanc in Ha.
      rewrite decide_True in Ha; [done|]. apply Hdep. rewrite <- Eobj. constructor.
  - injection H as <- <-. apply Z.eqb_neq in Erej.
    destruct Hstep as (_ & _ & _ & _ & l & Hdep & [(_ & (m & Hm & Ha) & G)|(? & _)]); [|done].
    split; [done|]. split; [done|]. split; [done|]. exists post1. split.
    + exists r. split; [by rewrite (same_graph_syms _ _ G)|]. by apply (is_chain_same st).
    + rewrite <- Eobj. exists m. split; [|by apply (same_graph_in_app st)].
      apply (rtc_deps_same st); [done|]. by apply Hdep.
Qed.

End unlink_loops.

Lemma skip_app_spec (st0 : State) (P : State -> Prop) (s : Sym) (fuel : nat) :
  unlink_ok st0 ->
  (forall f rej st st', unlink_ok st -> unlink_step f rej st st' -> P st -> P st') ->
  undef_sym st0 s ->
  forall p log st log' st' pre post,
    unlinked_to st0 st -> P st -> chain_of st s (pre ++ p :: post) ->
    (forall x, x ∈ pre ++ [p] -> needed st (xr_obj x)) ->
    skip_app fuel p log st = Done (log', st') ->
    unlinked_to st0 st' /\ P st' /\ settled st' s.
Proof.
  intros ok0 P_stable s_undef.
  induction fuel as [|fuel IH]; intros p log st log' st' pre post Hu HP HL Hpre H;
    cbn [skip_app] in H; [done|].
  apply bind_Done in H as (log1 & _ & H). apply bind_Done in H as ([n st1] & Hafter & H).
  apply (unlink_after_spec st0 ok0 P P_stable s s_undef p pre) with (post := post) in Hafter
    as (Hu1 & HP1 & Hpre1 & Hn); [|done..].
  destruct n as [nx|].
  - destruct Hn as (post' & HL1 & Hnx).
    apply (IH nx log1 st1 log' st' (pre ++ [p]) post'); [done|done| | |done].
    + by rewrite <- app_assoc.
    + intros x [Hx|Hx]%elem_of_app; [by apply Hpre1|].
      apply list_elem_of_singleton in Hx as ->. done.
  - injection H as <- <-. split; [done|]. split; [done|]. split.
    { destruct Hn as (r & Hr & _). by exists r. }
    intros L x HL' Hx. rewrite (chain_of_fun _ _ _ _ HL' Hn) in Hx. by apply Hpre1.
Qed.

(** The symbols of the first [i] exports of [undefSymPod] are settled. *)
Definition undefs_settled (st0 : State) (i : nat) (st : State) : Prop :=
  forall j q e, (j < i)%nat -> objs st0 !! 0%nat = Some q -> exports q !! j = Some e ->
                settled st (x_sym e).

Lemma unlink_undef_spec (st0 : State) (i : nat) (acc acc' : list (nat * undef_msg) * State) :
  unlink_ok st0 ->
  unlinked_to st0 acc.2 -> undefs_settled st0 i acc.2 ->
  unlink_undef i acc = Done acc' ->
  unlinked_to st0 acc'.2 /\ undefs_settled st0 (S i) acc'.2.
Proof.
  intros ok0 Hu Hset H. destruct acc as [log st]. cbn [snd] in *. unfold unlink_undef in H.
  apply bind_Done in H as (q & Hq & H). apply get_obj_Done in Hq.
  apply bind_Done in H as (ex & Hex & H). apply deref_Done in Hex.
  apply bind_Done in H as (log1 & _ & H). apply bind_Done in H as (st1 & Hheads & H).
  apply bind_Done in H as (sr & Hsr & H). apply get_sym_Done in Hsr.
  apply bind_Done in H as ([log2 st2] & Hskip & [= <-]). cbn [snd].
  pose proof Hu as (_ & Hf & _).
  destruct (same_files_exports _ _ _ _ (same_files_sym _ _ Hf) Hq) as (q0 & Hq0 & Ee & _).
  assert (Hundef : undef_sym st0 (x_sym ex)).
  { exists q0, ex. split; [done|]. split; [|done]. rewrite Ee.
    by apply list_elem_of_lookup_2 in Hex. }
  assert (Hstable : forall f rej st st', unlink_ok st -> unlink_step f rej st st' ->
            undefs_settled st0 i st -> undefs_settled st0 i st').
  { intros f rej t t' Hok Hstep Hs j q' e Hj Hq' He.
    apply (settled_step f rej t t'); [done..|]. by apply (Hs j q'). }
  apply (unlink_heads_spec st0 ok0 _ Hstable _ Hundef) in Hheads
    as (Hu1 & Hset1 & Hhead); [|done..].
  assert (Hfin : unlinked_to st0 st2 /\ undefs_settled st0 i st2 /\ settled st2 (x_sym ex)).
  { destruct Hhead as [Hnil|(p & L & HL & Hp)].
    - destruct Hnil as (r & Hr & Hc). rewrite Hsr in Hr. injection Hr as <-.
      simpl in Hc. rewrite Hc in Hskip. injection Hskip as <- <-.
      split; [done|]. split; [done|]. split; [by exists sr|]. intros L x HL Hx.
      assert (L = []) as ->; [|by apply elem_of_nil in Hx].
      apply (chain_of_fun st1 (x_sym ex)); [done|]. exists sr. by rewrite Hc.
    - pose proof HL as (r & Hr & Hc). rewrite Hsr in Hr. injection Hr as <-.
      simpl in Hc. destruct Hc as [Hc _]. rewrite Hc in Hskip.
      apply (skip_app_spec st0 _ (x_sym ex) _ ok0 Hstable Hundef p log1 st1 log2 st2 [] L)
        in Hskip; [done..|].
      by intros x ->%list_elem_of_singleton. }
  destruct Hfin as (Hu2 & Hset2 & Hnew). split; [done|].
  intros j q' e Hj Hq' He. destruct (decide (j = i)) as [->|Hne].
  - rewrite Hq0 in Hq'. injection Hq' as <-. rewrite Ee, Hex in He. by injection He as <-.
  - apply (Hset2 j q'); [lia|done..].
Qed.

(** When [unlinkUndefs] returns: no object of the Application set has been
    unlinked, an object that has was one that holds a linked import of an
    undefined symbol or depends on such an object, and an object that holds
    such an import and is still in a link set is needed by the application:
    an object of the Application set depends on it. *)
Theorem unlinkUndefs_removes_dependents (st : State) (rv : Z)
    (log : list (nat * undef_msg)) (st' : State) :
  links_ok st -> all_work_nil st -> checkObjPtrs st = 0 ->
  unlinkUndefs st = Done (rv, log, st') ->
  rv = 0 /\ links_ok st' /\ all_work_nil st' /\ same_files st st' /\
  (forall h, anchor_of st' h = anchor_of st h \/
     (anchor_of st' h = None /\ ~ in_app st h /\
      exists f, undef_root st f /\ dependent st f h)) /\
  (forall g o im, anchored st' g -> objs st' !! g = Some o -> im ∈ imports o ->
     undef_sym st' (x_sym im) -> needed st' g).
Proof.
  intros Hok Hnil Hptr H. apply checkObjPtrs_0 in Hptr.
  assert (ok0 : unlink_ok st) by done.
  unfold unlinkUndefs in H. apply bind_Done in H as (q & Hq & H). apply get_obj_Done in Hq.
  apply bind_Done in H as ([log1 st1] & Hloop & [= <- <- <-]).
  assert (Hend : unlinked_to st st /\ undefs_settled st 0 st).
  { split; [by apply unlinked_to_refl|]. intros j q' e Hj. lia. }
  assert (Hinv : unlinked_to st (log1, st1).2 /\
                 undefs_settled st (0 + length (exports q)) (log1, st1).2).
  { refine (for_each_seq_invariant
              (fun i acc => unlinked_to st acc.2 /\ undefs_settled st i acc.2)
              _ (length (exports q)) 0%nat _ ([], st) _ Hend Hloop).
    intros i acc acc' _ [Hu Hs] Hb. by apply (unlink_undef_spec st i acc acc'). }
  cbn [snd] in Hinv. destruct Hinv as [((Hok' & Hnil' & Hp') & Hf & _ & _ & Hanc) Hset].
  split; [done|]. split; [done|]. split; [done|]. split; [done|]. split; [done|].
  intros g o im Hg Ho Him (q' & e & Hq' & He & Es).
  destruct (same_files_exports _ _ _ _ (same_files_sym _ _ Hf) Hq') as (q0 & Hq0 & Ee & _).
  rewrite Hq in Hq0. injection Hq0 as <-. rewrite <- Ee in He.
  apply list_elem_of_lookup in He as (j & Hj). apply list_elem_of_lookup in Him as (k & Hk).
  assert (Hsite : isite st1 (mkXref Imports g k) (x_sym e)).
  { split; [done|]. exists im. split; [|done]. apply get_xref_Done. by exists o. }
  destruct (Hset j q e) as [[r Hr] Hneed]; [apply lookup_lt_Some in Hj; lia|done..|].
  destruct (links_ok_chain st1 _ _ Hok' Hr) as (L & HL & _ & Hm).
  apply (Hneed L (mkXref Imports g k)); [done|]. by apply Hm.
Qed.

(** [a.o] is mandatory and needs the undefined [xyz]; of the optional
    objects [c.o] and [f.o] need the undefined [und], [d.o] needs [foo]
    from [c.o], and [e.o] needs nothing. *)
Definition undef_inputs : list (list scanned * string) :=
  [([Conv1 "a.o:"; Conv2 "main" "T"; Conv2 "xyz" "U"], "app");
   ([Conv1 "c.o:"; Conv2 "foo" "T"; Conv2 "und" "U";
     Conv1 "d.o:"; Conv2 "bar" "T"; Conv2 "foo" "U";
     Conv1 "e.o:"; Conv2 "baz" "T";
     Conv1 "f.o:"; Conv2 "qux" "T"; Conv2 "und" "U"; Conv2 "xyz" "U"], "opt")].

Definition undef_linked : State := result_state (snd <$> ldep undef_inputs).
Definition undef_unlinked : State := result_state (snd <$> unlinkUndefs undef_linked).

Definition undef_log : list (nat * undef_msg) :=
  [(5%nat, U_removing "und"); (11%nat, U_done);
   (11%nat, U_removing "xyz"); (12%nat, U_skipping "a.o"); (12%nat, U_done)].

Lemma unlinkUndefs_removes_dependents_witness :
  0 = 0 /\ links_ok undef_unlinked /\ all_work_nil undef_unlinked /\
  same_files undef_linked undef_unlinked /\
  (forall h, anchor_of undef_unlinked h = anchor_of undef_linked h \/
     (anchor_of undef_unlinked h = None /\ ~ in_app undef_linked h /\
      exists f, undef_root undef_linked f /\ dependent undef_linked f h)) /\
  (forall g o im, anchored undef_unlinked g -> objs undef_unlinked !! g = Some o ->
     im ∈ imports o -> undef_sym undef_unlinked (x_sym im) -> needed undef_unlinked g).
Proof.
  destruct (ldep_links_ok undef_inputs 1%nat undef_linked) as [Hok Hnil].
  { vm_compute. reflexivity. }
  apply (unlinkUndefs_removes_dependents undef_linked 0 undef_log undef_unlinked Hok Hnil).
  - vm_compute. reflexivity.
  - vm_compute. reflexivity.
Defined.

(** [f.o], [c.o] and with it [d.o] are unlinked; [a.o] is refused. *)
Example undef_unlink_run :
  unlinkUndefs undef_linked = Done (0, undef_log, undef_unlinked) /\
  link_anchor <$> objs undef_linked
  = [Some undefLinkSet; Some appLinkSet; Some optionalLinkSet; Some optionalLinkSet;
     Some optionalLinkSet; Some optionalLinkSet] /\
  link_anchor <$> objs undef_unlinked
  = [Some undefLinkSet; Some appLinkSet; None; None; Some optionalLinkSet; None] /\
  drop (length (out undef_linked)) (out undef_unlinked)
  = [E_removing 5; E_ok; E_removing 2; E_ok; E_removing 3; E_ok; E_rejected 1].
Proof. vm_compute. repeat split. Qed.

(** ** Rejection of an unlink, with the work list as what it is *)

(** C2: when [unlinkObj(f)] is called with all work slots clear and
    returns, the work list it has built from [f] starts with [f], holds no
    object twice, and holds exactly [f] and the objects that depend on it:
    those met from [f] by going, any number of times, from an object to the
    object of an entry on the importer list of a symbol it exports.  The
    result [reject] is not 0 (it is 1 then: the removal is refused) if and
    only if one of these objects has the Application link set as its
    anchor; and when it is refused nothing of the graph has changed: the
    symbols with their importer and exporter lists, the heads of the link
    sets, and of every object the export and import arrays with their next
    pointers, the anchor and the link-set successor. *)
Theorem unlinkObj_rejects_iff_app (f : ObjF) (st : State) (reject : Z) (st' : State) :
  all_work_nil st -> unlinkObj f st = Done (reject, st') ->
  exists st1 l,
    depwalk f None (Z.lor WALK_EXPORTS WALK_BUILD_LIST) st = Done st1 /\
    work_list (work_fuel st1) (WObj f) st1 = Done l /\
    head l = Some f /\ NoDup l /\
    (forall g, g ∈ l <-> rtc (deps_of st true) f g) /\
    (reject <> 0 <-> exists m, m ∈ l /\ in_app st m) /\
    (reject <> 0 <-> exists m, rtc (deps_of st true) f m /\ in_app st m) /\
    (reject <> 0 ->
       reject = 1 /\
       syms st' = syms st /\ appSet st' = appSet st /\ undefSet st' = undefSet st /\
       optionalSet st' = optionalSet st /\
       forall m o, objs st !! m = Some o ->
         exists o', objs st' !! m = Some o' /\
           exports o' = exports o /\ imports o' = imports o /\
           link_anchor o' = link_anchor o /\ link_next o' = link_next o).
Proof.
  intros Hnil H.
  destruct (unlinkObj_rejects f st reject st' H) as (st1 & l & H1 & Hl & Hhead & Hiff & Hsame).
  destruct (depwalk_collects f None (Z.lor WALK_EXPORTS WALK_BUILD_LIST) st st1 Hnil eq_refl H1)
    as (l1 & Hl1 & Hnd & _ & Hdep & _).
  change (flag_set (Z.lor WALK_EXPORTS WALK_BUILD_LIST) WALK_EXPORTS) with true in Hdep.
  rewrite Hl1 in Hl. injection Hl as <-.
  exists st1, (f :: l1). split; [done|]. split; [done|]. split; [done|]. split; [done|].
  split; [done|]. split; [done|]. split; [|done].
  rewrite Hiff. split; intros (m & Hm & Ha); exists m; (split; [by apply Hdep|done]).
Qed.

Lemma unlinkObj_rejects_iff_app_witness :
  exists st1 l,
    depwalk 2%nat None (Z.lor WALK_EXPORTS WALK_BUILD_LIST) puts_state = Done st1 /\
    work_list (work_fuel st1) (WObj 2%nat) st1 = Done l /\
    head l = Some 2%nat /\ NoDup l /\
    (forall g, g ∈ l <-> rtc (deps_of puts_state true) 2%nat g) /\
    (1 <> 0 <-> exists m, m ∈ l /\ in_app puts_state m) /\
    (1 <> 0 <-> exists m, rtc (deps_of puts_state true) 2%nat m /\ in_app puts_state m) /\
    (1 <> 0 ->
       1 = 1 /\
       syms puts_unlinked = syms puts_state /\ appSet puts_unlinked = appSet puts_state /\
       undefSet puts_unlinked = undefSet puts_state /\
       optionalSet puts_unlinked = optionalSet puts_state /\
       forall m o, objs puts_state !! m = Some o ->
         exists o', objs puts_unlinked !! m = Some o' /\
           exports o' = exports o /\ imports o' = imports o /\
           link_anchor o' = link_anchor o /\ link_next o' = link_next o).
Proof.
  destruct (ldep_links_ok puts_inputs 1%nat puts_state) as [_ Hnil].
  { vm_compute. reflexivity. }
  apply (unlinkObj_rejects_iff_app 2%nat puts_state 1 puts_unlinked Hnil).
  vm_compute. reflexivity.
Defined.

(** ** The assertion of depwalk_rec and the objects a walk reaches *)

(** [f] refers to itself: a cross reference the walk follows when it
    expands [f] has [f] as its object. *)
Definition refers_to_self (st : State) (exports_mode : bool) (f : ObjF) : Prop :=
  deps_of st exports_mode f f.

(** Some object the walk reaches from [f] refers to itself. *)
Definition reaches_self_ref (st : State) (exports_mode : bool) (f : ObjF) : Prop :=
  exists m, rtc (deps_of st exports_mode) f m /\ refers_to_self st exports_mode m.

Lemma reaches_self_ref_same (st st' : State) (m : bool) (f : ObjF) :
  same_graph st st' -> reaches_self_ref st m f -> reaches_self_ref st' m f.
Proof.
  intros G (x & Hr & Hx). exists x. split; [by apply (rtc_deps_same st)|].
  by apply (deps_of_same st).
Qed.

Lemma reaches_self_ref_step (st : State) (m : bool) (f g : ObjF) :
  deps_of st m f g -> reaches_self_ref st m g -> reaches_self_ref st m f.
Proof. intros Hfg (x & Hr & Hx). exists x. split; [by apply rtc_l with g|done]. Qed.

(** *** Where the assertion fires *)

(** A call of [depwalk_rec] that fails the assertion has reached an object
    that refers to itself. *)
Definition rec_fails (rec : ObjF -> Z -> State -> res State) : Prop :=
  forall g d s, rec g d s = Fail (AssertFailed A_self_ref) ->
                reaches_self_ref s (DO_EXPORTS s) g.

Lemma expand_ref_fails (rec : ObjF -> Z -> State -> res State) (f : ObjF) (depth : Z)
    (ref : Xref) (st : State) :
  rec_fails rec -> followed st (DO_EXPORTS st) f ref ->
  expand_ref rec f depth ref st = Fail (AssertFailed A_self_ref) ->
  reaches_self_ref st (DO_EXPORTS st) f.
Proof.
  intros Hrec Hf H. unfold expand_ref in H.
  apply bind_Fail in H as [H|(rr & Hrr & H)]; [by apply get_xref_Fail in H|].
  apply bind_Fail in H as [H|(u & Hne & H)].
  { apply assert_that_Fail in H as [_ H]. apply bool_decide_eq_false in H.
    exists f. split; [constructor|]. exists ref, rr. split; [done|]. split; [done|].
    by destruct (decide (x_obj rr = f)). }
  apply bind_Fail in H as [H|(go & _ & H)]; [by apply get_obj_Fail in H|].
  destruct (bool_decide (work go = WNull)); [|done].
  apply bind_Fail in H as [H|(fo & _ & H)]; [by apply get_obj_Fail in H|].
  apply bind_Fail in H as [H|(st1 & H1 & H)]; [by apply upd_obj_Fail in H|].
  apply bind_Fail in H as [H|(st2 & H2 & H)]; [by apply upd_obj_Fail in H|].
  apply upd_work_Done in H1 as (G1 & W1 & _). apply upd_work_Done in H2 as (G2 & W2 & _).
  assert (G : same_graph st st2) by by eapply same_graph_trans.
  assert (W : same_walk st st2) by by eapply same_walk_trans.
  apply bind_Fail in H as [H|(c & _ & H)]; [by apply checkCircWorkList_Fail in H|].
  apply bind_Fail in H as [H|(u' & _ & H)]; [by apply assert_that_Fail in H as [? _]|].
  apply bind_Fail in H as [H|(st3 & H3 & H)].
  { apply Hrec in H. rewrite (same_walk_DO_EXPORTS _ _ W) in H.
    apply (reaches_self_ref_same st2 st) in H; [|by apply same_graph_sym].
    apply (reaches_self_ref_step st _ f (x_obj rr)); [|done]. by exists ref, rr. }
  destruct (negb _); [|done].
  apply bind_Fail in H as [H|(go3 & _ & H)]; [by apply get_obj_Fail in H|].
  apply bind_Fail in H as [H|(st4 & _ & H)]; by apply upd_obj_Fail in H.
Qed.

Lemma walk_refs_fails (rec : ObjF -> Z -> State -> res State) (f : ObjF) (depth : Z)
    (fuel : nat) :
  (forall g d s s', rec g d s = Done s' -> walked g s s') -> rec_fails rec ->
  forall ref st,
    (forall y, visits st ref y -> followed st (DO_EXPORTS st) f y) ->
    walk_refs rec fuel f depth ref st = Fail (AssertFailed A_self_ref) ->
    reaches_self_ref st (DO_EXPORTS st) f.
Proof.
  intros Hwalked Hrec. induction fuel as [|fuel IH]; intros ref st Hf; simpl.
  - by destruct ref.
  - destruct ref as [r|]; [|done].
    assert (Hr : visits st (Some r) r).
    { unfold visits. destruct (DO_EXPORTS st); [constructor|done]. }
    intros [H|(st1 & H1 & H)]%bind_Fail.
    { revert H. apply expand_ref_fails; auto. }
    pose proof H1 as H1'. apply expand_ref_walked in H1' as (G1 & W1 & _); [|done].
    apply bind_Fail in H as [H|(nxt & Hnxt & H)].
    { destruct (DO_EXPORTS st1); [|done]. unfold XREF_NEXT in H.
      apply bind_Fail in H as [H|(? & _ & H)]; [by apply get_xref_Fail in H|done]. }
    apply IH in H.
    + rewrite (same_walk_DO_EXPORTS _ _ W1) in H.
      apply (reaches_self_ref_same st1); [by apply same_graph_sym|done].
    + intros y Hy. rewrite (same_walk_DO_EXPORTS _ _ W1).
      apply (followed_same st); [done|]. apply Hf.
      apply (visits_same st1 st) in Hy; [|by apply same_graph_sym|by destruct W1].
      unfold visits in *. rewrite (same_walk_DO_EXPORTS _ _ W1) in Hnxt.
      destruct (DO_EXPORTS st); [|by injection Hnxt as <-].
      unfold XREF_NEXT in Hnxt. apply bind_Done in Hnxt as (rr & Hrr & [= <-]).
      rewrite (same_graph_xref st) in Hrr by done. by apply (chain_next _ r rr).
Qed.

Lemma depwalk_rec_fails (fuel : nat) : rec_fails (depwalk_rec fuel).
Proof.
  induction fuel as [|fuel IH]; intros f depth st; simpl; [done|].
  unfold depwalk_body.
  set (st0 := match depwalkAction st with
              | Some arg => depPrint arg f depth st | None => st end).
  assert (H0 : walking st st0).
  { unfold st0. destruct (depwalkAction st) as [arg|]; [|done].
    destruct (depPrint_same arg f depth st) as (? & ? & _). done. }
  intros [H|(o & Ho & H)]%bind_Fail; [by apply get_obj_Fail in H|].
  apply (for_each_Fail (walking st)) in H as (i & s1 & Hi & [G1 W1] & H); [| |done].
  - unfold expand_entry in H.
    apply bind_Fail in H as [H|(o1 & Ho1 & H)]; [by apply get_obj_Fail in H|].
    apply bind_Fail in H as [H|(x & Hx & H)]; [by apply deref_Fail in H|].
    apply bind_Fail in H as [H|(sr & Hsr & H)]; [by apply get_sym_Fail in H|].
    apply walk_refs_fails in H; [| apply depwalk_rec_walked | apply IH |].
    + rewrite (same_walk_DO_EXPORTS _ _ W1) in H.
      apply (reaches_self_ref_same s1); [by apply same_graph_sym|done].
    + intros y Hy. apply (entry_visits_followed s1 f i).
      apply get_obj_Done in Ho1. apply deref_Done in Hx. apply get_sym_Done in Hsr.
      by exists o1, x, sr.
  - intros i s s' _ [G W] Hs. unfold expand_entry in Hs.
    apply bind_Done in Hs as (o1 & _ & Hs). apply bind_Done in Hs as (x & _ & Hs).
    apply bind_Done in Hs as (sr & _ & Hs).
    apply walk_refs_walked in Hs as (G' & W' & _); [|apply depwalk_rec_walked].
    split; [by eapply same_graph_trans|by eapply same_walk_trans].
Qed.

Lemma depwalk_fails (f : ObjF) (action : option DepPrintArgRec) (mode : Z) (st : State) :
  depwalk f action mode st = Fail (AssertFailed A_self_ref) ->
  reaches_self_ref st (flag_set mode WALK_EXPORTS) f.
Proof.
  unfold depwalk.
  intros [H|(o & _ & H)]%bind_Fail; [by apply get_obj_Fail in H|].
  apply bind_Fail in H as [H|(u & _ & H)]; [by apply assert_that_Fail in H as [? _]|].
  apply bind_Fail in H as [H|(u' & _ & H)]; [by apply assert_that_Fail in H as [? _]|].
  apply bind_Fail in H as [H|(stb & Hb & H)]; [by apply upd_obj_Fail in H|].
  apply upd_work_Done in Hb as (Gb & Wb & _).
  apply bind_Fail in H as [H|(stc & _ & H)].
  - apply depwalk_rec_fails in H.
    assert (E : DO_EXPORTS stb = flag_set mode WALK_EXPORTS).
    { by rewrite (same_walk_DO_EXPORTS _ _ Wb). }
    rewrite E in H. apply (reaches_self_ref_same stb); [|done].
    apply same_graph_sym. eapply same_graph_trans; [|exact Gb]. done.
  - destruct (BUILD_LIST stc); [done|]. by apply upd_obj_Fail in H.
Qed.

(** *** What a walk that returns has checked *)

(** A step of the walk to an object whose work slot is free. *)
Definition free_step (st : State) (a b : ObjF) : Prop :=
  deps_of st (DO_EXPORTS st) a b /\ ~ marked st b.

(** A call of [depwalk_rec] that returns, when no list is built, has met no
    object that refers to itself among those it reaches through free
    slots. *)
Definition rec_checks (rec : ObjF -> Z -> State -> res State) : Prop :=
  forall g d s s', BUILD_LIST s = false -> marked s g -> rec g d s = Done s' ->
    forall m, rtc (free_step s) g m -> ~ refers_to_self s (DO_EXPORTS s) m.

Lemma free_step_same (st st' : State) (a b : ObjF) :
  same_graph st st' -> same_walk st st' -> works st' = works st ->
  free_step st a b -> free_step st' a b.
Proof.
  intros G W E [Hd Hm]. split.
  - rewrite (same_walk_DO_EXPORTS _ _ W). by apply (deps_of_same st).
  - unfold marked. by rewrite E.
Qed.

Lemma rtc_free_step_same (st st' : State) (a b : ObjF) :
  same_graph st st' -> same_walk st st' -> works st' = works st ->
  rtc (free_step st) a b -> rtc (free_step st') a b.
Proof.
  intros G W E. induction 1 as [|x y z Hxy _ IH]; [constructor|].
  econstructor; [|exact IH]. by apply (free_step_same st).
Qed.

(** With the slot of [g] taken, what is reached from [g] is still reached. *)
Lemma rtc_free_step_mark (st st2 : State) (g : ObjF) :
  same_graph st st2 -> same_walk st st2 ->
  (forall o, marked st2 o <-> o = g \/ marked st o) ->
  forall m, rtc (free_step st) g m -> rtc (free_step st2) g m.
Proof.
  intros G W Hm2. apply (rtc_ind_r (fun m => rtc (free_step st2) g m)); [constructor|].
  intros y z _ [Hd Hz] IH. destruct (decide (z = g)) as [->|Hne]; [constructor|].
  apply rtc_r with y; [done|]. split.
  - rewrite (same_walk_DO_EXPORTS _ _ W). by apply (deps_of_same st).
  - rewrite Hm2. by intros [?|?].
Qed.

Section walk_checks.

Variable rec : ObjF -> Z -> State -> res State.
Hypothesis rec_walked : forall g d s s', rec g d s = Done s' -> walked g s s'.
Hypothesis rec_ok : rec_checks rec.

(** What the walk has checked at the reference [y] of [f]. *)
Definition ref_checked (st : State) (f : ObjF) (y : Xref) : Prop :=
  exists rr, get_xref y st = Done rr /\ x_obj rr <> f /\
    (~ marked st (x_obj rr) ->
     forall m, rtc (free_step st) (x_obj rr) m -> ~ refers_to_self st (DO_EXPORTS st) m).

Lemma ref_checked_same (st st' : State) (f : ObjF) (y : Xref) :
  same_graph st st' -> same_walk st st' -> works st' = works st ->
  ref_checked st' f y -> ref_checked st f y.
Proof.
  intros G W E (rr & Hrr & Hne & Hfree). exists rr.
  split; [by rewrite <- (same_graph_xref st st')|]. split; [done|].
  intros Hm m Hr Hself. apply (Hfree) with (m := m).
  - unfold marked in *. by rewrite E.
  - by apply (rtc_free_step_same st).
  - rewrite (same_walk_DO_EXPORTS _ _ W). by apply (deps_of_same st).
Qed.

Lemma expand_ref_checks (f : ObjF) (depth : Z) (ref : Xref) (st st' : State) :
  BUILD_LIST st = false -> marked st f ->
  expand_ref rec f depth ref st = Done st' -> ref_checked st f ref.
Proof.
  intros Hb Hf H. unfold expand_ref in H.
  apply bind_Done in H as (rr & Hrr & H). set (g := x_obj rr) in *.
  apply bind_Done in H as (u & Hne & H). apply assert_that_Done in Hne.
  apply bool_decide_eq_true in Hne.
  exists rr. split; [done|]. split; [done|]. fold g. intros Hfree.
  apply bind_Done in H as (go & Hgo & H). apply get_obj_Done in Hgo.
  case_bool_decide as Hw.
  2:{ exfalso. apply Hfree. exists (work go). split; [by apply works_lookup|done]. }
  apply bind_Done in H as (fo & Hfo & H). apply get_obj_Done in Hfo.
  apply bind_Done in H as (st1 & H1 & H). apply upd_work_Done in H1 as (G1 & W1 & E1 & L1 & _).
  apply bind_Done in H as (st2 & H2 & H). apply upd_work_Done in H2 as (G2 & W2 & E2 & L2 & _).
  apply bind_Done in H as (c & _ & H). apply bind_Done in H as (u' & _ & H).
  apply bind_Done in H as (st3 & H3 & H).
  assert (Hwf : works st !! f = Some (work fo)) by by apply works_lookup.
  assert (Hwg : works st !! g = Some WNull) by (rewrite <- Hw; by apply works_lookup).
  assert (Hfn : work fo <> WNull).
  { destruct Hf as (w & Hw' & Hn). congruence. }
  assert (G12 : same_graph st st2) by by eapply same_graph_trans.
  assert (W12 : same_walk st st2) by by eapply same_walk_trans.
  assert (Hb2 : BUILD_LIST st2 = false) by by rewrite (same_walk_BUILD_LIST _ _ W12).
  assert (Hm2 : forall o, marked st2 o <-> o = g \/ marked st o).
  { intros o.
    rewrite (marked_insert (works st1) st2 f (WObj g) o E2)
      by (unfold works; by rewrite length_fmap).
    assert (Hlg : (g < length (works st))%nat) by by apply lookup_lt_Some in Hwg.
    split.
    - intros [[-> _]|[Ho (v & Hv & Hvn)]]; [by right|].
      rewrite E1 in Hv. destruct (decide (o = g)) as [->|Hog]; [by left|].
      rewrite list_lookup_insert_ne in Hv by done. right. by exists v.
    - intros [->|(v & Hv & Hvn)].
      + right. split; [done|]. exists (work fo). rewrite E1.
        rewrite list_lookup_insert_eq by done. done.
      + destruct (decide (o = f)) as [->|Hof]; [by left|]. right. split; [done|].
        destruct (decide (o = g)) as [->|Hog]; [congruence|].
        exists v. rewrite E1. by rewrite list_lookup_insert_ne. }
  intros m Hr Hself.
  assert (Hg2 : marked st2 g) by (apply Hm2; by left).
  apply (rec_ok g (depth + 1) st2 st3 Hb2 Hg2 H3 m).
  - by apply (rtc_free_step_mark st).
  - rewrite (same_walk_DO_EXPORTS _ _ W12). by apply (deps_of_same st).
Qed.

Lemma walk_refs_checks (fuel : nat) (f : ObjF) (depth : Z) :
  forall ref st st',
    BUILD_LIST st = false -> marked st f ->
    walk_refs rec fuel f depth ref st = Done st' ->
    forall y, visits st ref y -> ref_checked st f y.
Proof.
  induction fuel as [|fuel IH]; intros ref st st' Hb Hf; simpl.
  - destruct ref; [done|]. intros _ y Hy. unfold visits in Hy.
    destruct (DO_EXPORTS st); [inversion Hy|done].
  - destruct ref as [r|].
    2:{ intros _ y Hy. unfold visits in Hy. destruct (DO_EXPORTS st); [inversion Hy|done]. }
    intros H. apply bind_Done in H as (st1 & H1 & H). apply bind_Done in H as (nxt & Hn & H).
    pose proof (expand_ref_checks f depth r st st1 Hb Hf H1) as Hc1.
    apply expand_ref_walked in H1 as (G1 & W1 & D1 & _); [|done].
    specialize (D1 Hb).
    assert (Hb1 : BUILD_LIST st1 = false) by by rewrite (same_walk_BUILD_LIST _ _ W1).
    assert (Hf1 : marked st1 f) by (unfold marked; by rewrite D1).
    intros y Hy.
    assert (Hnxt : y = r \/ visits st1 nxt y).
    { unfold visits in *. rewrite (same_walk_DO_EXPORTS _ _ W1) in *.
      destruct (DO_EXPORTS st).
      - unfold XREF_NEXT in Hn. apply bind_Done in Hn as (rr & Hrr & [= <-]).
        inversion Hy as [|x r0 y0 Hx Hc]; subst; [by left|right].
        rewrite (same_graph_xref st) in Hrr by done.
        assert (r0 = rr) as -> by congruence. by apply (chain_reach_same st).
      - left. congruence. }
    destruct Hnxt as [->|Hy']; [done|].
    apply (ref_checked_same st st1); [done..|]. by apply (IH nxt st1 st').
Qed.

Lemma depwalk_body_checks (f : ObjF) (depth : Z) (st st' : State) :
  BUILD_LIST st = false -> marked st f ->
  depwalk_body rec f depth st = Done st' ->
  forall y, followed st (DO_EXPORTS st) f y -> ref_checked st f y.
Proof.
  intros Hb Hf H. unfold depwalk_body in H.
  set (st0 := match depwalkAction st with
              | Some arg => depPrint arg f depth st | None => st end) in H.
  assert (H0 : same_graph st st0 /\ same_walk st st0 /\ works st0 = works st).
  { unfold st0. destruct (depwalkAction st) as [arg|]; [|done].
    destruct (depPrint_same arg f depth st) as (? & ? & E).
    split; [done|]. split; [done|]. unfold works. by rewrite E. }
  destruct H0 as (G0 & W0 & E0).
  apply bind_Done in H as (o & Ho & H). apply get_obj_Done in Ho.
  set (Inv := fun (i : nat) (s : State) =>
                same_graph st s /\ same_walk st s /\ works s = works st /\
                forall j y, (j < i)%nat -> entry_visits st f j y -> ref_checked st f y).
  assert (Hend : Inv (0 + length (walked_array st0 o))%nat st').
  { refine (for_each_seq_invariant Inv _ _ 0%nat _ _ _ _ H).
    - intros i s s' _ (G & W & E & Hdone) Hs.
      assert (Hbs : BUILD_LIST s = false) by by rewrite (same_walk_BUILD_LIST _ _ W).
      assert (Hfs : marked s f) by (unfold marked; by rewrite E).
      unfold expand_entry in Hs.
      apply bind_Done in Hs as (o1 & Ho1 & Hs). apply get_obj_Done in Ho1.
      apply bind_Done in Hs as (x & Hx & Hs). apply deref_Done in Hx.
      apply bind_Done in Hs as (sr & Hsr & Hs). apply get_sym_Done in Hsr.
      pose proof (walk_refs_checks _ f depth _ s s' Hbs Hfs Hs) as Hnew.
      apply walk_refs_walked in Hs as (G' & W' & D' & _); [|done].
      specialize (D' Hbs).
      split; [by eapply same_graph_trans|]. split; [by eapply same_walk_trans|].
      split; [congruence|]. intros j y Hj Hy.
      destruct (decide (j = i)) as [->|Hne]; [|apply (Hdone j); [lia|done]].
      apply (ref_checked_same st s); [done..|]. apply Hnew.
      apply (entry_visits_same st s) in Hy; [|done..].
      destruct Hy as (o' & x' & s'' & Ho' & Hx' & Hs' & Hv). congruence.
    - split; [done|]. split; [done|]. split; [done|]. intros; lia. }
  destruct Hend as (_ & _ & _ & Hdone). intros y Hy.
  apply followed_entry_visits in Hy as (i & Hi). apply (Hdone i); [|done].
  destruct (entry_visits_same st st0 f i y G0 W0 Hi) as (o' & x & s & Ho' & Hx & _).
  apply lookup_lt_Some in Hx. rewrite Ho in Ho'. injection Ho' as <-. lia.
Qed.

End walk_checks.

Lemma depwalk_rec_checks (fuel : nat) : rec_checks (depwalk_rec fuel).
Proof.
  induction fuel as [|fuel IH]; intros g d s s' Hb Hg H; simpl in H; [done|].
  pose proof (depwalk_body_checks _ (depwalk_rec_walked fuel) IH g d s s' Hb Hg H) as Hall.
  intros m Hr. destruct (rtc_inv _ _ Hr) as [<-|(v & [Hgv Hv] & Hvm)].
  - intros (ref & rr & Hfol & Hrr & Hself).
    destruct (Hall ref Hfol) as (rr' & Hrr' & Hne & _). congruence.
  - destruct Hgv as (ref & rr & Hfol & Hrr & <-).
    destruct (Hall ref Hfol) as (rr' & Hrr' & _ & Hfree).
    assert (rr' = rr) as -> by congruence. by apply Hfree.
Qed.

(** A walk that returns has met no object that refers to itself. *)
Lemma depwalk_checks (f : ObjF) (action : option DepPrintArgRec) (mode : Z)
    (st st' : State) :
  all_work_nil st -> depwalk f action mode st = Done st' ->
  ~ reaches_self_ref st (flag_set mode WALK_EXPORTS) f.
Proof.
  intros Hnil H (m & Hr & Hself).
  destruct (flag_set mode WALK_BUILD_LIST) eqn:Hm.
  { destruct (depwalk_collects f action mode st st' Hnil Hm H) as (l & _ & _ & _ & Hdep & Hclean).
    apply (Hclean m); [by apply Hdep|done]. }
  unfold depwalk in H. apply bind_Done in H as (o & Ho & H). apply get_obj_Done in Ho.
  apply bind_Done in H as (u & _ & H). apply bind_Done in H as (u' & _ & H).
  rewrite Hm in H. set (sta := set_depwalk action mode st) in H.
  apply bind_Done in H as (stb & Hup & H). apply upd_work_Done in Hup as (Gb & Wb & Eb & Lb & _).
  apply bind_Done in H as (stc & Hrec & _).
  assert (Hbb : BUILD_LIST stb = false).
  { rewrite (same_walk_BUILD_LIST _ _ Wb). exact Hm. }
  assert (Hdb : DO_EXPORTS stb = flag_set mode WALK_EXPORTS).
  { rewrite (same_walk_DO_EXPORTS _ _ Wb). done. }
  assert (Hmb : forall g, marked stb g <-> g = f).
  { intros g. rewrite (marked_insert (works sta) stb f WBusy g Eb)
      by (unfold works; by rewrite length_fmap).
    split; [intros [[-> _]|[_ (v & Hv & Hvn)]]; [done|]|intros ->; by left].
    change (works sta) with (works st) in Hv. unfold works in Hv.
    rewrite list_lookup_fmap in Hv. destruct (objs st !! g) as [og|] eqn:Eg; [|done].
    simpl in Hv. injection Hv as <-. by rewrite (Hnil g og Eg) in Hvn. }
  assert (Gab : same_graph st stb) by (eapply same_graph_trans; [|exact Gb]; done).
  apply (depwalk_rec_checks _ f 0 stb stc Hbb (proj2 (Hmb f) eq_refl) Hrec m).
  - clear Hself. revert m Hr. apply (rtc_ind_r (fun m => rtc (free_step stb) f m)).
    + constructor.
    + intros y z _ Hyz IH. destruct (decide (z = f)) as [->|Hne]; [constructor|].
      apply rtc_r with y; [done|]. split; [|by rewrite Hmb].
      rewrite Hdb. by apply (deps_of_same st).
  - rewrite Hdb. by apply (deps_of_same st).
Qed.

Lemma followed_valid (st : State) (m : bool) (f : ObjF) (ref : Xref) :
  walk_ok st -> followed st m f ref -> exists rr, get_xref ref st = Done rr.
Proof.
  intros (_ & H2 & H3) (o & e & s & Ho & He & Hs & Hc). destruct m.
  - destruct (H2 _ _ Hs) as (l & Hl & _ & Hv).
    destruct (Hv ref) as (rb & ? & _); [|eauto].
    by apply (chain_reach_in_chain st l (importedFrom s)).
  - destruct (H3 _ _ _ Hs Hc) as (rb & ? & _). eauto.
Qed.

(** C10, as the code has it.  In a state that passes [main]'s test of the
    object pointers, for every start object, action and mode:
    - if no object exports a symbol of which it holds a linked import, and
      no object is the first exporter of a symbol it imports, the assertion
      [ref->obj != f] of [depwalk_rec] does not fire, and (the pointers of
      the graph being good and the work slots clear) the walk returns;
    - if the object the walk starts from breaks the half of that condition
      its mode follows (exports mode: it holds a linked import of a symbol it
      exports; imports mode: it is the first exporter of a symbol it
      imports), the walk aborts on that assertion;
    - more generally, with the pointers of the graph good and the work slots
      clear, the walk aborts on that assertion if the start object or an
      object the walk reaches from it (along the references its mode
      follows, in any number of steps) breaks that half of the condition,
      and it returns if none of them does. *)
Theorem depwalk_self_ref_assertion (f : ObjF) (action : option DepPrintArgRec) (mode : Z)
    (st : State) :
  checkObjPtrs st = 0 ->
  (no_self_ref st ->
     depwalk f action mode st <> Fail (AssertFailed A_self_ref) /\
     (wf_walk st = true -> all_work_nil st -> BUILD_LIST st = false ->
      (f < length (objs st))%nat ->
      exists st', depwalk f action mode st = Done st'))
  /\ (wf_walk st = true -> all_work_nil st -> BUILD_LIST st = false ->
      (exists ref, followed st (flag_set mode WALK_EXPORTS) f ref /\ xr_obj ref = f) ->
      depwalk f action mode st = Fail (AssertFailed A_self_ref))
  /\ (wf_walk st = true -> all_work_nil st -> BUILD_LIST st = false ->
      (f < length (objs st))%nat ->
      ((exists m ref, rtc (deps_of st (flag_set mode WALK_EXPORTS)) f m /\
                      followed st (flag_set mode WALK_EXPORTS) m ref /\ xr_obj ref = m) ->
       depwalk f action mode st = Fail (AssertFailed A_self_ref)) /\
      ((forall m ref, rtc (deps_of st (flag_set mode WALK_EXPORTS)) f m ->
                      followed st (flag_set mode WALK_EXPORTS) m ref -> xr_obj ref <> m) ->
       exists st', depwalk f action mode st = Done st')).
Proof.
  intros Hptr. destruct (depwalk_self_ref_start f action mode st Hptr) as [H1 H2].
  split; [done|]. split; [done|]. apply checkObjPtrs_0 in Hptr.
  intros Hwf Hnil Hb Hf.
  pose proof (depwalk_ends f action mode st Hwf Hnil Hb Hf) as Hends. split.
  - intros (m & ref & Hr & Hfol & Hself).
    destruct Hends as [[st' Hd]|Hfail]; [|done]. exfalso.
    apply (depwalk_checks f action mode st st' Hnil Hd). exists m. split; [done|].
    destruct (followed_valid st _ m ref (wf_walk_ok _ Hwf) Hfol) as (rr & Hrr).
    exists ref, rr. split; [done|]. split; [done|]. by rewrite (Hptr ref rr Hrr).
  - intros Hclean. destruct Hends as [?|Hfail]; [done|]. exfalso.
    apply depwalk_fails in Hfail as (m & Hr & ref & rr & Hfol & Hrr & Hself).
    apply (Hclean m ref Hr Hfol). by rewrite <- (Hptr ref rr Hrr).
Qed.

(** Walks over the exports: in [cycle_state] no object refers to itself;
    in [selfref_state] [x.o] does, and it is met from [a.o]. *)
Lemma depwalk_self_ref_assertion_witness :
  (depwalk 1%nat (Some print_arg) WALK_EXPORTS cycle_state <> Fail (AssertFailed A_self_ref)
   /\ exists st', depwalk 1%nat (Some print_arg) WALK_EXPORTS cycle_state = Done st')
  /\ depwalk 2%nat None WALK_EXPORTS selfref_state = Fail (AssertFailed A_self_ref)
  /\ depwalk 1%nat None WALK_EXPORTS selfref_state = Fail (AssertFailed A_self_ref)
  /\ exists st', depwalk 2%nat (Some print_arg) WALK_EXPORTS cycle_state = Done st'.
Proof.
  assert (Hnil : forall st, Forall (fun o => work o = WNull) (objs st) -> all_work_nil st)
    by apply all_work_nil_Forall.
  assert (Hx : followed selfref_state true 2%nat (mkXref Imports 2%nat 0%nat)).
  { eexists _, _, _. split; [vm_compute; reflexivity|].
    split; [vm_compute; left|].
    split; [vm_compute; reflexivity|]. vm_compute. constructor. }
  split; [|split; [|split]].
  - destruct (depwalk_self_ref_assertion 1%nat (Some print_arg) WALK_EXPORTS cycle_state)
      as [H _]; [vm_compute; reflexivity|].
    destruct H as [H1 H2]; [apply self_ref_free_ok; vm_compute; reflexivity|].
    split; [exact H1|]. apply H2.
    + vm_compute; reflexivity.
    + apply Hnil. vm_compute. repeat constructor.
    + vm_compute; reflexivity.
    + vm_compute. lia.
  - destruct (depwalk_self_ref_assertion 2%nat None WALK_EXPORTS selfref_state)
      as (_ & H & _); [vm_compute; reflexivity|].
    apply H.
    + vm_compute; reflexivity.
    + apply Hnil. vm_compute. repeat constructor.
    + vm_compute; reflexivity.
    + exists (mkXref Imports 2%nat 0%nat). split; [exact Hx|reflexivity].
  - destruct (depwalk_self_ref_assertion 1%nat None WALK_EXPORTS selfref_state)
      as (_ & _ & H); [vm_compute; reflexivity|].
    destruct H as [H _].
    + vm_compute; reflexivity.
    + apply Hnil. vm_compute. repeat constructor.
    + vm_compute; reflexivity.
    + vm_compute. lia.
    + apply H. exists 2%nat, (mkXref Imports 2%nat 0%nat).
      split; [|split; [exact Hx|reflexivity]].
      apply rtc_once. exists (mkXref Imports 2%nat 0%nat).
      eexists. split; [|split; [vm_compute; reflexivity|reflexivity]].
      eexists _, _, _. split; [vm_compute; reflexivity|].
      split; [vm_compute; left|].
      split; [vm_compute; reflexivity|]. vm_compute. constructor.
  - destruct (depwalk_self_ref_assertion 2%nat (Some print_arg) WALK_EXPORTS cycle_state)
      as (_ & _ & H); [vm_compute; reflexivity|].
    destruct H as [_ H].
    + vm_compute; reflexivity.
    + apply Hnil. vm_compute. repeat constructor.
    + vm_compute; reflexivity.
    + vm_compute. lia.
    + apply H. intros m ref _ Hfol.
      assert (Hfree : no_self_ref cycle_state)
        by (apply self_ref_free_ok; vm_compute; reflexivity).
      by apply (Hfree (flag_set WALK_EXPORTS WALK_EXPORTS) m ref).
Defined.

(** ** The link sets after the linking loop of main *)



